(** * File-driven orchestrator: a shallow embedding of its selection,
      state and protected-zone logic

    The development follows the Python sources:
    - [app/executor/runloop.py]      (module [Runloop])
    - [app/orchestrator/workflow.py] (module [Workflow])
    - [app/orchestrator/state.py]    (module [State])
    - [orchestrator.py]              (module [Orchestrator])
    with a prelude of Python operations (module [Py]) and a JSON codec
    for the worked examples (module [Json]).

    Python values are embedded as follows.  A [str] is a Rocq [string]
    (one character per code point below 256, ordered by code point, which
    is the order Python uses).  JSON-shaped objects are terms of [value];
    a [dict] with string keys is an association list in insertion order
    with unique keys.  JSON numbers are integers: a document holding a
    fractional number is outside this embedding.  A call that can raise
    returns a [result]. *)

From Stdlib Require Import ZArith Ascii String List Sorted Permutation Bool Lia DecimalString.
From stdpp Require Import base tactics option list strings gmap sets sorting.

Set Warnings "-register-all".

Local Open Scope string_scope.
Local Open Scope list_scope.

(** ** Python prelude *)

Module Py.

(** Exceptions the modelled code can meet. *)
Inductive exn :=
| KeyError | TypeError | AttributeError
| JSONDecodeError | UnicodeDecodeError
| OSError | PermissionError | FileNotFoundError
| ImportError.

(** [PermissionError] and [FileNotFoundError] are subclasses of
    [OSError]; the other classes above are not. *)
Definition is_OSError (e : exn) : bool :=
  match e with
  | OSError | PermissionError | FileNotFoundError => true
  | _ => false
  end.

Inductive result (A : Type) :=
| Ret (a : A)
| Raise (e : exn).
Arguments Ret {A} a.
Arguments Raise {A} e.

Definition bind {A B} (m : result A) (k : A -> result B) : result B :=
  match m with
  | Ret a => k a
  | Raise e => Raise e
  end.

(** [try: m  except Exception: h] *)
Definition try_except {A} (m : result A) (h : A) : A :=
  match m with
  | Ret a => a
  | Raise _ => h
  end.

Inductive value :=
| VNone
| VBool (b : bool)
| VInt (n : Z)
| VStr (s : string)
| VList (l : list value)
| VDict (d : list (string * value)).

Definition dict := list (string * value).

(** *** Characters and strings *)

Definition backslash : ascii := Eval cbv in ascii_of_nat 92.
Definition slash : ascii := Eval cbv in ascii_of_nat 47.
Definition dquote : ascii := Eval cbv in ascii_of_nat 34.
Definition squote : ascii := Eval cbv in ascii_of_nat 39.

(** [s.replace(a, b)] for one-character [a] and [b]. *)
Fixpoint replace_char (a b : ascii) (s : string) : string :=
  match s with
  | EmptyString => EmptyString
  | String c s' =>
      String (if Ascii.eqb c a then b else c) (replace_char a b s')
  end.

(** [s.startswith(p)] *)
Definition startswith (p s : string) : bool := String.prefix p s.

(** [s[n:]] *)
Fixpoint drop_chars (n : nat) (s : string) : string :=
  match n, s with
  | O, _ => s
  | S _, EmptyString => EmptyString
  | S n', String _ s' => drop_chars n' s'
  end.

Fixpoint rev_string_onto (s acc : string) : string :=
  match s with
  | EmptyString => acc
  | String c s' => rev_string_onto s' (String c acc)
  end.
Definition rev_string (s : string) : string := rev_string_onto s EmptyString.

(** [s.endswith(p)] *)
Definition endswith (p s : string) : bool :=
  String.prefix (rev_string p) (rev_string s).

Definition char_in (c : ascii) (cs : string) : bool :=
  existsb (Ascii.eqb c) (list_ascii_of_string cs).

(** [s.lstrip(cs)]: drops every leading character that occurs in [cs]. *)
Fixpoint lstrip_chars (cs : string) (s : string) : string :=
  match s with
  | EmptyString => EmptyString
  | String c s' => if char_in c cs then lstrip_chars cs s' else s
  end.

(** [s.rstrip(cs)] *)
Definition rstrip_chars (cs : string) (s : string) : string :=
  rev_string (lstrip_chars cs (rev_string s)).

(** [s.split(c)] for a one-character separator: never the empty list. *)
Fixpoint split_char (c : ascii) (s : string) : list string :=
  match s with
  | EmptyString => [EmptyString]
  | String a s' =>
      if Ascii.eqb a c then EmptyString :: split_char c s'
      else match split_char c s' with
           | [] => [String a EmptyString]
           | w :: ws => String a w :: ws
           end
  end.

(** [sub in s] *)
Fixpoint contains (sub s : string) : bool :=
  String.prefix sub s ||
  match s with
  | EmptyString => false
  | String _ s' => contains sub s'
  end.

(** [c.lower()]: the letters A-Z and the capital letters of Latin-1. *)
Definition lower_char (c : ascii) : ascii :=
  let n := nat_of_ascii c in
  if ((65 <=? n)%nat && (n <=? 90)%nat)
     || ((192 <=? n)%nat && (n <=? 222)%nat && negb (n =? 215)%nat)
  then ascii_of_nat (n + 32) else c.

(** [s.lower()] *)
Fixpoint lower (s : string) : string :=
  match s with
  | EmptyString => EmptyString
  | String c s' => String (lower_char c) (lower s')
  end.

(** [c.isspace()] below code point 256. *)
Definition is_space (c : ascii) : bool :=
  let n := nat_of_ascii c in
  ((9 <=? n)%nat && (n <=? 13)%nat) || ((28 <=? n)%nat && (n <=? 32)%nat)
  || (n =? 133)%nat || (n =? 160)%nat.

Fixpoint lstrip (s : string) : string :=
  match s with
  | EmptyString => EmptyString
  | String c s' => if is_space c then lstrip s' else s
  end.

(** [s.strip()] *)
Definition strip (s : string) : string :=
  rev_string (lstrip (rev_string (lstrip s))).

(** The line boundaries of [str.splitlines] below code point 256, the
    carriage return apart. *)
Definition is_linebreak (c : ascii) : bool :=
  let n := nat_of_ascii c in
  (n =? 10)%nat || (n =? 11)%nat || (n =? 12)%nat
  || ((28 <=? n)%nat && (n <=? 30)%nat) || (n =? 133)%nat.

Fixpoint splitlines_from (s : string) (cur : string) : list string :=
  match s with
  | EmptyString =>
      match cur with
      | EmptyString => []
      | _ => [rev_string cur]
      end
  | String c s' =>
      if (nat_of_ascii c =? 13)%nat then
        match s' with
        | String c' s'' =>
            if (nat_of_ascii c' =? 10)%nat
            then rev_string cur :: splitlines_from s'' EmptyString
            else rev_string cur :: splitlines_from s' EmptyString
        | EmptyString => rev_string cur :: splitlines_from s' EmptyString
        end
      else if is_linebreak c then rev_string cur :: splitlines_from s' EmptyString
      else splitlines_from s' (String c cur)
  end.

(** [s.splitlines()] *)
Definition splitlines (s : string) : list string :=
  splitlines_from s EmptyString.

(** [s.split(c, 1)] when [c] occurs in [s]: the text before the first
    [c] and the text after it. *)
Fixpoint split_once (c : ascii) (s : string) : option (string * string) :=
  match s with
  | EmptyString => None
  | String a s' =>
      if Ascii.eqb a c then Some (EmptyString, s')
      else match split_once c s' with
           | Some (k, v) => Some (String a k, v)
           | None => None
           end
  end.

(** [s[1:-1]] *)
Definition strip_ends (s : string) : string :=
  rev_string (drop_chars 1 (rev_string (drop_chars 1 s))).

(** [sep.join(l)] *)
Definition join (sep : string) (l : list string) : string :=
  String.concat sep l.

(** [a < b] on [str]: by code point, a proper prefix first. *)
Definition str_ltb (a b : string) : bool := String.ltb a b.

(** *** Sorting

    [list.sort(key=...)] and [sorted] are stable and use only [<] on the
    keys.  On keys that [<] orders totally the result is the one stable
    sorted arrangement, computed here by insertion from the right. *)
Section Sort.
Context {A : Type} (lt : A -> A -> bool).

Fixpoint insert_sorted (x : A) (l : list A) : list A :=
  match l with
  | [] => [x]
  | y :: l' => if lt y x then y :: insert_sorted x l' else x :: l
  end.

Definition sort_by (l : list A) : list A :=
  fold_right insert_sorted [] l.
End Sort.

(** [sorted(xs)] for a list of [str]. *)
Definition sorted_str (l : list string) : list string := sort_by str_ltb l.

(** [x] may stand before [y] in a list sorted by [lt]: [y < x] does not
    hold. *)
Definition not_after {A : Type} (lt : A -> A -> bool) (x y : A) : Prop :=
  lt y x = false.

(** [a < b] on [str], as a proposition. *)
Definition str_lt (a b : string) : Prop := str_ltb a b = true.

(** *** Dictionaries with string keys *)

(** [d.get(k)] before the default is applied. *)
Fixpoint dict_lookup (k : string) (d : dict) : option value :=
  match d with
  | [] => None
  | (k', v) :: d' => if String.eqb k k' then Some v else dict_lookup k d'
  end.

(** [d.get(k, dflt)] *)
Definition dict_get (k : string) (dflt : value) (d : dict) : value :=
  match dict_lookup k d with
  | Some v => v
  | None => dflt
  end.

(** [k in d] *)
Definition dict_has (k : string) (d : dict) : bool :=
  match dict_lookup k d with
  | Some _ => true
  | None => false
  end.

(** [d[k]] *)
Definition dict_item (k : string) (d : dict) : result value :=
  match dict_lookup k d with
  | Some v => Ret v
  | None => Raise KeyError
  end.

(** [d[k] = v]: an existing key keeps its place, a new one goes last. *)
Fixpoint dict_set (k : string) (v : value) (d : dict) : dict :=
  match d with
  | [] => [(k, v)]
  | (k', v') :: d' =>
      if String.eqb k k' then (k, v) :: d' else (k', v') :: dict_set k v d'
  end.

(** [d.setdefault(k, v)] as a statement. *)
Definition dict_setdefault (k : string) (v : value) (d : dict) : dict :=
  if dict_has k d then d else dict_set k v d.

(** [list(d.keys())] *)
Definition dict_keys (d : dict) : list string := map fst d.

(** *** Dynamic operations *)

(** [hash(v)] succeeds on everything but lists and dicts. *)
Definition hashable (v : value) : bool :=
  match v with
  | VList _ | VDict _ => false
  | _ => true
  end.

(** [a == b] between hashable values: [bool] is a subtype of [int]. *)
Definition key_eqb (a b : value) : bool :=
  match a, b with
  | VNone, VNone => true
  | VStr s, VStr t => String.eqb s t
  | VInt n, VInt m => Z.eqb n m
  | VBool x, VBool y => Bool.eqb x y
  | VBool x, VInt m | VInt m, VBool x => Z.eqb (if x then 1 else 0) m
  | _, _ => false
  end.

(** [a == b] on JSON-shaped values: lists item by item, dicts key by
    key whatever their order, [bool] as a subtype of [int]. *)
Fixpoint py_eq (a b : value) : bool :=
  match a, b with
  | VList l, VList m =>
      (fix items (l m : list value) : bool :=
         match l, m with
         | [], [] => true
         | x :: l', y :: m' => py_eq x y && items l' m'
         | _, _ => false
         end) l m
  | VDict d, VDict e =>
      Nat.eqb (length d) (length e)
      && (fix members (d : list (string * value)) : bool :=
            match d with
            | [] => true
            | (k, x) :: d' =>
                match dict_lookup k e with
                | Some y => py_eq x y
                | None => false
                end && members d'
            end) d
  | VList _, _ | VDict _, _ | _, VList _ | _, VDict _ => false
  | _, _ => key_eqb a b
  end.

(** The number a [bool] or an [int] stands for. *)
Definition number (v : value) : option Z :=
  match v with
  | VInt n => Some n
  | VBool b => Some (if b then 1 else 0)%Z
  | _ => None
  end.

(** [a < b]: two numbers by value, two texts by code point, two lists
    by the first pair of items that are not equal, a list that runs out
    first being the smaller.  [None], a dict and two values of different
    kinds have no order: [TypeError]. *)
Fixpoint py_lt (a b : value) : result bool :=
  match a, b with
  | VList l, VList m =>
      (fix items (l m : list value) : result bool :=
         match l, m with
         | [], [] => Ret false
         | [], _ :: _ => Ret true
         | _ :: _, [] => Ret false
         | x :: l', y :: m' => if py_eq x y then items l' m' else py_lt x y
         end) l m
  | VStr s, VStr t => Ret (str_ltb s t)
  | _, _ =>
      match number a, number b with
      | Some n, Some m => Ret (Z.ltb n m)
      | _, _ => Raise TypeError
      end
  end.

(** [a < b] on two tuples of two items, the way tuples compare: the
    first items decide unless they are equal. *)
Definition pair_lt (a b : value * value) : result bool :=
  if py_eq (fst a) (fst b) then
    if py_eq (snd a) (snd b) then Ret false else py_lt (snd a) (snd b)
  else py_lt (fst a) (fst b).

(** [v == s] for a [str] literal [s]. *)
Definition eq_str (v : value) (s : string) : bool :=
  match v with
  | VStr t => String.eqb t s
  | _ => false
  end.

(** [for x in v]: the items [v] yields, or [TypeError]. *)
Definition iterate (v : value) : result (list value) :=
  match v with
  | VList l => Ret l
  | VStr s => Ret (map (fun c => VStr (String c EmptyString)) (list_ascii_of_string s))
  | VDict d => Ret (map (fun kv => VStr (fst kv)) d)
  | _ => Raise TypeError
  end.

(** [bool(v)] *)
Definition truthy (v : value) : bool :=
  match v with
  | VNone => false
  | VBool b => b
  | VInt n => negb (Z.eqb n 0)
  | VStr s => negb (String.eqb s EmptyString)
  | VList l => match l with [] => false | _ => true end
  | VDict d => match d with [] => false | _ => true end
  end.

End Py.

Import Py.

(** [x ← m; k] runs [m] and passes its value on, or re-raises. *)
#[global] Instance result_ret : MRet result := @Ret.
#[global] Instance result_bind : MBind result := fun A B k m => Py.bind m k.

(** ** A JSON reader and writer

    [Json.loads] and [Json.dumps] stand for [json.loads] and for
    [json.dumps(data, ensure_ascii=False, separators=(",", ":"), indent=2)]
    on the fragment of JSON that [value] covers.  The functions of the
    other modules take the codec as a parameter; this one instantiates
    them on concrete files. *)

Module Json.

Definition is_ws (c : ascii) : bool :=
  let n := nat_of_ascii c in
  (n =? 32)%nat || (n =? 9)%nat || (n =? 10)%nat || (n =? 13)%nat.

Fixpoint skip_ws (s : string) : string :=
  match s with
  | String c s' => if is_ws c then skip_ws s' else s
  | EmptyString => s
  end.

Definition digit_of (c : ascii) : option Z :=
  let n := nat_of_ascii c in
  if (48 <=? n)%nat && (n <=? 57)%nat then Some (Z.of_nat (n - 48)) else None.

Definition hex_of (c : ascii) : option nat :=
  let n := nat_of_ascii c in
  if (48 <=? n)%nat && (n <=? 57)%nat then Some (n - 48)%nat
  else if (97 <=? n)%nat && (n <=? 102)%nat then Some (n - 87)%nat
  else if (65 <=? n)%nat && (n <=? 70)%nat then Some (n - 55)%nat
  else None.

(** The digits at the head of [s], read onto [acc]. *)
Fixpoint read_digits (s : string) (acc : Z) : Z * string :=
  match s with
  | String c s' =>
      match digit_of c with
      | Some d => read_digits s' (10 * acc + d)%Z
      | None => (acc, s)
      end
  | EmptyString => (acc, s)
  end.

Definition starts_fraction (s : string) : bool :=
  match s with
  | String c _ => char_in c ".eE"
  | EmptyString => false
  end.

(** An integer literal: no leading zero, no fraction, no exponent. *)
Definition read_nat_literal (s : string) : option (Z * string) :=
  match s with
  | String c s' =>
      match digit_of c with
      | Some 0%Z =>
          match s' with
          | String c' _ =>
              if (match digit_of c' with Some _ => true | None => false end)
                 || starts_fraction s' then None else Some (0%Z, s')
          | EmptyString => Some (0%Z, s')
          end
      | Some d =>
          let '(n, rest) := read_digits s' d in
          if starts_fraction rest then None else Some (n, rest)
      | None => None
      end
  | EmptyString => None
  end.

(** The text of a string literal after its opening quote. *)
Fixpoint read_string (s : string) (acc : string) : option (string * string) :=
  match s with
  | EmptyString => None
  | String c s' =>
      if Ascii.eqb c dquote then Some (rev_string acc, s')
      else if Ascii.eqb c backslash then
        match s' with
        | String e s'' =>
            let plain (x : nat) := read_string s'' (String (ascii_of_nat x) acc) in
            if char_in e "u" then
              match s'' with
              | String h1 (String h2 (String h3 (String h4 s4))) =>
                  match hex_of h1, hex_of h2, hex_of h3, hex_of h4 with
                  | Some 0%nat, Some 0%nat, Some a, Some b =>
                      read_string s4 (String (ascii_of_nat (16 * a + b)) acc)
                  | _, _, _, _ => None
                  end
              | _ => None
              end
            else if Ascii.eqb e dquote then plain 34%nat
            else if Ascii.eqb e backslash then plain 92%nat
            else if Ascii.eqb e slash then plain 47%nat
            else if char_in e "b" then plain 8%nat
            else if char_in e "f" then plain 12%nat
            else if char_in e "n" then plain 10%nat
            else if char_in e "r" then plain 13%nat
            else if char_in e "t" then plain 9%nat
            else None
        | EmptyString => None
        end
      else if (nat_of_ascii c <? 32)%nat then None
      else read_string s' (String c acc)
  end.

Fixpoint read_value (fuel : nat) (s : string) : option (value * string) :=
  match fuel with
  | O => None
  | S fuel' =>
      let s := skip_ws s in
      if startswith "null" s then Some (VNone, drop_chars 4 s)
      else if startswith "true" s then Some (VBool true, drop_chars 4 s)
      else if startswith "false" s then Some (VBool false, drop_chars 5 s)
      else match s with
           | EmptyString => None
           | String c s' =>
               if Ascii.eqb c dquote then
                 match read_string s' EmptyString with
                 | Some (t, rest) => Some (VStr t, rest)
                 | None => None
                 end
               else if char_in c "[" then
                 match skip_ws s' with
                 | String c' rest =>
                     if char_in c' "]" then Some (VList [], rest)
                     else read_items fuel' s' []
                 | EmptyString => None
                 end
               else if char_in c "{" then
                 match skip_ws s' with
                 | String c' rest =>
                     if char_in c' "}" then Some (VDict [], rest)
                     else read_members fuel' s' []
                 | EmptyString => None
                 end
               else if char_in c "-" then
                 match read_nat_literal s' with
                 | Some (n, rest) => Some (VInt (- n), rest)
                 | None => None
                 end
               else
                 match read_nat_literal s with
                 | Some (n, rest) => Some (VInt n, rest)
                 | None => None
                 end
           end
  end
with read_items (fuel : nat) (s : string) (acc : list value)
    : option (value * string) :=
  match fuel with
  | O => None
  | S fuel' =>
      match read_value fuel' s with
      | Some (v, rest) =>
          match skip_ws rest with
          | String c rest' =>
              if char_in c "," then read_items fuel' rest' (acc ++ [v])
              else if char_in c "]" then Some (VList (acc ++ [v]), rest')
              else None
          | EmptyString => None
          end
      | None => None
      end
  end
with read_members (fuel : nat) (s : string) (acc : dict)
    : option (value * string) :=
  match fuel with
  | O => None
  | S fuel' =>
      match skip_ws s with
      | String q s1 =>
          if Ascii.eqb q dquote then
            match read_string s1 EmptyString with
            | Some (k, s2) =>
                match skip_ws s2 with
                | String c s3 =>
                    if char_in c ":" then
                      match read_value fuel' s3 with
                      | Some (v, rest) =>
                          match skip_ws rest with
                          | String c' rest' =>
                              if char_in c' ","
                              then read_members fuel' rest' (dict_set k v acc)
                              else if char_in c' "}"
                              then Some (VDict (dict_set k v acc), rest')
                              else None
                          | EmptyString => None
                          end
                      | None => None
                      end
                    else None
                | EmptyString => None
                end
            | None => None
            end
          else None
      | EmptyString => None
      end
  end.

Definition loads (s : string) : result value :=
  match read_value (2 * String.length s + 2) s with
  | Some (v, rest) =>
      match skip_ws rest with
      | EmptyString => Ret v
      | _ => Raise JSONDecodeError
      end
  | None => Raise JSONDecodeError
  end.

Definition hex_digit (n : nat) : ascii :=
  ascii_of_nat (if (n <? 10)%nat then 48 + n else 87 + n).

Definition escape_char (c : ascii) : string :=
  let n := nat_of_ascii c in
  if (n =? 34)%nat then String backslash (String dquote EmptyString)
  else if (n =? 92)%nat then String backslash (String backslash EmptyString)
  else if (n =? 10)%nat then String backslash "n"
  else if (n =? 13)%nat then String backslash "r"
  else if (n =? 9)%nat then String backslash "t"
  else if (n =? 8)%nat then String backslash "b"
  else if (n =? 12)%nat then String backslash "f"
  else if (n <? 32)%nat
  then String backslash
         ("u00" +:+ String (hex_digit (n / 16)) (String (hex_digit (n mod 16)) EmptyString))
  else String c EmptyString.

Fixpoint escape (s : string) : string :=
  match s with
  | EmptyString => EmptyString
  | String c s' => escape_char c +:+ escape s'
  end.

Definition quote (s : string) : string :=
  String dquote (escape s +:+ String dquote EmptyString).

Definition newline : string := String (ascii_of_nat 10) EmptyString.

Fixpoint spaces (n : nat) : string :=
  match n with
  | O => EmptyString
  | S n' => String (ascii_of_nat 32) (spaces n')
  end.

Definition newline_indent (level : nat) : string :=
  newline +:+ spaces (2 * level).

Definition decimal (n : Z) : string :=
  DecimalString.NilZero.string_of_int (Z.to_int n).

Fixpoint dumps_at (level : nat) (v : value) : string :=
  match v with
  | VNone => "null"
  | VBool true => "true"
  | VBool false => "false"
  | VInt n => decimal n
  | VStr s => quote s
  | VList [] => "[]"
  | VList l =>
      "[" +:+ newline_indent (S level)
      +:+ join ("," +:+ newline_indent (S level)) (map (dumps_at (S level)) l)
      +:+ newline_indent level +:+ "]"
  | VDict [] => "{}"
  | VDict d =>
      "{" +:+ newline_indent (S level)
      +:+ join ("," +:+ newline_indent (S level))
            (map (fun kv => match kv with
                            | (k, x) => quote k +:+ ":" +:+ dumps_at (S level) x
                            end) d)
      +:+ newline_indent level +:+ "}"
  end.

Definition dumps (v : value) : string := dumps_at 0 v.

End Json.

(** ** [app/executor/runloop.py] *)

Module Runloop.

(** The body of the loop in [_normalize_paths]. *)
Definition normalize_path (p : string) : string :=
  let p := replace_char backslash slash p in
  if startswith "./" p then drop_chars 2 p else p.

(** [for p in paths or []]: [None] and the empty list are both falsy. *)
Definition or_empty (paths : option (list string)) : list string :=
  match paths with
  | Some l => l
  | None => []
  end.

Definition _normalize_paths (paths : option (list string)) : list string :=
  map normalize_path (or_empty paths).

Definition _check_protected_conflicts
    (allowed_paths protected_paths : option (list string)) : list string :=
  let allowed : gset string := list_to_set (_normalize_paths allowed_paths) in
  let protected : gset string := list_to_set (_normalize_paths protected_paths) in
  sorted_str (elements (allowed ∩ protected)).





Inductive classification :=
| blocked_needs_override
| environment_mismatch.

Record preflight := {
  ok : bool;
  import_ok : bool;
  conflicts : list string;
  classification_ : option classification;
  issues : list string;
  run_commands : list string;
  env_vars_available : list string;
}.

(** [_can_import_app(root)] drives the interpreter's import machinery;
    its answer [(import_ok, err)] is an input of [preflight_checks]. *)
Definition import_probe : Type := bool * string.

Definition preflight_checks
    (can_import_app : import_probe)
    (allowed_paths protected_paths : option (list string))
    (run_commands env_vars_available : option (list string)) : preflight :=
  let '(import_ok, err) := can_import_app in
  let issues := if import_ok then [] else ["Import check failed: " +:+ err] in
  let conflicts :=
    _check_protected_conflicts (Some (or_empty allowed_paths))
                               (Some (or_empty protected_paths)) in
  let issues :=
    match conflicts with
    | [] => issues
    | _ => issues ++ ["Allowed paths intersect Protected Zone: " +:+ join ", " conflicts]
    end in
  let classification :=
    match conflicts with
    | _ :: _ => Some blocked_needs_override
    | [] => if import_ok then None else Some environment_mismatch
    end in
  {| ok := match classification with None => true | Some _ => false end;
     import_ok := import_ok;
     conflicts := conflicts;
     classification_ := classification;
     issues := issues;
     run_commands := or_empty run_commands;
     env_vars_available := or_empty env_vars_available |}.

End Runloop.

(** ** [app/orchestrator/workflow.py] *)

Module Workflow.

Definition BACKLOG_DIR : string := "backlog".
Definition VALID_STATUSES : list string :=
  ["ready"; "in_progress"; "done"; "blocked"].

Section Loader.
(** [json.loads] *)
Variable json_loads : string -> result value.

Definition quoted_with (q : ascii) (raw : string) : bool :=
  startswith (String q EmptyString) raw && endswith (String q EmptyString) raw.

(** The body of the loop of the flat [key: value] parser. *)
Definition flat_line (data : dict) (line : string) : dict :=
  let line := strip line in
  if String.eqb line EmptyString || startswith "#" line then data
  else match split_once ":" line with
       | None => data
       | Some (k, v) =>
           let key := strip k in
           let raw := strip v in
           let val :=
             try_except (json_loads raw)
               (if quoted_with dquote raw || quoted_with squote raw
                then VStr (strip_ends raw) else VStr raw) in
           dict_set key val data
       end.

(** [_load_any(fp)], from the outcome of reading [fp] as UTF-8 text. *)
Definition _load_any (read : result string) : result value :=
  text ← read;
  let stripped := strip text in
  if startswith "{" stripped || startswith "[" stripped
  then json_loads stripped
  else Ret (VDict (fold_left flat_line (splitlines text) [])).
End Loader.

(** [x in VALID_STATUSES]: membership in a set hashes [x] first. *)
Definition in_valid_statuses (x : value) : result bool :=
  match x with
  | VStr s => Ret (existsb (String.eqb s) VALID_STATUSES)
  | VList _ | VDict _ => Raise TypeError
  | _ => Ret false
  end.

(** ["id" in story] *)
Definition has_member (k : string) (story : value) : result bool :=
  match story with
  | VDict d => Ret (dict_has k d)
  | VList l => Ret (existsb (fun x => eq_str x k) l)
  | VStr s => Ret (contains k s)
  | _ => Raise TypeError
  end.

(** The part of the loop of [discover_backlog] after the load: [None]
    stands for [continue], [Some story] for [out.append(story)]. *)
Definition normalize_entry (story : value) : result (option dict) :=
  if negb (truthy story) then Ret None
  else
    has_id ← has_member "id" story;
    if negb (has_id : bool) then Ret None
    else match story with
         | VDict d =>
             valid ← in_valid_statuses (dict_get "status" VNone d);
             let d := if (valid : bool) then d else dict_set "status" (VStr "ready") d in
             let d := dict_setdefault "dependencies" (VList []) d in
             let d := dict_setdefault "priority" (VInt 999) d in
             Ret (Some d)
         | _ => Raise AttributeError
         end.

Definition story_suffixes : list string := [".json"; ".yml"; ".yaml"].

Definition is_story_file (name : string) : bool :=
  existsb (fun suf => endswith suf (lower name)) story_suffixes.

(** The key of [out.sort]: [(s.get("priority", 999), s.get("title", ""))]. *)
Definition sort_key (s : dict) : value * value :=
  (dict_get "priority" (VInt 999) s, dict_get "title" (VStr "") s).

(** A key made of a number and a text, the shape the data model gives
    to priority and title ([bool] counts as [int]). *)
Definition typed_key (k : value * value) : option (Z * string) :=
  match k with
  | (VInt n, VStr t) => Some (n, t)
  | (VBool b, VStr t) => Some (if b then 1 else 0, t)%Z
  | _ => None
  end.

(** [a < b] on tuples [(int, str)]. *)
Definition key_ltb (a b : Z * string) : bool :=
  if Z.eqb (fst a) (fst b) then str_ltb (snd a) (snd b)
  else Z.ltb (fst a) (fst b).

(** [key(a) < key(b)] when [<] gives an answer. *)
Definition story_ltb (a b : dict) : bool :=
  match pair_lt (sort_key a) (sort_key b) with
  | Ret c => c
  | Raise _ => false
  end.

(** The keys of [a] and [b] can be compared, whichever comes first. *)
Definition comparable (a b : dict) : bool :=
  match pair_lt (sort_key a) (sort_key b), pair_lt (sort_key b) (sort_key a) with
  | Ret _, Ret _ => true
  | _, _ => false
  end.

Fixpoint all_comparable (out : list dict) : bool :=
  match out with
  | [] => true
  | s :: rest => forallb (comparable s) rest && all_comparable rest
  end.

(** [out.sort(key=...)].  The sort computes every key first and then
    compares keys with [<] alone.  It is stable, and [<] is a total
    preorder on keys that can all be compared with one another, so the
    outcome is the one stable sorted arrangement, computed here by
    insertion; when two of the keys cannot be compared, no arrangement
    can be reached without comparing them, and the [TypeError] of that
    comparison comes out of the sort. *)
Definition sort_stories (out : list dict) : result (list dict) :=
  if all_comparable out then Ret (sort_by story_ltb out) else Raise TypeError.

Section Discover.
Variable json_loads : string -> result value.

(** The files of a directory: the names in the order [os.listdir] gives
    them, each with the outcome of reading it as UTF-8 text. *)
Definition directory : Type := list (string * result string).

(** The outcome of [os.listdir(bdir)]: the files, or the error it
    raises, on a directory that may not be read for one. *)
Definition listing : Type := result directory.

Fixpoint scan (entries : directory) (out : list dict) : result (list dict) :=
  match entries with
  | [] => Ret out
  | (name, read) :: rest =>
      if negb (is_story_file name) then scan rest out
      else match _load_any json_loads read with
           | Raise _ => scan rest out
           | Ret story =>
               r ← normalize_entry story;
               match r with
               | None => scan rest out
               | Some d => scan rest (out ++ [d])
               end
           end
  end.

(** [discover_backlog(root)]: [bdir] is [None] when
    [<root>/backlog] is not a directory, and the outcome of listing it
    otherwise. *)
Definition discover_backlog (bdir : option listing) : result (list dict) :=
  match bdir with
  | None => Ret []
  | Some names =>
      entries ← names;
      out ← scan entries [];
      sort_stories out
  end.
End Discover.

(** The status index of [pick_next]: a [dict] keyed by story ids. *)
Definition index : Type := list (value * value).

Fixpoint index_lookup (k : value) (idx : index) : option value :=
  match idx with
  | [] => None
  | (k', v) :: idx' => if key_eqb k k' then Some v else index_lookup k idx'
  end.

Fixpoint index_set (k v : value) (idx : index) : index :=
  match idx with
  | [] => [(k, v)]
  | (k', v') :: idx' =>
      if key_eqb k k' then (k', v) :: idx' else (k', v') :: index_set k v idx'
  end.

(** [status_index.get(dep)] *)
Definition index_get (dep : value) (idx : index) : result value :=
  if hashable dep
  then Ret (match index_lookup dep idx with Some v => v | None => VNone end)
  else Raise TypeError.

(** [{s["id"]: s.get("status", "ready") for s in stories}] *)
Fixpoint status_index_from (stories : list dict) (idx : index) : result index :=
  match stories with
  | [] => Ret idx
  | s :: rest =>
      k ← dict_item "id" s;
      if hashable k
      then status_index_from rest
             (index_set k (dict_get "status" (VStr "ready") s) idx)
      else Raise TypeError
  end.

Definition status_index (stories : list dict) : result index :=
  status_index_from stories [].

Fixpoint all_done (deps : list value) (idx : index) : result bool :=
  match deps with
  | [] => Ret true
  | dep :: rest =>
      st ← index_get dep idx;
      if negb (eq_str st "done") then Ret false else all_done rest idx
  end.

Definition _deps_satisfied (story : dict) (idx : index) : result bool :=
  deps ← iterate (dict_get "dependencies" (VList []) story);
  all_done deps idx.

(** The condition of the comprehension that builds [candidates]. *)
Definition is_candidate (idx : index) (s : dict) : result bool :=
  if eq_str (dict_get "status" VNone s) "ready"
  then _deps_satisfied s idx
  else Ret false.

Fixpoint filter_stories (idx : index) (stories : list dict) : result (list dict) :=
  match stories with
  | [] => Ret []
  | s :: rest =>
      c ← is_candidate idx s;
      tl ← filter_stories idx rest;
      Ret (if (c : bool) then s :: tl else tl)
  end.

Definition pick_next (stories : list dict) : result (option dict) :=
  match stories with
  | [] => Ret None
  | _ =>
      idx ← status_index stories;
      candidates ← filter_stories idx stories;
      Ret (head candidates)
  end.

(** *** The vocabulary of discovery

    What the normalization makes of a parsed entry [d]: the status is
    kept when it is one of the four valid ones and is [ready] otherwise,
    dependencies and priority get their defaults when missing, and no
    other field changes. *)
Definition normalized_from (d s : dict) : Prop :=
  dict_lookup "status" s =
    Some (match dict_lookup "status" d with
          | Some (VStr st) =>
              if existsb (String.eqb st) VALID_STATUSES then VStr st else VStr "ready"
          | _ => VStr "ready"
          end)
  /\ dict_lookup "dependencies" s =
       Some (match dict_lookup "dependencies" d with Some v => v | None => VList [] end)
  /\ dict_lookup "priority" s =
       Some (match dict_lookup "priority" d with Some v => v | None => VInt 999 end)
  /\ forall k, k <> "status" -> k <> "dependencies" -> k <> "priority" ->
       dict_lookup k s = dict_lookup k d.

(** The entries that make it into the output: files with a story suffix
    that load as an object with an [id] field. *)
Definition kept (json_loads : string -> result value)
    (entry : string * result string) : option dict :=
  if is_story_file (fst entry) then
    match _load_any json_loads (snd entry) with
    | Ret (VDict d) => if dict_has "id" d then Some d else None
    | _ => None
    end
  else None.

(** Priority ascending, then title ascending. *)
Definition key_le (a b : Z * string) : Prop :=
  (fst a < fst b)%Z \/ (fst a = fst b /\ (snd a = snd b \/ str_lt (snd a) (snd b))).

(** The stories whose sort key is a number and a text. *)
Definition typed_story (s : dict) : Prop :=
  is_Some (typed_key (sort_key s)).

Definition backlog_le (a b : dict) : Prop :=
  match typed_key (sort_key a), typed_key (sort_key b) with
  | Some ka, Some kb => key_le ka kb
  | _, _ => False
  end.

(** The order of the backlog in the words of the specification:
    priority ascending, then title ascending.  The priority and the title
    are read off the story itself, a story without a priority standing at
    the default 999 and a story without a title at the empty title;
    nothing here goes through [sort_key] or [sort_stories]. *)
Definition priority_of (s : dict) : value :=
  match dict_lookup "priority" s with
  | Some p => p
  | None => VInt 999
  end.

Definition title_of (s : dict) : value :=
  match dict_lookup "title" s with
  | Some t => t
  | None => VStr ""
  end.

(** [a] sorts strictly before [b]: its priority is smaller, or the
    priorities are equal and its title is smaller. *)
Definition sorts_before (a b : dict) : Prop :=
  py_lt (priority_of a) (priority_of b) = Ret true
  \/ (py_eq (priority_of a) (priority_of b) = true
      /\ py_lt (title_of a) (title_of b) = Ret true).

(** The priority and the title of a story of the data model: a number
    and a text. *)
Definition priority_and_title (s : dict) : option (Z * string) :=
  match number (priority_of s), title_of s with
  | Some n, VStr t => Some (n, t)
  | _, _ => None
  end.

(** [a] sorts no later than [b], for two stories of the data model. *)
Definition in_backlog_order (a b : dict) : Prop :=
  match priority_and_title a, priority_and_title b with
  | Some ka, Some kb => key_le ka kb
  | _, _ => False
  end.

(** An entry on which discovery cannot raise: if it is a story file that
    loads, it loads as an object, and if that has an [id] its status can
    be hashed and its priority and title are a number and a text. *)
Definition entry_typed (json_loads : string -> result value)
    (entry : string * result string) : Prop :=
  is_story_file (fst entry) = true ->
  forall v, _load_any json_loads (snd entry) = Ret v ->
    exists d, v = VDict d
      /\ (dict_has "id" d = true ->
          hashable (dict_get "status" VNone d) = true
          /\ is_Some (priority_and_title d)).

(** The files [discover_backlog] goes through: none when the backlog is
    not a directory or cannot be listed. *)
Definition entries_of (bdir : option listing) : directory :=
  match bdir with
  | Some (Ret entries) => entries
  | _ => []
  end.

(** Three files of the test suite: a flat file with an unknown status, a
    file without [id], and a file that does not parse. *)
Definition flat_weird : string :=
  join Json.newline
    [ "id: " +:+ Json.quote "Y1";
      "title: " +:+ Json.quote "Yaml Story";
      "priority: 3";
      "status: weird";
      "dependencies: []";
      "" ].
Definition file_without_id : string :=
  Json.dumps (VDict [("title", VStr "NoID"); ("priority", VInt 1); ("status", VStr "ready")]).
Definition file_broken : string := "{ broken".

(** *** The vocabulary of the selection rule

    A story is eligible when its status is [ready] and the index gives
    [done] for every one of its dependencies; a dependency the index does
    not hold is not [done]. *)
Definition eligible (idx : index) (s : dict) : Prop :=
  dict_lookup "status" s = Some (VStr "ready")
  /\ exists deps, iterate (dict_get "dependencies" (VList []) s) = Ret deps
       /\ Forall (fun dep => index_lookup dep idx = Some (VStr "done")) deps.

(** [r] is the first eligible story of the list, or none if there is none. *)
Definition first_eligible (idx : index) (stories : list dict) (r : option dict) : Prop :=
  match r with
  | Some s =>
      exists before after, stories = before ++ s :: after
        /\ eligible idx s /\ Forall (fun t => ~ eligible idx t) before
  | None => Forall (fun t => ~ eligible idx t) stories
  end.

(** A story [pick_next] can handle: a hashable id, and dependencies that
    can be iterated and looked up. *)
Definition well_formed (s : dict) : Prop :=
  (exists k, dict_lookup "id" s = Some k /\ hashable k = true)
  /\ exists deps, iterate (dict_get "dependencies" (VList []) s) = Ret deps
       /\ Forall (fun dep => hashable dep = true) deps.

(** The canonical backlog order, the one [discover_backlog] leaves its
    output in: every story sorts no later than those after it. *)
Definition backlog_sorted (stories : list dict) : Prop :=
  StronglySorted backlog_le stories.

(** The stories of the worked example, as the test suite writes them. *)
Definition story_A : dict :=
  [ ("id", VStr "A"); ("title", VStr "A"); ("priority", VInt 2);
    ("status", VStr "ready"); ("dependencies", VList []) ].
Definition story_B : dict :=
  [ ("id", VStr "B"); ("title", VStr "B"); ("priority", VInt 1);
    ("status", VStr "ready"); ("dependencies", VList [VStr "A"]) ].
Definition story_C : dict :=
  [ ("id", VStr "C"); ("title", VStr "C"); ("priority", VInt 1);
    ("status", VStr "blocked"); ("dependencies", VList []) ].

(** [s["status"] = "done"] on the story whose id is [sid]. *)
Definition mark_done (sid : string) (stories : list dict) : list dict :=
  map (fun s => if eq_str (dict_get "id" VNone s) sid
                then dict_set "status" (VStr "done") s else s) stories.

(** The backlog directory of the example: each file holds the JSON text
    of its story. *)
Definition example_files : directory :=
  [ ("a.json", Ret (Json.dumps (VDict story_A)));
    ("b.json", Ret (Json.dumps (VDict story_B)));
    ("c.json", Ret (Json.dumps (VDict story_C))) ].
Definition example_backlog : listing := Ret example_files.

(** The file of a story: its JSON text. *)
Definition story_file (name : string) (story : dict) : string * result string :=
  (name, Ret (Json.dumps (VDict story))).

(** A backlog listed against its order: the fourth story has neither a
    priority nor a title, the second and the third share a priority. *)
Definition unordered_backlog : listing :=
  Ret [ story_file "1.json" [("id", VStr "S1"); ("priority", VInt 2); ("title", VStr "B")];
        story_file "2.json" [("id", VStr "S4")];
        story_file "3.json" [("id", VStr "S2"); ("priority", VInt 1); ("title", VStr "Z")];
        story_file "4.json" [("id", VStr "S3"); ("priority", VInt 1); ("title", VStr "A")] ].

(** Backlogs whose keys are not a number and a text: textual
    priorities, null priorities, null titles. *)
Definition textual_backlog : listing :=
  Ret [ story_file "1.json" [("id", VStr "S1"); ("priority", VStr "low")];
        story_file "2.json" [("id", VStr "S2"); ("priority", VStr "high")] ].
Definition null_priority_backlog : listing :=
  Ret [ story_file "1.json" [("id", VStr "S1"); ("priority", VNone); ("title", VStr "B")];
        story_file "2.json" [("id", VStr "S2"); ("priority", VNone); ("title", VStr "A")] ].
Definition null_title_backlog : listing :=
  Ret [ story_file "1.json" [("id", VStr "S1"); ("priority", VInt 2); ("title", VNone)];
        story_file "2.json" [("id", VStr "S2"); ("priority", VInt 1); ("title", VNone)] ].

(** Backlogs whose keys [<] cannot compare: a number against a text,
    and one priority with a null title against a text. *)
Definition mixed_backlog : listing :=
  Ret [ story_file "1.json" [("id", VStr "S1"); ("priority", VInt 1)];
        story_file "2.json" [("id", VStr "S2"); ("priority", VStr "1")] ].
Definition mixed_title_backlog : listing :=
  Ret [ story_file "1.json" [("id", VStr "S1"); ("priority", VInt 1); ("title", VNone)];
        story_file "2.json" [("id", VStr "S2"); ("priority", VInt 1); ("title", VStr "A")] ].

(** A story whose only dependency is in no story of the list. *)
Definition story_waiting : dict :=
  [ ("id", VStr "A"); ("title", VStr "A"); ("status", VStr "ready");
    ("priority", VInt 1); ("dependencies", VList [VStr "B"]) ].

Definition synthesize_fix_gate (import_ok tests_ok : bool) : option dict :=
  if import_ok && tests_ok then None
  else
    let title_bits :=
      (if negb import_ok then ["import errors"] else [])
      ++ (if negb tests_ok then ["failing tests/coverage"] else []) in
    Some [ ("id", VStr "fix_gate_virtual");
           ("title", VStr ("Fix Gate: " +:+ join " & " title_bits));
           ("priority", VInt 0);
           ("status", VStr "ready");
           ("dependencies", VList []);
           ("acceptance_criteria",
             VList [VStr "Imports succeed from WORKSPACE_ROOT";
                    VStr "Pytest suite passes with required coverage"]);
           ("allowed_paths", VList []);
           ("risk_level", VStr "low");
           ("auto_generated", VBool true);
           ("assigned_role", VStr "QA Engineer/Tester") ].

End Workflow.

(** ** [app/orchestrator/state.py] *)

Module State.

Definition ORCH_DIR : string := ".orchestrator".
Definition STATE_FILENAME : string := "state.json".

Definition _REQUIRED_KEYS : list string :=
  [ "version"; "last_updated"; "environment_fingerprint"; "stories";
    "artifacts_manifest"; "coverage_history"; "protected_zone";
    "resume_token"; "quarantine_tests"; "container_fingerprint";
    "metrics"; "role_progress" ].

Definition _OMIT_DIRS : list string :=
  [ ORCH_DIR; ".git"; ".svn"; ".hg"; ".venv"; "__pycache__";
    ".pytest_cache"; ".mypy_cache"; ".ruff_cache" ].

Definition _OMIT_FILE_PATTERNS : list string :=
  [ ".pyc"; ".pyo"; ".pyd"; ".db"; ".sqlite"; ".sqlite3"; ".coverage" ].

Definition in_list (x : string) (l : list string) : bool :=
  existsb (String.eqb x) l.
Arguments in_list : simpl never.

(** [os.path.basename(path)], with [/] as the separator. *)
Definition basename (path : string) : string :=
  List.last (split_char slash path) EmptyString.

Definition _is_omitted (path : string) : bool :=
  let parts := split_char slash (replace_char backslash slash path) in
  if existsb (fun p => in_list p _OMIT_DIRS) parts then true
  else
    let base := basename path in
    existsb (fun suffix => endswith suffix base) _OMIT_FILE_PATTERNS.

(** *** The workspace tree

    A file carries the outcome of opening and reading it; a directory
    carries its entries in the order [os.scandir] lists them.  Names hold
    no [/]. *)
Inductive node :=
| File (name : string) (content : result string)
| Dir (name : string) (entries : list node).

Definition is_file (n : node) : bool :=
  match n with
  | File _ _ => true
  | Dir _ _ => false
  end.

(** One directory of [os.walk], top down: its files are yielded first,
    then each of its sub-directories is walked in turn. *)
Definition walk_entries (walk : string -> node -> list (string * result string))
    (prefix : string) (entries : list node) : list (string * result string) :=
  flat_map (fun n => if is_file n then walk prefix n else []) entries
  ++ flat_map (fun n => if is_file n then [] else walk prefix n) entries.

(** The files [os.walk] reaches below a node, each with its path
    relative to the root; [dirnames[:] = ...] keeps the walk out of the
    directories named in [_OMIT_DIRS]. *)
Fixpoint walk (prefix : string) (n : node) : list (string * result string) :=
  match n with
  | File name content => [(prefix +:+ name, content)]
  | Dir name entries =>
      if in_list name _OMIT_DIRS then []
      else walk_entries walk (prefix +:+ name +:+ "/") entries
  end.

(** [os.walk(root)] with the pruning, flattened to
    [(os.path.relpath(abspath, root), outcome of reading abspath)]. *)
Definition os_walk (root : list node) : list (string * result string) :=
  walk_entries walk EmptyString root.

Record artifact := { path : string; checksum : string }.

Section Manifest.
(** [hashlib.sha256(data).hexdigest()] *)
Variable sha256 : string -> string.

(** [_sha256_file(fp)] *)
Definition _sha256_file (content : result string) : result string :=
  data ← content; Ret (sha256 data).

(** The loop over [filenames], run over the whole walk. *)
Fixpoint collect (files : list (string * result string))
    (artifacts : list artifact) : result (list artifact) :=
  match files with
  | [] => Ret artifacts
  | (rel, content) :: rest =>
      if _is_omitted rel then collect rest artifacts
      else match _sha256_file content with
           | Ret sum =>
               collect rest
                 (artifacts ++
                  [{| path := replace_char backslash slash rel; checksum := sum |}])
           | Raise PermissionError | Raise FileNotFoundError =>
               collect rest artifacts
           | Raise e => Raise e
           end
  end.

Definition artifact_ltb (a b : artifact) : bool := str_ltb (path a) (path b).

(** The body of [compute_artifacts_manifest] on what [os.walk] yields. *)
Definition manifest_of_walk (files : list (string * result string))
    : result (list artifact) :=
  artifacts ← collect files [];
  Ret (sort_by artifact_ltb artifacts).

Definition compute_artifacts_manifest (root : list node) : result (list artifact) :=
  manifest_of_walk (os_walk root).

(** What one file of the walk contributes to the manifest. *)
Definition entry_of (file : string * result string) : option artifact :=
  if _is_omitted (fst file) then None
  else match snd file with
       | Ret data =>
           Some {| path := replace_char backslash slash (fst file);
                   checksum := sha256 data |}
       | Raise _ => None
       end.
End Manifest.

(** *** The vocabulary of the manifest *)

(** [located dirs name content entries]: below the directories [dirs] of
    the listing [entries] lies a file [name] whose reading gives [content]. *)
Inductive located : list string -> string -> result string -> list node -> Prop :=
| located_here name content entries :
    File name content ∈ entries -> located [] name content entries
| located_below d sub dirs name content entries :
    Dir d sub ∈ entries -> located dirs name content sub ->
    located (d :: dirs) name content entries.

(** [os.path.relpath] of the file [name] below [dirs]. *)
Definition relpath (dirs : list string) (name : string) : string :=
  fold_right (fun d rest => d +:+ "/" +:+ rest) name dirs.

(** A file whose reading raises one of the two errors the loop catches. *)
Definition unreadable (content : result string) : bool :=
  match content with
  | Raise PermissionError | Raise FileNotFoundError => true
  | _ => false
  end.

(** The tree without its unreadable files. *)
Fixpoint without_unreadable (n : node) : list node :=
  match n with
  | File name content => if unreadable content then [] else [n]
  | Dir name entries => [Dir name (flat_map without_unreadable entries)]
  end.

Definition not_unreadable (file : string * result string) : bool :=
  negb (unreadable (snd file)).

(** A file of the walk that cannot make the manifest raise. *)
Definition harmless (file : string * result string) : Prop :=
  _is_omitted (fst file) = true
  \/ match snd file with
     | Ret _ => True
     | Raise e => e = PermissionError \/ e = FileNotFoundError
     end.

(** [a] sorts no later than [b] in the manifest. *)
Definition path_le (a b : artifact) : Prop :=
  path a = path b \/ str_lt (path a) (path b).

(** The tree of the test suite: a kept file, a cache directory, a
    compiled file and a locked file. *)
Definition example_tree : list node :=
  [ Dir "keep" [File "x.txt" (Ret "hi")];
    Dir ".pytest_cache" [File "y.txt" (Ret "dontcount")];
    File "z.pyc" (Ret "compiled");
    Dir "keep2" [File "blocked.txt" (Raise PermissionError)] ].

(** What a run reads from its surroundings besides the workspace tree. *)
Record environment := {
  platform_platform : string;      (* platform.platform() *)
  python_version : string;         (* sys.version.split()[0] *)
  now_iso : string;                (* time.strftime(..., time.gmtime()) *)
  uuid4 : string;                  (* str(uuid.uuid4()) *)
  tree : list node;                (* the directory [root] *)
}.

Definition compute_environment_fingerprint
    (env : environment) (run_commands : option (list string)) : value :=
  VDict [ ("os", VStr (platform_platform env));
          ("python", VStr (python_version env));
          ("libs", VDict []);
          ("run_commands",
            VList (map VStr (match run_commands with Some l => l | None => [] end))) ].

Definition artifact_value (a : artifact) : value :=
  VDict [ ("path", VStr (path a)); ("checksum", VStr (checksum a)) ].

Definition _valid_state (obj : value) : bool :=
  match obj with
  | VDict d => forallb (fun k => dict_has k d) _REQUIRED_KEYS
  | _ => false
  end.

(** The state file [<root>/.orchestrator/state.json].  It lies in a
    directory the manifest walk prunes, so it is kept apart from [tree].
    [file] is [None] when the path does not exist, and otherwise the
    outcome of reading it as UTF-8 text; [writes] logs every payload
    written to it, oldest first. *)
Record store := {
  file : option (result string);
  writes : list string;
}.

(** [except (json.JSONDecodeError, OSError)]: the exceptions the [try]
    of [load_state] catches. *)
Definition caught (e : exn) : bool :=
  match e with
  | JSONDecodeError => true
  | _ => is_OSError e
  end.

Section Load.
Variable sha256 : string -> string.
(** [json.loads], and [json.dumps] with the options of
    [_write_json_no_bom]. *)
Variable json_loads : string -> result value.
Variable json_dumps : value -> string.

Definition _new_state_skeleton (env : environment) : result value :=
  manifest ← compute_artifacts_manifest sha256 (tree env);
  Ret (VDict
    [ ("version", VInt 1);
      ("last_updated", VStr (now_iso env));
      ("environment_fingerprint", compute_environment_fingerprint env None);
      ("stories", VList []);
      ("artifacts_manifest", VList (map artifact_value manifest));
      ("coverage_history", VList []);
      ("protected_zone", VDict [("paths", VList [])]);
      ("resume_token", VStr (uuid4 env));
      ("quarantine_tests", VList []);
      ("container_fingerprint", VNone);
      ("metrics", VDict [("throughput", VInt 0); ("error_rate", VInt 0)]);
      ("role_progress", VDict []) ]).

(** [_write_json_no_bom(_state_path(root), data)]; the write itself is
    taken to succeed. *)
Definition _write_json_no_bom (data : value) (st : store) : store :=
  let payload := json_dumps data in
  {| file := Some (Ret payload); writes := writes st ++ [payload] |}.

Definition rebuild_state (env : environment) (st : store) : result (value * store) :=
  state ← _new_state_skeleton env;
  Ret (state, _write_json_no_bom state st).

(** [json.load(f)] on the opened state file. *)
Definition json_load (read : result string) : result value :=
  text ← read; json_loads text.

Definition load_state (env : environment) (st : store) : result (value * store) :=
  match file st with
  | None => rebuild_state env st
  | Some read =>
      match json_load read with
      | Ret data =>
          if _valid_state data then Ret (data, st) else rebuild_state env st
      | Raise e =>
          if caught e then rebuild_state env st else Raise e
      end
  end.
End Load.

(** *** The vocabulary of loading

    [st'] is [st] after one rebuild that wrote [doc]. *)
Definition rebuilt_with (json_dumps : value -> string)
    (doc : value) (st st' : store) : Prop :=
  file st' = Some (Ret (json_dumps doc))
  /\ writes st' = writes st ++ [json_dumps doc].

(** The top-level keys of a document. *)
Definition keys_of (doc : value) : list string :=
  match doc with
  | VDict d => dict_keys d
  | _ => []
  end.

(** An environment and files for the examples.  [example_digest] stands
    in for SHA-256, of which nothing but being a function is used. *)
Definition example_digest (data : string) : string := "sha256:" +:+ data.

Definition example_env : environment :=
  {| platform_platform := "Linux-6.1-x86_64";
     python_version := "3.12.0";
     now_iso := "2025-06-01T12:00:00Z";
     uuid4 := "6f1c1d1e-9f0a-4c57-8a39-2b7d6c0e4a11";
     tree := [Dir "app" [File "dummy.txt" (Ret "hello")]] |}.

(** The valid document of the test suite. *)
Definition valid_doc : dict :=
  [ ("version", VInt 1);
    ("last_updated", VStr "2025-01-01T00:00:00Z");
    ("environment_fingerprint",
      VDict [("os", VStr "x"); ("python", VStr "3.12"); ("libs", VDict []);
             ("run_commands", VList [])]);
    ("stories", VList []);
    ("artifacts_manifest", VList []);
    ("coverage_history", VList []);
    ("protected_zone", VDict [("paths", VList [])]);
    ("resume_token", VStr "abc");
    ("quarantine_tests", VList []);
    ("container_fingerprint", VNone);
    ("metrics", VDict [("throughput", VInt 0); ("error_rate", VInt 0)]);
    ("role_progress", VDict []) ].

(** The same document with one more top-level key. *)
Definition extended_doc : dict := valid_doc ++ [("notes", VStr "kept by hand")].

Definition store_of (text : string) : store :=
  {| file := Some (Ret text); writes := [] |}.

(** A state file whose bytes are not UTF-8, the single byte 0xFF for
    one: reading it as text raises [UnicodeDecodeError]. *)
Definition undecodable_store : store :=
  {| file := Some (Raise UnicodeDecodeError); writes := [] |}.

Definition absent_store : store := {| file := None; writes := [] |}.

(** The skeleton built for [example_env]. *)
Definition example_skeleton : value :=
  Eval vm_compute in
    match _new_state_skeleton example_digest example_env with
    | Ret doc => doc
    | Raise _ => VNone
    end.

End State.


(** ** [orchestrator.py] *)

Module Orchestrator.

Definition COVERAGE_TARGET : Z := 95.

(** *** The two regular expressions of [coverage_from_pytest_output]

    Both are sequences of character classes under a repetition, one of
    them captured.  Matching is greedy with backtracking, as in [re]. *)
Inductive char_class :=
| Lit (c : ascii)            (* a literal character *)
| LitAnyCase (c : ascii)     (* a literal under re.IGNORECASE *)
| Digit                      (* \d *)
| Space.                     (* \s *)

Record item := {
  class : char_class;
  at_least : nat;
  at_most : option nat;
  captured : bool;
}.

Definition is_digit (c : ascii) : bool :=
  let n := nat_of_ascii c in (48 <=? n)%nat && (n <=? 57)%nat.

Definition in_class (k : char_class) (c : ascii) : bool :=
  match k with
  | Lit a => Ascii.eqb c a
  | LitAnyCase a => Ascii.eqb (lower_char c) (lower_char a)
  | Digit => is_digit c
  | Space => is_space c
  end.

(** How many leading characters of [s] lie in [k], up to [limit]. *)
Fixpoint run_length (k : char_class) (limit : option nat) (s : string) : nat :=
  match limit, s with
  | Some O, _ => O
  | _, EmptyString => O
  | _, String c s' =>
      if in_class k c
      then S (run_length k (match limit with Some (S m) => Some m | _ => limit end) s')
      else O
  end.

Fixpoint take_chars (n : nat) (s : string) : string :=
  match n, s with
  | S n', String c s' => String c (take_chars n' s')
  | _, _ => EmptyString
  end.

(** One item of a pattern: it takes [n] characters, then the rest of the
    pattern [rest] must match; if it does not, the item gives one
    character back and tries again, down to its lower bound. *)
Fixpoint try_counts (it : item) (rest : string -> option (list string))
    (s : string) (n : nat) : option (list string) :=
  if (n <? at_least it)%nat then None
  else match rest (drop_chars n s) with
       | Some groups =>
           Some (if captured it then take_chars n s :: groups else groups)
       | None =>
           match n with
           | O => None
           | S n' => try_counts it rest s n'
           end
       end.

(** [pattern.match(s)]: the captured groups when the items match a
    prefix of [s], the longest repetitions being tried first. *)
Fixpoint match_items (p : list item) (s : string) : option (list string) :=
  match p with
  | [] => Some []
  | it :: p' =>
      try_counts it (match_items p') s (run_length (class it) (at_most it) s)
  end.

(** [re.search(pattern, s)]: the leftmost match. *)
Fixpoint search (p : list item) (s : string) : option (list string) :=
  match match_items p s with
  | Some groups => Some groups
  | None =>
      match s with
      | EmptyString => None
      | String _ s' => search p s'
      end
  end.

Definition one (k : char_class) : item :=
  {| class := k; at_least := 1; at_most := Some 1%nat; captured := false |}.
Definition plus (k : char_class) : item :=
  {| class := k; at_least := 1; at_most := None; captured := false |}.
Definition star (k : char_class) : item :=
  {| class := k; at_least := 0; at_most := None; captured := false |}.
Definition group (it : item) : item :=
  {| class := class it; at_least := at_least it; at_most := at_most it;
     captured := true |}.

Definition literal (s : string) : list item :=
  map (fun c => one (Lit c)) (list_ascii_of_string s).
Definition literal_any_case (s : string) : list item :=
  map (fun c => one (LitAnyCase c)) (list_ascii_of_string s).

(** [r"TOTAL\s+\d+\s+\d+\s+(\d+)%"] *)
Definition RE_TOTAL : list item :=
  literal "TOTAL"
  ++ [plus Space; plus Digit; plus Space; plus Digit; plus Space;
      group (plus Digit)]
  ++ literal "%".

(** [r"(\d{1,3})%\s*Coverage"] with [re.IGNORECASE] *)
Definition RE_COVERAGE : list item :=
  [group {| class := Digit; at_least := 1; at_most := Some 3%nat; captured := false |}]
  ++ literal "%" ++ [star Space] ++ literal_any_case "Coverage".

Fixpoint number_of_digits (s : string) (acc : Z) : Z :=
  match s with
  | EmptyString => acc
  | String c s' => number_of_digits s' (10 * acc + Z.of_nat (nat_of_ascii c - 48))%Z
  end.

(** [float(m.group(1))] for a group of decimal digits: the number the
    digits write.  The float holds it exactly below 2^53 and is no
    smaller than 2^53 above. *)
Definition float_of_group (groups : list string) : Z :=
  match groups with
  | g :: _ => number_of_digits g 0
  | [] => 0
  end.

Definition coverage_from_pytest_output (txt : string) : option Z :=
  match search RE_TOTAL txt with
  | Some groups => Some (float_of_group groups)
  | None =>
      match search RE_COVERAGE txt with
      | Some groups => Some (float_of_group groups)
      | None => None
      end
  end.

(** [cov >= COVERAGE_TARGET - 1e-6], compared in millionths. *)
Definition meets_target (cov : Z) : bool :=
  (COVERAGE_TARGET * 1000000 - 1 <=? cov * 1000000)%Z.

(** *** The vocabulary of matching *)

Fixpoint all_in_class (k : char_class) (s : string) : bool :=
  match s with
  | EmptyString => true
  | String c s' => in_class k c && all_in_class k s'
  end.

(** [matches p s groups]: the items of [p] match a prefix of [s], each
    item taking a number of characters of its class within its bounds;
    [groups] are the texts the captured items took. *)
Inductive matches : list item -> string -> list string -> Prop :=
| matches_nil s : matches [] s []
| matches_cons it p s n groups :
    (at_least it <= n)%nat ->
    (n <= String.length s)%nat ->
    (forall m, at_most it = Some m -> (n <= m)%nat) ->
    all_in_class (class it) (take_chars n s) = true ->
    matches p (drop_chars n s) groups ->
    matches (it :: p) s (if captured it then take_chars n s :: groups else groups).

(** [r] is a match of [p] at the leftmost place of [s] where [p] matches,
    or none when [p] matches nowhere in [s]. *)
Definition first_match (p : list item) (s : string) (r : option (list string)) : Prop :=
  match r with
  | Some groups =>
      exists before after, s = before +:+ after
        /\ matches p after groups
        /\ forall before' after', s = before' +:+ after' ->
             (String.length before' < String.length before)%nat ->
             ~ exists groups', matches p after' groups'
  | None =>
      forall before after, s = before +:+ after ->
        ~ exists groups', matches p after groups'
  end.

(** *** The executor's surroundings *)

Inductive event :=
| Wrote (path : string) (data : string)     (* retry_write *)
| RanCommand (cmd : string).                (* run_cmd *)

(** Paths are relative to [WORKSPACE_ROOT]; the empty path is the root.
    Two paths lead to one file when [file_of] agrees on them, as
    [pkg/__init__.py] and [pkg//__init__.py] do. *)
Record world := {
  isdir : string -> bool;                   (* os.path.isdir *)
  exists_ : string -> bool;                 (* os.path.exists *)
  file_of : string -> string;               (* the file a path leads to *)
  write_outcome : string -> result unit;    (* how the attempts of retry_write end *)
  preflight_report : result dict;           (* what preflight_checks() returns or raises *)
  command_result : Z * string * string;     (* what run_cmd returns *)
  uuids : list string;                      (* the values uuid.uuid4() will give *)
  log : list event;                         (* what the run did, oldest first *)
}.

Definition RUN_COMMANDS : list string :=
  [ "py -m pytest -vv --cov --cov-fail-under=95";
    "uvicorn app.main:app --reload" ].

Definition run_cmd (cmd : string) (w : world) : (Z * string * string) * world :=
  (command_result w,
   {| isdir := isdir w; exists_ := exists_ w;
      file_of := file_of w; write_outcome := write_outcome w;
      preflight_report := preflight_report w;
      command_result := command_result w; uuids := uuids w;
      log := log w ++ [RanCommand cmd] |}).

(** [retry_write(path, data)] on a path whose directory exists, so that
    [os.makedirs] has nothing to do: the attempts end with the file
    written, or with the error of the last one.  Once written, the file
    exists under every path that leads to it. *)
Definition retry_write (path data : string) (w : world) : result world :=
  _ ← write_outcome w path;
  Ret {| isdir := isdir w;
         exists_ := fun q => String.eqb (file_of w q) (file_of w path) || exists_ w q;
         file_of := file_of w; write_outcome := write_outcome w;
         preflight_report := preflight_report w;
         command_result := command_result w; uuids := uuids w;
         log := log w ++ [Wrote path data] |}.

(** [str(uuid.uuid4())] *)
Definition fresh_uuid (w : world) : string * world :=
  (hd EmptyString (uuids w),
   {| isdir := isdir w; exists_ := exists_ w;
      file_of := file_of w; write_outcome := write_outcome w;
      preflight_report := preflight_report w;
      command_result := command_result w; uuids := tl (uuids w);
      log := log w |}).

Definition run_pytest_and_coverage (w : world) : (bool * Z * string) * world :=
  let cmd := hd EmptyString RUN_COMMANDS in
  let '((code, out, err), w) := run_cmd cmd w in
  let output := out +:+ Json.newline +:+ err in
  let cov := match coverage_from_pytest_output output with
             | Some c => c
             | None => 0%Z
             end in
  let ok := Z.eqb code 0 && meets_target cov in
  ((ok, cov, output), w).

Definition sanitize_path (p : string) : string :=
  lstrip_chars "./" (replace_char backslash slash p).

(** [sanitize_paths(paths)] on whatever the story holds under
    [allowed_paths]: an item without [replace] raises. *)
Fixpoint sanitize_items (items : list value) : result (list string) :=
  match items with
  | [] => Ret []
  | VStr p :: rest => tl ← sanitize_items rest; Ret (sanitize_path p :: tl)
  | _ :: _ => Raise AttributeError
  end.

Definition sanitize_paths (paths : value) : result (list string) :=
  items ← iterate paths; sanitize_items items.

(** An override file; [allow_paths] is [ov.get("allow_paths", [])]. *)
Record override := {
  story_id : string;
  allow_paths : list string;
}.

(** [pp == ap' or pp.startswith(ap'.rstrip("/") + "/")] for
    [ap' = ap.replace("\\", "/")] *)
Definition grants (pp ap : string) : bool :=
  let ap := replace_char backslash slash ap in
  String.eqb pp ap || startswith (rstrip_chars "/" ap +:+ "/") pp.

Definition ok_by_override (overrides : list override) (pp : string) : bool :=
  existsb (fun ov => existsb (grants pp) (allow_paths ov)) overrides.

(** An override file as [list_overrides] loads it, whatever it holds,
    and the file of an [override]. *)
Definition raw_override (ov : override) : value :=
  VDict [ ("story_id", VStr (story_id ov));
          ("allow_paths", VList (map VStr (allow_paths ov))) ].

(** [any(... for ap in aps)] over the items of one [allow_paths]: an
    item without [replace] raises when the scan reaches it. *)
Fixpoint granted_among (pp : string) (aps : list value) : result bool :=
  match aps with
  | [] => Ret false
  | VStr ap :: rest => if grants pp ap then Ret true else granted_among pp rest
  | _ :: _ => Raise AttributeError
  end.

(** [any(... for ov in overrides.values()
             for ap in ov.get("allow_paths", []))]: the scan stops at the
    first grant; before that, an override without [get] and an
    [allow_paths] that cannot be iterated raise. *)
Fixpoint granted_by_override (overrides : list value) (pp : string) : result bool :=
  match overrides with
  | [] => Ret false
  | VDict ov :: rest =>
      aps ← iterate (dict_get "allow_paths" (VList []) ov);
      found ← granted_among pp aps;
      if (found : bool) then Ret true else granted_by_override rest pp
  | _ :: _ => Raise AttributeError
  end.

(** The gate in the words of the specification.  An override file holds
    the paths that iterating its [allow_paths] yields; it is well formed
    when it is an object whose [allow_paths] can be iterated and yields
    texts only; a path is granted when an override of the list holds it,
    or holds a prefix of it that ends a path segment. *)
Definition holds_path (ov : value) (ap : string) : Prop :=
  exists d items,
    ov = VDict d
    /\ iterate (dict_get "allow_paths" (VList []) d) = Ret items
    /\ VStr ap ∈ items.


Definition granted (overrides : list value) (pp : string) : Prop :=
  exists ov ap, ov ∈ overrides /\ holds_path ov ap /\ grants pp ap = true.

(** The gate of one path of [allowed]: is it protected and not granted?
    The overrides are looked at for a protected path only. *)
Definition conflicting (overrides : list value) (protected : gset string)
    (p : string) : result bool :=
  let pp := replace_char backslash slash p in
  if bool_decide (pp ∈ protected)
  then found ← granted_by_override overrides pp; Ret (negb found)
  else Ret false.

(** The first loop over [allowed]: the path it returns on, if any. *)
Fixpoint first_blocked (overrides : list value) (protected : gset string)
    (allowed : list string) : result (option string) :=
  match allowed with
  | [] => Ret None
  | p :: rest =>
      c ← conflicting overrides protected p;
      if (c : bool)
      then Ret (Some (replace_char backslash slash p))
      else first_blocked overrides protected rest
  end.

Inductive classification :=
| BLOCKED_NEEDS_OVERRIDE
| OUT_OF_SCOPE_REGRESSION.

(** The executor's output, field by field. *)
Record outcome := {
  summary : string;
  preflight : dict;
  change_set_plan : list string;
  change_set_files : list string;
  testing_ran : bool;
  testing_ok : bool;
  verification_coverage_ok : bool;
  verification_coverage : Z;
  verification_tests_ok : bool;
  security_result : string;
  checkpoint_touched : list string;
  checkpoint_checksums : list (string * string);
  checkpoint_resume_token : string;
  metrics_throughput : Z;
  metrics_error_rate : Z;
  classification_ : option classification;
  blocked_path : option string;
  pytest_output : option string;
}.

(** [os.path.dirname] of a path below the root. *)
Definition dirname (p : string) : string :=
  match rev (split_char slash p) with
  | [] | _ :: [] => EmptyString
  | _ :: before => rstrip_chars "/" (join "/" (rev before))
  end.

Definition is_init_py (p : string) : bool :=
  endswith "/__init__.py" p
  || endswith (String backslash "__init__.py") p
  || String.eqb (State.basename p) "__init__.py".

(** The second loop over [allowed]: creates the missing [__init__.py]
    files ([dry] only reports them). *)
Fixpoint minimal_edits (dry : bool) (allowed : list string)
    (touched : list string) (w : world) : result (list string * world) :=
  match allowed with
  | [] => Ret (touched, w)
  | p :: rest =>
      if is_init_py p && isdir w (dirname p) && negb (exists_ w p)
      then
        w ← (if dry then Ret w
             else retry_write p
                    ("# auto-created per story allowed_paths" +:+ Json.newline) w);
        minimal_edits dry rest (touched ++ [replace_char backslash slash p]) w
      else minimal_edits dry rest touched w
  end.

Section Executor.
(** [sha256_of_file] on the workspace: the digest, or the error of
    reading the file. *)
Variable sha256_of_file : world -> string -> result string.
(** The two helpers of the fix-gate branch walk [app/], [tests/] and
    [test/]; the protected-path gate lies on the other branch, and they
    are parameters here.  The first only looks; the second writes, and
    raises what [retry_write] raises. *)
Variable derive_allowed_for_fix_gate : world -> list string.
Variable apply_minimal_plan_for_fix_gate :
  bool -> world -> result (list string * world).

(** [checksums[f] = sum] *)
Fixpoint checksum_set (f sum : string) (acc : list (string * string))
    : list (string * string) :=
  match acc with
  | [] => [(f, sum)]
  | (f', sum') :: acc' =>
      if String.eqb f f' then (f, sum) :: acc'
      else (f', sum') :: checksum_set f sum acc'
  end.

Fixpoint checksums_from (touched : list string) (w : world)
    (acc : list (string * string)) : result (list (string * string)) :=
  match touched with
  | [] => Ret acc
  | f :: rest =>
      if exists_ w f
      then sum ← sha256_of_file w f; checksums_from rest w (checksum_set f sum acc)
      else checksums_from rest w acc
  end.

Definition checksums_of (touched : list string) (w : world)
    : result (list (string * string)) :=
  checksums_from touched w [].

Definition executor_for_story (story : dict) (dry : bool)
    (overrides : list value) (protected : gset string) (w : world)
    : result (outcome * world) :=
  sid ← dict_item "id" story;
  allowed ← sanitize_paths (dict_get "allowed_paths" (VList []) story);
  pre ← preflight_report w;
  let is_fix_gate := eq_str sid "fix_gate_imports_tests" in
  let finish (minimal_plan touched_files : list string) (w : world) :=
    let '((tests_ok, cov, test_output), w) := run_pytest_and_coverage w in
    let coverage_ok := meets_target cov in
    checksums ← checksums_of touched_files w;
    let '(token, w) := fresh_uuid w in
    Ret ({| summary :=
              "Touched " +:+ Json.decimal (Z.of_nat (length touched_files))
              +:+ " files. Fix-Gate=" +:+ (if is_fix_gate then "True" else "False");
            preflight := pre;
            change_set_plan := minimal_plan;
            change_set_files := touched_files;
            testing_ran := true;
            testing_ok := tests_ok;
            verification_coverage_ok := coverage_ok;
            verification_coverage := cov;
            verification_tests_ok := tests_ok;
            security_result := "pass";
            checkpoint_touched := touched_files;
            checkpoint_checksums := checksums;
            checkpoint_resume_token := token;
            metrics_throughput := if tests_ok && coverage_ok then 1 else 0;
            metrics_error_rate := if tests_ok then 0 else 1;
            classification_ :=
              if tests_ok && coverage_ok then None
              else Some OUT_OF_SCOPE_REGRESSION;
            blocked_path := None;
            pytest_output := Some test_output |}, w) in
  if is_fix_gate then
    let derived := derive_allowed_for_fix_gate w in
    '(files, w) ← apply_minimal_plan_for_fix_gate dry w;
    let files := filter (fun f => State.in_list f derived) files in
    finish
      ["Add missing __init__.py files to Python package directories under app/, tests/, test/"]
      files w
  else
    blocked ← first_blocked overrides protected allowed;
    match blocked with
    | Some pp =>
        let '(token, w) := fresh_uuid w in
        Ret ({| summary := "Edit requires touching a protected path without override.";
                preflight := pre;
                change_set_plan := [];
                change_set_files := [];
                testing_ran := false;
                testing_ok := false;
                verification_coverage_ok := false;
                verification_coverage := 0;
                verification_tests_ok := false;
                security_result := "N-A";
                checkpoint_touched := [];
                checkpoint_checksums := [];
                checkpoint_resume_token := token;
                metrics_throughput := 0;
                metrics_error_rate := 1;
                classification_ := Some BLOCKED_NEEDS_OVERRIDE;
                blocked_path := Some pp;
                pytest_output := None |}, w)
    | None =>
        '(touched_files, w) ← minimal_edits dry allowed [] w;
        finish [] touched_files w
    end.
End Executor.

(** *** An example run of the executor

    A story that may edit three paths; the second is protected and no
    override grants it, the first is protected but granted.  The two
    helpers of the fix-gate branch and the digest play no part here. *)
Definition example_story : dict :=
  [ ("id", VStr "S1"); ("title", VStr "Harden login");
    ("allowed_paths",
      VList [VStr "./app/auth/tokens.py"; VStr "app/main.py"; VStr "docs/login.md"]) ].

Definition example_protected : gset string :=
  list_to_set ["app/main.py"; "app/auth/tokens.py"; "pyproject.toml"].

Definition example_overrides : list override :=
  [ {| story_id := "S1"; allow_paths := ["app/auth/"] |} ].

Definition example_world : world :=
  {| isdir := fun _ => true;
     exists_ := fun _ => false;
     file_of := fun p => p;
     write_outcome := fun _ => Ret tt;
     preflight_report := Ret [("import_app", VBool true)];
     command_result := (0%Z, "TOTAL 10 0 100%", "");
     uuids := ["0b6f7c54-3d0e-4b65-9c39-0a1f2e8d7c11"];
     log := [] |}.


Definition read_only_world : world :=
  {| isdir := isdir example_world; exists_ := exists_ example_world;
     file_of := file_of example_world;
     write_outcome := fun _ => Raise PermissionError;
     preflight_report := preflight_report example_world;
     command_result := command_result example_world;
     uuids := uuids example_world; log := [] |}.

Fixpoint single_slashes (p : string) : string :=
  match p with
  | String "/" (String "/" _ as rest) => single_slashes rest
  | String c rest => String c (single_slashes rest)
  | EmptyString => EmptyString
  end.

Definition aliased_world : world :=
  {| isdir := isdir example_world; exists_ := exists_ example_world;
     file_of := single_slashes;
     write_outcome := write_outcome example_world;
     preflight_report := preflight_report example_world;
     command_result := command_result example_world;
     uuids := uuids example_world; log := [] |}.


Definition no_digest (w : world) (path : string) : result string := Ret EmptyString.
Definition no_derivation (w : world) : list string := [].
Definition no_plan (dry : bool) (w : world) : result (list string * world) := Ret ([], w).

End Orchestrator.


(** ** [orchestrator.py]: the protected zone and two more stories *)

Module Zone.

Definition PROTECTED_INFRA_HINTS : list string :=
  [ "app/main.py"; "app/auth"; "app/rbac"; "app/logging"; "app/audit";
    "app/models"; "app/schemas"; "migrations"; "alembic.ini"; "pyproject.toml";
    "requirements.txt"; "pytest.ini"; ".coveragerc"; "app/routers" ].

(** The text [executor_for_story] writes into a missing [__init__.py]. *)
Definition init_marker : string :=
  "# auto-created per story allowed_paths" +:+ Json.newline.

(** A story that may add a package marker and edit a document. *)
Definition package_story : dict :=
  [ ("id", VStr "S2"); ("title", VStr "Add reports package");
    ("allowed_paths",
      VList [VStr "app/reports/__init__.py"; VStr "docs/reports.md"]) ].

(** A story that asks for the coverage configuration, a protected file
    whose name starts with a dot. *)
Definition coverage_story : dict :=
  [ ("id", VStr "S3"); ("title", VStr "Relax coverage");
    ("allowed_paths", VList [VStr ".coveragerc"]) ].

(** A story that names one package marker twice, the second time with a
    doubled slash. *)
Definition twice_story : dict :=
  [ ("id", VStr "S4"); ("title", VStr "Add a package");
    ("allowed_paths",
      VList [VStr "pkg/__init__.py"; VStr "pkg//__init__.py"]) ].

(** The override of [Orchestrator.example_overrides], filed for another
    story. *)
Definition foreign_overrides : list Orchestrator.override :=
  [ {| Orchestrator.story_id := "S9"; Orchestrator.allow_paths := ["app/auth/"] |} ].

End Zone.

(** ** [app/executor/runloop.py]: the thin run loop *)

Module Plan.

Section Loop.
(** [json.loads] *)
Variable json_loads : string -> result value.

(** The outcome of [importlib.import_module("app.orchestrator.workflow")]:
    the module, whose functions are those of [Workflow], or the error
    the import raises. *)
Variable import_workflow : result unit.

(** [plan_next_item(root)]; [bdir] is the backlog directory of [root],
    as for [discover_backlog]. *)
Definition plan_next_item (bdir : option Workflow.listing) : result (option dict) :=
  _ ← import_workflow;
  stories ← Workflow.discover_backlog json_loads bdir;
  nxt ← Workflow.pick_next stories;
  match nxt with
  | None => Ret None
  | Some nxt =>
      if negb (truthy (VDict nxt)) then Ret None
      else
        sid ← dict_item "id" nxt;
        Ret (Some [ ("story_id", sid);
                    ("title", dict_get "title" (VStr "") nxt);
                    ("priority", dict_get "priority" (VInt 999) nxt);
                    ("allowed_paths", dict_get "allowed_paths" (VList []) nxt);
                    ("risk_level", dict_get "risk_level" (VStr "low") nxt);
                    ("assigned_role", dict_get "assigned_role" (VStr "") nxt);
                    ("status", VStr "ready") ])
  end.

(** The items of a list that [_normalize_paths] can work on: each must
    have [replace], that is, be a [str]. *)
Fixpoint strs_of (items : list value) : result (list string) :=
  match items with
  | [] => Ret []
  | VStr p :: rest => tl ← strs_of rest; Ret (p :: tl)
  | _ :: _ => Raise AttributeError
  end.

(** What [for p in paths or []] goes through when [paths] is whatever
    the story holds under [allowed_paths]. *)
Definition paths_of (paths : value) : result (list string) :=
  if truthy paths then items ← iterate paths; strs_of items else Ret [].

Definition classification_name (c : Runloop.classification) : string :=
  match c with
  | Runloop.blocked_needs_override => "blocked_needs_override"
  | Runloop.environment_mismatch => "environment_mismatch"
  end.

(** The payload of [thin_run_loop]. *)
Record payload := {
  selected : option dict;
  preflight : option Runloop.preflight;
  status : string;
}.

(** [thin_run_loop(root, protected_paths)]; [can_import_app] is the
    answer of [_can_import_app(root)], asked for only when a story was
    selected. *)
Definition thin_run_loop (can_import_app : Runloop.import_probe)
    (bdir : option Workflow.listing) (protected_paths : option (list string))
    : result payload :=
  plan ← plan_next_item bdir;
  match plan with
  | None =>
      Ret {| selected := None; preflight := None; status := "no_ready_story" |}
  | Some plan =>
      allowed ← paths_of (dict_get "allowed_paths" (VList []) plan);
      let pre :=
        Runloop.preflight_checks can_import_app (Some allowed)
          (Some (Runloop.or_empty protected_paths)) None None in
      let status :=
        if Runloop.ok pre then "ready_to_execute"
        else match Runloop.classification_ pre with
             | Some c => classification_name c
             | None => "blocked"
             end in
      Ret {| selected := Some plan; preflight := Some pre; status := status |}
  end.
End Loop.

End Plan.

(** ** More vocabulary of the backlog *)

Module Backlog.

(** The story [s] carries the id [dep]; ids are compared the way the
    keys of the status index are. *)
Definition has_id (dep : value) (s : dict) : bool :=
  match dict_lookup "id" s with
  | Some k => key_eqb dep k
  | None => false
  end.

(** The last story of the list that carries the id [dep]. *)
Fixpoint find_last (dep : value) (stories : list dict) : option dict :=
  match stories with
  | [] => None
  | s :: rest =>
      match find_last dep rest with
      | Some t => Some t
      | None => if has_id dep s then Some s else None
      end
  end.

(** Two stories that tie on priority and title. *)
Definition twin_one : dict :=
  [ ("id", VStr "T1"); ("title", VStr "Twin"); ("priority", VInt 5);
    ("status", VStr "ready"); ("dependencies", VList []) ].
Definition twin_two : dict :=
  [ ("id", VStr "T2"); ("title", VStr "Twin"); ("priority", VInt 5);
    ("status", VStr "ready"); ("dependencies", VList []) ].

End Backlog.

(** ** [orchestrator.py]: reading and writing with retries *)

Module Retry.

(** The loop shared by [retry_read] and [retry_write].  [attempt i] is
    the outcome of the body of the [try] at the pass [i] of
    [for i in range(attempts)]; [left] passes remain; [slept] counts the
    calls of [time.sleep(delay)].  Falling out of the loop returns
    [None]. *)
Fixpoint retry_loop {A : Type} (attempt : nat -> result A) (attempts : Z)
    (i left slept : nat) : result (option A) * nat :=
  match left with
  | O => (Ret None, slept)
  | S left' =>
      match attempt i with
      | Ret a => (Ret (Some a), slept)
      | Raise e =>
          if Z.eqb (Z.of_nat i) (attempts - 1) then (Raise e, slept)
          else retry_loop attempt attempts (S i) left' (S slept)
      end
  end.

(** [retry_read(path, mode, attempts, delay)]: what it returns or raises,
    and how often it slept; [attempt i] is the outcome of opening and
    reading the file at the pass [i]. *)
Definition retry_read (attempt : nat -> result string) (attempts : Z)
    : result (option string) * nat :=
  retry_loop attempt attempts 0 (Z.to_nat attempts) 0.

(** [retry_write(path, data, attempts, delay)]; [makedirs] is the
    outcome of [os.makedirs(os.path.dirname(path), exist_ok=True)] and
    [attempt i] that of opening and writing at the pass [i].  The call
    returns [None] in any case: [Some tt] marks the return after a write,
    [None] the return without one. *)
Definition retry_write (makedirs : result unit) (attempt : nat -> result unit)
    (attempts : Z) : result (option unit) * nat :=
  match makedirs with
  | Raise e => (Raise e, O)
  | Ret _ => retry_loop attempt attempts 0 (Z.to_nat attempts) 0
  end.

(** A file that is locked at the first two passes. *)
Definition locked_twice (i : nat) : result string :=
  if (i <? 2)%nat then Raise PermissionError else Ret "content".

End Retry.

(** ** [orchestrator.py]: selection and bookkeeping of stories *)

Module Selection.

(** [normalize_story(story)]: the story after the six [setdefault]s. *)
Definition normalize_story (story : dict) : dict :=
  let story := dict_setdefault "priority" (VInt 99) story in
  let story := dict_setdefault "dependencies" (VList []) story in
  let story := dict_setdefault "status" (VStr "ready") story in
  let story := dict_setdefault "acceptance_criteria" (VList []) story in
  let story := dict_setdefault "allowed_paths" (VList []) story in
  dict_setdefault "risk_level" (VStr "medium") story.

(** The virtual story of the fix gate.  Its second criterion is the
    f-string with [COVERAGE_TARGET = 95.0]; the sign it holds lies beyond
    code point 255 and is written here in its UTF-8 encoding. *)
Definition fix_gate_story : dict :=
  [ ("id", VStr "fix_gate_imports_tests");
    ("title", VStr "Fix Gate: import/test stability");
    ("priority", VInt 0);
    ("status", VStr "ready");
    ("dependencies", VList []);
    ("acceptance_criteria",
      VList [VStr "App imports without error";
             VStr "pytest passes with coverage ≥ 95.0%"]);
    ("allowed_paths", VList []);
    ("risk_level", VStr "medium");
    ("auto_generated", VBool true);
    ("assigned_role", VStr "QA Engineer/Tester") ].

(** A [dict] keyed by story ids that holds stories. *)
Definition story_map : Type := list (value * dict).

Fixpoint map_set (k : value) (s : dict) (m : story_map) : story_map :=
  match m with
  | [] => [(k, s)]
  | (k', s') :: m' =>
      if key_eqb k k' then (k', s) :: m' else (k', s') :: map_set k s m'
  end.

(** [{s["id"]: normalize_story(s) for s in stories if s.get("id")}] *)
Fixpoint story_map_from (stories : list dict) (m : story_map) : result story_map :=
  match stories with
  | [] => Ret m
  | s :: rest =>
      if truthy (dict_get "id" VNone s) then
        k ← dict_item "id" s;
        if hashable k then story_map_from rest (map_set k (normalize_story s) m)
        else Raise TypeError
      else story_map_from rest m
  end.

(** The stories after the comprehension: [normalize_story] fills the
    defaults in place, in every story that has a truthy id. *)
Definition normalized_in_place (stories : list dict) : list dict :=
  map (fun s => if truthy (dict_get "id" VNone s) then normalize_story s else s) stories.

(** [{s["id"]: s.get("status", "ready") for s in ...}] over the items of
    [state.get("stories", [])]. *)
Fixpoint status_map_from (items : list value) (m : Workflow.index)
    : result Workflow.index :=
  match items with
  | [] => Ret m
  | VDict s :: rest =>
      k ← dict_item "id" s;
      if hashable k
      then status_map_from rest
             (Workflow.index_set k (dict_get "status" (VStr "ready") s) m)
      else Raise TypeError
  | _ :: _ => Raise TypeError
  end.

(** [all(status_map.get(d, "done") == "done" for d in deps)] *)
Fixpoint all_done_or_unknown (deps : list value) (status_map : Workflow.index)
    : result bool :=
  match deps with
  | [] => Ret true
  | d :: rest =>
      if hashable d then
        let st := match Workflow.index_lookup d status_map with
                  | Some v => v
                  | None => VStr "done"
                  end in
        if eq_str st "done" then all_done_or_unknown rest status_map else Ret false
      else Raise TypeError
  end.

(** [status_map.get(sid, s.get("status"))] *)
Definition effective_status (status_map : Workflow.index) (sid : value) (s : dict)
    : value :=
  match Workflow.index_lookup sid status_map with
  | Some v => v
  | None => dict_get "status" VNone s
  end.

(** The loop over [story_map.items()] that fills [ready]. *)
Fixpoint ready_from (status_map : Workflow.index) (items : story_map)
    (ready : list dict) : result (list dict) :=
  match items with
  | [] => Ret ready
  | (sid, s) :: rest =>
      if negb (eq_str (effective_status status_map sid s) "ready")
      then ready_from status_map rest ready
      else
        deps ← iterate (dict_get "dependencies" (VList []) s);
        ok ← all_done_or_unknown deps status_map;
        ready_from status_map rest (if (ok : bool) then ready ++ [s] else ready)
  end.

Section Pick.
(** [int(s)] on a [str]: the number it writes, or an error. *)
Variable int_of_str : string -> result Z.

(** [int(v)] *)
Definition int_of (v : value) : result Z :=
  match v with
  | VInt n => Ret n
  | VBool b => Ret (if b then 1 else 0)%Z
  | VStr s => int_of_str s
  | _ => Raise TypeError
  end.

(** The keys [list.sort] computes before it compares anything. *)
Fixpoint keyed (ready : list dict) : result (list (Z * dict)) :=
  match ready with
  | [] => Ret []
  | s :: rest =>
      k ← int_of (dict_get "priority" (VInt 99) s);
      tl ← keyed rest;
      Ret ((k, s) :: tl)
  end.

Definition by_key (a b : Z * dict) : bool := Z.ltb (fst a) (fst b).

(** [pick_next_story(state, stories, overrides, fix_gate_needed)]: what
    it returns, and the stories as the call leaves them. *)
Definition pick_next_story (state : dict) (stories : list dict)
    (overrides : list Orchestrator.override) (fix_gate_needed : bool)
    : result (option (dict * string) * list dict) :=
  if fix_gate_needed then Ret (Some (fix_gate_story, "fix-gate"), stories)
  else
    story_map ← story_map_from stories [];
    items ← iterate (dict_get "stories" (VList []) state);
    status_map ← status_map_from items [];
    ready ← ready_from status_map story_map [];
    match ready with
    | [] => Ret (None, normalized_in_place stories)
    | _ =>
        keys ← keyed ready;
        Ret (option_map (fun chosen => (snd chosen, "priority"))
               (head (sort_by by_key keys)),
             normalized_in_place stories)
    end.
End Pick.

(** *** [mark_state_story] *)

(** [n + 1] *)
Definition add_one (v : value) : result value :=
  match v with
  | VInt n => Ret (VInt (n + 1))
  | VBool b => Ret (VInt ((if b then 1 else 0) + 1))
  | _ => Raise TypeError
  end.

(** [now_iso()]: the next reading of the clock. *)
Definition tick (clock : list string) : string * list string :=
  (hd EmptyString clock, tl clock).

(** The records of [state["stories"]] are objects, and the list may hold
    one of them more than once: [load_or_rebuild_state] lists the record
    of an id once for every story file that carries the id.  [objects]
    are the records by address, [listed] the addresses the list holds, in
    order. *)
Record records := {
  objects : list dict;
  listed : list nat;
}.

(** The list as a reader sees it. *)
Definition view (rs : records) : list dict :=
  map (fun a => objects rs !!! a) (listed rs).

(** The search loop: the address of the first listed record whose id
    equals [story_id]. *)
Fixpoint locate (objects : list dict) (story_id : value) (listed : list nat)
    : result (option nat) :=
  match listed with
  | [] => Ret None
  | a :: rest =>
      sid ← dict_item "id" (objects !!! a);
      if py_eq sid story_id then Ret (Some a) else locate objects story_id rest
  end.

(** The updates of the record found or made. *)
Definition touch (status assigned_role : value) (inc_attempts : bool)
    (clock : list string) (found : dict) : result (dict * list string) :=
  let found := dict_set "status" status found in
  r ← (if inc_attempts then
         n ← add_one (dict_get "attempts" (VInt 0) found);
         let found := dict_set "attempts" n found in
         started ← dict_item "started_at" found;
         match started with
         | VNone =>
             let '(t, clock) := tick clock in
             Ret (dict_set "started_at" (VStr t) found, clock)
         | _ => Ret (found, clock)
         end
       else Ret (found, clock));
  let '(found, clock) := r in
  let '(found, clock) :=
    if eq_str status "done" then
      let '(t, clock) := tick clock in
      (dict_set "completed_at" (VStr t) found, clock)
    else (found, clock) in
  let found :=
    if truthy assigned_role then dict_set "assigned_role" assigned_role found
    else found in
  Ret (found, clock).

(** [mark_state_story(state, story_id, status, assigned_role,
    inc_attempts)] on the records of [state["stories"]]: the records
    after the call, and what is left of the clock.  The record found is
    updated where it lies, so every place of the list that holds it shows
    the update; a record that is made is a new object, listed last.  A
    record that is found holds an id and so is not empty: [if not found]
    is then false. *)
Definition mark_state_story (rs : records) (story_id status : value)
    (assigned_role : value) (inc_attempts : bool) (clock : list string)
    : result (records * list string) :=
  r ← locate (objects rs) story_id (listed rs);
  match r with
  | Some a =>
      r' ← touch status assigned_role inc_attempts clock (objects rs !!! a);
      Ret ({| objects := <[a := fst r']> (objects rs); listed := listed rs |},
           snd r')
  | None =>
      let found :=
        [ ("id", story_id); ("status", status); ("attempts", VInt 0);
          ("started_at", VNone); ("completed_at", VNone);
          ("assigned_role", assigned_role) ] in
      r' ← touch status assigned_role inc_attempts clock found;
      Ret ({| objects := objects rs ++ [fst r'];
              listed := listed rs ++ [length (objects rs)] |},
           snd r')
  end.

(** *** [within_allowed_paths] *)

Definition within_allowed_paths (path : string) (allowed : list string)
    (overrides : list Orchestrator.override) : bool :=
  let path := replace_char backslash slash path in
  State.in_list path allowed || Orchestrator.ok_by_override overrides path.

(** *** The vocabulary of the selection

    A story of the map can be selected when its status, taken from the
    state where the state knows the story and from the story otherwise,
    is [ready], and each of its dependencies is [done] in the state or
    unknown to it. *)
Definition selectable (status_map : Workflow.index) (item : value * dict) : Prop :=
  effective_status status_map (fst item) (snd item) = VStr "ready"
  /\ exists deps,
       iterate (dict_get "dependencies" (VList []) (snd item)) = Ret deps
       /\ Forall (fun d => Workflow.index_lookup d status_map = None
                           \/ Workflow.index_lookup d status_map = Some (VStr "done"))
            deps.

(** An entry of the story map comes from a story of the list: it holds
    that story with its defaults filled, under the story's id. *)
Definition from_story (stories : list dict) (item : value * dict) : Prop :=
  exists s0 k0,
    s0 ∈ stories /\ snd item = normalize_story s0
    /\ dict_lookup "id" s0 = Some k0 /\ truthy k0 = true
    /\ key_eqb k0 (fst item) = true.

(** *** Examples *)

(** The record of a story that was started once. *)
Definition record_A : dict :=
  [ ("id", VStr "A"); ("status", VStr "in_progress"); ("attempts", VInt 1);
    ("started_at", VStr "2025-06-01T12:00:00+00:00"); ("completed_at", VNone);
    ("assigned_role", VStr "Developer") ].

Definition record_B : dict :=
  [ ("id", VStr "B"); ("status", VStr "ready"); ("attempts", VInt 0);
    ("started_at", VNone); ("completed_at", VNone); ("assigned_role", VNone) ].

(** Two records, the second listed twice: two story files carry the
    id B. *)
Definition example_records : records :=
  {| objects := [record_A; record_B]; listed := [0; 1; 1]%nat |}.

End Selection.

(** ** [orchestrator.py]: loading the state *)

Module Loading.

(** [{s["id"]: s for s in state.get("stories", []) if "id" in s}] over
    the items of the list: a later record takes the place of an earlier
    one with the same id.  An item that is a list or a [str] and holds
    ["id"] cannot be indexed by it. *)
Fixpoint state_ids_from (items : list value) (m : Selection.story_map)
    : result Selection.story_map :=
  match items with
  | [] => Ret m
  | s :: rest =>
      has ← Workflow.has_member "id" s;
      if (has : bool) then
        match s with
        | VDict d =>
            k ← dict_item "id" d;
            if hashable k then state_ids_from rest (Selection.map_set k d m)
            else Raise TypeError
        | _ => Raise TypeError
        end
      else state_ids_from rest m
  end.

(** The place of the key [k] in the map, counted from [a]. *)
Fixpoint address_of (k : value) (m : Selection.story_map) (a : nat) : option nat :=
  match m with
  | [] => None
  | (k', _) :: m' => if key_eqb k k' then Some a else address_of k m' (S a)
  end.

(** The record made for a story the state does not know. *)
Definition fresh_record (sid : value) (s : dict) : dict :=
  [ ("id", sid); ("status", dict_get "status" (VStr "ready") s);
    ("attempts", VInt 0); ("started_at", VNone); ("completed_at", VNone);
    ("assigned_role", dict_get "assigned_role" VNone s) ].

(** The loop over [stories] that fills [results].  The records of
    [state_ids] are objects: [results.append(state_ids[sid])] lists the
    object itself, at the address it has in the map; a record that is
    made is a new object. *)
Fixpoint merge (state_ids : Selection.story_map) (stories : list dict)
    (results : Selection.records) : result Selection.records :=
  match stories with
  | [] => Ret results
  | s :: rest =>
      let sid := dict_get "id" VNone s in
      if negb (truthy sid) then merge state_ids rest results
      else if negb (hashable sid) then Raise TypeError
      else
        match address_of sid state_ids 0 with
        | None =>
            merge state_ids rest
              {| Selection.objects :=
                   Selection.objects results ++ [fresh_record sid s];
                 Selection.listed :=
                   Selection.listed results
                   ++ [length (Selection.objects results)] |}
        | Some a =>
            merge state_ids rest
              {| Selection.objects := Selection.objects results;
                 Selection.listed := Selection.listed results ++ [a] |}
        end
  end.

(** The block that validates the stories into the state index: from the
    items of [state.get("stories", [])] and the stories of the backlog
    to the records of [state["stories"]]. *)
Definition merged_records (items : list value) (stories : list dict)
    : result Selection.records :=
  state_ids ← state_ids_from items [];
  merge state_ids stories
    {| Selection.objects := map snd state_ids; Selection.listed := [] |}.

(** [any(st["id"] == art["last_story"] and st.get("status") == "done"
         for st in state["stories"])] *)
Fixpoint any_done (last_story : value) (records : list dict) : result bool :=
  match records with
  | [] => Ret false
  | st :: rest =>
      sid ← dict_item "id" st;
      if py_eq sid last_story
         && eq_str (dict_get "status" VNone st) "done"
      then Ret true
      else any_done last_story rest
  end.

(** The loop over the artifacts manifest: what it adds to [protected]. *)
Fixpoint protected_artifacts (arts : list value) (records : list dict)
    (protected : list value) : result (list value) :=
  match arts with
  | [] => Ret protected
  | VDict art :: rest =>
      if truthy (dict_get "last_story" VNone art) then
        last_story ← dict_item "last_story" art;
        found ← any_done last_story records;
        if (found : bool) then
          p ← dict_item "path" art;
          if hashable p then protected_artifacts rest records (protected ++ [p])
          else Raise TypeError
        else protected_artifacts rest records protected
      else protected_artifacts rest records protected
  | _ :: _ => Raise AttributeError
  end.

(** The members of [protected] as [sorted] meets them.  The set holds
    the hints, which are [str]s; to place a member that is not a [str]
    among them [sorted] must compare it with a [str], and that
    comparison raises. *)
Fixpoint strs (members : list value) : result (list string) :=
  match members with
  | [] => Ret []
  | VStr s :: rest => tl ← strs rest; Ret (s :: tl)
  | _ :: _ => Raise TypeError
  end.

(** The assembly of the protected zone, from the state and the records
    of [state["stories"]]: the value of [sorted(protected)]. *)
Definition protected_zone (state : dict) (records : list dict)
    : result (list string) :=
  zone ← match dict_get "protected_zone" (VDict []) state with
         | VDict zone => Ret zone
         | _ => Raise AttributeError
         end;
  saved ← Orchestrator.sanitize_paths (dict_get "paths" (VList []) zone);
  arts ← iterate (dict_get "artifacts_manifest" (VList []) state);
  added ← protected_artifacts arts records [];
  let hints := map (replace_char backslash slash) Zone.PROTECTED_INFRA_HINTS in
  added ← strs added;
  let protected : gset string := list_to_set (saved ++ added ++ hints) in
  Ret (sorted_str (elements protected)).

(** *** Reading the backlog and the state file *)

Section Load.
(** [json.loads] *)
Variable json_loads : string -> result value.
(** [yaml.safe_load], where PyYAML can be imported. *)
Variable yaml : option (string -> result value).

(** [load_json(path)], from the outcome of [retry_read(path)]. *)
Definition load_json (read : result string) : result value :=
  text ← read; json_loads text.

(** [obj["_source_file"] = path] *)
Definition set_source_file (path : string) (obj : value) : result dict :=
  match obj with
  | VDict d => Ret (dict_set "_source_file" (VStr path) d)
  | _ => Raise TypeError
  end.

Definition parse_story_file (path : string) (read : result string)
    : result (option dict) :=
  if endswith ".json" path then
    Ret (try_except
           (obj ← load_json read; d ← set_source_file path obj; Ret (Some d))
           None)
  else
    match yaml with
    | None => Ret None
    | Some safe_load =>
        text ← read;
        obj ← safe_load text;
        match obj with
        | VNone => Ret None
        | _ => d ← set_source_file path obj; Ret (Some d)
        end
    end.

(** [[s for s in [parse_story_file(p) for p in story_paths]
      if s is not None]] *)
Fixpoint parse_stories (files : list (string * result string))
    : result (list dict) :=
  match files with
  | [] => Ret []
  | (path, read) :: rest =>
      s ← parse_story_file path read;
      tl ← parse_stories rest;
      Ret (match s with Some d => d :: tl | None => tl end)
  end.

(** What a rebuild reads off the machine: the clock, the fingerprint of
    the environment, a fresh token, and for every file
    [discover_files] lists its path and its digest. *)
Record surroundings := {
  now_iso : string;
  env_fingerprint : value;
  uuid4 : string;
  files : list (string * string);
}.

Definition default_state (e : surroundings) : dict :=
  [ ("version", VInt 1);
    ("last_updated", VStr (now_iso e));
    ("environment_fingerprint", env_fingerprint e);
    ("stories", VList []);
    ("artifacts_manifest", VList []);
    ("coverage_history", VList []);
    ("protected_zone", VDict [("paths", VList [])]);
    ("resume_token", VStr (uuid4 e));
    ("quarantine_tests", VList []);
    ("container_fingerprint", VNone);
    ("metrics", VDict [("throughput", VInt 0); ("error_rate", VInt 0)]);
    ("role_progress", VDict []) ].

(** [compute_artifacts_manifest()], from the files and their digests. *)
Definition compute_artifacts_manifest (e : surroundings) : list value :=
  map (fun f => VDict [ ("path", VStr (replace_char backslash slash (fst f)));
                        ("checksum", VStr (snd f));
                        ("last_story", VNone) ])
      (files e).

Definition rebuilt_state (e : surroundings) : value :=
  VDict (dict_set "artifacts_manifest" (VList (compute_artifacts_manifest e))
           (default_state e)).

(** Is a YAML story listed: [p.lower().endswith((".yml", ".yaml"))]. *)
Definition is_yaml (p : string) : bool :=
  endswith ".yml" (lower p) || endswith ".yaml" (lower p).

(** What [load_or_rebuild_state] returns; [records] are the objects of
    [state["stories"]], which [state] shows as a list. *)
Record loaded := {
  state : dict;
  records : Selection.records;
  stories : list dict;
  story_paths : list string;
  missing : list string;
}.

(** [load_or_rebuild_state()].  [prepared] is the outcome of the two
    [os.makedirs]; [backlog] is what [glob_backlog()] lists, each path
    with the outcome of reading it; [state_file] is the outcome of
    reading [STATE_PATH], [None] where there is no such file. *)
Definition load_or_rebuild_state (e : surroundings) (prepared : result unit)
    (backlog : list (string * result string))
    (state_file : option (result string)) : result loaded :=
  _ ← prepared;
  stories ← parse_stories backlog;
  let state :=
    match state_file with
    | Some read => try_except (load_json read) (rebuilt_state e)
    | None => rebuilt_state e
    end in
  match state with
  | VDict state =>
      items ← iterate (dict_get "stories" (VList []) state);
      results ← merged_records items stories;
      let state :=
        dict_set "stories" (VList (map VDict (Selection.view results))) state in
      paths ← protected_zone state (Selection.view results);
      let state :=
        dict_set "protected_zone" (VDict [("paths", VList (map VStr paths))])
          state in
      let yml_present := existsb (fun f => is_yaml (fst f)) backlog in
      Ret {| state := state; records := results; stories := stories;
             story_paths := map fst backlog;
             missing := if yml_present && negb (bool_decide (is_Some yaml))
                        then ["pyyaml"] else [] |}
  | _ => Raise AttributeError
  end.
End Load.

(** *** The vocabulary of the merge *)

(** [state_ids.get(k)] *)
Fixpoint map_get (k : value) (m : Selection.story_map) : option dict :=
  match m with
  | [] => None
  | (k', d) :: m' => if key_eqb k k' then Some d else map_get k m'
  end.

(** The address [a] is rightly listed for the story [s]: it is the place
    the map has for the id of [s], or that of a record made for [s],
    which lies behind the records of the map. *)
Definition entry_at (state_ids : Selection.story_map) (objects : list dict)
    (s : dict) (a : nat) : Prop :=
  (a < length objects)%nat
  /\ match address_of (dict_get "id" VNone s) state_ids 0 with
     | Some a' => a = a'
     | None =>
         (length state_ids <= a)%nat
         /\ objects !! a = Some (fresh_record (dict_get "id" VNone s) s)
     end.

(** The records among the items of the loaded list. *)
Definition dicts_of (items : list value) : list dict :=
  omap (fun v => match v with VDict d => Some d | _ => None end) items.

(** The stories the merge does not pass over. *)
Definition has_truthy_id (s : dict) : bool := truthy (dict_get "id" VNone s).

(** What the merge lists for the story [s]: the record the state holds
    for the id of [s], which is the last one of the loaded list with
    that id, or a record made for [s] when the state holds none. *)
Definition listed_for (items : list value) (s r : dict) : Prop :=
  match Backlog.find_last (dict_get "id" VNone s) (dicts_of items) with
  | Some known => r = known
  | None => r = fresh_record (dict_get "id" VNone s) s
  end.

(** *** The vocabulary of the protected zone *)

(** The artifact [art] was last touched by a story that a record of the
    list shows as done, and [p] is what it holds as its path. *)
Definition touched_by_done (records : list dict) (art : dict) (p : value) : Prop :=
  exists last_story st sid,
    dict_lookup "last_story" art = Some last_story
    /\ truthy last_story = true
    /\ st ∈ records
    /\ dict_lookup "id" st = Some sid
    /\ py_eq sid last_story = true
    /\ dict_lookup "status" st = Some (VStr "done")
    /\ dict_lookup "path" art = Some p.

(** *** Examples *)

(** The records of a loaded state: A is under way, B is done, and so is
    a story that has left the backlog. *)
Definition example_items : list value :=
  [ VDict Selection.record_A;
    VDict [ ("id", VStr "B"); ("status", VStr "done"); ("attempts", VInt 2) ];
    VDict [ ("id", VStr "gone"); ("status", VStr "done") ] ].

(** The loaded state: B and the story that has left have each touched a
    file. *)
Definition example_state : dict :=
  [ ("version", VInt 1);
    ("stories", VList example_items);
    ("artifacts_manifest",
      VList [ VDict [ ("path", VStr "app/reports/build.py");
                      ("checksum", VStr "c1"); ("last_story", VStr "B") ];
              VDict [ ("path", VStr "app/old.py");
                      ("checksum", VStr "c2"); ("last_story", VStr "gone") ];
              VDict [ ("path", VStr "docs/a.md");
                      ("checksum", VStr "c3"); ("last_story", VStr "A") ];
              VDict [ ("path", VStr "README.md");
                      ("checksum", VStr "c4"); ("last_story", VNone) ] ]);
    ("protected_zone", VDict [("paths", VList [VStr ".github/ci.yml"])]) ].

(** A machine and a backlog directory: one story that parses, a file
    that does not decode, a file that cannot be read, and a YAML story. *)
Definition example_surroundings : surroundings :=
  {| now_iso := "2025-06-01T12:00:00+00:00";
     env_fingerprint := VDict [("os", VStr "Windows-10"); ("python", VStr "3.11.4")];
     uuid4 := "0b6f7c54-3d0e-4b65-9c39-0a1f2e8d7c11";
     files := [("app\main.py", "c0"); ("README.md", "unreadable")] |}.

Definition example_backlog : list (string * result string) :=
  [ ("backlog/b.json",
      Ret (Json.dumps (VDict [("id", VStr "B"); ("status", VStr "blocked")])));
    ("backlog/broken.json", Ret "{ broken");
    ("backlog/locked.json", Raise PermissionError);
    ("backlog/c.yml", Ret "id: C") ].

(** The backlog: the file of B asks for [ready]; two files carry the id
    B; C is new. *)
Definition example_stories : list dict :=
  [ [ ("id", VStr "B"); ("status", VStr "ready") ];
    [ ("id", VStr "C"); ("status", VStr "blocked") ];
    [ ("title", VStr "no id") ];
    [ ("id", VStr "B"); ("title", VStr "again") ];
    [ ("id", VStr "A") ] ].

End Loading.

(** ** [orchestrator.py]: the override files *)

Module Overrides.

Section List.
(** [json.loads] *)
Variable json_loads : string -> result value.

(** The body of the loop of [list_overrides], inside its [try]; [read]
    is the outcome of [retry_read(p)]. *)
Definition add_override (read : result string) (overrides : Selection.story_map)
    : result Selection.story_map :=
  obj ← Loading.load_json json_loads read;
  has ← Workflow.has_member "story_id" obj;
  if (has : bool) then
    match obj with
    | VDict d =>
        k ← dict_item "story_id" d;
        if hashable k then Ret (Selection.map_set k d overrides)
        else Raise TypeError
    | _ => Raise TypeError
    end
  else Ret overrides.

(** [list_overrides()], from the outcome of reading each file the glob
    lists, in the order of the glob. *)
Definition list_overrides (files : list (result string)) : Selection.story_map :=
  fold_left
    (fun overrides read => try_except (add_override read overrides) overrides)
    files [].

(** The objects among what the files hold. *)
Definition objects_of (files : list (result string)) : list dict :=
  omap (fun read => match Loading.load_json json_loads read with
                    | Ret (VDict d) => Some d
                    | _ => None
                    end) files.
End List.

(** The object [d] is filed for the story [k]. *)
Definition filed_for (k : value) (d : dict) : bool :=
  match dict_lookup "story_id" d with
  | Some k' => key_eqb k k'
  | None => false
  end.

(** The last object of the list that is filed for [k]. *)
Fixpoint last_filed (k : value) (objects : list dict) : option dict :=
  match objects with
  | [] => None
  | d :: rest =>
      match last_filed k rest with
      | Some d' => Some d'
      | None => if filed_for k d then Some d else None
      end
  end.

(** Three override files for S1 and one that holds a list. *)
Definition example_files : list (result string) :=
  [ Ret (Json.dumps (VDict [ ("story_id", VStr "S1");
                             ("allow_paths", VList [VStr "app/auth/"]) ]));
    Ret (Json.dumps (VList [VStr "story_id"]));
    Raise PermissionError;
    Ret (Json.dumps (VDict [ ("story_id", VStr "S1");
                             ("allow_paths", VList [VStr "app/models/"]) ])) ].

End Overrides.

(** ** [orchestrator.py]: the package markers of the fix gate

    The workspace is a tree as in [State]: the entries below
    [WORKSPACE_ROOT], a directory with its entries in the order it lists
    them.  Paths are relative to [WORKSPACE_ROOT]; [/] stands for the
    separator of the system between their parts.  A write is taken to
    succeed. *)

Module FixGate.

Definition node_name (n : State.node) : string :=
  match n with
  | State.File name _ => name
  | State.Dir name _ => name
  end.

(** [any(f.endswith(".py") for f in files)] for the files of a
    directory. *)
Definition has_py (entries : list State.node) : bool :=
  existsb (fun n => match n with
                    | State.File name _ => endswith ".py" name
                    | State.Dir _ _ => false
                    end) entries.

(** [os.path.exists(os.path.join(dir, name))] *)
Definition exists_in (name : string) (entries : list State.node) : bool :=
  existsb (fun n => String.eqb (node_name n) name) entries.

(** [os.walk(base)], top down: the directory and every directory below
    it, each with its path and its entries. *)
Fixpoint walk_dirs (prefix : string) (n : State.node)
    : list (string * list State.node) :=
  match n with
  | State.File _ _ => []
  | State.Dir name entries =>
      (prefix +:+ name, entries)
      :: flat_map (walk_dirs (prefix +:+ name +:+ "/")) entries
  end.

(** The directories the two helpers look into. *)
Definition BASES : list string := ["app"; "tests"; "test"].

(** [os.path.isdir(os.path.join(WORKSPACE_ROOT, base))]: the directory,
    where there is one. *)
Definition isdir (base : string) (root : list State.node) : option State.node :=
  find (fun n => match n with
                 | State.Dir name _ => String.eqb name base
                 | State.File _ _ => false
                 end) root.

Definition derive_allowed_for_fix_gate (root : list State.node) : list string :=
  let allowed :=
    flat_map
      (fun base =>
         match isdir base root with
         | Some n =>
             map (fun d => replace_char backslash slash (fst d) +:+ "/__init__.py")
               (List.filter (fun d => has_py (snd d)) (walk_dirs EmptyString n))
         | None => []
         end) BASES in
  sorted_str (elements (list_to_set allowed : gset string)).

Definition INIT_MARKER : string :=
  "# auto-created by orchestrator to mark package" +:+ Json.newline.

(** [ensure_init_py(package_dir, dry)] for the directory at [path] with
    the given entries: the path it returns, and what it writes into the
    directory. *)
Definition ensure_init_py (path : string) (entries : list State.node) (dry : bool)
    : option string * list State.node :=
  if negb (exists_in "__init__.py" entries)
  then (Some (path +:+ "/" +:+ "__init__.py"),
        if dry then [] else [State.File "__init__.py" (Ret INIT_MARKER)])
  else (None, []).

(** The loop of [apply_minimal_plan_for_fix_gate] over [os.walk(base)]:
    the paths it appends to [touched], and the directory after the walk.
    The walk reaches a directory before the directories below it; what
    is written into a directory is a file and adds nothing to the
    walk. *)
Fixpoint apply_below (dry : bool) (prefix : string) (n : State.node)
    : list string * State.node :=
  match n with
  | State.File _ _ => ([], n)
  | State.Dir name entries =>
      let path := prefix +:+ name in
      let '(maybe, written) :=
        if has_py entries then ensure_init_py path entries dry else (None, []) in
      let below := map (apply_below dry (prefix +:+ name +:+ "/")) entries in
      (match maybe with
       | Some p => [replace_char backslash slash p]
       | None => []
       end ++ flat_map fst below,
       State.Dir name (map snd below ++ written))
  end.

(** The root after the directory [base] has become [n']. *)
Fixpoint replace_dir (base : string) (n' : State.node) (root : list State.node)
    : list State.node :=
  match root with
  | [] => []
  | State.Dir name entries :: rest =>
      if String.eqb name base then n' :: rest
      else State.Dir name entries :: replace_dir base n' rest
  | n :: rest => n :: replace_dir base n' rest
  end.

(** [apply_minimal_plan_for_fix_gate(dry)]: the list it returns, and
    the workspace after the call. *)
Definition apply_minimal_plan_for_fix_gate (dry : bool) (root : list State.node)
    : list string * list State.node :=
  fold_left
    (fun acc base =>
       match isdir base (snd acc) with
       | Some n =>
           let r := apply_below dry EmptyString n in
           (fst acc ++ fst r, replace_dir base (snd r) (snd acc))
       | None => acc
       end)
    BASES ([], root).

(** The second check of [preflight_checks]: the directories below
    [app/] that hold a [.py] file and no [__init__.py]. *)
Definition missing_init (root : list State.node) : list string :=
  match isdir "app" root with
  | Some n =>
      map fst
        (List.filter
           (fun d => has_py (snd d) && negb (exists_in "__init__.py" (snd d)))
           (walk_dirs EmptyString n))
  | None => []
  end.

(** A workspace: [app/] lacks its marker and so does [app/api/];
    [app/static/] holds no Python; [tests/] is complete. *)
Definition example_root : list State.node :=
  [ State.Dir "app"
      [ State.File "main.py" (Ret "app = 1");
        State.Dir "api" [ State.File "users.py" (Ret "x = 1") ];
        State.Dir "static" [ State.File "logo.svg" (Ret "<svg/>") ] ];
    State.File "README.md" (Ret "hello");
    State.Dir "tests"
      [ State.File "__init__.py" (Ret "");
        State.File "test_app.py" (Ret "assert True") ] ].

End FixGate.

(** ** [orchestrator.py]: the files of the workspace *)

Module Discover.

(** [WORKSPACE_ROOT], and [STATE_DIR] with [/] for the separator. *)
Definition WORKSPACE_ROOT : string := "C:\Dev\New software analysis".
Definition STATE_DIR : string := WORKSPACE_ROOT +:+ "/" +:+ ".orchestrator".

(** The files of a directory, each with the outcome of reading it. *)
Definition files_in (entries : list State.node) : list (string * result string) :=
  omap (fun n => match n with
                 | State.File name content => Some (name, content)
                 | State.Dir _ _ => None
                 end) entries.

(** The body of the loop of [discover_files] for the directory whose
    absolute path is [base]; [prefix] is what [os.path.relpath] puts
    before the name of a file of the directory. *)
Definition listed_in (base prefix : string) (entries : list State.node)
    : list (string * result string) :=
  if startswith STATE_DIR base then []
  else map (fun f => (prefix +:+ fst f, snd f)) (files_in entries).

(** The loop of [discover_files(WORKSPACE_ROOT)] over [os.walk]: the
    paths it appends, each with the outcome of reading the file. *)
Definition discovered (root : list State.node) : list (string * result string) :=
  listed_in WORKSPACE_ROOT EmptyString root
  ++ flat_map
       (fun d => listed_in (WORKSPACE_ROOT +:+ "/" +:+ fst d) (fst d +:+ "/") (snd d))
       (flat_map (FixGate.walk_dirs EmptyString) root).

Definition discover_files (root : list State.node) : list string :=
  map fst (discovered root).

Section Manifest.
(** [hashlib.sha256(data).hexdigest()] *)
Variable sha256 : string -> string.

Definition sha256_of_file (content : result string) : result string :=
  data ← content; Ret (sha256 data).

(** The [try] of [compute_artifacts_manifest]. *)
Definition checksum_of (content : result string) : string :=
  try_except (sha256_of_file content) "unreadable".

(** The files of [compute_artifacts_manifest()] with their checksums:
    the [files] of [Loading.surroundings]. *)
Definition checksums (root : list State.node) : list (string * string) :=
  map (fun f => (fst f, checksum_of (snd f))) (discovered root).
End Manifest.

(** A directory of [dirs] keeps the files below it out of the listing:
    only the first one counts. *)
Definition outside_state_dir (dirs : list string) : Prop :=
  match dirs with
  | [] => True
  | d :: _ => startswith ".orchestrator" d = false
  end.

(** A workspace with a state directory, a backup of it, a file whose
    name starts like them, a repository directory and a locked file. *)
Definition example_root : list State.node :=
  [ State.File ".orchestrator.lock" (Ret "1");
    State.Dir ".orchestrator" [ State.File "state.json" (Ret "{}") ];
    State.Dir ".orchestrator_backup" [ State.File "state.json" (Ret "{}") ];
    State.Dir ".git" [ State.File "HEAD" (Ret "ref") ];
    State.Dir "app" [ State.File "main.py" (Raise PermissionError) ] ].

Definition example_surroundings (sha256 : string -> string) : Loading.surroundings :=
  {| Loading.now_iso := "2025-06-01T12:00:00+00:00";
     Loading.env_fingerprint := VDict [];
     Loading.uuid4 := "0b6f7c54-3d0e-4b65-9c39-0a1f2e8d7c11";
     Loading.files := checksums sha256 example_root |}.

End Discover.

(** ** [orchestrator.py]: the artifacts of a processed story *)

Module Checkpoint.

(** [art["path"]] *)
Definition path_of (art : value) : result value :=
  match art with
  | VDict d => dict_item "path" d
  | _ => Raise TypeError
  end.

(** The search of [main] through the manifest for [path_norm]: the
    manifest with the first artifact of that path tied to the story, or
    [None] where no artifact has the path. *)
Fixpoint update_first (path_norm : string) (chk sid : value) (arts : list value)
    : result (option (list value)) :=
  match arts with
  | [] => Ret None
  | art :: rest =>
      p ← path_of art;
      if py_eq p (VStr path_norm) then
        match art with
        | VDict d =>
            Ret (Some (VDict (dict_set "last_story" sid (dict_set "checksum" chk d))
                       :: rest))
        | _ => Raise TypeError
        end
      else
        r ← update_first path_norm chk sid rest;
        Ret (option_map (cons art) r)
  end.

(** The body of the loop of [main] over the checksums of the executor,
    on a manifest that is a list. *)
Definition record_checksum (sid : value) (arts : list value)
    (entry : string * string) : result (list value) :=
  let path_norm := replace_char backslash slash (fst entry) in
  r ← update_first path_norm (VStr (snd entry)) sid arts;
  match r with
  | Some arts => Ret arts
  | None =>
      Ret (arts ++ [VDict [ ("path", VStr path_norm);
                            ("checksum", VStr (snd entry));
                            ("last_story", sid) ]])
  end.

Fixpoint record_checksums (sid : value) (checksums : list (string * string))
    (arts : list value) : result (list value) :=
  match checksums with
  | [] => Ret arts
  | entry :: rest =>
      arts ← record_checksum sid arts entry;
      record_checksums sid rest arts
  end.

(** The artifact at [path] is tied to the story [sid]. *)
Definition tied (sid : value) (path : string) (art : value) : Prop :=
  exists d, art = VDict d
            /\ dict_lookup "path" d = Some (VStr path)
            /\ dict_lookup "last_story" d = Some sid.

(** A manifest of two files and the checksums of a run that has
    touched one of them and made another. *)
Definition example_manifest : list value :=
  [ VDict [ ("path", VStr "app/main.py"); ("checksum", VStr "c0");
            ("last_story", VNone) ];
    VDict [ ("path", VStr "app/reports/build.py"); ("checksum", VStr "c1");
            ("last_story", VStr "A") ] ].

Definition example_checksums : list (string * string) :=
  [ ("app/reports/build.py", "c9"); ("app/reports/__init__.py", "c7") ].

End Checkpoint.

(** ** [orchestrator.py]: the progress snapshot of [main] *)

Module Progress.

(** [{s["id"]: s for s in state["stories"]}] *)
Fixpoint stmap_from (records : list dict) (m : Selection.story_map)
    : result Selection.story_map :=
  match records with
  | [] => Ret m
  | r :: rest =>
      k ← dict_item "id" r;
      if hashable k then stmap_from rest (Selection.map_set k r m)
      else Raise TypeError
  end.

(** [stmap.get(sid, {}).get("status", s.get("status", "ready"))] for
    [sid = s["id"]] *)
Definition status_in (stmap : Selection.story_map) (s : dict) : result value :=
  sid ← dict_item "id" s;
  if hashable sid then
    let record := match Loading.map_get sid stmap with
                  | Some r => r
                  | None => []
                  end in
    Ret (dict_get "status" (dict_get "status" (VStr "ready") s) record)
  else Raise TypeError.

(** The counts, by status. *)
Definition counts : Type := list (value * Z).

(** [counts.get(status, 0)] *)
Fixpoint count_of (status : value) (c : counts) : Z :=
  match c with
  | [] => 0
  | (k, n) :: c' => if key_eqb status k then n else count_of status c'
  end.

(** [counts[status] = counts.get(status, 0) + 1] *)
Fixpoint bump (status : value) (c : counts) : counts :=
  match c with
  | [] => [(status, 1%Z)]
  | (k, n) :: c' =>
      if key_eqb status k then (k, (n + 1)%Z) :: c' else (k, n) :: bump status c'
  end.

Fixpoint count_stories (stmap : Selection.story_map) (stories : list dict)
    (c : counts) : result counts :=
  match stories with
  | [] => Ret c
  | s :: rest =>
      status ← status_in stmap s;
      if hashable status then count_stories stmap rest (bump status c)
      else Raise TypeError
  end.

(** The progress snapshot of [main], from the records of
    [state["stories"]] and the stories of the backlog. *)
Definition progress_snapshot (records stories : list dict) : result counts :=
  stmap ← stmap_from records [];
  count_stories stmap stories
    [ (VStr "done", 0%Z); (VStr "in_progress", 0%Z);
      (VStr "ready", 0%Z); (VStr "blocked", 0%Z) ].

(** The status the snapshot counts a story under: that of the last
    record with the id of the story, where there is one that holds a
    status, and else that of the story, [ready] by default. *)
Definition counted_as (records : list dict) (s : dict) : value :=
  dict_get "status" (dict_get "status" (VStr "ready") s)
    (match Backlog.find_last (dict_get "id" VNone s) records with
     | Some r => r
     | None => []
     end).

Definition total (c : counts) : Z := fold_right (fun kn acc => (snd kn + acc)%Z) 0%Z c.

End Progress.

(** ** [app/executor/runloop.py]: the import probe *)

Module Probe.

(** [k == "app" or k.startswith("app.")] *)
Definition is_app (k : string) : bool :=
  String.eqb k "app" || startswith "app." k.

(** [l.remove(x)], for an [x] that [l] holds. *)
Fixpoint remove_first (x : string) (l : list string) : list string :=
  match l with
  | [] => []
  | y :: l' => if String.eqb y x then l' else y :: remove_first x l'
  end.

(** What the probe reads of a module spec. *)
Record module_spec := {
  origin : option string;
  submodule_search_locations : option (list string);
}.

Section Machinery.
(** The module objects. *)
Variable module : Type.

(** [sys.path] and [sys.modules]. *)
Record interpreter := {
  sys_path : list string;
  sys_modules : gmap string module;
}.

(** [os.path.abspath] *)
Variable abspath : string -> string.
(** [PathFinder.find_spec("app", [root])] *)
Variable find_spec : string -> interpreter -> result (option module_spec).
(** [importlib.import_module("app")]: it runs the code of the package,
    which may load modules and change [sys.path] before it returns or
    raises. *)
Variable import_module : interpreter -> result unit * interpreter.
(** [f"{type(exc).__name__}: {exc}"] and the text of a list of paths in
    an f-string. *)
Variable describe : exn -> string.
Variable repr : list string -> string.

(** The checks between [find_spec] and the import: the message of the
    [return] they take, if they take one. *)
Definition outside_root (root : string) (spec : module_spec) : option string :=
  let root_norm := replace_char backslash slash root in
  let has_origin := match origin spec with
                    | Some o => negb (String.eqb o EmptyString)
                    | None => false
                    end in
  if has_origin then
    let origin := replace_char backslash slash
                    (abspath (default EmptyString (origin spec))) in
    if startswith root_norm origin then None
    else Some ("environment mismatch: resolved app outside root -> " +:+ origin)
  else
    let locations := default [] (submodule_search_locations spec) in
    if existsb (fun p => startswith root_norm
                           (replace_char backslash slash (abspath p))) locations
    then None
    else Some ("environment mismatch: resolved app outside root -> "
               +:+ repr locations).

(** [_can_import_app(root)]: its answer, and the interpreter after the
    [finally]. *)
Definition _can_import_app (root : string) (st : interpreter)
    : (bool * option string) * interpreter :=
  let root := abspath root in
  let saved_modules := filter (fun kv => is_app (fst kv) = true) (sys_modules st) in
  let modules := filter (fun kv => is_app (fst kv) = false) (sys_modules st) in
  let added := negb (State.in_list root (sys_path st)) in
  let st1 := {| sys_path := if added then root :: sys_path st else sys_path st;
                sys_modules := modules |} in
  let '(answer, st2) :=
    match find_spec root st1 with
    | Raise e => ((false, Some (describe e)), st1)
    | Ret None => ((false, Some "ModuleNotFoundError: app"), st1)
    | Ret (Some spec) =>
        match outside_root root spec with
        | Some message => ((false, Some message), st1)
        | None =>
            match import_module st1 with
            | (Ret _, st2) => ((true, None), st2)
            | (Raise e, st2) => ((false, Some (describe e)), st2)
            end
        end
    end in
  (answer,
   {| sys_path :=
        if added && State.in_list root (sys_path st2)
        then remove_first root (sys_path st2) else sys_path st2;
      sys_modules :=
        saved_modules
        ∪ filter (fun kv => is_app (fst kv) = false) (sys_modules st2) |}).
End Machinery.

End Probe.

(** ** [app/orchestrator/workflow.py]: the flat story format *)

Module Flat.

Section Lines.
(** [json.loads] *)
Variable json_loads : string -> result value.

(** The value a line of the flat format gives to its key, from the text
    after the first colon: what [json.loads] makes of it, or else the
    text itself, without its quotes where it stands in quotes. *)
Definition value_of (raw : string) : value :=
  try_except (json_loads raw)
    (if Workflow.quoted_with dquote raw || Workflow.quoted_with squote raw
     then VStr (strip_ends raw) else VStr raw).

(** What a line sets: [None] for a blank line, a comment and a line
    without a colon. *)
Definition line_entry (line : string) : option (string * value) :=
  let line := strip line in
  if String.eqb line EmptyString || startswith "#" line then None
  else match split_once ":" line with
       | None => None
       | Some (k, v) => Some (strip k, value_of (strip v))
       end.

(** The value the last line that sets [key] gives to it. *)
Fixpoint last_set (key : string) (lines : list string) : option value :=
  match lines with
  | [] => None
  | line :: rest =>
      match last_set key rest with
      | Some v => Some v
      | None =>
          match line_entry line with
          | Some (k, v) => if String.eqb k key then Some v else None
          | None => None
          end
      end
  end.
End Lines.

(** A flat story that sets its priority twice and lists its
    dependencies without quotes. *)
Definition example_text : string :=
  join Json.newline
    [ "# a story";
      "id: S7";
      "priority: 5";
      "dependencies: [S1, S2]";
      "no colon here";
      "priority: 2";
      "title: 'Quoted: with a colon'" ].

End Flat.

(** ** [orchestrator.py]: the defaults of a story *)

Module Defaults.

(** The keys [normalize_story] fills, with the values it fills in. *)
Definition DEFAULTS : dict :=
  [ ("priority", VInt 99); ("dependencies", VList []); ("status", VStr "ready");
    ("acceptance_criteria", VList []); ("allowed_paths", VList []);
    ("risk_level", VStr "medium") ].

(** A story that holds a priority of [null] and no status. *)
Definition example_story : dict :=
  [ ("id", VStr "S4"); ("priority", VNone); ("dependencies", VList [VStr "S1"]) ].

End Defaults.

(** * Properties *)

(** ** Order and sorting *)

Section StringOrder.

Lemma ascii_compare_refl (c : ascii) : Ascii.compare c c = Eq.
Proof. unfold Ascii.compare. apply N.compare_refl. Qed.

Lemma ascii_compare_trans (a b c : ascii) (o : comparison) :
  Ascii.compare a b = o -> Ascii.compare b c = o -> Ascii.compare a c = o.
Proof.
  unfold Ascii.compare. destruct o; intros H1 H2.
  - apply N.compare_eq_iff in H1, H2. apply N.compare_eq_iff. congruence.
  - rewrite N.compare_lt_iff in *. lia.
  - rewrite N.compare_gt_iff in *. lia.
Qed.

Lemma string_compare_refl (s : string) : String.compare s s = Eq.
Proof. induction s as [|c s IH]; simpl; [done|]. by rewrite ascii_compare_refl. Qed.

Lemma string_compare_lt_trans (a b c : string) :
  String.compare a b = Lt -> String.compare b c = Lt -> String.compare a c = Lt.
Proof.
  revert b c. induction a as [|x a IH]; intros [|y b] [|z c]; simpl; try done.
  destruct (Ascii.compare x y) eqn:Hxy; try done;
    destruct (Ascii.compare y z) eqn:Hyz; try done; intros H1 H2.
  - apply Ascii.compare_eq_iff in Hxy, Hyz. subst.
    rewrite ascii_compare_refl. eauto.
  - apply Ascii.compare_eq_iff in Hxy. subst. by rewrite Hyz.
  - apply Ascii.compare_eq_iff in Hyz. subst. by rewrite Hxy.
  - by rewrite (ascii_compare_trans x y z Lt).
Qed.

Lemma str_ltb_irrefl (a : string) : str_ltb a a = false.
Proof. unfold str_ltb, String.ltb. by rewrite string_compare_refl. Qed.

Lemma str_ltb_trans (a b c : string) :
  str_ltb a b = true -> str_ltb b c = true -> str_ltb a c = true.
Proof.
  unfold str_ltb, String.ltb. intros H1 H2.
  destruct (String.compare a b) eqn:E1; try done.
  destruct (String.compare b c) eqn:E2; try done.
  by rewrite (string_compare_lt_trans a b c).
Qed.

Lemma str_ltb_asym (a b : string) : str_ltb a b = true -> str_ltb b a = false.
Proof.
  unfold str_ltb, String.ltb. rewrite (String.compare_antisym b a).
  by destruct (String.compare a b).
Qed.

(** Two strings are equal or one is below the other. *)
Lemma str_ltb_trichotomy (a b : string) :
  str_ltb a b = true \/ a = b \/ str_ltb b a = true.
Proof.
  unfold str_ltb, String.ltb. rewrite (String.compare_antisym b a).
  destruct (String.compare a b) eqn:E; simpl; auto.
  right; left. by apply String.compare_eq_iff.
Qed.

Lemma str_not_ltb_trans (a b c : string) :
  str_ltb b a = false -> str_ltb c b = false -> str_ltb c a = false.
Proof.
  intros H1 H2. destruct (str_ltb c a) eqn:E; [|done].
  destruct (str_ltb_trichotomy a b) as [H|[->|H]]; [|congruence|congruence].
  destruct (str_ltb_trichotomy b c) as [H'|[->|H']]; [|congruence|congruence].
  pose proof (str_ltb_trans a b c H H') as Hac.
  apply str_ltb_asym in Hac. congruence.
Qed.

End StringOrder.

(** *** The order of Python values *)

Lemma value_induction (P : value -> Prop) :
  P VNone -> (forall b, P (VBool b)) -> (forall n, P (VInt n)) ->
  (forall s, P (VStr s)) ->
  (forall l, Forall P l -> P (VList l)) ->
  (forall d, P (VDict d)) ->
  forall v, P v.
Proof.
  intros HN HB HI HS HL HD. fix IH 1.
  intros [|b|n|s|l|d]; [exact HN|apply HB|apply HI|apply HS| |apply HD].
  apply HL. induction l as [|x l IHl]; constructor; [apply IH|exact IHl].
Qed.

Lemma py_eq_cons x l y m :
  py_eq (VList (x :: l)) (VList (y :: m)) = py_eq x y && py_eq (VList l) (VList m).
Proof. reflexivity. Qed.

Lemma py_lt_cons x l y m :
  py_lt (VList (x :: l)) (VList (y :: m))
  = if py_eq x y then py_lt (VList l) (VList m) else py_lt x y.
Proof. reflexivity. Qed.

(** Equal values are not below one another. *)
Lemma py_eq_not_lt a b c :
  py_eq a b = true -> (py_lt a b = Ret c \/ py_lt b a = Ret c) -> c = false.
Proof.
  revert b c. induction a as [|x|n|s|l IH|d] using value_induction; intros b c.
  - destruct b; cbn -[Z.eqb Z.ltb]; try done; by intros _ [?|?].
  - destruct b as [|y|m| | |]; cbn -[Z.eqb Z.ltb]; try done.
    + intros ->%eqb_prop [H|H]; injection H as <-; apply Z.ltb_irrefl.
    + intros ->%Z.eqb_eq [H|H]; injection H as <-; apply Z.ltb_irrefl.
  - destruct b as [|y|m| | |]; cbn -[Z.eqb Z.ltb]; try done.
    + intros <-%Z.eqb_eq [H|H]; injection H as <-; apply Z.ltb_irrefl.
    + intros ->%Z.eqb_eq [H|H]; injection H as <-; apply Z.ltb_irrefl.
  - destruct b as [| | |t| |]; cbn -[Z.eqb Z.ltb]; try done.
    intros ->%String.eqb_eq [H|H]; injection H as <-; apply str_ltb_irrefl.
  - destruct b as [| | | |m|]; try done. revert m.
    induction IH as [|x l Hx _ IHl]; intros [|y m]; try done.
    + simpl. by intros _ [H|H]; injection H as <-.
    + rewrite py_eq_cons, !py_lt_cons. intros [Exy Elm]%andb_true_iff.
      rewrite Exy. intros [H|H].
      * apply (IHl m); [done|by left].
      * destruct (py_eq y x).
        -- apply (IHl m); [done|by right].
        -- apply (Hx y); [done|by right].
  - destruct b; cbn -[Z.eqb Z.ltb]; try done; by intros _ [?|?].
Qed.

(** [<] is asymmetric wherever it answers. *)
Lemma py_lt_asym a b c :
  py_lt a b = Ret true -> py_lt b a = Ret c -> c = false.
Proof.
  assert (forall n m c, Ret (n <? m)%Z = Ret true -> Ret (m <? n)%Z = Ret c ->
                        c = false) as Hnum.
  { intros n m c0 H1 H2. injection H1 as H1. injection H2 as <-.
    apply Z.ltb_lt in H1. apply Z.ltb_ge. lia. }
  revert b c. induction a as [|x|n|s|l IH|d] using value_induction; intros b c.
  - by destruct b.
  - destruct b as [|y|m| | |]; cbn -[Z.eqb Z.ltb]; try done; apply Hnum.
  - destruct b as [|y|m| | |]; cbn -[Z.eqb Z.ltb]; try done; apply Hnum.
  - destruct b as [| | |t| |]; cbn -[Z.eqb Z.ltb]; try done.
    intros H1 H2. injection H1 as H1. injection H2 as <-. by apply str_ltb_asym.
  - destruct b as [| | | |m|]; try done. revert m.
    induction IH as [|x l Hx _ IHl]; intros [|y m]; try done.
    + simpl. intros _ H. by injection H as <-.
    + rewrite !py_lt_cons.
      destruct (py_eq x y) eqn:Exy, (py_eq y x) eqn:Eyx.
      * apply IHl.
      * intros _ H. apply (py_eq_not_lt x y); [done|by right].
      * intros H. pose proof (py_eq_not_lt y x true Eyx (or_intror H)). done.
      * apply Hx.
  - by destruct b.
Qed.

Ltac num_order :=
  intros;
  repeat match goal with
         | x : bool |- _ => destruct x
         end;
  cbn -[Z.eqb Z.ltb] in *;
  repeat match goal with
         | H : Ret _ = Ret _ |- _ => injection H as H
         end;
  subst;
  repeat match goal with
         | H : context [Z.ltb ?a ?b] |- _ => destruct (Z.ltb_spec a b)
         | H : context [Z.eqb ?a ?b] |- _ => destruct (Z.eqb_spec a b)
         | |- context [Z.ltb ?a ?b] => destruct (Z.ltb_spec a b)
         | |- context [Z.eqb ?a ?b] => destruct (Z.eqb_spec a b)
         end;
  try done; try lia.

(** Equality is symmetric between values that [<] can compare. *)
Lemma py_eq_sym_lt a b r :
  py_eq a b = true -> py_lt b a = Ret r -> py_eq b a = true.
Proof.
  revert b r. induction a as [|x|n|s|l IH|d] using value_induction; intros b r.
  - by destruct b.
  - destruct b as [|y|m| | |]; cbn -[Z.eqb Z.ltb]; try done; num_order.
  - destruct b as [|y|m| | |]; cbn -[Z.eqb Z.ltb]; try done; num_order.
  - destruct b as [| | |t| |]; cbn -[Z.eqb Z.ltb]; try done.
    intros H _. by rewrite String.eqb_sym.
  - destruct b as [| | | |m|]; try done. revert m.
    induction IH as [|x l Hx _ IHl]; intros [|y m]; try done.
    rewrite !py_eq_cons, py_lt_cons. intros [Exy Elm]%andb_true_iff.
    destruct (py_eq y x) eqn:Eyx; [apply IHl; done|].
    intros H. by rewrite (Hx y r Exy H) in Eyx.
  - by destruct b.
Qed.

(** Equality is transitive between values that [<] can compare. *)
Lemma py_eq_trans_lt a b c r :
  py_eq a b = true -> py_eq b c = true -> py_lt a c = Ret r -> py_eq a c = true.
Proof.
  revert b c r. induction a as [|x|n|s|l IH|d] using value_induction; intros b c r.
  - by destruct c.
  - destruct b as [|y|m| | |], c as [|z|k| | |]; cbn -[Z.eqb Z.ltb]; try done; num_order.
  - destruct b as [|y|m| | |], c as [|z|k| | |]; cbn -[Z.eqb Z.ltb]; try done; num_order.
  - destruct b as [| | |t| |], c as [| | |u| |]; cbn -[Z.eqb Z.ltb]; try done.
    intros ->%String.eqb_eq ->%String.eqb_eq _. apply String.eqb_refl.
  - destruct b as [| | | |m|]; try done. destruct c as [| | | |k|]; try done.
    revert m k.
    induction IH as [|x l Hx _ IHl]; intros [|y m] [|z k]; try done.
    rewrite !py_eq_cons, py_lt_cons.
    intros [Exy Elm]%andb_true_iff [Eyz Emk]%andb_true_iff.
    destruct (py_eq x z) eqn:Exz; [by apply (IHl m k)|].
    intros H. by rewrite (Hx y z r Exy Eyz H) in Exz.
  - by destruct c.
Qed.

(** [<] does not tell equal values apart, on either side. *)
Lemma py_lt_congr_l a b c r r' :
  py_eq a b = true -> py_eq b a = true ->
  py_lt b c = Ret r -> py_lt a c = Ret r' -> r = r'.
Proof.
  revert b c r r'. induction a as [|x|n|s|l IH|d] using value_induction; intros b c r r'.
  - by destruct c.
  - destruct b as [|y|m| | |], c as [|z|k| | |]; cbn -[Z.eqb Z.ltb]; try done; num_order.
  - destruct b as [|y|m| | |], c as [|z|k| | |]; cbn -[Z.eqb Z.ltb]; try done; num_order.
  - destruct b as [| | |t| |], c as [| | |u| |]; cbn -[Z.eqb Z.ltb]; try done.
    intros ->%String.eqb_eq _ H1 H2. congruence.
  - destruct b as [| | | |m|]; try done. destruct c as [| | | |k|]; try done.
    revert m k.
    induction IH as [|x l Hx _ IHl]; intros [|y m] [|z k]; try done;
      try (simpl; congruence).
    rewrite !py_eq_cons, !py_lt_cons.
    intros [Exy Elm]%andb_true_iff [Eyx Eml]%andb_true_iff.
    destruct (py_eq y z) eqn:Eyz, (py_eq x z) eqn:Exz.
    + by apply (IHl m k).
    + intros _ H. by rewrite (py_eq_trans_lt x y z r' Exy Eyz H) in Exz.
    + intros H _. by rewrite (py_eq_trans_lt y x z r Eyx Exz H) in Eyz.
    + by apply (Hx y z).
  - by destruct c.
Qed.

Lemma py_lt_congr_r a b c r r' :
  py_eq b c = true -> py_eq c b = true ->
  py_lt a b = Ret r -> py_lt a c = Ret r' -> r = r'.
Proof.
  revert b c r r'. induction a as [|x|n|s|l IH|d] using value_induction; intros b c r r'.
  - by destruct b.
  - destruct b as [|y|m| | |], c as [|z|k| | |]; cbn -[Z.eqb Z.ltb]; try done; num_order.
  - destruct b as [|y|m| | |], c as [|z|k| | |]; cbn -[Z.eqb Z.ltb]; try done; num_order.
  - destruct b as [| | |t| |], c as [| | |u| |]; cbn -[Z.eqb Z.ltb]; try done.
    intros ->%String.eqb_eq _ H1 H2. congruence.
  - destruct b as [| | | |m|]; try done. destruct c as [| | | |k|]; try done.
    revert m k.
    induction IH as [|x l Hx _ IHl]; intros [|y m] [|z k]; try done;
      try (simpl; congruence).
    rewrite !py_eq_cons, !py_lt_cons.
    intros [Eyz Emk]%andb_true_iff [Ezy Ekm]%andb_true_iff.
    destruct (py_eq x y) eqn:Exy, (py_eq x z) eqn:Exz.
    + by apply (IHl m k).
    + intros _ H. by rewrite (py_eq_trans_lt x y z r' Exy Eyz H) in Exz.
    + intros H _. by rewrite (py_eq_trans_lt x z y r Exz Ezy H) in Exy.
    + by apply (Hx y z).
  - by destruct b.
Qed.

(** Two values neither of which is below the other are equal. *)
Lemma py_lt_total a b :
  py_lt a b = Ret false -> py_lt b a = Ret false -> py_eq a b = true.
Proof.
  revert b. induction a as [|x|n|s|l IH|d] using value_induction; intros b.
  - by destruct b.
  - destruct b as [|y|m| | |]; cbn -[Z.eqb Z.ltb]; try done; num_order.
  - destruct b as [|y|m| | |]; cbn -[Z.eqb Z.ltb]; try done; num_order.
  - destruct b as [| | |t| |]; cbn -[Z.eqb Z.ltb]; try done.
    intros H1 H2. injection H1 as H1. injection H2 as H2.
    destruct (str_ltb_trichotomy s t) as [?|[->|?]]; [congruence| |congruence].
    apply String.eqb_refl.
  - destruct b as [| | | |m|]; try done. revert m.
    induction IH as [|x l Hx _ IHl]; intros [|y m]; try done.
    rewrite py_eq_cons, !py_lt_cons.
    destruct (py_eq x y) eqn:Exy, (py_eq y x) eqn:Eyx.
    + apply IHl.
    + intros _ H. by rewrite (py_eq_sym_lt x y false Exy H) in Eyx.
    + intros H _. by rewrite (py_eq_sym_lt y x false Eyx H) in Exy.
    + intros H1 H2. by rewrite (Hx y H1 H2) in Exy.
  - by destruct b.
Qed.

(** Among values that [<] can compare in every order, not being below
    is transitive. *)
Lemma py_not_lt_trans a b c rab rbc rac r :
  py_lt a b = Ret rab -> py_lt b c = Ret rbc -> py_lt a c = Ret rac ->
  py_lt b a = Ret false -> py_lt c b = Ret false -> py_lt c a = Ret r ->
  r = false.
Proof.
  revert b c rab rbc rac r.
  induction a as [|x|n|s|l IH|d] using value_induction; intros b c rab rbc rac r.
  - by destruct b.
  - destruct b as [|y|m| | |], c as [|z|k| | |]; cbn -[Z.eqb Z.ltb]; try done; num_order.
  - destruct b as [|y|m| | |], c as [|z|k| | |]; cbn -[Z.eqb Z.ltb]; try done; num_order.
  - destruct b as [| | |t| |], c as [| | |u| |]; cbn -[Z.eqb Z.ltb]; try done.
    intros _ _ _ H1 H2 H3. injection H1 as H1. injection H2 as H2. injection H3 as <-.
    by apply (str_not_ltb_trans s t u).
  - destruct b as [| | | |m|]; try done. destruct c as [| | | |k|]; try done.
    revert m k rab rbc rac r.
    induction IH as [|x l Hx _ IHl]; intros [|y m] [|z k] rab rbc rac r; try done;
      try (simpl; congruence).
    rewrite !py_lt_cons.
    destruct (py_eq x y) eqn:Exy, (py_eq y x) eqn:Eyx,
             (py_eq y z) eqn:Eyz, (py_eq z y) eqn:Ezy,
             (py_eq x z) eqn:Exz, (py_eq z x) eqn:Ezx;
      intros Hab Hbc Hac Hba Hcb Hca;
      try match goal with
          | E : py_eq ?u ?v = true, F : py_eq ?v ?u = false,
            H : py_lt ?v ?u = Ret _ |- _ =>
              by rewrite (py_eq_sym_lt u v _ E H) in F
          end.
    + by apply (IHl m k rab rbc rac r).
    + by rewrite (py_eq_trans_lt x y z rac Exy Eyz Hac) in Exz.
    + by rewrite (py_eq_trans_lt y x z rbc Eyx Exz Hbc) in Eyz.
    + symmetry. by apply (py_lt_congr_r z y x false r Eyx Exy).
    + by rewrite (py_eq_trans_lt x z y rab Exz Ezy Hab) in Exy.
    + symmetry. by apply (py_lt_congr_l z y x false r Ezy Eyz).
    + pose proof (py_lt_congr_r y x z false rbc Exz Ezx Hba Hbc) as <-.
      by rewrite (py_lt_total y z Hbc Hcb) in Eyz.
    + by apply (Hx y z rab rbc rac r).
  - by destruct b.
Qed.

Section SortFacts.
Context {A : Type} (lt : A -> A -> bool).

Lemma insert_sorted_Permutation x l : insert_sorted lt x l ≡ₚ x :: l.
Proof.
  induction l as [|y l IH]; simpl; [done|].
  destruct (lt y x); [|done]. rewrite IH. apply Permutation_swap.
Qed.

Lemma sort_by_Permutation l : sort_by lt l ≡ₚ l.
Proof.
  induction l as [|x l IH]; simpl; [done|].
  rewrite insert_sorted_Permutation. by rewrite IH.
Qed.

(** [lt] need only be an order on the items at hand, those in [P]. *)
Context (P : A -> Prop).
Hypothesis lt_asym : forall x y, P x -> P y -> lt x y = true -> lt y x = false.
Hypothesis not_lt_trans :
  forall x y z, P x -> P y -> P z ->
    lt y x = false -> lt z y = false -> lt z x = false.

Lemma insert_sorted_StronglySorted x l :
  P x -> Forall P l ->
  StronglySorted (not_after lt) l -> StronglySorted (not_after lt) (insert_sorted lt x l).
Proof.
  intros Px HP. induction 1 as [|y l Hl IH Hy]; simpl.
  - repeat constructor.
  - apply Forall_cons in HP as [Py HP]. destruct (lt y x) eqn:E.
    + constructor; [by apply IH|].
      rewrite insert_sorted_Permutation. constructor; [|done].
      by apply lt_asym.
    + constructor; [by constructor|].
      constructor; [done|].
      rewrite Forall_forall in Hy, HP. apply Forall_forall. intros z Hz.
      unfold not_after in *. eauto.
Qed.

Lemma sort_by_StronglySorted l :
  Forall P l -> StronglySorted (not_after lt) (sort_by lt l).
Proof.
  induction 1 as [|x l Px HP IH]; simpl; [constructor|].
  apply insert_sorted_StronglySorted; [done| |done].
  by rewrite sort_by_Permutation.
Qed.

(** Sorting does not depend on the order in which the items arrive,
    as long as no two distinct items tie. *)
Lemma sort_by_order_independent l l' :
  Forall P l ->
  (forall x y, x ∈ l -> y ∈ l -> lt y x = false -> lt x y = false -> x = y) ->
  l ≡ₚ l' -> sort_by lt l = sort_by lt l'.
Proof.
  intros HP Htie Hperm.
  apply (StronglySorted_unique_strong (not_after lt)).
  - intros x y Hx Hy H1 H2. apply Htie; [| |done..].
    + by rewrite sort_by_Permutation in Hx.
    + by rewrite sort_by_Permutation, <- Hperm in Hy.
  - by apply sort_by_StronglySorted.
  - apply sort_by_StronglySorted. by rewrite <- Hperm.
  - by rewrite !sort_by_Permutation.
Qed.

End SortFacts.

Lemma sorted_str_Permutation l : sorted_str l ≡ₚ l.
Proof. apply sort_by_Permutation. Qed.

Lemma sorted_str_sorted l : StronglySorted (not_after str_ltb) (sorted_str l).
Proof.
  apply (sort_by_StronglySorted str_ltb (fun _ => True)).
  - intros x y _ _. apply str_ltb_asym.
  - intros x y z _ _ _. apply str_not_ltb_trans.
  - by apply Forall_true.
Qed.

(** Without duplicates the sorted list ascends strictly. *)
Lemma sorted_str_strict l : NoDup l -> StronglySorted str_lt (sorted_str l).
Proof.
  intros Hnd.
  assert (NoDup (sorted_str l)) as Hnd' by (by rewrite sorted_str_Permutation).
  pose proof (sorted_str_sorted l) as Hs.
  induction Hs as [|x k Hk IH Hx]; [constructor|].
  apply NoDup_cons in Hnd' as [Hx' Hnd']. constructor; [by apply IH|].
  apply Forall_forall. intros y Hy. rewrite Forall_forall in Hx.
  specialize (Hx y Hy). unfold not_after in Hx.
  destruct (str_ltb_trichotomy x y) as [H|[->|H]]; [done|done|congruence].
Qed.

Lemma sorted_str_order_independent l l' : l ≡ₚ l' -> sorted_str l = sorted_str l'.
Proof.
  apply (sort_by_order_independent str_ltb (fun _ => True)).
  - intros x y _ _. apply str_ltb_asym.
  - intros x y z _ _ _. apply str_not_ltb_trans.
  - by apply Forall_true.
  - intros x y _ _ H1 H2.
    destruct (str_ltb_trichotomy x y) as [H|[->|H]]; [congruence|done|congruence].
Qed.

(** ** Path normalization and protected-zone conflicts *)

Lemma elem_of_check_protected_conflicts allowed protected p :
  p ∈ Runloop._check_protected_conflicts allowed protected <->
  p ∈ Runloop._normalize_paths allowed /\ p ∈ Runloop._normalize_paths protected.
Proof.
  unfold Runloop._check_protected_conflicts.
  rewrite sorted_str_Permutation, elem_of_elements, elem_of_intersection.
  by rewrite !elem_of_list_to_set.
Qed.


Lemma normalize_paths_Permutation paths paths' :
  Runloop.or_empty paths' ≡ₚ Runloop.or_empty paths ->
  forall p, p ∈ Runloop._normalize_paths paths' <-> p ∈ Runloop._normalize_paths paths.
Proof.
  intros H p. unfold Runloop._normalize_paths.
  by rewrite (Permutation_map Runloop.normalize_path H).
Qed.










(** ** Pre-flight classification *)

Lemma check_protected_conflicts_nil allowed protected :
  Runloop._check_protected_conflicts allowed protected = [] <->
  ~ exists p, p ∈ Runloop._normalize_paths allowed /\ p ∈ Runloop._normalize_paths protected.
Proof.
  split.
  - intros H [p Hp]. apply elem_of_check_protected_conflicts in Hp.
    rewrite H in Hp. by apply elem_of_nil in Hp.
  - intros H.
    destruct (Runloop._check_protected_conflicts allowed protected) as [|p l] eqn:E; [done|].
    exfalso. apply H. exists p. apply elem_of_check_protected_conflicts.
    rewrite E. by left.
Qed.

(** C10.  In [preflight_checks] a protected-path conflict takes
    precedence over a failed import: whenever the normalized allowed and
    protected paths meet, the classification is [blocked_needs_override],
    whatever the import probe says; it is [environment_mismatch] exactly
    when they do not meet and the import failed; and [ok] is true exactly
    when the classification is null. *)
Theorem preflight_checks_classification
    (probe : Runloop.import_probe)
    (allowed protected run_commands env_vars : option (list string)) :
  let pre := Runloop.preflight_checks probe allowed protected run_commands env_vars in
  let clash := exists p, p ∈ Runloop._normalize_paths allowed /\
                         p ∈ Runloop._normalize_paths protected in
  (clash -> Runloop.classification_ pre = Some Runloop.blocked_needs_override)
  /\ (Runloop.classification_ pre = Some Runloop.environment_mismatch <->
      ~ clash /\ fst probe = false)
  /\ (Runloop.classification_ pre = None <-> ~ clash /\ fst probe = true)
  /\ (Runloop.ok pre = true <-> Runloop.classification_ pre = None)
  /\ Runloop.import_ok pre = fst probe
  /\ Runloop.conflicts pre = Runloop._check_protected_conflicts allowed protected.
Proof.
  intros pre clash. subst pre. destruct probe as [import_ok err].
  unfold Runloop.preflight_checks.
  assert (Runloop._check_protected_conflicts (Some (Runloop.or_empty allowed))
            (Some (Runloop.or_empty protected)) =
          Runloop._check_protected_conflicts allowed protected) as -> by done.
  pose proof (check_protected_conflicts_nil allowed protected) as Hnil.
  fold clash in Hnil.
  destruct (Runloop._check_protected_conflicts allowed protected) as [|c cs]; simpl.
  - assert (~ clash) as Hn by (by apply Hnil).
    destruct import_ok; split_and!; try done; try tauto;
      split; try done; intros [? ?]; done.
  - assert (~ ~ clash) as Hc by (intros Hn; by apply Hnil in Hn).
    split_and!; try done; split; try done; tauto.
Qed.

(** ** Fix-gate synthesis *)

(** C7.  [synthesize_fix_gate] returns none exactly when both flags are
    true.  Otherwise it returns a story with the fixed id
    [fix_gate_virtual], priority 0, status [ready], no dependencies, no
    allowed paths, and a title that names the failed signals and no other:
    it mentions import exactly when [import_ok] is false and coverage
    exactly when [tests_ok] is false. *)
Theorem synthesize_fix_gate_spec (import_ok tests_ok : bool) :
  match Workflow.synthesize_fix_gate import_ok tests_ok with
  | None => import_ok = true /\ tests_ok = true
  | Some story =>
      (import_ok = false \/ tests_ok = false)
      /\ dict_lookup "id" story = Some (VStr "fix_gate_virtual")
      /\ dict_lookup "priority" story = Some (VInt 0)
      /\ dict_lookup "status" story = Some (VStr "ready")
      /\ dict_lookup "dependencies" story = Some (VList [])
      /\ dict_lookup "allowed_paths" story = Some (VList [])
      /\ exists title,
           dict_lookup "title" story = Some (VStr title)
           /\ contains "import" (lower title) = negb import_ok
           /\ contains "coverage" (lower title) = negb tests_ok
  end.
Proof.
  destruct import_ok, tests_ok; simpl; try done;
    (split_and!; [auto | reflexivity.. | eexists; split_and!; reflexivity]).
Qed.

(** ** Selection of the next story *)

Lemma bind_Ret_inv {A B} (m : result A) (k : A -> result B) (b : B) :
  (x ← m; k x) = Ret b -> exists a, m = Ret a /\ k a = Ret b.
Proof. destruct m as [a|e]; [eauto | done]. Qed.

Lemma eq_str_true v s : eq_str v s = true <-> v = VStr s.
Proof.
  destruct v; simpl; try (split; congruence).
  rewrite String.eqb_eq. split; congruence.
Qed.

Lemma key_eqb_hashable a b : key_eqb a b = true -> hashable a = true.
Proof. by destruct a, b. Qed.

Lemma index_lookup_hashable dep idx v :
  Workflow.index_lookup dep idx = Some v -> hashable dep = true.
Proof.
  induction idx as [|[k w] idx IH]; simpl; [done|].
  destruct (key_eqb dep k) eqn:E; [|done]. intros _. by eapply key_eqb_hashable.
Qed.

Lemma all_done_spec deps idx b :
  Workflow.all_done deps idx = Ret b ->
  (b = true <->
   Forall (fun dep => Workflow.index_lookup dep idx = Some (VStr "done")) deps).
Proof.
  revert b. induction deps as [|dep deps IH]; simpl; intros b H.
  - injection H as <-. split; [constructor | done].
  - apply bind_Ret_inv in H as (st & Hget & H).
    unfold Workflow.index_get in Hget.
    destruct (hashable dep); [|done]. injection Hget as <-.
    destruct (Workflow.index_lookup dep idx) as [v|] eqn:El; simpl in H.
    + destruct (eq_str v "done") eqn:Ev; simpl in H.
      * apply eq_str_true in Ev as ->. rewrite (IH b H).
        rewrite Forall_cons. split; [by intros ? | by intros [_ ?]].
      * injection H as <-. split; [done|].
        intros [Hd _]%Forall_cons. rewrite El in Hd. injection Hd as ->. done.
    + injection H as <-. split; [done|].
      intros [Hd _]%Forall_cons. by rewrite El in Hd.
Qed.

Lemma all_done_returns deps idx :
  Forall (fun dep => hashable dep = true) deps ->
  exists b, Workflow.all_done deps idx = Ret b.
Proof.
  induction 1 as [|dep deps Hh _ [b IH]]; simpl; [eauto|].
  unfold Workflow.index_get. rewrite Hh. simpl.
  destruct (negb _); eauto.
Qed.

Lemma status_ready_lookup (s : dict) :
  eq_str (dict_get "status" VNone s) "ready" = true <->
  dict_lookup "status" s = Some (VStr "ready").
Proof.
  rewrite eq_str_true. unfold dict_get.
  destruct (dict_lookup "status" s); split; congruence.
Qed.

Lemma is_candidate_spec idx s b :
  Workflow.is_candidate idx s = Ret b -> (b = true <-> Workflow.eligible idx s).
Proof.
  unfold Workflow.is_candidate, Workflow.eligible. intros H.
  pose proof (status_ready_lookup s) as Hst.
  destruct (eq_str (dict_get "status" VNone s) "ready").
  - unfold Workflow._deps_satisfied in H.
    apply bind_Ret_inv in H as (deps & Hit & H).
    apply all_done_spec in H. rewrite H. split.
    + intros Hall. split; [by apply Hst|]. eauto.
    + intros [_ (deps' & Hit' & Hall)]. congruence.
  - injection H as <-. split; [done|]. intros [Hr _]. apply Hst in Hr. done.
Qed.

Lemma is_candidate_returns idx s :
  Workflow.well_formed s -> exists b, Workflow.is_candidate idx s = Ret b.
Proof.
  intros [_ (deps & Hit & Hh)]. unfold Workflow.is_candidate.
  destruct (eq_str _ _); [|eauto].
  unfold Workflow._deps_satisfied. rewrite Hit. simpl.
  by apply all_done_returns.
Qed.

Lemma filter_stories_spec idx stories candidates :
  Workflow.filter_stories idx stories = Ret candidates ->
  Workflow.first_eligible idx stories (head candidates).
Proof.
  revert candidates. induction stories as [|s stories IH]; simpl; intros cs H.
  - injection H as <-. constructor.
  - apply bind_Ret_inv in H as (c & Hc & H).
    apply bind_Ret_inv in H as (tl & Htl & H). injection H as <-.
    apply is_candidate_spec in Hc. specialize (IH tl Htl).
    destruct c; simpl.
    + exists [], stories. split_and!; [done|by apply Hc|constructor].
    + assert (~ Workflow.eligible idx s) as Hn by (intros He; by apply Hc in He).
      destruct tl as [|t tl]; simpl in *.
      * by constructor.
      * destruct IH as (before & after & -> & He & Hb).
        exists (s :: before), after. split_and!; [done|done|by constructor].
Qed.

Lemma filter_stories_returns idx stories :
  Forall Workflow.well_formed stories ->
  exists candidates, Workflow.filter_stories idx stories = Ret candidates.
Proof.
  induction 1 as [|s stories Hs _ [tl IH]]; simpl; [eauto|].
  destruct (is_candidate_returns idx s Hs) as [c ->]. rewrite IH. simpl. eauto.
Qed.

Lemma status_index_from_returns stories idx0 :
  Forall Workflow.well_formed stories ->
  exists idx, Workflow.status_index_from stories idx0 = Ret idx.
Proof.
  intros H. revert idx0.
  induction H as [|s stories [(k & Hk & Hh) _] _ IH]; simpl; intros idx0; [eauto|].
  unfold dict_item. rewrite Hk. simpl. rewrite Hh. apply IH.
Qed.

(** C1.  Whenever [pick_next] returns, it returns the first story of the
    list that is eligible for the status index built from the list (status
    [ready], every dependency [done] in the index, a dependency missing
    from the index counting as not done) and none when no story is
    eligible; it does return on every list of well-formed stories.  On a
    list in backlog order the story returned sorts no later than any other
    eligible story.  For the stories A, B, C of the example, discovery
    yields B, C, A, the pick is A, and once A is done the pick is B; a
    story waiting on an unknown dependency is not picked. *)
Theorem pick_next_returns_first_eligible (stories : list dict) :
  (forall r, Workflow.pick_next stories = Ret r ->
     exists idx, Workflow.status_index stories = Ret idx
                 /\ Workflow.first_eligible idx stories r)
  /\ (Forall Workflow.well_formed stories ->
      exists r, Workflow.pick_next stories = Ret r)
  /\ (Workflow.backlog_sorted stories ->
      forall idx s t,
        Workflow.status_index stories = Ret idx ->
        Workflow.pick_next stories = Ret (Some s) ->
        t ∈ stories -> Workflow.eligible idx t ->
        t = s \/ Workflow.backlog_le s t)
  /\ Workflow.discover_backlog Json.loads (Some Workflow.example_backlog)
     = Ret [Workflow.story_B; Workflow.story_C; Workflow.story_A]
  /\ Workflow.pick_next [Workflow.story_B; Workflow.story_C; Workflow.story_A]
     = Ret (Some Workflow.story_A)
  /\ Workflow.pick_next
       (Workflow.mark_done "A" [Workflow.story_B; Workflow.story_C; Workflow.story_A])
     = Ret (Some Workflow.story_B)
  /\ Workflow.pick_next [Workflow.story_waiting] = Ret None.
Proof.
  assert (forall r, Workflow.pick_next stories = Ret r ->
     exists idx, Workflow.status_index stories = Ret idx
                 /\ Workflow.first_eligible idx stories r) as Hsafe.
  { intros r H. destruct stories as [|s0 stories].
    - injection H as <-. exists []. split; [done|constructor].
    - unfold Workflow.pick_next in H.
      apply bind_Ret_inv in H as (idx & Hidx & H).
      apply bind_Ret_inv in H as (cs & Hcs & H). injection H as <-.
      exists idx. split; [done|]. by apply filter_stories_spec. }
  split_and!.
  - exact Hsafe.
  - intros Hwf. destruct stories as [|s0 stories]; [by exists None|].
    unfold Workflow.pick_next, Workflow.status_index.
    destruct (status_index_from_returns (s0 :: stories) [] Hwf) as [idx ->].
    destruct (filter_stories_returns idx (s0 :: stories) Hwf) as [cs Hcs].
    simpl in *. rewrite Hcs. simpl. eauto.
  - intros Hsorted idx s t Hidx Hpick Ht He.
    destruct (Hsafe _ Hpick) as (idx' & Hidx' & Hfirst).
    assert (idx' = idx) as -> by congruence.
    destruct Hfirst as (before & after & -> & _ & Hbefore).
    apply elem_of_app in Ht as [Ht|Ht].
    + rewrite Forall_forall in Hbefore. by destruct (Hbefore t Ht).
    + apply elem_of_cons in Ht as [->|Ht]; [by left|right].
      apply StronglySorted_app in Hsorted as (_ & _ & Hs).
      apply StronglySorted_cons in Hs as [Hs _].
      rewrite Forall_forall in Hs. by apply Hs.
  - vm_compute. reflexivity.
  - vm_compute. reflexivity.
  - vm_compute. reflexivity.
  - vm_compute. reflexivity.
Qed.

(** ** Backlog discovery *)

Lemma dict_lookup_set_eq k v d : dict_lookup k (dict_set k v d) = Some v.
Proof.
  induction d as [|[k' v'] d IH]; simpl; [by rewrite String.eqb_refl|].
  destruct (String.eqb k k') eqn:E; simpl; [by rewrite String.eqb_refl|by rewrite E].
Qed.

Lemma dict_lookup_set_ne k k' v d :
  k <> k' -> dict_lookup k' (dict_set k v d) = dict_lookup k' d.
Proof.
  intros Hne.
  assert (String.eqb k' k = false) as Hf by (apply String.eqb_neq; congruence).
  induction d as [|[k0 v0] d IH]; simpl; [by rewrite Hf|].
  destruct (String.eqb k k0) eqn:E; simpl.
  - apply String.eqb_eq in E as <-. by rewrite Hf.
  - by rewrite IH.
Qed.

Lemma dict_lookup_setdefault_eq k v d :
  dict_lookup k (dict_setdefault k v d) =
  Some (match dict_lookup k d with Some x => x | None => v end).
Proof.
  unfold dict_setdefault, dict_has.
  destruct (dict_lookup k d) eqn:E; [done|apply dict_lookup_set_eq].
Qed.

Lemma dict_lookup_setdefault_ne k k' v d :
  k <> k' -> dict_lookup k' (dict_setdefault k v d) = dict_lookup k' d.
Proof.
  intros Hne. unfold dict_setdefault.
  destruct (dict_has k d); [done|by apply dict_lookup_set_ne].
Qed.

Lemma in_valid_statuses_spec (d : dict) (valid : bool) :
  Workflow.in_valid_statuses (dict_get "status" VNone d) = Ret valid ->
  match dict_lookup "status" d with
  | Some (VStr st) =>
      if existsb (String.eqb st) Workflow.VALID_STATUSES then VStr st else VStr "ready"
  | _ => VStr "ready"
  end = if valid then dict_get "status" VNone d else VStr "ready".
Proof.
  unfold dict_get. destruct (dict_lookup "status" d) as [[]|]; simpl;
    intros H; simplify_eq; done.
Qed.

Lemma normalize_entry_Some story s :
  Workflow.normalize_entry story = Ret (Some s) ->
  exists d, story = VDict d /\ dict_has "id" d = true /\ Workflow.normalized_from d s.
Proof.
  unfold Workflow.normalize_entry. destruct (truthy story); simpl; [|done].
  intros H. apply bind_Ret_inv in H as (has_id & Hm & H).
  destruct has_id; simpl in H; [|done].
  destruct story as [| | | |l|d]; try done.
  simpl in Hm. injection Hm as Hid.
  apply bind_Ret_inv in H as (valid & Hv & H). injection H as <-.
  apply in_valid_statuses_spec in Hv.
  exists d. split_and!; [done|done|]. unfold Workflow.normalized_from.
  rewrite Hv. split_and!.
  - rewrite !dict_lookup_setdefault_ne by done. destruct valid.
    + unfold dict_get in *. destruct (dict_lookup "status" d) as [v|] eqn:E; [done|].
      by destruct (dict_lookup "status" d).
    + apply dict_lookup_set_eq.
  - rewrite dict_lookup_setdefault_ne by done. rewrite dict_lookup_setdefault_eq.
    destruct valid; [done|]. by rewrite dict_lookup_set_ne.
  - rewrite dict_lookup_setdefault_eq. rewrite dict_lookup_setdefault_ne by done.
    destruct valid; [done|]. by rewrite dict_lookup_set_ne.
  - intros k H1 H2 H3. rewrite !dict_lookup_setdefault_ne by done.
    destruct valid; [done|]. by rewrite dict_lookup_set_ne.
Qed.

Lemma normalize_entry_None d :
  Workflow.normalize_entry (VDict d) = Ret None -> dict_has "id" d = false.
Proof.
  unfold Workflow.normalize_entry. destruct (truthy (VDict d)) eqn:Et; simpl.
  - intros H. destruct (dict_has "id" d); [|done]. simpl in H.
    apply bind_Ret_inv in H as (valid & _ & H). done.
  - destruct d; [done|discriminate].
Qed.

Lemma scan_spec json_loads entries out0 out :
  Workflow.scan json_loads entries out0 = Ret out ->
  exists news, out = out0 ++ news
    /\ Forall2 Workflow.normalized_from (omap (Workflow.kept json_loads) entries) news.
Proof.
  revert out0. induction entries as [|[name read] entries IH]; simpl; intros out0 H.
  - injection H as <-. exists []. by rewrite app_nil_r.
  - unfold Workflow.kept at 1. simpl.
    destruct (Workflow.is_story_file name); simpl in *; [|by apply IH].
    destruct (Workflow._load_any json_loads read) as [story|e]; [|by apply IH].
    apply bind_Ret_inv in H as (r & Hn & H). destruct r as [s|].
    + apply normalize_entry_Some in Hn as (d & -> & Hid & Hnorm). rewrite Hid.
      destruct (IH _ H) as (news & -> & HF).
      exists (s :: news). split; [by rewrite <- app_assoc|by constructor].
    + destruct story as [| | | |l|d]; try by apply IH.
      apply normalize_entry_None in Hn. rewrite Hn. by apply IH.
Qed.

Lemma key_ltb_false_le a b : Workflow.key_ltb b a = false <-> Workflow.key_le a b.
Proof.
  unfold Workflow.key_ltb, Workflow.key_le, str_lt.
  destruct a as [p t], b as [q u]; simpl.
  destruct (Z.eqb_spec q p) as [->|Hne].
  - pose proof (str_ltb_trichotomy t u) as Ht.
    pose proof (str_ltb_asym t u). pose proof (str_ltb_irrefl u).
    destruct (str_ltb u t) eqn:E; split; try done.
    + intros [?|[_ [->|H']]]; [lia|congruence|]. specialize (H H'). congruence.
    + intros _. right. split; [done|]. destruct Ht as [?|[?|?]]; auto. congruence.
  - rewrite Z.ltb_ge. split; [intros ?; left; lia|]. intros [?|[? _]]; lia.
Qed.

Lemma key_le_trans a b c :
  Workflow.key_le a b -> Workflow.key_le b c -> Workflow.key_le a c.
Proof.
  unfold Workflow.key_le, str_lt. destruct a as [p t], b as [q u], c as [r w]; simpl.
  intros [?|[-> Ht]] [?|[-> Hu]]; [left; lia..|]. right. split; [done|].
  destruct Ht as [->|Ht], Hu as [->|Hu]; auto.
  right. by eapply str_ltb_trans.
Qed.

Lemma key_ltb_asym a b : Workflow.key_ltb a b = true -> Workflow.key_ltb b a = false.
Proof.
  unfold Workflow.key_ltb. destruct a as [p t], b as [q u]; simpl.
  rewrite (Z.eqb_sym q p). destruct (Z.eqb_spec p q) as [->|Hne].
  - apply str_ltb_asym.
  - rewrite Z.ltb_lt, Z.ltb_ge. lia.
Qed.

(** The key of a story is its priority and its title. *)
Lemma sort_key_spec s :
  Workflow.sort_key s = (Workflow.priority_of s, Workflow.title_of s).
Proof. reflexivity. Qed.

Lemma typed_key_spec s :
  Workflow.typed_key (Workflow.sort_key s) = Workflow.priority_and_title s.
Proof.
  unfold Workflow.priority_and_title. rewrite sort_key_spec. simpl.
  by destruct (Workflow.priority_of s) as [| [] | | | |],
              (Workflow.title_of s).
Qed.

Lemma backlog_le_spec a b :
  Workflow.backlog_le a b <-> Workflow.in_backlog_order a b.
Proof.
  unfold Workflow.backlog_le, Workflow.in_backlog_order.
  by rewrite !typed_key_spec.
Qed.

(** On keys made of a number and a text, [<] on tuples is the order on
    numbers, then the order on texts. *)
Lemma pair_lt_typed ka kb a b :
  Workflow.typed_key ka = Some a -> Workflow.typed_key kb = Some b ->
  pair_lt ka kb = Ret (Workflow.key_ltb a b).
Proof.
  assert (forall n t m u,
            (if (n =? m)%Z then if String.eqb t u then Ret false else Ret (str_ltb t u)
             else Ret (n <? m)%Z)
            = Ret (Workflow.key_ltb (n, t) (m, u))) as Hkey.
  { intros n t m u. unfold Workflow.key_ltb. simpl.
    destruct (n =? m)%Z; [|done].
    destruct (String.eqb_spec t u) as [->|_]; [|done]. by rewrite str_ltb_irrefl. }
  destruct ka as [p t], kb as [q u]. unfold pair_lt. simpl.
  destruct p as [|x|n| | |], t as [| | |t| |]; try done;
    destruct q as [|y|m| | |], u as [| | |u| |]; try done;
    intros H1 H2; injection H1 as <-; injection H2 as <-;
    cbn -[Z.eqb Z.ltb]; rewrite <- Hkey; try done.
  - by destruct x, y.
  - by rewrite Z.eqb_sym.
Qed.

Lemma comparable_sym a b : Workflow.comparable a b = Workflow.comparable b a.
Proof.
  unfold Workflow.comparable.
  by destruct (pair_lt (Workflow.sort_key a) (Workflow.sort_key b)),
              (pair_lt (Workflow.sort_key b) (Workflow.sort_key a)).
Qed.

Lemma story_ltb_typed x y kx ky :
  Workflow.typed_key (Workflow.sort_key x) = Some kx ->
  Workflow.typed_key (Workflow.sort_key y) = Some ky ->
  Workflow.story_ltb x y = Workflow.key_ltb kx ky.
Proof.
  intros Hx Hy. unfold Workflow.story_ltb.
  by rewrite (pair_lt_typed _ _ _ _ Hx Hy).
Qed.

Lemma story_ltb_asym x y :
  Workflow.typed_story x -> Workflow.typed_story y ->
  Workflow.story_ltb x y = true -> Workflow.story_ltb y x = false.
Proof.
  unfold Workflow.typed_story. intros [kx Hx] [ky Hy].
  rewrite (story_ltb_typed x y kx ky), (story_ltb_typed y x ky kx) by done.
  apply key_ltb_asym.
Qed.

Lemma story_not_ltb_trans x y z :
  Workflow.typed_story x -> Workflow.typed_story y -> Workflow.typed_story z ->
  Workflow.story_ltb y x = false -> Workflow.story_ltb z y = false ->
  Workflow.story_ltb z x = false.
Proof.
  unfold Workflow.typed_story. intros [kx Hx] [ky Hy] [kz Hz].
  rewrite (story_ltb_typed y x ky kx), (story_ltb_typed z y kz ky),
    (story_ltb_typed z x kz kx) by done.
  rewrite !key_ltb_false_le. apply key_le_trans.
Qed.

(** [<] on keys is asymmetric wherever it answers, whatever the keys. *)
Lemma pair_lt_asym ka kb c :
  pair_lt ka kb = Ret true -> pair_lt kb ka = Ret c -> c = false.
Proof.
  destruct ka as [p t], kb as [q u]. unfold pair_lt. simpl.
  destruct (py_eq p q) eqn:Epq, (py_eq q p) eqn:Eqp.
  - destruct (py_eq t u) eqn:Etu; [done|].
    destruct (py_eq u t) eqn:Eut.
    + intros _ H. by injection H as <-.
    + apply py_lt_asym.
  - destruct (py_eq t u); [done|]. intros _ H.
    apply (py_eq_not_lt p q); [done|by right].
  - intros H. pose proof (py_eq_not_lt q p true Eqp (or_intror H)). done.
  - apply py_lt_asym.
Qed.

Lemma story_ltb_asym_any x y :
  Workflow.story_ltb x y = true -> Workflow.story_ltb y x = false.
Proof.
  unfold Workflow.story_ltb.
  destruct (pair_lt (Workflow.sort_key x) (Workflow.sort_key y)) as [c|] eqn:E1; [|done].
  intros ->.
  destruct (pair_lt (Workflow.sort_key y) (Workflow.sort_key x)) as [c|] eqn:E2; [|done].
  by eapply pair_lt_asym.
Qed.

(** A story that sorts strictly before another is below it for the
    sort. *)
Lemma sorts_before_story_ltb a b :
  Workflow.sorts_before a b -> Workflow.story_ltb a b = true.
Proof.
  unfold Workflow.sorts_before, Workflow.story_ltb. rewrite !sort_key_spec.
  unfold pair_lt. simpl. intros [Hp|[Hp Ht]].
  - destruct (py_eq (Workflow.priority_of a) (Workflow.priority_of b)) eqn:E.
    + pose proof (py_eq_not_lt _ _ true E (or_introl Hp)). done.
    + by rewrite Hp.
  - rewrite Hp.
    destruct (py_eq (Workflow.title_of a) (Workflow.title_of b)) eqn:E.
    + pose proof (py_eq_not_lt _ _ true E (or_introl Ht)). done.
    + by rewrite Ht.
Qed.

Lemma StronglySorted_impl_in {A} (R1 R2 : relation A) (l : list A) :
  (forall x y, x ∈ l -> y ∈ l -> R1 x y -> R2 x y) ->
  StronglySorted R1 l -> StronglySorted R2 l.
Proof.
  intros Himpl Hs. induction Hs as [|x l Hs IH Hx]; [constructor|].
  constructor.
  - apply IH. intros y z Hy Hz. apply Himpl; by right.
  - rewrite Forall_forall in Hx. apply Forall_forall. intros y Hy.
    apply Himpl; [by left|by right|by apply Hx].
Qed.

Lemma sort_stories_spec out out' :
  Workflow.sort_stories out = Ret out' ->
  out' ≡ₚ out /\ out' = sort_by Workflow.story_ltb out.
Proof.
  unfold Workflow.sort_stories. destruct (Workflow.all_comparable out); [|done].
  intros H. injection H as <-. split; [apply sort_by_Permutation|done].
Qed.

(** [<] on two keys is [<] on the two lists of their items. *)
Lemma pair_lt_list a b :
  pair_lt a b = py_lt (VList [fst a; snd a]) (VList [fst b; snd b]).
Proof.
  unfold pair_lt. rewrite py_lt_cons. destruct (py_eq (fst a) (fst b)); [|done].
  rewrite py_lt_cons. by destruct (py_eq (snd a) (snd b)).
Qed.

Lemma comparable_spec a b :
  Workflow.comparable a b = true ->
  exists r r', pair_lt (Workflow.sort_key a) (Workflow.sort_key b) = Ret r
            /\ pair_lt (Workflow.sort_key b) (Workflow.sort_key a) = Ret r'.
Proof.
  unfold Workflow.comparable.
  destruct (pair_lt (Workflow.sort_key a) (Workflow.sort_key b)) as [r|]; [|done].
  destruct (pair_lt (Workflow.sort_key b) (Workflow.sort_key a)) as [r'|]; [|done].
  eauto.
Qed.

(** Two stories of a list the sort accepts can be compared, unless they
    are one story. *)
Lemma all_comparable_elem out x y :
  Workflow.all_comparable out = true -> x ∈ out -> y ∈ out ->
  x = y \/ Workflow.comparable x y = true.
Proof.
  induction out as [|s out IH]; simpl; [by intros _ ?%elem_of_nil|].
  intros [Hs Hout]%andb_true_iff. rewrite forallb_forall in Hs.
  intros [->|Hx]%elem_of_cons [->|Hy]%elem_of_cons.
  - by left.
  - right. by apply Hs, list_elem_of_In.
  - right. rewrite comparable_sym. by apply Hs, list_elem_of_In.
  - by apply IH.
Qed.

Lemma story_ltb_irrefl x : Workflow.story_ltb x x = false.
Proof.
  destruct (Workflow.story_ltb x x) eqn:E; [|done].
  by rewrite (story_ltb_asym_any x x E) in E.
Qed.

(** Among the stories of a list the sort accepts, not being below is
    transitive. *)
Lemma story_not_ltb_trans_in out x y z :
  Workflow.all_comparable out = true -> x ∈ out -> y ∈ out -> z ∈ out ->
  Workflow.story_ltb y x = false -> Workflow.story_ltb z y = false ->
  Workflow.story_ltb z x = false.
Proof.
  intros Hall Hx Hy Hz.
  destruct (all_comparable_elem out x y Hall Hx Hy) as [->|Hxy]; [done|].
  destruct (all_comparable_elem out y z Hall Hy Hz) as [->|Hyz]; [done|].
  destruct (all_comparable_elem out x z Hall Hx Hz) as [->|Hxz];
    [intros _ _; apply story_ltb_irrefl|].
  apply comparable_spec in Hxy as (rxy & ryx & Exy & Eyx).
  apply comparable_spec in Hyz as (ryz & rzy & Eyz & Ezy).
  apply comparable_spec in Hxz as (rxz & rzx & Exz & Ezx).
  unfold Workflow.story_ltb. rewrite Eyx, Ezy, Ezx. intros -> ->.
  rewrite pair_lt_list in Exy, Eyx, Eyz, Ezy, Exz, Ezx.
  by eapply (py_not_lt_trans _ _ _ rxy ryz rxz).
Qed.

(** In the sorted list no story comes after one that is below it. *)
Lemma sort_stories_sorted out out' :
  Workflow.sort_stories out = Ret out' ->
  StronglySorted (not_after Workflow.story_ltb) out'.
Proof.
  unfold Workflow.sort_stories.
  destruct (Workflow.all_comparable out) eqn:Hall; [|done].
  intros H. injection H as <-.
  apply (sort_by_StronglySorted Workflow.story_ltb (fun s => s ∈ out)).
  - intros x y _ _. apply story_ltb_asym_any.
  - intros x y z. by apply story_not_ltb_trans_in.
  - by apply Forall_forall.
Qed.

(** In the sorted list no story comes after one that sorts strictly
    before it. *)
Lemma sort_stories_no_inversion out out' :
  Workflow.sort_stories out = Ret out' ->
  StronglySorted (fun a b => ~ Workflow.sorts_before b a) out'.
Proof.
  intros H. apply (StronglySorted_impl_in (not_after Workflow.story_ltb));
    [|by eapply sort_stories_sorted].
  intros a b _ _ Hab Hb. unfold not_after in Hab.
  apply sorts_before_story_ltb in Hb. congruence.
Qed.

(** Stories of the data model come out in ascending order of priority,
    then title. *)
Lemma sort_stories_typed out out' :
  Workflow.sort_stories out = Ret out' ->
  Forall Workflow.typed_story out ->
  StronglySorted Workflow.backlog_le out'.
Proof.
  intros [_ ->]%sort_stories_spec Htyped.
  apply (StronglySorted_impl_in (not_after Workflow.story_ltb)).
  - intros x y Hx Hy. rewrite sort_by_Permutation in Hx, Hy.
    rewrite Forall_forall in Htyped.
    destruct (Htyped x Hx) as [kx Ex], (Htyped y Hy) as [ky Ey].
    unfold not_after, Workflow.backlog_le.
    rewrite (story_ltb_typed y x ky kx), Ex, Ey by done.
    by rewrite key_ltb_false_le.
  - by apply (sort_by_StronglySorted Workflow.story_ltb Workflow.typed_story
                story_ltb_asym story_not_ltb_trans).
Qed.

Lemma kept_Some json_loads entry d :
  Workflow.kept json_loads entry = Some d ->
  Workflow.is_story_file (fst entry) = true
  /\ Workflow._load_any json_loads (snd entry) = Ret (VDict d)
  /\ dict_has "id" d = true.
Proof.
  unfold Workflow.kept. destruct (Workflow.is_story_file _); [|done].
  destruct (Workflow._load_any _ _) as [[| | | | |d']|]; try done.
  destruct (dict_has "id" d') eqn:E; [|done]. intros H. by simplify_eq.
Qed.

Lemma normalized_sort_key d s :
  Workflow.normalized_from d s -> Workflow.sort_key s = Workflow.sort_key d.
Proof.
  intros (_ & _ & Hp & Hother). unfold Workflow.sort_key, dict_get.
  rewrite Hp, (Hother "title") by done. by destruct (dict_lookup "priority" d).
Qed.

Lemma normalized_shape d s :
  dict_has "id" d = true -> Workflow.normalized_from d s ->
  dict_has "id" s = true
  /\ (exists st, dict_lookup "status" s = Some (VStr st) /\ st ∈ Workflow.VALID_STATUSES)
  /\ is_Some (dict_lookup "dependencies" s)
  /\ is_Some (dict_lookup "priority" s).
Proof.
  intros Hid (Hs & Hd & Hp & Hother). split_and!; [|clear Hid|eauto..].
  - unfold dict_has in *. by rewrite (Hother "id").
  - assert ("ready" ∈ Workflow.VALID_STATUSES) as Hready by (by left).
    destruct (dict_lookup "status" d) as [[| | |st| |]|]; eauto.
    destruct (existsb (String.eqb st) Workflow.VALID_STATUSES) eqn:E; eauto.
    exists st. split; [done|]. apply existsb_exists in E as (x & Hx & E).
    apply String.eqb_eq in E as <-. by apply list_elem_of_In.
Qed.

Lemma Forall2_Forall_from {A B} (R : A -> B -> Prop) (P : A -> Prop) (Q : B -> Prop) l k :
  (forall x y, P x -> R x y -> Q y) -> Forall2 R l k -> Forall P l -> Forall Q k.
Proof.
  intros H HF. induction HF as [|x y l k Hxy _ IH]; [constructor|].
  intros [Px Pl]%Forall_cons. constructor; eauto.
Qed.

Lemma Forall_omap_kept json_loads entries :
  Forall (fun d => dict_has "id" d = true)
    (omap (Workflow.kept json_loads) entries).
Proof.
  apply Forall_forall. intros d (e & _ & He)%list_elem_of_omap.
  by apply kept_Some in He as (_ & _ & ?).
Qed.

Lemma normalize_entry_returns d :
  (dict_has "id" d = true -> hashable (dict_get "status" VNone d) = true) ->
  exists r, Workflow.normalize_entry (VDict d) = Ret r.
Proof.
  intros H. unfold Workflow.normalize_entry.
  destruct (truthy (VDict d)); simpl; [|eauto].
  destruct (dict_has "id" d); simpl; [|eauto]. specialize (H eq_refl).
  destruct (dict_get "status" VNone d); simpl in *; try done; eauto.
Qed.

Lemma scan_returns json_loads entries out0 :
  Forall (Workflow.entry_typed json_loads) entries ->
  exists out, Workflow.scan json_loads entries out0 = Ret out.
Proof.
  intros H. revert out0.
  induction H as [|[name read] entries He _ IH]; simpl; intros out0; [eauto|].
  unfold Workflow.entry_typed in He. simpl in He.
  destruct (Workflow.is_story_file name); simpl; [|apply IH].
  destruct (Workflow._load_any json_loads read) as [story|e]; [|apply IH].
  destruct (He eq_refl story eq_refl) as (d & -> & Hd).
  destruct (normalize_entry_returns d) as [r ->]; [intros Hid; by apply Hd|].
  simpl. destruct r; apply IH.
Qed.

Lemma comparable_typed a b :
  Workflow.typed_story a -> Workflow.typed_story b -> Workflow.comparable a b = true.
Proof.
  unfold Workflow.typed_story, Workflow.comparable. intros [ka Ha] [kb Hb].
  by rewrite (pair_lt_typed _ _ _ _ Ha Hb), (pair_lt_typed _ _ _ _ Hb Ha).
Qed.

Lemma all_comparable_typed out :
  Forall Workflow.typed_story out -> Workflow.all_comparable out = true.
Proof.
  induction 1 as [|s out Hs Hout IH]; simpl; [done|].
  rewrite IH, andb_true_r. apply forallb_forall. intros t Ht%list_elem_of_In.
  rewrite Forall_forall in Hout. apply comparable_typed; auto.
Qed.

Lemma all_comparable_Permutation out out' :
  out ≡ₚ out' ->
  Workflow.all_comparable out = Workflow.all_comparable out'.
Proof.
  intros Hperm. pose proof comparable_sym as Hsym. induction Hperm as [|x l l' Hp IH|x y l|l l' l'' _ IH1 _ IH2].
  - done.
  - simpl. rewrite IH. f_equal.
    apply eq_true_iff_eq. rewrite !forallb_forall.
    split; intros H z Hz%list_elem_of_In; apply H, list_elem_of_In;
      [by rewrite Hp|by rewrite <- Hp].
  - simpl. rewrite (Hsym y x).
    by destruct (Workflow.comparable x y), (forallb (Workflow.comparable y) l),
                (forallb (Workflow.comparable x) l), (Workflow.all_comparable l).
  - congruence.
Qed.

Lemma sort_stories_returns out :
  Forall Workflow.typed_story out -> exists out', Workflow.sort_stories out = Ret out'.
Proof.
  intros H. unfold Workflow.sort_stories.
  rewrite (all_comparable_typed out H). eauto.
Qed.

(** C8.  Whenever [discover_backlog] returns, its stories are exactly the
    normalized forms of the entries that are story files, load, and hold an
    [id]: an entry without [id] or a file that fails to load leaves no
    trace.  Every story returned holds an [id], a status among the four
    valid ones ([ready] where the entry had none or an invalid one),
    dependencies (empty by default) and a priority (999 by default).  The
    list is sorted by priority, then title, the order being the one of
    the specification and not the key of the code: no story comes after
    one whose priority is smaller, or whose priority is equal and whose
    title is smaller; and when priorities are numbers and titles texts,
    every story has a priority below that of every later story, or the
    same priority and a title that is the same or below.  Discovery
    returns when the directory can be listed and its entries are objects
    with a hashable status, a numeric priority and a textual title; it
    returns nothing when the backlog is not a directory, and raises what
    the listing raises.  A flat file with [status: weird] comes out
    [ready]; files without [id], unparsable or unreadable files and files
    of other kinds are skipped; a story holding only an [id] gets the
    defaults; four stories listed against their order come out in order,
    as do stories with textual priorities, with null priorities and with
    null titles, while a numeric priority next to a textual one, or a null
    title next to a textual one under the same priority, makes the sort
    raise [TypeError]. *)
Theorem discover_backlog_normalizes_and_sorts
    (json_loads : string -> result value) (bdir : option Workflow.listing) :
  let ids (r : result (list dict)) :=
    stories ← r; Ret (map (dict_get "id" VNone) stories) in
  (forall out, Workflow.discover_backlog json_loads bdir = Ret out ->
     (exists scanned,
        Forall2 Workflow.normalized_from
          (omap (Workflow.kept json_loads) (Workflow.entries_of bdir)) scanned
        /\ out ≡ₚ scanned)
     /\ Forall (fun s =>
          dict_has "id" s = true
          /\ (exists st, dict_lookup "status" s = Some (VStr st)
                         /\ st ∈ Workflow.VALID_STATUSES)
          /\ is_Some (dict_lookup "dependencies" s)
          /\ is_Some (dict_lookup "priority" s)) out
     /\ StronglySorted (fun a b => ~ Workflow.sorts_before b a) out
     /\ (Forall (fun s => is_Some (Workflow.priority_and_title s)) out ->
         StronglySorted Workflow.in_backlog_order out))
  /\ (forall entries,
        bdir = Some (Ret entries) ->
        Forall (Workflow.entry_typed json_loads) entries ->
        exists out, Workflow.discover_backlog json_loads bdir = Ret out
          /\ StronglySorted Workflow.in_backlog_order out)
  /\ (bdir = None -> Workflow.discover_backlog json_loads bdir = Ret [])
  /\ (forall e, bdir = Some (Raise e) ->
        Workflow.discover_backlog json_loads bdir = Raise e)
  /\ Workflow.discover_backlog Json.loads
       (Some (Ret [("y1.yaml", Ret Workflow.flat_weird)]))
     = Ret [[ ("id", VStr "Y1"); ("title", VStr "Yaml Story"); ("priority", VInt 3);
              ("status", VStr "ready"); ("dependencies", VList []) ]]
  /\ Workflow.discover_backlog Json.loads
       (Some (Ret [ ("noid.json", Ret Workflow.file_without_id);
                    ("bad.json", Ret Workflow.file_broken);
                    ("not_a_story.txt", Ret "hello");
                    ("locked.json", Raise PermissionError) ]))
     = Ret []
  /\ Workflow.discover_backlog Json.loads
       (Some (Ret [("min.json", Ret (Json.dumps (VDict [("id", VStr "S2")])))]))
     = Ret [[ ("id", VStr "S2"); ("status", VStr "ready");
              ("dependencies", VList []); ("priority", VInt 999) ]]
  /\ ids (Workflow.discover_backlog Json.loads (Some Workflow.unordered_backlog))
     = Ret [VStr "S3"; VStr "S2"; VStr "S1"; VStr "S4"]
  /\ ids (Workflow.discover_backlog Json.loads (Some Workflow.textual_backlog))
     = Ret [VStr "S2"; VStr "S1"]
  /\ ids (Workflow.discover_backlog Json.loads (Some Workflow.null_priority_backlog))
     = Ret [VStr "S2"; VStr "S1"]
  /\ ids (Workflow.discover_backlog Json.loads (Some Workflow.null_title_backlog))
     = Ret [VStr "S2"; VStr "S1"]
  /\ Workflow.discover_backlog Json.loads (Some Workflow.mixed_backlog)
     = Raise TypeError
  /\ Workflow.discover_backlog Json.loads (Some Workflow.mixed_title_backlog)
     = Raise TypeError.
Proof.
  intros ids.
  assert (forall scanned out,
            Workflow.sort_stories scanned = Ret out ->
            Forall (fun s => is_Some (Workflow.priority_and_title s)) out ->
            StronglySorted Workflow.in_backlog_order out) as Htier.
  { intros scanned out Hsort Htyped.
    pose proof (sort_stories_spec _ _ Hsort) as [Hperm _].
    apply (StronglySorted_impl_in Workflow.backlog_le).
    - intros x y _ _. apply backlog_le_spec.
    - apply (sort_stories_typed scanned); [done|]. rewrite <- Hperm.
      eapply Forall_impl; [exact Htyped|]. intros s Hs.
      unfold Workflow.typed_story. by rewrite typed_key_spec. }
  split_and!.
  - intros out H. destruct bdir as [[entries|e]|]; simpl in *; [|done|].
    + apply bind_Ret_inv in H as (scanned & Hscan & Hsort).
      apply scan_spec in Hscan as (news & -> & HF). simpl in *.
      pose proof (sort_stories_spec _ _ Hsort) as [Hperm _].
      split_and!.
      * by exists news.
      * rewrite Hperm.
        eapply (Forall2_Forall_from _ (fun d => dict_has "id" d = true));
          [|exact HF|apply Forall_omap_kept].
        intros d s. apply normalized_shape.
      * by eapply sort_stories_no_inversion.
      * by apply (Htier news).
    + injection H as <-. split_and!; [by exists []|constructor..].
  - intros entries -> Htyped. simpl.
    destruct (scan_returns json_loads entries [] Htyped) as [scanned Hscan].
    rewrite Hscan. simpl.
    apply scan_spec in Hscan as (news & -> & HF). simpl.
    assert (Forall Workflow.typed_story news) as Hnews.
    { eapply (Forall2_Forall_from _
                (fun d => exists e, e ∈ entries /\ Workflow.kept json_loads e = Some d));
        [|exact HF|].
      - intros d s (e & He & Hk) Hnorm. unfold Workflow.typed_story.
        rewrite (normalized_sort_key d s Hnorm), typed_key_spec.
        apply kept_Some in Hk as (Hfile & Hload & Hid).
        rewrite Forall_forall in Htyped.
        destruct (Htyped e He Hfile _ Hload) as (d' & Hd' & Hd). simplify_eq.
        by apply Hd.
      - apply Forall_forall. intros d (e & He & Hk)%list_elem_of_omap. eauto. }
    destruct (sort_stories_returns news Hnews) as [out Hsort].
    exists out. split; [done|].
    pose proof (sort_stories_spec _ _ Hsort) as [Hperm _].
    apply (Htier news); [done|]. rewrite Hperm.
    eapply Forall_impl; [exact Hnews|]. intros s Hs.
    unfold Workflow.typed_story in Hs. by rewrite typed_key_spec in Hs.
  - by intros ->.
  - by intros e ->.
  - vm_compute. reflexivity.
  - vm_compute. reflexivity.
  - vm_compute. reflexivity.
  - vm_compute. reflexivity.
  - vm_compute. reflexivity.
  - vm_compute. reflexivity.
  - vm_compute. reflexivity.
  - vm_compute. reflexivity.
  - vm_compute. reflexivity.
Qed.

(** ** The artifact manifest *)

Lemma node_induction (P : State.node -> Prop) :
  (forall name content, P (State.File name content)) ->
  (forall name entries, Forall P entries -> P (State.Dir name entries)) ->
  forall n, P n.
Proof.
  intros HF HD. fix IH 1. intros [name content|name entries]; [apply HF|].
  apply HD. induction entries as [|n entries IHe]; constructor; [apply IH|exact IHe].
Qed.

Lemma string_app_nil (s : string) : EmptyString +:+ s = s.
Proof. reflexivity. Qed.

Lemma string_app_cons (a : ascii) (s t : string) :
  String a s +:+ t = String a (s +:+ t).
Proof. reflexivity. Qed.

Lemma string_app_assoc (a b c : string) : (a +:+ b) +:+ c = a +:+ (b +:+ c).
Proof.
  induction a as [|x a IH]; [done|].
  rewrite !string_app_cons. by f_equal.
Qed.

Lemma split_char_nonempty c s : split_char c s <> [].
Proof.
  destruct s as [|a s]; simpl; [done|].
  destruct (Ascii.eqb a c); [done|]. by destruct (split_char c s).
Qed.

Lemma split_char_app c s1 s2 :
  split_char c (s1 +:+ String c s2) = split_char c s1 ++ split_char c s2.
Proof.
  induction s1 as [|a s1 IH].
  - rewrite string_app_nil. simpl. by rewrite Ascii.eqb_refl.
  - rewrite string_app_cons. simpl.
    destruct (Ascii.eqb a c); [by rewrite IH|].
    rewrite IH. destruct (split_char c s1) as [|w ws] eqn:E; [|done].
    by destruct (split_char_nonempty c s1).
Qed.

Lemma split_char_no_sep c s : char_in c s = false -> split_char c s = [s].
Proof.
  unfold char_in. induction s as [|a s IH]; simpl; [done|].
  rewrite (Ascii.eqb_sym c a). destruct (Ascii.eqb a c); simpl; [done|].
  intros H. by rewrite IH.
Qed.

Lemma last_app_nonempty {A} (l1 l2 : list A) (x d : A) :
  List.last (l1 ++ x :: l2) d = List.last (x :: l2) d.
Proof.
  induction l1 as [|y l1 IH]; [done|].
  rewrite <- IH. simpl. by destruct (l1 ++ x :: l2) eqn:E; [destruct l1|].
Qed.

Lemma basename_relpath dirs name :
  char_in slash name = false -> State.basename (State.relpath dirs name) = name.
Proof.
  intros Hname. unfold State.basename.
  induction dirs as [|d dirs IH]; simpl.
  - by rewrite split_char_no_sep.
  - change (d +:+ "/" +:+ State.relpath dirs name)
      with (d +:+ String slash (State.relpath dirs name)).
    rewrite split_char_app.
    destruct (split_char slash (State.relpath dirs name)) as [|w ws] eqn:E.
    { by destruct (split_char_nonempty slash (State.relpath dirs name)). }
    rewrite last_app_nonempty. exact IH.
Qed.

Lemma is_omitted_false_suffix dirs name :
  char_in slash name = false ->
  State._is_omitted (State.relpath dirs name) = false ->
  Forall (fun suffix => endswith suffix name = false) State._OMIT_FILE_PATTERNS.
Proof.
  intros Hname. unfold State._is_omitted.
  destruct (existsb _ (split_char _ _)); [done|].
  rewrite (basename_relpath dirs name Hname). intros H.
  apply Forall_forall. intros suffix Hs%list_elem_of_In.
  destruct (endswith suffix name) eqn:E; [|done].
  assert (existsb (fun suffix => endswith suffix name) State._OMIT_FILE_PATTERNS = true)
    as Hex by (apply existsb_exists; eauto).
  congruence.
Qed.

Lemma elem_of_flat_map {A B} (f : A -> list B) (l : list A) (y : B) :
  y ∈ flat_map f l <-> exists x, x ∈ l /\ y ∈ f x.
Proof.
  rewrite list_elem_of_In, in_flat_map.
  split; intros (x & Hx & Hy); exists x; by rewrite ?list_elem_of_In in *.
Qed.

Lemma elem_of_walk_entries prefix entries file :
  file ∈ State.walk_entries State.walk prefix entries <->
  exists n, n ∈ entries /\ file ∈ State.walk prefix n.
Proof.
  unfold State.walk_entries. rewrite elem_of_app, !elem_of_flat_map. split.
  - intros [(n & Hn & Hf)|(n & Hn & Hf)]; exists n; split; try done;
      destruct (State.is_file n); try done; by apply elem_of_nil in Hf.
  - intros (n & Hn & Hf). destruct (State.is_file n) eqn:E; [left|right];
      exists n; by rewrite E.
Qed.

Lemma walk_Dir prefix d sub :
  State.walk prefix (State.Dir d sub) =
  if State.in_list d State._OMIT_DIRS then []
  else State.walk_entries State.walk (prefix +:+ d +:+ "/") sub.
Proof. reflexivity. Qed.

(** Every file the walk reaches lies in the tree below directories that
    are not omitted, and is reported under its relative path. *)
Lemma walk_located n :
  forall prefix rel content,
    (rel, content) ∈ State.walk prefix n ->
    match n with
    | State.File name c => rel = prefix +:+ name /\ content = c
    | State.Dir d sub =>
        exists dirs name,
          State.located dirs name content sub
          /\ rel = prefix +:+ State.relpath (d :: dirs) name
          /\ Forall (fun x => State.in_list x State._OMIT_DIRS = false) (d :: dirs)
    end.
Proof.
  induction n as [name c|d sub IH] using node_induction; intros prefix rel content H.
  - simpl in H. apply list_elem_of_singleton in H. by simplify_eq.
  - rewrite walk_Dir in H. destruct (State.in_list d State._OMIT_DIRS) eqn:Ed.
    { by apply elem_of_nil in H. }
    apply elem_of_walk_entries in H as (n & Hn & H).
    rewrite Forall_forall in IH. specialize (IH n Hn _ _ _ H).
    destruct n as [name c|d' sub'].
    + destruct IH as [-> ->]. exists [], name. split_and!.
      * by constructor.
      * simpl. by rewrite !string_app_assoc.
      * by constructor.
    + destruct IH as (dirs & name & Hloc & -> & Hdirs).
      exists (d' :: dirs), name. split_and!.
      * by econstructor.
      * simpl. by rewrite !string_app_assoc.
      * by constructor.
Qed.

Lemma os_walk_located root rel content :
  (rel, content) ∈ State.os_walk root ->
  exists dirs name,
    State.located dirs name content root
    /\ rel = State.relpath dirs name
    /\ Forall (fun x => State.in_list x State._OMIT_DIRS = false) dirs.
Proof.
  unfold State.os_walk. intros (n & Hn & H)%elem_of_walk_entries.
  apply walk_located in H. destruct n as [name c|d sub].
  - destruct H as [-> ->]. exists [], name. split_and!; by constructor.
  - destruct H as (dirs & name & Hloc & -> & Hdirs).
    exists (d :: dirs), name. split_and!; [by econstructor|done|done].
Qed.

Lemma omap_cons {A B} (f : A -> option B) (x : A) (l : list A) :
  omap f (x :: l) = match f x with Some y => y :: omap f l | None => omap f l end.
Proof. reflexivity. Qed.

Lemma entry_of_omitted sha256 rel content :
  State._is_omitted rel = true -> State.entry_of sha256 (rel, content) = None.
Proof. unfold State.entry_of. simpl. by intros ->. Qed.

Lemma entry_of_Ret sha256 rel data :
  State._is_omitted rel = false ->
  State.entry_of sha256 (rel, Ret data) =
  Some {| State.path := replace_char backslash slash rel; State.checksum := sha256 data |}.
Proof. unfold State.entry_of. simpl. by intros ->. Qed.

Lemma entry_of_Raise sha256 rel e : State.entry_of sha256 (rel, Raise e) = None.
Proof. unfold State.entry_of. simpl. by destruct (State._is_omitted rel). Qed.

(** Conversely the walk reaches every file that lies below directories
    that are not omitted. *)
Lemma located_walk dirs name content entries :
  State.located dirs name content entries ->
  Forall (fun x => State.in_list x State._OMIT_DIRS = false) dirs ->
  forall prefix,
    (prefix +:+ State.relpath dirs name, content)
    ∈ State.walk_entries State.walk prefix entries.
Proof.
  induction 1 as [name content entries Hin|d sub dirs name content entries Hin _ IH];
    intros Hdirs prefix; apply elem_of_walk_entries.
  - exists (State.File name content). split; [done|]. simpl. by left.
  - apply Forall_cons in Hdirs as [Hd Hdirs].
    exists (State.Dir d sub). split; [done|]. rewrite walk_Dir, Hd.
    specialize (IH Hdirs (prefix +:+ d +:+ "/")).
    simpl. by rewrite !string_app_assoc in IH.
Qed.

Lemma collect_spec sha256 files acc artifacts :
  State.collect sha256 files acc = Ret artifacts ->
  artifacts = acc ++ omap (State.entry_of sha256) files /\ Forall State.harmless files.
Proof.
  revert acc. induction files as [|[rel content] files IH]; intros acc H.
  - injection H as <-. by rewrite app_nil_r.
  - rewrite omap_cons. simpl in H. destruct (State._is_omitted rel) eqn:E.
    { rewrite entry_of_omitted by done. destruct (IH _ H) as [-> HF].
      split; [done|]. constructor; [by left|done]. }
    destruct content as [data|e]; simpl in H.
    + rewrite entry_of_Ret by done. destruct (IH _ H) as [-> HF].
      split; [by rewrite <- app_assoc|]. constructor; [by right|done].
    + rewrite entry_of_Raise.
      destruct e; try done; destruct (IH _ H) as [-> HF];
        (split; [done|]); (constructor; [right; simpl; auto|done]).
Qed.

Lemma collect_returns sha256 files acc :
  Forall State.harmless files -> exists artifacts, State.collect sha256 files acc = Ret artifacts.
Proof.
  intros H. revert acc.
  induction H as [|[rel content] files Hh _ IH]; simpl; intros acc; [eauto|].
  destruct (State._is_omitted rel) eqn:E; [apply IH|].
  destruct Hh as [Hh|Hh]; simpl in Hh; [congruence|].
  destruct content as [data|e]; simpl; [apply IH|].
  destruct Hh as [->| ->]; apply IH.
Qed.

Lemma manifest_sorted l : StronglySorted State.path_le (sort_by State.artifact_ltb l).
Proof.
  apply (StronglySorted_impl_in (not_after State.artifact_ltb)).
  - intros a b _ _. unfold not_after, State.artifact_ltb, State.path_le, str_lt.
    intros H. destruct (str_ltb_trichotomy (State.path a) (State.path b)) as [?|[?|?]];
      auto; congruence.
  - apply (sort_by_StronglySorted State.artifact_ltb (fun _ => True)).
    + intros x y _ _. apply str_ltb_asym.
    + intros x y z _ _ _. apply str_not_ltb_trans.
    + by apply Forall_true.
Qed.

Lemma filter_flat_map {A B} (keep : B -> bool) (f : A -> list B) (l : list A) :
  List.filter keep (flat_map f l) = flat_map (fun x => List.filter keep (f x)) l.
Proof.
  induction l as [|x l IH]; simpl; [done|]. by rewrite List.filter_app, IH.
Qed.

Lemma flat_map_flat_map {A B C} (f : B -> list C) (g : A -> list B) (l : list A) :
  flat_map f (flat_map g l) = flat_map (fun x => flat_map f (g x)) l.
Proof.
  induction l as [|x l IH]; simpl; [done|]. by rewrite flat_map_app, IH.
Qed.

Lemma flat_map_ext_Forall {A B} (f g : A -> list B) (l : list A) :
  Forall (fun x => f x = g x) l -> flat_map f l = flat_map g l.
Proof. induction 1 as [|x l Hx _ IH]; simpl; [done|]. by rewrite Hx, IH. Qed.

(** Walking the tree without its unreadable files yields the walk of the
    tree without those files. *)
Lemma walk_without_unreadable n :
  forall prefix,
    flat_map (State.walk prefix) (State.without_unreadable n) =
    List.filter State.not_unreadable (State.walk prefix n).
Proof.
  induction n as [name c|d sub IH] using node_induction; intros prefix.
  - simpl. unfold State.not_unreadable. simpl.
    by destruct (State.unreadable c).
  - simpl State.without_unreadable. simpl flat_map. rewrite app_nil_r.
    rewrite !walk_Dir. destruct (State.in_list d State._OMIT_DIRS); [done|].
    unfold State.walk_entries.
    rewrite List.filter_app, !filter_flat_map, !flat_map_flat_map.
    f_equal; apply flat_map_ext_Forall; (eapply Forall_impl; [exact IH|]);
      intros n Hn; simpl in Hn.
    + destruct n as [name c|d' sub'].
      * simpl. unfold State.not_unreadable. simpl. by destruct (State.unreadable c).
      * done.
    + destruct n as [name c|d' sub'].
      * simpl. by destruct (State.unreadable c).
      * specialize (Hn (prefix +:+ d +:+ "/")). simpl in Hn |- *.
        rewrite ?app_nil_r in *. exact Hn.
Qed.

Lemma os_walk_without_unreadable root :
  State.os_walk (flat_map State.without_unreadable root) =
  List.filter State.not_unreadable (State.os_walk root).
Proof.
  unfold State.os_walk, State.walk_entries.
  rewrite List.filter_app, !filter_flat_map, !flat_map_flat_map.
  f_equal; apply flat_map_ext_Forall; apply Forall_forall; intros n _.
  - destruct n as [name c|d sub].
    + simpl. unfold State.not_unreadable. simpl. by destruct (State.unreadable c).
    + done.
  - destruct n as [name c|d sub].
    + simpl. by destruct (State.unreadable c).
    + pose proof (walk_without_unreadable (State.Dir d sub) EmptyString) as Hn.
      simpl in Hn |- *. rewrite ?app_nil_r in *. exact Hn.
Qed.

Lemma collect_filter_unreadable sha256 files acc :
  State.collect sha256 (List.filter State.not_unreadable files) acc =
  State.collect sha256 files acc.
Proof.
  revert acc. induction files as [|[rel content] files IH]; intros acc; [done|].
  simpl. unfold State.not_unreadable at 1. simpl.
  destruct (State.unreadable content) eqn:Eu; simpl.
  - rewrite IH. destruct (State._is_omitted rel); [done|].
    by destruct content as [|[]].
  - destruct (State._is_omitted rel); [done|].
    destruct content as [|[]]; simpl; try done.
Qed.

Lemma NoDup_map_inj_on {A B} (f : A -> B) (l : list A) (x y : A) :
  NoDup (map f l) -> x ∈ l -> y ∈ l -> f x = f y -> x = y.
Proof.
  induction l as [|z l IH]; simpl; intros Hnd Hx Hy Hf.
  - by apply elem_of_nil in Hx.
  - apply NoDup_cons in Hnd as [Hz Hnd].
    apply elem_of_cons in Hx as [->|Hx], Hy as [->|Hy]; [done| | |by apply IH].
    + destruct Hz. rewrite Hf. apply list_elem_of_fmap. by exists y.
    + destruct Hz. rewrite <- Hf. apply list_elem_of_fmap. by exists x.
Qed.

(** The manifest does not depend on the order in which the walk lists the
    files, when no two of them share a path. *)
Lemma manifest_of_walk_order_independent sha256 files files' m :
  files ≡ₚ files' ->
  State.manifest_of_walk sha256 files = Ret m ->
  NoDup (map State.path m) ->
  State.manifest_of_walk sha256 files' = Ret m.
Proof.
  intros Hperm H Hnd. unfold State.manifest_of_walk in *.
  apply bind_Ret_inv in H as (arts & Hc & H). injection H as <-.
  apply collect_spec in Hc as [-> Hh]. simpl in *.
  rewrite Hperm in Hh.
  destruct (collect_returns sha256 files' [] Hh) as [arts' Hc'].
  rewrite Hc'. apply collect_spec in Hc' as [-> _]. simpl. f_equal.
  symmetry. apply (sort_by_order_independent State.artifact_ltb (fun _ => True)).
  - intros x y _ _. apply str_ltb_asym.
  - intros x y z _ _ _. apply str_not_ltb_trans.
  - by apply Forall_true.
  - intros x y Hx Hy H1 H2. rewrite sort_by_Permutation in Hnd.
    apply (NoDup_map_inj_on State.path _ x y Hnd Hx Hy).
    unfold State.artifact_ltb in *.
    destruct (str_ltb_trichotomy (State.path x) (State.path y)) as [?|[?|?]];
      congruence.
  - by rewrite Hperm.
Qed.

(** C5.  [compute_artifacts_manifest] is a function of the tree, which it
    only reads.  Whatever it returns ascends by path, and each entry
    stands for a readable file of the tree, under its normalized relative
    path and with the checksum of its content, that lies below no omitted
    directory and whose name ends in no omitted suffix; every readable
    file that is not omitted has its entry.  It returns unless
    some file that is not omitted fails with an error other than the two
    it catches.  Files that fail with a permission error or have vanished
    are skipped: the manifest is that of the tree without them.  The order
    in which the walk lists the files does not matter when their paths are
    distinct.  On the tree of the test suite only keep/x.txt is reported. *)
Theorem compute_artifacts_manifest_spec
    (sha256 : string -> string) (root : list State.node) :
  (forall m, State.compute_artifacts_manifest sha256 root = Ret m ->
     StronglySorted State.path_le m
     /\ Forall (fun a => exists dirs name data,
          State.located dirs name (Ret data) root
          /\ State.path a = replace_char backslash slash (State.relpath dirs name)
          /\ State.checksum a = sha256 data
          /\ Forall (fun d => State.in_list d State._OMIT_DIRS = false) dirs
          /\ (char_in slash name = false ->
              Forall (fun suffix => endswith suffix name = false)
                State._OMIT_FILE_PATTERNS)) m
     /\ (forall dirs name data,
          State.located dirs name (Ret data) root ->
          Forall (fun d => State.in_list d State._OMIT_DIRS = false) dirs ->
          State._is_omitted (State.relpath dirs name) = false ->
          {| State.path := replace_char backslash slash (State.relpath dirs name);
             State.checksum := sha256 data |} ∈ m))
  /\ (Forall State.harmless (State.os_walk root) ->
      exists m, State.compute_artifacts_manifest sha256 root = Ret m)
  /\ State.compute_artifacts_manifest sha256 (flat_map State.without_unreadable root)
     = State.compute_artifacts_manifest sha256 root
  /\ (forall files' m,
        State.os_walk root ≡ₚ files' ->
        State.compute_artifacts_manifest sha256 root = Ret m ->
        NoDup (map State.path m) ->
        State.manifest_of_walk sha256 files' = Ret m)
  /\ State.compute_artifacts_manifest sha256 State.example_tree
     = Ret [{| State.path := "keep/x.txt"; State.checksum := sha256 "hi" |}].
Proof.
  split_and!.
  - intros m H. unfold State.compute_artifacts_manifest, State.manifest_of_walk in H.
    apply bind_Ret_inv in H as (arts & Hc & H). injection H as <-.
    split; [apply manifest_sorted|].
    apply collect_spec in Hc as [-> _]. simpl. split.
    + rewrite sort_by_Permutation. apply Forall_forall.
      intros a ([rel content] & Hfile & Ha)%list_elem_of_omap.
      unfold State.entry_of in Ha. simpl in Ha.
      destruct (State._is_omitted rel) eqn:Eo; [done|].
      destruct content as [data|e]; [|done]. injection Ha as <-.
      apply os_walk_located in Hfile as (dirs & name & Hloc & -> & Hdirs).
      exists dirs, name, data. split_and!; try done.
      intros Hname. by apply (is_omitted_false_suffix dirs).
    + intros dirs name data Hloc Hdirs Hom.
      rewrite sort_by_Permutation. apply list_elem_of_omap.
      exists (State.relpath dirs name, Ret data). split.
      * apply (located_walk _ _ _ _ Hloc Hdirs EmptyString).
      * by apply entry_of_Ret.
  - intros Hh. unfold State.compute_artifacts_manifest, State.manifest_of_walk.
    destruct (collect_returns sha256 _ [] Hh) as [arts ->]. simpl. eauto.
  - unfold State.compute_artifacts_manifest, State.manifest_of_walk.
    by rewrite os_walk_without_unreadable, collect_filter_unreadable.
  - intros files' m Hperm H Hnd.
    by apply (manifest_of_walk_order_independent sha256 (State.os_walk root)).
  - reflexivity.
Qed.

(** ** Loading and rebuilding the state *)

Lemma skeleton_shape sha256 env doc :
  State._new_state_skeleton sha256 env = Ret doc ->
  State._valid_state doc = true /\ State.keys_of doc = State._REQUIRED_KEYS.
Proof.
  unfold State._new_state_skeleton. intros H.
  apply bind_Ret_inv in H as (manifest & _ & H). injection H as <-. by split.
Qed.

Lemma rebuild_state_spec sha256 json_dumps env st doc st' :
  State.rebuild_state sha256 json_dumps env st = Ret (doc, st') ->
  State._new_state_skeleton sha256 env = Ret doc
  /\ State.rebuilt_with json_dumps doc st st'.
Proof.
  unfold State.rebuild_state. intros H.
  apply bind_Ret_inv in H as (state & Hs & H). injection H as <- <-.
  by split.
Qed.

(** The two ways [load_state] returns: the persisted document as parsed,
    the store untouched; or a rebuild, in one of three situations. *)
Lemma load_state_cases sha256 json_loads json_dumps env st doc st' :
  State.load_state sha256 json_loads json_dumps env st = Ret (doc, st') ->
  (st' = st
   /\ exists read, State.file st = Some read
        /\ State.json_load json_loads read = Ret doc
        /\ State._valid_state doc = true)
  \/ (State.rebuild_state sha256 json_dumps env st = Ret (doc, st')
      /\ (State.file st = None
          \/ (exists read e, State.file st = Some read
                /\ State.json_load json_loads read = Raise e
                /\ State.caught e = true)
          \/ (exists read data, State.file st = Some read
                /\ State.json_load json_loads read = Ret data
                /\ State._valid_state data = false))).
Proof.
  unfold State.load_state. destruct (State.file st) as [read|] eqn:Ef; [|auto].
  destruct (State.json_load json_loads read) as [data|e] eqn:El.
  - destruct (State._valid_state data) eqn:Ev.
    + intros H. injection H as <- <-. left. eauto.
    + intros H. right. split; [done|]. right; right. eauto.
  - destruct (State.caught e) eqn:Ec; [|done].
    intros H. right. split; [done|]. right; left. eauto.
Qed.

(** Among the runs of [load_state] that return, the rebuilds are those on
    a state file that is absent, cannot be read or parsed (with an error
    the [try] catches) or holds an invalid document. *)
Lemma load_state_rebuilds_exactly_when sha256 json_loads json_dumps env st doc st' :
  State.load_state sha256 json_loads json_dumps env st = Ret (doc, st') ->
  (State.rebuilt_with json_dumps doc st st' <->
   State.file st = None
   \/ (exists read e, State.file st = Some read
         /\ State.json_load json_loads read = Raise e /\ State.caught e = true)
   \/ (exists read data, State.file st = Some read
         /\ State.json_load json_loads read = Ret data
         /\ State._valid_state data = false)).
Proof.
  intros H. apply load_state_cases in H as [(-> & read & Hf & Hl & Hv)|[Hr Hc]].
  - split.
    + intros [_ Hw]. apply (f_equal length) in Hw.
      rewrite length_app in Hw. simpl in Hw. lia.
    + intros [?|[(r & e & ? & ? & ?)|(r & d & ? & ? & ?)]]; congruence.
  - split; [done|]. intros _. by apply rebuild_state_spec in Hr as [_ ?].
Qed.

(** After a rebuild a second [load_state] returns the same document and
    leaves the store alone, whatever has changed around it, provided the
    JSON text written parses back to the document. *)
Lemma load_state_after_rebuild sha256 json_loads json_dumps env env' st doc st' :
  State.rebuild_state sha256 json_dumps env st = Ret (doc, st') ->
  json_loads (json_dumps doc) = Ret doc ->
  State.load_state sha256 json_loads json_dumps env' st' = Ret (doc, st').
Proof.
  intros Hr Hround. apply rebuild_state_spec in Hr as [Hs [Hf _]].
  apply skeleton_shape in Hs as [Hv _].
  unfold State.load_state. rewrite Hf. simpl. by rewrite Hround, Hv.
Qed.

(** C3.  On a state file whose bytes are not UTF-8, [json.load] raises
    [UnicodeDecodeError], which the [try] of [load_state] does not catch:
    the call raises, and nothing is rebuilt or persisted.  A file that
    cannot be opened, and a text that is not JSON, are rebuilt. *)
Theorem load_state_raises_on_undecodable_state
    (sha256 : string -> string) (json_loads : string -> result value)
    (json_dumps : value -> string) (env : State.environment) (log : list string) :
  State.load_state sha256 json_loads json_dumps env State.undecodable_store
  = Raise UnicodeDecodeError
  /\ State.load_state sha256 json_loads json_dumps env
       {| State.file := Some (Raise PermissionError); State.writes := log |}
     = State.rebuild_state sha256 json_dumps env
         {| State.file := Some (Raise PermissionError); State.writes := log |}
  /\ State.load_state sha256 Json.loads json_dumps env
       {| State.file := Some (Ret "{ bad json"); State.writes := log |}
     = State.rebuild_state sha256 json_dumps env
         {| State.file := Some (Ret "{ bad json"); State.writes := log |}.
Proof. split_and!; reflexivity. Qed.

(** C4, the claim as it stands, fails: a persisted document that holds
    the twelve required keys and one more is valid, and [load_state]
    returns it with its thirteen keys. *)
Lemma load_state_returns_additional_keys :
  State.load_state State.example_digest Json.loads Json.dumps State.example_env
    (State.store_of (Json.dumps (VDict State.extended_doc)))
  = Ret (VDict State.extended_doc,
         State.store_of (Json.dumps (VDict State.extended_doc)))
  /\ dict_has "notes" State.extended_doc = true
  /\ State.in_list "notes" State._REQUIRED_KEYS = false.
Proof. vm_compute. auto. Qed.

(** C4, amended.  Every document [load_state] returns holds every
    required key.  It is either the persisted document exactly as parsed,
    additional top-level keys included, the store untouched; or a fresh
    skeleton, whose keys are exactly the required ones, written to the
    store.  A persisted document that is invalid is never repaired: what
    is returned then is the fresh skeleton, which owes nothing to it. *)
Theorem load_state_keeps_required_keys
    (sha256 : string -> string) (json_loads : string -> result value)
    (json_dumps : value -> string) (env : State.environment)
    (st : State.store) (doc : value) (st' : State.store) :
  State.load_state sha256 json_loads json_dumps env st = Ret (doc, st') ->
  (exists d, doc = VDict d
             /\ Forall (fun k => dict_has k d = true) State._REQUIRED_KEYS)
  /\ ((st' = st
       /\ exists text, State.file st = Some (Ret text) /\ json_loads text = Ret doc)
      \/ (State._new_state_skeleton sha256 env = Ret doc
          /\ State.keys_of doc = State._REQUIRED_KEYS
          /\ State.rebuilt_with json_dumps doc st st'))
  /\ (forall text data,
        State.file st = Some (Ret text) -> json_loads text = Ret data ->
        State._valid_state data = false ->
        State._new_state_skeleton sha256 env = Ret doc
        /\ State.rebuilt_with json_dumps doc st st').
Proof.
  intros H. apply load_state_cases in H as [(-> & read & Hf & Hl & Hv)|[Hr Hc]].
  - split_and!.
    + destruct doc as [| | | | |d]; try done. exists d. split; [done|].
      unfold State._valid_state in Hv. rewrite forallb_forall in Hv.
      apply Forall_forall. intros k Hk%list_elem_of_In. by apply Hv.
    + left. split; [done|]. destruct read as [text|e]; [|done]. eauto.
    + intros text data Hf' Hl' Hv'. rewrite Hf in Hf'. simplify_eq.
      simpl in Hl. congruence.
  - apply rebuild_state_spec in Hr as [Hs Hw].
    pose proof (skeleton_shape _ _ _ Hs) as [Hv Hk].
    split_and!; [|by right|done].
    destruct doc as [| | | | |d]; try done. exists d. split; [done|].
    unfold State._valid_state in Hv. rewrite forallb_forall in Hv.
    apply Forall_forall. intros k Hk'%list_elem_of_In. by apply Hv.
Qed.

(** The amended C4 on the run that finds no state file: the skeleton of
    the example environment is returned and written. *)
Lemma load_state_keeps_required_keys_witness :
  (exists d, State.example_skeleton = VDict d
             /\ Forall (fun k => dict_has k d = true) State._REQUIRED_KEYS)
  /\ ((State._write_json_no_bom Json.dumps State.example_skeleton State.absent_store
       = State.absent_store
       /\ exists text, State.file State.absent_store = Some (Ret text)
                       /\ Json.loads text = Ret State.example_skeleton)
      \/ (State._new_state_skeleton State.example_digest State.example_env
          = Ret State.example_skeleton
          /\ State.keys_of State.example_skeleton = State._REQUIRED_KEYS
          /\ State.rebuilt_with Json.dumps State.example_skeleton State.absent_store
               (State._write_json_no_bom Json.dumps State.example_skeleton
                  State.absent_store)))
  /\ (forall text data,
        State.file State.absent_store = Some (Ret text) -> Json.loads text = Ret data ->
        State._valid_state data = false ->
        State._new_state_skeleton State.example_digest State.example_env
        = Ret State.example_skeleton
        /\ State.rebuilt_with Json.dumps State.example_skeleton State.absent_store
             (State._write_json_no_bom Json.dumps State.example_skeleton
                State.absent_store)).
Proof.
  apply (load_state_keeps_required_keys State.example_digest Json.loads Json.dumps
           State.example_env State.absent_store).
  vm_compute. reflexivity.
Defined.

(** Once the state has been rebuilt with the JSON codec, loading again
    returns the document that was built, without another write. *)
Lemma load_state_twice_example :
  State.load_state State.example_digest Json.loads Json.dumps State.example_env
    (State._write_json_no_bom Json.dumps State.example_skeleton State.absent_store)
  = Ret (State.example_skeleton,
         State._write_json_no_bom Json.dumps State.example_skeleton State.absent_store).
Proof.
  apply (load_state_after_rebuild _ _ _ State.example_env _ State.absent_store).
  - vm_compute. reflexivity.
  - vm_compute. reflexivity.
Qed.

(** ** Verification: the coverage patterns *)

Lemma run_length_bounds k lim s n :
  (n <= Orchestrator.run_length k lim s)%nat ->
  Orchestrator.all_in_class k (Orchestrator.take_chars n s) = true
  /\ (n <= String.length s)%nat
  /\ forall m, lim = Some m -> (n <= m)%nat.
Proof.
  revert lim n. induction s as [|c s IH]; intros lim n H.
  - assert (n = 0)%nat as -> by (destruct lim as [[|m]|]; simpl in H; lia).
    split_and!; [done|simpl; lia|intros; lia].
  - destruct n as [|n]; [split_and!; [done|simpl; lia|intros; lia]|].
    destruct lim as [[|m]|]; simpl in H; [lia| |];
      destruct (Orchestrator.in_class k c) eqn:Ec; try lia;
      apply le_S_n in H; apply IH in H as (Ha & Hl & Hm); simpl; rewrite Ec;
      (split_and!; [done|lia|]); intros m' Hm'; simplify_eq.
    specialize (Hm _ eq_refl). lia.
Qed.

Lemma run_length_max k lim s n :
  Orchestrator.all_in_class k (Orchestrator.take_chars n s) = true ->
  (n <= String.length s)%nat ->
  (forall m, lim = Some m -> (n <= m)%nat) ->
  (n <= Orchestrator.run_length k lim s)%nat.
Proof.
  revert lim n. induction s as [|c s IH]; intros lim n Ha Hl Hm.
  - simpl in Hl. lia.
  - destruct n as [|n]; [lia|]. simpl in Ha, Hl.
    apply andb_true_iff in Ha as [Ec Ha].
    destruct lim as [[|m]|]; simpl; rewrite ?Ec.
    + specialize (Hm _ eq_refl). lia.
    + apply le_n_S, IH; [done|lia|]. intros m' Hm'. simplify_eq.
      specialize (Hm _ eq_refl). lia.
    + apply le_n_S, IH; [done|lia|done].
Qed.

Lemma try_counts_eq it rest s n :
  Orchestrator.try_counts it rest s n =
  if (n <? Orchestrator.at_least it)%nat then None
  else match rest (drop_chars n s) with
       | Some groups =>
           Some (if Orchestrator.captured it
                 then Orchestrator.take_chars n s :: groups else groups)
       | None =>
           match n with
           | O => None
           | S n' => Orchestrator.try_counts it rest s n'
           end
       end.
Proof. by destruct n. Qed.

Lemma try_counts_sound it p rest s n groups :
  (forall s' g, rest s' = Some g -> Orchestrator.matches p s' g) ->
  (n <= Orchestrator.run_length (Orchestrator.class it) (Orchestrator.at_most it) s)%nat ->
  Orchestrator.try_counts it rest s n = Some groups ->
  Orchestrator.matches (it :: p) s groups.
Proof.
  intros Hrest. induction n as [|n IH]; intros Hn; rewrite try_counts_eq;
    (destruct (_ <? Orchestrator.at_least it)%nat eqn:Elt; [done|]);
    destruct (rest (drop_chars _ s)) as [g|] eqn:Er; try done;
    apply Nat.ltb_ge in Elt.
  - intros H. injection H as <-.
    destruct (run_length_bounds _ _ _ _ Hn) as (Ha & Hl & Hm).
    by apply (Orchestrator.matches_cons it p s 0 g); eauto.
  - intros H. injection H as <-.
    destruct (run_length_bounds _ _ _ _ Hn) as (Ha & Hl & Hm).
    by apply (Orchestrator.matches_cons it p s (S n) g); eauto.
  - apply IH. lia.
Qed.

Lemma match_items_sound p s groups :
  Orchestrator.match_items p s = Some groups -> Orchestrator.matches p s groups.
Proof.
  revert s groups. induction p as [|it p IH]; intros s groups; simpl.
  - intros H. injection H as <-. constructor.
  - apply try_counts_sound; [exact IH|done].
Qed.

Lemma try_counts_complete it rest s k n :
  (n <= k)%nat -> (Orchestrator.at_least it <= n)%nat ->
  is_Some (rest (drop_chars n s)) ->
  is_Some (Orchestrator.try_counts it rest s k).
Proof.
  intros Hnk Hmin Hrest. induction k as [|k IH]; rewrite try_counts_eq.
  - assert (n = 0)%nat as -> by lia.
    destruct (Nat.ltb_spec 0 (Orchestrator.at_least it)); [lia|].
    destruct Hrest as [g ->]. eauto.
  - destruct (Nat.ltb_spec (S k) (Orchestrator.at_least it)); [lia|].
    destruct (rest (drop_chars (S k) s)) as [g|] eqn:Er; [eauto|].
    apply IH. destruct (decide (n = S k)) as [->|]; [|lia].
    rewrite Er in Hrest. by destruct Hrest.
Qed.

Lemma match_items_complete p s groups :
  Orchestrator.matches p s groups -> is_Some (Orchestrator.match_items p s).
Proof.
  induction 1 as [s|it p s n groups Hmin Hlen Hmax Hall _ IH]; simpl; [eauto|].
  apply (try_counts_complete it _ s _ n); [|done|done].
  by apply run_length_max.
Qed.

Lemma search_first_match p s :
  Orchestrator.first_match p s (Orchestrator.search p s).
Proof.
  induction s as [|c s IH]; simpl.
  - destruct (Orchestrator.match_items p "") as [g|] eqn:Em.
    + exists "", "". split_and!; [done|by apply match_items_sound|].
      intros ? ? _ Hl. simpl in Hl. lia.
    + intros before after Hs [g Hg].
      destruct before; [|done]. rewrite string_app_nil in Hs. subst after.
      apply match_items_complete in Hg. rewrite Em in Hg. by destruct Hg.
  - destruct (Orchestrator.match_items p (String c s)) as [g|] eqn:Em.
    + exists "", (String c s). split_and!; [done|by apply match_items_sound|].
      intros ? ? _ Hl. simpl in Hl. lia.
    + assert (~ exists g, Orchestrator.matches p (String c s) g) as Hhere.
      { intros [g Hg]. apply match_items_complete in Hg.
        rewrite Em in Hg. by destruct Hg. }
      destruct (Orchestrator.search p s) as [g|]; simpl in IH |- *.
      * destruct IH as (before & after & -> & Hm & Hleft).
        exists (String c before), after. split_and!; [done|done|].
        intros before' after' Hs Hl. destruct before' as [|c' before'].
        { rewrite string_app_nil in Hs. by subst after'. }
        rewrite string_app_cons in Hs. injection Hs as -> Hs.
        apply (Hleft before' after' Hs). simpl in Hl. lia.
      * intros before after Hs. destruct before as [|c' before].
        { rewrite string_app_nil in Hs. by subst after. }
        rewrite string_app_cons in Hs. injection Hs as -> Hs.
        by apply (IH before after).
Qed.

Lemma meets_target_integer cov :
  Orchestrator.meets_target cov = true <-> (Orchestrator.COVERAGE_TARGET <= cov)%Z.
Proof.
  unfold Orchestrator.meets_target, Orchestrator.COVERAGE_TARGET.
  rewrite Z.leb_le. lia.
Qed.

(** C9.  [run_pytest_and_coverage] succeeds exactly when the command's
    exit code is zero and the coverage read from its output reaches the
    target, up to the tolerance of one millionth, which on the whole
    numbers that are read amounts to reaching the target.  The coverage is
    the number captured by the leftmost match of the summary pattern
    [TOTAL <int> <int> <int>%]; failing that, by the leftmost match of
    the fallback pattern [<int>% Coverage]; and 0 when neither matches. *)
Theorem run_pytest_and_coverage_succeeds_iff (w : Orchestrator.world) :
  let code := fst (fst (Orchestrator.command_result w)) in
  let output :=
    snd (fst (Orchestrator.command_result w)) +:+ Json.newline
    +:+ snd (Orchestrator.command_result w) in
  let ok := fst (fst (fst (Orchestrator.run_pytest_and_coverage w))) in
  let cov := snd (fst (fst (Orchestrator.run_pytest_and_coverage w))) in
  snd (fst (Orchestrator.run_pytest_and_coverage w)) = output
  /\ (ok = true <->
      code = 0%Z
      /\ (Orchestrator.COVERAGE_TARGET * 1000000 - 1 <= cov * 1000000)%Z)
  /\ (ok = true <-> code = 0%Z /\ (Orchestrator.COVERAGE_TARGET <= cov)%Z)
  /\ (exists total,
        Orchestrator.first_match Orchestrator.RE_TOTAL output total
        /\ match total with
           | Some groups => cov = Orchestrator.float_of_group groups
           | None =>
               exists fallback,
                 Orchestrator.first_match Orchestrator.RE_COVERAGE output fallback
                 /\ cov = match fallback with
                          | Some groups => Orchestrator.float_of_group groups
                          | None => 0%Z
                          end
           end)
  /\ Orchestrator.coverage_from_pytest_output "TOTAL   23     1    95%" = Some 95%Z
  /\ Orchestrator.coverage_from_pytest_output "FAIL Required: 87% coverage" = Some 87%Z
  /\ Orchestrator.coverage_from_pytest_output "3 passed in 0.12s" = None.
Proof.
  unfold Orchestrator.run_pytest_and_coverage, Orchestrator.run_cmd.
  destruct (Orchestrator.command_result w) as [[code out] err]. cbn [fst snd].
  set (output := out +:+ Json.newline +:+ err).
  set (cov := match Orchestrator.coverage_from_pytest_output output with
              | Some c => c
              | None => 0%Z
              end).
  split_and!.
  - done.
  - rewrite andb_true_iff, Z.eqb_eq. unfold Orchestrator.meets_target.
    by rewrite Z.leb_le.
  - by rewrite andb_true_iff, Z.eqb_eq, meets_target_integer.
  - exists (Orchestrator.search Orchestrator.RE_TOTAL output).
    split; [apply search_first_match|].
    subst cov. unfold Orchestrator.coverage_from_pytest_output.
    destruct (Orchestrator.search Orchestrator.RE_TOTAL output); [done|].
    exists (Orchestrator.search Orchestrator.RE_COVERAGE output).
    split; [apply search_first_match|].
    by destruct (Orchestrator.search Orchestrator.RE_COVERAGE output).
  - vm_compute. reflexivity.
  - vm_compute. reflexivity.
  - vm_compute. reflexivity.
Qed.

(** ** The protected-path gate of the executor *)

Lemma replace_char_fixed_lstrip cs s :
  replace_char backslash slash s = s ->
  replace_char backslash slash (lstrip_chars cs s) = lstrip_chars cs s.
Proof.
  induction s as [|c s IH]; simpl; [done|].
  intros H. injection H as Hc Hs.
  destruct (char_in c cs); [by apply IH|]. simpl. by rewrite Hc, Hs.
Qed.

Lemma replace_char_idempotent s :
  replace_char backslash slash (replace_char backslash slash s)
  = replace_char backslash slash s.
Proof.
  induction s as [|c s IH]; simpl; [done|]. rewrite IH. f_equal.
  by destruct (Ascii.eqb c backslash) eqn:E; [|rewrite E].
Qed.

Lemma sanitize_path_normal p :
  replace_char backslash slash (Orchestrator.sanitize_path p) = Orchestrator.sanitize_path p.
Proof. apply replace_char_fixed_lstrip, replace_char_idempotent. Qed.

Lemma sanitize_items_normal items allowed :
  Orchestrator.sanitize_items items = Ret allowed ->
  Forall (fun p => replace_char backslash slash p = p) allowed.
Proof.
  revert allowed. induction items as [|v items IH]; simpl; intros allowed H.
  - injection H as <-. constructor.
  - destruct v; try done. apply bind_Ret_inv in H as (tl & Htl & H).
    injection H as <-. constructor; [apply sanitize_path_normal|by apply IH].
Qed.

(** The scan of one [allow_paths]. *)
Lemma granted_among_true pp items :
  Orchestrator.granted_among pp items = Ret true ->
  exists ap, VStr ap ∈ items /\ Orchestrator.grants pp ap = true.
Proof.
  induction items as [|item items IH]; simpl; [done|].
  destruct item as [| | |ap| |]; try done.
  destruct (Orchestrator.grants pp ap) eqn:Eg.
  - intros _. exists ap. split; [by left|done].
  - intros (ap' & Hin & Hg)%IH. exists ap'. split; [by right|done].
Qed.



(** The scan of the overrides answers the question of the
    specification wherever it answers. *)
Lemma granted_by_override_true overrides pp :
  Orchestrator.granted_by_override overrides pp = Ret true ->
  Orchestrator.granted overrides pp.
Proof.
  induction overrides as [|ov overrides IH]; simpl; [done|].
  destruct ov as [| | | | |d]; try done.
  intros (items & Hitems & H)%bind_Ret_inv.
  apply bind_Ret_inv in H as (found & Hfound & H).
  destruct found.
  - apply granted_among_true in Hfound as (ap & Hin & Hg).
    exists (VDict d), ap. split_and!; [by left| |done]. by exists d, items.
  - destruct (IH H) as (ov & ap & Hov & Hholds & Hg).
    exists ov, ap. split_and!; [by right|done..].
Qed.



(** On the files of typed overrides the scan is the typed test. *)
Lemma granted_among_typed pp aps :
  Orchestrator.granted_among pp (map VStr aps)
  = Ret (existsb (Orchestrator.grants pp) aps).
Proof.
  induction aps as [|ap aps IH]; simpl; [done|].
  by destruct (Orchestrator.grants pp ap).
Qed.

Lemma granted_by_override_typed overrides pp :
  Orchestrator.granted_by_override (map Orchestrator.raw_override overrides) pp
  = Ret (Orchestrator.ok_by_override overrides pp).
Proof.
  induction overrides as [|ov overrides IH]; simpl; [done|].
  rewrite granted_among_typed. simpl.
  by destruct (existsb (Orchestrator.grants pp) (Orchestrator.allow_paths ov)).
Qed.



Lemma conflicting_false overrides protected p :
  Orchestrator.conflicting overrides protected p = Ret false ->
  replace_char backslash slash p ∉ protected
  \/ Orchestrator.granted overrides (replace_char backslash slash p).
Proof.
  unfold Orchestrator.conflicting.
  destruct (bool_decide _) eqn:Ein;
    [|intros _; left; by apply bool_decide_eq_false in Ein].
  intros (found & Hfound & H)%bind_Ret_inv. injection H as H.
  destruct found; [|done]. right. by apply granted_by_override_true.
Qed.



Lemma first_blocked_None overrides protected allowed :
  Orchestrator.first_blocked overrides protected allowed = Ret None ->
  Forall (fun q =>
    replace_char backslash slash q ∉ protected
    \/ Orchestrator.granted overrides (replace_char backslash slash q)) allowed.
Proof.
  induction allowed as [|q allowed IH]; simpl; [constructor|].
  intros (c & Hc & H)%bind_Ret_inv. destruct c; [done|].
  constructor; [by apply conflicting_false in Hc|by apply IH].
Qed.




(** The blocked path of the example run is its second path. *)
Lemma executor_example_blocked_path :
  option_map (fun r => Orchestrator.blocked_path (fst r))
    (match Orchestrator.executor_for_story Orchestrator.no_digest
             Orchestrator.no_derivation Orchestrator.no_plan
             Orchestrator.example_story false
             (map Orchestrator.raw_override Orchestrator.example_overrides)
             Orchestrator.example_protected Orchestrator.example_world with
     | Ret r => Some r
     | Raise _ => None
     end)
  = Some (Some "app/main.py").
Proof. vm_compute. reflexivity. Qed.

(** * Further properties *)

(** ** Sanitized paths *)

Lemma lstrip_chars_head cs s :
  lstrip_chars cs s = EmptyString
  \/ exists c r, lstrip_chars cs s = String c r /\ char_in c cs = false.
Proof.
  induction s as [|c s IH]; simpl; [by left|].
  destruct (char_in c cs) eqn:E; [done|]. right. eauto.
Qed.

Lemma lstrip_chars_idempotent cs s :
  lstrip_chars cs (lstrip_chars cs s) = lstrip_chars cs s.
Proof.
  destruct (lstrip_chars_head cs s) as [->|(c & r & -> & Hc)]; [done|].
  simpl. by rewrite Hc.
Qed.

Lemma replace_char_absent a b s :
  a <> b -> char_in a (replace_char a b s) = false.
Proof.
  intros Hab. unfold char_in. induction s as [|c s IH]; simpl; [done|].
  rewrite IH, orb_false_r.
  destruct (Ascii.eqb c a) eqn:E.
  - by apply Ascii.eqb_neq.
  - rewrite Ascii.eqb_sym. exact E.
Qed.

Lemma char_in_lstrip_chars a cs s :
  char_in a s = false -> char_in a (lstrip_chars cs s) = false.
Proof.
  unfold char_in. induction s as [|c s IH]; simpl; [done|].
  intros [Hc Hs]%orb_false_elim. destruct (char_in c cs); [by apply IH|].
  simpl. by rewrite Hc, Hs.
Qed.

Lemma char_in_absent_replace a b s :
  char_in a s = false -> replace_char a b s = s.
Proof.
  unfold char_in. induction s as [|c s IH]; simpl; [done|].
  intros [Hc Hs]%orb_false_elim. rewrite (IH Hs).
  rewrite Ascii.eqb_sym in Hc. by rewrite Hc.
Qed.

Lemma sanitize_path_no_backslash p :
  char_in backslash (Orchestrator.sanitize_path p) = false.
Proof. by apply char_in_lstrip_chars, replace_char_absent. Qed.

Lemma sanitize_path_idempotent p :
  Orchestrator.sanitize_path (Orchestrator.sanitize_path p) = Orchestrator.sanitize_path p.
Proof.
  unfold Orchestrator.sanitize_path at 1.
  rewrite (char_in_absent_replace _ _ _ (sanitize_path_no_backslash p)).
  apply lstrip_chars_idempotent.
Qed.


Lemma startswith_one a c r :
  startswith (String a EmptyString) (String c r) = Ascii.eqb a c.
Proof.
  unfold startswith. cbn [String.prefix].
  destruct (ascii_dec a c) as [->|Hn]; simpl.
  - destruct r; by rewrite Ascii.eqb_refl.
  - symmetry. by apply Ascii.eqb_neq.
Qed.

Lemma sanitize_path_head p :
  startswith "." (Orchestrator.sanitize_path p) = false
  /\ startswith "/" (Orchestrator.sanitize_path p) = false.
Proof.
  unfold Orchestrator.sanitize_path.
  destruct (lstrip_chars_head "./" (replace_char backslash slash p))
    as [->|(c & r & -> & Hc)]; [by split|].
  unfold char_in in Hc. simpl in Hc.
  apply orb_false_elim in Hc as [H1 [H2 _]%orb_false_elim].
  rewrite !startswith_one, (Ascii.eqb_sym "." c), (Ascii.eqb_sym "/" c). by split.
Qed.

Lemma sanitize_items_strs l :
  Orchestrator.sanitize_items (map VStr l) = Ret (map Orchestrator.sanitize_path l).
Proof. induction l as [|p l IH]; simpl; [done|]. by rewrite IH. Qed.

Lemma sanitize_items_sanitized items allowed :
  Orchestrator.sanitize_items items = Ret allowed ->
  Forall (fun q => Orchestrator.sanitize_path q = q) allowed.
Proof.
  revert allowed. induction items as [|v items IH]; simpl; intros allowed H.
  - injection H as <-. constructor.
  - destruct v; try done. apply bind_Ret_inv in H as (tl & Htl & H).
    injection H as <-. constructor; [apply sanitize_path_idempotent|by apply IH].
Qed.

Lemma sanitize_paths_sanitized paths allowed :
  Orchestrator.sanitize_paths paths = Ret allowed ->
  Forall (fun q => Orchestrator.sanitize_path q = q) allowed.
Proof.
  unfold Orchestrator.sanitize_paths. intros H.
  apply bind_Ret_inv in H as (items & _ & H). by apply sanitize_items_sanitized in H.
Qed.

(** X1.  Every path [sanitize_paths] returns is in a canonical form: it
    holds no backslash and begins with neither a dot nor a slash, since
    [lstrip("./")] drops every leading dot and slash, not one [./]; and
    sanitizing it again changes nothing.  So the leading dot of a hidden
    file and the leading [../] of a parent path are lost. *)
Theorem sanitize_paths_canonical (paths : value) (allowed : list string) :
  Orchestrator.sanitize_paths paths = Ret allowed ->
  Forall (fun q =>
      char_in backslash q = false
      /\ startswith "." q = false
      /\ startswith "/" q = false
      /\ Orchestrator.sanitize_path q = q) allowed
  /\ Orchestrator.sanitize_paths (VList (map VStr allowed)) = Ret allowed
  /\ (forall l, paths = VList (map VStr l) ->
        allowed = map Orchestrator.sanitize_path l)
  /\ Orchestrator.sanitize_path ".coveragerc" = "coveragerc"
  /\ Orchestrator.sanitize_path "../shared/util.py" = "shared/util.py"
  /\ Orchestrator.sanitize_path
       ("." +:+ String backslash "app" +:+ String backslash "x.py") = "app/x.py".
Proof.
  intros H. pose proof (sanitize_paths_sanitized _ _ H) as Hs.
  split_and!; try reflexivity.
  - eapply Forall_impl; [exact Hs|]. intros q Hq. simpl in Hq. rewrite <- Hq.
    split_and!; [apply sanitize_path_no_backslash|apply sanitize_path_head..|
                 apply sanitize_path_idempotent].
  - unfold Orchestrator.sanitize_paths. simpl. rewrite sanitize_items_strs.
    f_equal. clear H. induction Hs as [|q l Hq _ IH]; simpl; [done|]. by rewrite Hq, IH.
  - intros l ->. unfold Orchestrator.sanitize_paths in H. simpl in H.
    rewrite sanitize_items_strs in H. by injection H as <-.
Qed.

(** X1 on a list of three paths. *)
Lemma sanitize_paths_canonical_witness :
  Forall (fun q =>
      char_in backslash q = false
      /\ startswith "." q = false
      /\ startswith "/" q = false
      /\ Orchestrator.sanitize_path q = q) ["app/x.py"; "coveragerc"; "etc/passwd"]
  /\ Orchestrator.sanitize_paths
       (VList (map VStr ["app/x.py"; "coveragerc"; "etc/passwd"]))
     = Ret ["app/x.py"; "coveragerc"; "etc/passwd"]
  /\ (forall l, VList [VStr "./app/x.py"; VStr ".coveragerc"; VStr "/etc/passwd"]
                = VList (map VStr l) ->
        ["app/x.py"; "coveragerc"; "etc/passwd"] = map Orchestrator.sanitize_path l)
  /\ Orchestrator.sanitize_path ".coveragerc" = "coveragerc"
  /\ Orchestrator.sanitize_path "../shared/util.py" = "shared/util.py"
  /\ Orchestrator.sanitize_path
       ("." +:+ String backslash "app" +:+ String backslash "x.py") = "app/x.py".
Proof.
  apply (sanitize_paths_canonical
           (VList [VStr "./app/x.py"; VStr ".coveragerc"; VStr "/etc/passwd"])).
  reflexivity.
Defined.

(** ** The executor: what a run returns and writes *)

Lemma ok_by_override_spec overrides pp :
  Orchestrator.ok_by_override overrides pp = true <->
  exists ov ap, ov ∈ overrides /\ ap ∈ Orchestrator.allow_paths ov
    /\ Orchestrator.grants pp ap = true.
Proof.
  unfold Orchestrator.ok_by_override. rewrite existsb_exists. split.
  - intros (ov & Hov%list_elem_of_In & Hex).
    apply existsb_exists in Hex as (ap & Hap%list_elem_of_In & Hg). eauto.
  - intros (ov & ap & Hov & Hap & Hg). exists ov.
    split; [by apply list_elem_of_In|]. apply existsb_exists.
    exists ap. split; [by apply list_elem_of_In|done].
Qed.

Lemma first_blocked_ext overrides overrides' protected protected' allowed :
  (forall p, p ∈ allowed ->
     Orchestrator.conflicting overrides protected p
     = Orchestrator.conflicting overrides' protected' p) ->
  Orchestrator.first_blocked overrides protected allowed
  = Orchestrator.first_blocked overrides' protected' allowed.
Proof.
  induction allowed as [|p allowed IH]; simpl; intros H; [done|].
  rewrite <- (H p) by (by left).
  rewrite IH; [done|]. intros q Hq. apply H. by right.
Qed.

Lemma executor_first_blocked_ext sha256_of_file derive_allowed apply_plan
    story dry overrides overrides' protected protected' w :
  (forall allowed,
     Orchestrator.sanitize_paths (dict_get "allowed_paths" (VList []) story)
     = Ret allowed ->
     Orchestrator.first_blocked overrides protected allowed
     = Orchestrator.first_blocked overrides' protected' allowed) ->
  Orchestrator.executor_for_story sha256_of_file derive_allowed apply_plan
    story dry overrides protected w
  = Orchestrator.executor_for_story sha256_of_file derive_allowed apply_plan
      story dry overrides' protected' w.
Proof.
  intros H. unfold Orchestrator.executor_for_story.
  destruct (dict_item "id" story) as [sid|e]; [|done]. simpl.
  destruct (Orchestrator.sanitize_paths _) as [allowed|e]; [|done]. simpl.
  by rewrite (H allowed eq_refl).
Qed.

(** X2.  The executor tests the protected set only at sanitized paths.
    Two protected sets that hold the same sanitized paths give the same
    run: an entry of the protected set that begins with a dot or a slash,
    or holds a backslash, never blocks a story.  With the infrastructure
    hints as the protected set, a story that asks for [.coveragerc], one
    of the hints, is not blocked. *)
Theorem executor_ignores_unsanitized_protected_paths
    (sha256_of_file : Orchestrator.world -> string -> result string)
    (derive_allowed : Orchestrator.world -> list string)
    (apply_plan : bool -> Orchestrator.world ->
                  result (list string * Orchestrator.world))
    (story : dict) (dry : bool) (overrides : list value)
    (protected protected' : gset string) (w : Orchestrator.world) :
  (forall p, Orchestrator.sanitize_path p = p -> (p ∈ protected <-> p ∈ protected')) ->
  Orchestrator.executor_for_story sha256_of_file derive_allowed apply_plan
    story dry overrides protected w
  = Orchestrator.executor_for_story sha256_of_file derive_allowed apply_plan
      story dry overrides protected' w
  /\ ".coveragerc" ∈ Zone.PROTECTED_INFRA_HINTS
  /\ exists out w',
       Orchestrator.executor_for_story Orchestrator.no_digest
         Orchestrator.no_derivation Orchestrator.no_plan
         Zone.coverage_story true [] (list_to_set Zone.PROTECTED_INFRA_HINTS)
         Orchestrator.example_world = Ret (out, w')
       /\ Orchestrator.blocked_path out = None
       /\ Orchestrator.testing_ran out = true.
Proof.
  intros Hagree. split_and!.
  - apply executor_first_blocked_ext. intros allowed Hallowed.
    apply sanitize_paths_sanitized in Hallowed. rewrite Forall_forall in Hallowed.
    apply first_blocked_ext. intros p Hp. specialize (Hallowed p Hp).
    unfold Orchestrator.conflicting.
    assert (replace_char backslash slash p = p) as ->.
    { rewrite <- Hallowed. apply sanitize_path_normal. }
    assert (bool_decide (p ∈ protected) = bool_decide (p ∈ protected')) as ->; [|done].
    apply bool_decide_ext. by apply Hagree.
  - apply list_elem_of_In. simpl. tauto.
  - eexists _, _. split_and!; [vm_compute; reflexivity|reflexivity..].
Qed.

(** X2 on two protected sets that differ by [.coveragerc]. *)
Lemma executor_ignores_unsanitized_protected_paths_witness :
  Orchestrator.executor_for_story Orchestrator.no_digest
    Orchestrator.no_derivation Orchestrator.no_plan
    Orchestrator.example_story false
    (map Orchestrator.raw_override Orchestrator.example_overrides)
    (Orchestrator.example_protected ∪ {[ ".coveragerc" ]}) Orchestrator.example_world
  = Orchestrator.executor_for_story Orchestrator.no_digest
      Orchestrator.no_derivation Orchestrator.no_plan
      Orchestrator.example_story false
      (map Orchestrator.raw_override Orchestrator.example_overrides)
      Orchestrator.example_protected Orchestrator.example_world
  /\ ".coveragerc" ∈ Zone.PROTECTED_INFRA_HINTS
  /\ exists out w',
       Orchestrator.executor_for_story Orchestrator.no_digest
         Orchestrator.no_derivation Orchestrator.no_plan
         Zone.coverage_story true [] (list_to_set Zone.PROTECTED_INFRA_HINTS)
         Orchestrator.example_world = Ret (out, w')
       /\ Orchestrator.blocked_path out = None
       /\ Orchestrator.testing_ran out = true.
Proof.
  apply (executor_ignores_unsanitized_protected_paths Orchestrator.no_digest
           Orchestrator.no_derivation Orchestrator.no_plan).
  intros p Hp. rewrite elem_of_union, elem_of_singleton.
  split; [|by left]. intros [?| ->]; [done|]. by vm_compute in Hp.
Defined.

(** X3.  The executor reads nothing of an override but its granted
    paths, and it reads the overrides of every story: two override
    registries that grant the same paths give the same run, whichever
    story each override was filed for. *)
Theorem executor_ignores_override_story_ids
    (sha256_of_file : Orchestrator.world -> string -> result string)
    (derive_allowed : Orchestrator.world -> list string)
    (apply_plan : bool -> Orchestrator.world ->
                  result (list string * Orchestrator.world))
    (story : dict) (dry : bool) (overrides overrides' : list Orchestrator.override)
    (protected : gset string) (w : Orchestrator.world) :
  (forall ap,
     (exists ov, ov ∈ overrides /\ ap ∈ Orchestrator.allow_paths ov) <->
     (exists ov, ov ∈ overrides' /\ ap ∈ Orchestrator.allow_paths ov)) ->
  Orchestrator.executor_for_story sha256_of_file derive_allowed apply_plan
    story dry (map Orchestrator.raw_override overrides) protected w
  = Orchestrator.executor_for_story sha256_of_file derive_allowed apply_plan
      story dry (map Orchestrator.raw_override overrides') protected w.
Proof.
  intros Hsame. apply executor_first_blocked_ext. intros allowed _.
  apply first_blocked_ext. intros p _. unfold Orchestrator.conflicting.
  rewrite !granted_by_override_typed.
  assert (forall ov1 ov2 pp,
            (forall ap, (exists ov, ov ∈ ov1 /\ ap ∈ Orchestrator.allow_paths ov) ->
                        exists ov, ov ∈ ov2 /\ ap ∈ Orchestrator.allow_paths ov) ->
            Orchestrator.ok_by_override ov1 pp = true ->
            Orchestrator.ok_by_override ov2 pp = true) as Hmono.
  { intros ov1 ov2 pp Hsub (ov & ap & Hov & Hap & Hg)%ok_by_override_spec.
    destruct (Hsub ap) as (ov' & Hov' & Hap'); [eauto|].
    apply ok_by_override_spec. eauto. }
  assert (Orchestrator.ok_by_override overrides (replace_char backslash slash p)
          = Orchestrator.ok_by_override overrides' (replace_char backslash slash p))
    as ->; [|done].
  destruct (Orchestrator.ok_by_override overrides _) eqn:E1.
  - symmetry. eapply Hmono; [|exact E1]. intros ap. apply Hsame.
  - destruct (Orchestrator.ok_by_override overrides' _) eqn:E2; [|done].
    rewrite <- E1. eapply Hmono; [|exact E2]. intros ap. apply Hsame.
Qed.

(** X3 on the example run: the override that unblocks [app/auth/] was
    filed for another story. *)
Lemma executor_ignores_override_story_ids_witness :
  Orchestrator.executor_for_story Orchestrator.no_digest
    Orchestrator.no_derivation Orchestrator.no_plan
    Orchestrator.example_story false
    (map Orchestrator.raw_override Orchestrator.example_overrides)
    Orchestrator.example_protected Orchestrator.example_world
  = Orchestrator.executor_for_story Orchestrator.no_digest
      Orchestrator.no_derivation Orchestrator.no_plan
      Orchestrator.example_story false
      (map Orchestrator.raw_override Zone.foreign_overrides)
      Orchestrator.example_protected Orchestrator.example_world.
Proof.
  apply (executor_ignores_override_story_ids Orchestrator.no_digest
           Orchestrator.no_derivation Orchestrator.no_plan).
  intros ap. split; intros (ov & Hov & Hap).
  - apply list_elem_of_singleton in Hov as ->. eexists. split; [by left|exact Hap].
  - apply list_elem_of_singleton in Hov as ->. eexists. split; [by left|exact Hap].
Defined.

Lemma run_pytest_and_coverage_effect w tests_ok cov output w2 :
  Orchestrator.run_pytest_and_coverage w = ((tests_ok, cov, output), w2) ->
  Orchestrator.log w2
  = Orchestrator.log w ++ [Orchestrator.RanCommand "py -m pytest -vv --cov --cov-fail-under=95"]
  /\ Orchestrator.exists_ w2 = Orchestrator.exists_ w
  /\ Orchestrator.isdir w2 = Orchestrator.isdir w
  /\ Orchestrator.uuids w2 = Orchestrator.uuids w
  /\ tests_ok = Z.eqb (fst (fst (Orchestrator.command_result w))) 0
                && Orchestrator.meets_target cov.
Proof.
  unfold Orchestrator.run_pytest_and_coverage, Orchestrator.run_cmd.
  destruct (Orchestrator.command_result w) as [[code out] err].
  intros H. injection H as <- <- <- <-. by split_and!.
Qed.

Lemma fresh_uuid_effect w token w2 :
  Orchestrator.fresh_uuid w = (token, w2) ->
  Orchestrator.log w2 = Orchestrator.log w
  /\ Orchestrator.exists_ w2 = Orchestrator.exists_ w
  /\ Orchestrator.isdir w2 = Orchestrator.isdir w.
Proof. unfold Orchestrator.fresh_uuid. intros H. injection H as <- <-. by split_and!. Qed.

(** X4.  Whatever the executor returns is consistent: the two counters
    of the metrics update add up to one; tests reported as passing imply
    that the coverage is reported as sufficient, because the test verdict
    already includes the coverage threshold; the classification is null
    exactly when the tests passed, [blocked_needs_override] exactly when
    no test was run and a blocked path is named, and
    [out_of_scope_regression] exactly when the tests ran and failed. *)
Theorem executor_outcome_is_consistent
    (sha256_of_file : Orchestrator.world -> string -> result string)
    (derive_allowed : Orchestrator.world -> list string)
    (apply_plan : bool -> Orchestrator.world ->
                  result (list string * Orchestrator.world))
    (story : dict) (dry : bool) (overrides : list value)
    (protected : gset string) (w : Orchestrator.world)
    (out : Orchestrator.outcome) (w' : Orchestrator.world) :
  Orchestrator.executor_for_story sha256_of_file derive_allowed apply_plan
    story dry overrides protected w = Ret (out, w') ->
  (Orchestrator.metrics_throughput out + Orchestrator.metrics_error_rate out = 1)%Z
  /\ (Orchestrator.testing_ok out = true ->
      Orchestrator.verification_coverage_ok out = true)
  /\ Orchestrator.verification_tests_ok out = Orchestrator.testing_ok out
  /\ (Orchestrator.classification_ out = None <-> Orchestrator.testing_ok out = true)
  /\ (Orchestrator.classification_ out = None <->
      Orchestrator.metrics_throughput out = 1%Z)
  /\ (Orchestrator.classification_ out = Some Orchestrator.BLOCKED_NEEDS_OVERRIDE <->
      Orchestrator.testing_ran out = false)
  /\ (Orchestrator.classification_ out = Some Orchestrator.BLOCKED_NEEDS_OVERRIDE <->
      is_Some (Orchestrator.blocked_path out))
  /\ (Orchestrator.classification_ out = Some Orchestrator.OUT_OF_SCOPE_REGRESSION <->
      Orchestrator.testing_ran out = true /\ Orchestrator.testing_ok out = false)
  /\ Orchestrator.change_set_files out = Orchestrator.checkpoint_touched out
  /\ (Orchestrator.testing_ran out = true ->
      Orchestrator.verification_coverage_ok out
      = Orchestrator.meets_target (Orchestrator.verification_coverage out)).
Proof.
  unfold Orchestrator.executor_for_story.
  destruct (dict_item "id" story) as [sid|e]; [|done]. simpl.
  destruct (Orchestrator.sanitize_paths _) as [allowed|e]; [|done]. simpl.
  destruct (Orchestrator.preflight_report w) as [pre|e]; [|done]. simpl.
  destruct (eq_str sid "fix_gate_imports_tests") eqn:Hfix;
    [destruct (apply_plan dry w) as [[files w0]|e]; [simpl|done]
    |destruct (Orchestrator.first_blocked overrides protected allowed) as [[pp|]|e];
     [simpl| |done];
     [|destruct (Orchestrator.minimal_edits dry allowed [] w) as [[touched w0]|e];
       [simpl|done]]].
  2: { intros H. injection H as <- <-. simpl.
       split_and!; try done; try (split; [done|by eauto]); split; try done.
       by intros [? ?]. }
  all: destruct (Orchestrator.run_pytest_and_coverage w0)
         as [[[tests_ok cov] output] w1] eqn:Er;
       apply run_pytest_and_coverage_effect in Er as (_ & _ & _ & _ & Hok);
       destruct (Orchestrator.checksums_of sha256_of_file _ w1) as [sums|e];
         [simpl|done];
       intros H; injection H as <- <-; simpl;
       destruct (Orchestrator.meets_target cov);
         [rewrite andb_true_r in Hok|rewrite andb_false_r in Hok];
         subst tests_ok; [destruct (Z.eqb _ 0)|]; simpl;
       (split_and!; try done; try (split; [done|by intros [? ?]]);
        try (split; [done|by intros [? ?]%is_Some_alt]);
        try (split; [by intros ?|done])).
Qed.

(** X4 on a run that adds a package marker and passes its tests. *)
Lemma executor_outcome_is_consistent_witness :
  exists out w',
    Orchestrator.executor_for_story Orchestrator.no_digest
      Orchestrator.no_derivation Orchestrator.no_plan
      Zone.package_story false [] Orchestrator.example_protected
      Orchestrator.example_world = Ret (out, w')
    /\ (Orchestrator.metrics_throughput out + Orchestrator.metrics_error_rate out = 1)%Z
    /\ (Orchestrator.testing_ok out = true ->
        Orchestrator.verification_coverage_ok out = true)
    /\ Orchestrator.verification_tests_ok out = Orchestrator.testing_ok out
    /\ (Orchestrator.classification_ out = None <-> Orchestrator.testing_ok out = true)
    /\ (Orchestrator.classification_ out = None <->
        Orchestrator.metrics_throughput out = 1%Z)
    /\ (Orchestrator.classification_ out = Some Orchestrator.BLOCKED_NEEDS_OVERRIDE <->
        Orchestrator.testing_ran out = false)
    /\ (Orchestrator.classification_ out = Some Orchestrator.BLOCKED_NEEDS_OVERRIDE <->
        is_Some (Orchestrator.blocked_path out))
    /\ (Orchestrator.classification_ out = Some Orchestrator.OUT_OF_SCOPE_REGRESSION <->
        Orchestrator.testing_ran out = true /\ Orchestrator.testing_ok out = false)
    /\ Orchestrator.change_set_files out = Orchestrator.checkpoint_touched out
    /\ (Orchestrator.testing_ran out = true ->
        Orchestrator.verification_coverage_ok out
        = Orchestrator.meets_target (Orchestrator.verification_coverage out)).
Proof.
  eexists _, _. split; [vm_compute; reflexivity|].
  eapply (executor_outcome_is_consistent Orchestrator.no_digest
           Orchestrator.no_derivation Orchestrator.no_plan
           Zone.package_story false [] Orchestrator.example_protected
           Orchestrator.example_world).
  vm_compute. reflexivity.
Defined.

(** The edit condition of the second loop, on the world [w]. *)
Lemma retry_write_effect path data w w' :
  Orchestrator.retry_write path data w = Ret w' ->
  Orchestrator.write_outcome w path = Ret tt
  /\ Orchestrator.log w' = Orchestrator.log w ++ [Orchestrator.Wrote path data]
  /\ Orchestrator.isdir w' = Orchestrator.isdir w
  /\ Orchestrator.file_of w' = Orchestrator.file_of w
  /\ Orchestrator.write_outcome w' = Orchestrator.write_outcome w
  /\ (forall q, Orchestrator.exists_ w' q
                = String.eqb (Orchestrator.file_of w q) (Orchestrator.file_of w path)
                  || Orchestrator.exists_ w q).
Proof.
  unfold Orchestrator.retry_write.
  destruct (Orchestrator.write_outcome w path) as [[]|e]; [|done].
  intros H. injection H as <-. by split_and!.
Qed.

Lemma minimal_edits_spec dry allowed touched w touched' w' :
  Orchestrator.minimal_edits dry allowed touched w = Ret (touched', w') ->
  exists created,
    sublist created allowed
    /\ touched' = touched ++ map (replace_char backslash slash) created
    /\ Orchestrator.log w'
       = Orchestrator.log w
         ++ (if dry then []
             else map (fun p => Orchestrator.Wrote p Zone.init_marker) created)
    /\ Forall (fun p =>
          Orchestrator.is_init_py p = true
          /\ Orchestrator.isdir w (Orchestrator.dirname p) = true
          /\ Orchestrator.exists_ w p = false) created
    /\ Orchestrator.isdir w' = Orchestrator.isdir w
    /\ Orchestrator.file_of w' = Orchestrator.file_of w
    /\ (dry = true -> w' = w)
    /\ (dry = false ->
        NoDup (map (Orchestrator.file_of w) created)
        /\ Forall (fun p => Orchestrator.write_outcome w p = Ret tt) created
        /\ forall q, Orchestrator.exists_ w' q = true <->
             Orchestrator.exists_ w q = true
             \/ exists p, p ∈ created
                  /\ Orchestrator.file_of w q = Orchestrator.file_of w p).
Proof.
  revert touched w. induction allowed as [|p allowed IH]; simpl; intros touched w H.
  - injection H as <- <-. exists []. rewrite app_nil_r.
    split_and!; try done; try (by destruct dry; rewrite app_nil_r).
    intros _. split_and!; [constructor|constructor|].
    intros q. split; [by left|]. intros [?|(p & Hp%elem_of_nil & _)]; done.
  - destruct (Orchestrator.is_init_py p && Orchestrator.isdir w (Orchestrator.dirname p)
              && negb (Orchestrator.exists_ w p)) eqn:Ec.
    + apply andb_true_iff in Ec as [[Hi Hd]%andb_true_iff Hx%negb_true_iff].
      apply bind_Ret_inv in H as (w1 & Hw1 & H).
      apply IH in H as (created & Hsub & -> & Hlog & Hall & Hdir & Hfile & Hdry & Hwet).
      destruct dry.
      * injection Hw1 as <-. exists (p :: created). split_and!; try done.
        -- by constructor.
        -- simpl. by rewrite <- app_assoc.
        -- by constructor.
      * apply retry_write_effect in Hw1 as (Hout & Hlog1 & Hdir1 & Hfile1 & Hout1 & Hex1).
        destruct (Hwet eq_refl) as (Hnd & Hwrote & Hex).
        assert (Forall (fun q =>
                  Orchestrator.is_init_py q = true
                  /\ Orchestrator.isdir w (Orchestrator.dirname q) = true
                  /\ Orchestrator.exists_ w q = false
                  /\ Orchestrator.file_of w q <> Orchestrator.file_of w p) created)
          as Hall'.
        { eapply Forall_impl; [exact Hall|]. simpl.
          intros q (Hq1 & Hq2 & Hq3). rewrite Hdir1 in Hq2. rewrite Hex1 in Hq3.
          apply orb_false_elim in Hq3 as [Hne%String.eqb_neq ?]. by split_and!. }
        exists (p :: created). split_and!; try done.
        -- by constructor.
        -- simpl. by rewrite <- app_assoc.
        -- rewrite Hlog, Hlog1. simpl. by rewrite <- app_assoc.
        -- constructor; [done|]. eapply Forall_impl; [exact Hall'|]. simpl. tauto.
        -- by rewrite Hdir, Hdir1.
        -- by rewrite Hfile, Hfile1.
        -- intros _. split_and!.
           ++ simpl. constructor; [|by rewrite Hfile1 in Hnd].
              intros (q & Hq & Hin)%list_elem_of_fmap.
              rewrite Forall_forall in Hall'. destruct (Hall' q Hin) as (_ & _ & _ & Hne).
              congruence.
           ++ constructor; [done|]. by rewrite Hout1 in Hwrote.
           ++ intros q. rewrite Hex, Hex1, orb_true_iff, String.eqb_eq, Hfile1.
              split.
              ** intros [[Hq|Hq]|(p' & Hp' & Hq)]; [right|by left|right].
                 --- exists p. split; [by left|done].
                 --- exists p'. split; [by right|done].
              ** intros [Hq|(p' & [->|Hp']%elem_of_cons & Hq)];
                   [left; by right|left; by left|right; by exists p'].
    + apply IH in H as (created & Hsub & -> & Hlog & Hall & Hdir & Hfile & Hdry & Hwet).
      exists created. split_and!; try done. by constructor.
Qed.

(** A dry run reports every allowed path that meets the edit condition
    on the world it starts from. *)
Lemma minimal_edits_dry allowed touched w :
  Orchestrator.minimal_edits true allowed touched w
  = Ret (touched
         ++ map (replace_char backslash slash)
              (filter (fun p => Orchestrator.is_init_py p
                                && Orchestrator.isdir w (Orchestrator.dirname p)
                                && negb (Orchestrator.exists_ w p) = true) allowed),
         w).
Proof.
  revert touched. induction allowed as [|p allowed IH]; simpl; intros touched.
  - by rewrite app_nil_r.
  - destruct (Orchestrator.is_init_py p && Orchestrator.isdir w (Orchestrator.dirname p)
              && negb (Orchestrator.exists_ w p)) eqn:Ec.
    + rewrite filter_cons_True by done. simpl. rewrite IH. by rewrite <- app_assoc.
    + rewrite filter_cons_False by congruence. apply IH.
Qed.

Lemma sublist_filter_all {A} (P : A -> Prop) `{forall x, Decision (P x)} (k l : list A) :
  sublist k l -> Forall P k -> sublist k (filter P l).
Proof.
  induction 1 as [|x k l Hkl IH|x k l Hkl IH]; intros HP.
  - constructor.
  - apply Forall_cons in HP as [Px HP]. rewrite filter_cons_True by done.
    constructor. by apply IH.
  - destruct (decide (P x)).
    + rewrite filter_cons_True by done. constructor. by apply IH.
    + rewrite filter_cons_False by done. by apply IH.
Qed.

(** When no two of the paths lead to one file, a writing run edits what
    a dry run reports. *)
Lemma minimal_edits_distinct allowed touched w0 w touched' w' :
  NoDup (map (Orchestrator.file_of w0) allowed) ->
  Orchestrator.isdir w = Orchestrator.isdir w0 ->
  Orchestrator.file_of w = Orchestrator.file_of w0 ->
  (forall q, q ∈ allowed -> Orchestrator.exists_ w q = Orchestrator.exists_ w0 q) ->
  Orchestrator.minimal_edits false allowed touched w = Ret (touched', w') ->
  touched'
  = touched
    ++ map (replace_char backslash slash)
         (filter (fun p => Orchestrator.is_init_py p
                           && Orchestrator.isdir w0 (Orchestrator.dirname p)
                           && negb (Orchestrator.exists_ w0 p) = true) allowed).
Proof.
  revert touched w. induction allowed as [|p allowed IH]; simpl;
    intros touched w Hnd Hdir Hfile Hex H.
  - injection H as <- <-. by rewrite app_nil_r.
  - apply NoDup_cons in Hnd as [Hp Hnd].
    rewrite (Hex p) in H by (by left). rewrite Hdir in H.
    destruct (Orchestrator.is_init_py p && Orchestrator.isdir w0 (Orchestrator.dirname p)
              && negb (Orchestrator.exists_ w0 p)) eqn:Ec.
    + rewrite filter_cons_True by done. simpl.
      apply bind_Ret_inv in H as (w1 & Hw1 & H).
      apply retry_write_effect in Hw1 as (_ & _ & Hdir1 & Hfile1 & _ & Hex1).
      rewrite (IH (touched ++ [replace_char backslash slash p]) w1 Hnd);
        [by rewrite <- app_assoc|congruence|congruence| |done].
      intros q Hq. rewrite Hex1, Hfile, (Hex q) by (by right).
      destruct (String.eqb_spec (Orchestrator.file_of w0 q) (Orchestrator.file_of w0 p))
        as [Heq|_]; [|done].
      exfalso. apply Hp. rewrite <- Heq. apply list_elem_of_fmap. by exists q.
    + rewrite filter_cons_False by congruence.
      apply (IH _ w); try done. intros q Hq. apply Hex. by right.
Qed.

(** Files that do not exist have no checksum, and are not read. *)
Lemma checksums_from_absent sha256_of_file touched w acc :
  Forall (fun f => Orchestrator.exists_ w f = false) touched ->
  Orchestrator.checksums_from sha256_of_file touched w acc = Ret acc.
Proof.
  intros H. revert acc. induction H as [|f touched Hf _ IH]; simpl; intros acc; [done|].
  by rewrite Hf.
Qed.

(** X5.  A run of the executor on a story that is not the fix gate edits
    nothing but missing package markers inside the story's allowed paths:
    every file it writes is one of the sanitized allowed paths, is named
    [__init__.py], lies in an existing directory, did not exist before
    the run, receives the fixed marker text, and is either outside the
    protected set or granted by an override.  A writing run writes no file
    twice, under whatever paths: no two of the paths it writes lead to one
    file, each write succeeded, and each written file exists afterwards.
    A dry run writes nothing.  No existing file disappears, and the only
    command run is the test command, once, unless the run was blocked.
    When a run returns, so does the dry run from the same world, and it
    reports every file the run reports; it reports the same files when no
    two allowed paths lead to one file, and may report more otherwise: a
    marker named twice, the second time with a doubled slash, is reported
    twice by the dry run and written once.  A write that fails makes the
    run raise. *)
Theorem executor_edits_within_allowed_paths
    (sha256_of_file : Orchestrator.world -> string -> result string)
    (derive_allowed : Orchestrator.world -> list string)
    (apply_plan : bool -> Orchestrator.world ->
                  result (list string * Orchestrator.world))
    (story : dict) (dry : bool) (overrides : list value)
    (protected : gset string) (w : Orchestrator.world)
    (sid : value) (allowed : list string)
    (out : Orchestrator.outcome) (w' : Orchestrator.world) :
  dict_item "id" story = Ret sid ->
  eq_str sid "fix_gate_imports_tests" = false ->
  Orchestrator.sanitize_paths (dict_get "allowed_paths" (VList []) story)
  = Ret allowed ->
  Orchestrator.executor_for_story sha256_of_file derive_allowed apply_plan
    story dry overrides protected w = Ret (out, w') ->
  (exists created,
     sublist created allowed
     /\ Forall (fun p =>
          Orchestrator.is_init_py p = true
          /\ Orchestrator.isdir w (Orchestrator.dirname p) = true
          /\ Orchestrator.exists_ w p = false
          /\ (p ∉ protected \/ Orchestrator.granted overrides p)) created
     /\ Orchestrator.change_set_files out = created
     /\ Orchestrator.log w'
        = Orchestrator.log w
          ++ (if dry then []
              else map (fun p => Orchestrator.Wrote p Zone.init_marker) created)
          ++ (if Orchestrator.testing_ran out
              then [Orchestrator.RanCommand "py -m pytest -vv --cov --cov-fail-under=95"]
              else [])
     /\ (dry = false ->
         NoDup (map (Orchestrator.file_of w) created)
         /\ Forall (fun p => Orchestrator.write_outcome w p = Ret tt) created
         /\ Forall (fun p => Orchestrator.exists_ w' p = true) created)
     /\ (forall q, Orchestrator.exists_ w q = true -> Orchestrator.exists_ w' q = true))
  /\ (exists out0 w0,
        Orchestrator.executor_for_story sha256_of_file derive_allowed apply_plan
          story true overrides protected w = Ret (out0, w0)
        /\ sublist (Orchestrator.change_set_files out)
             (Orchestrator.change_set_files out0)
        /\ (NoDup (map (Orchestrator.file_of w) allowed) ->
            Orchestrator.change_set_files out0 = Orchestrator.change_set_files out)
        /\ Orchestrator.exists_ w0 = Orchestrator.exists_ w
        /\ Orchestrator.log w0
           = Orchestrator.log w
             ++ (if Orchestrator.testing_ran out0
                 then [Orchestrator.RanCommand "py -m pytest -vv --cov --cov-fail-under=95"]
                 else []))
  /\ (exists r0 r1,
        Orchestrator.executor_for_story Orchestrator.no_digest
          Orchestrator.no_derivation Orchestrator.no_plan
          Zone.twice_story true [] Orchestrator.example_protected
          Orchestrator.aliased_world = Ret r0
        /\ Orchestrator.change_set_files (fst r0)
           = ["pkg/__init__.py"; "pkg//__init__.py"]
        /\ Orchestrator.log (snd r0)
           = [Orchestrator.RanCommand "py -m pytest -vv --cov --cov-fail-under=95"]
        /\ Orchestrator.executor_for_story Orchestrator.no_digest
             Orchestrator.no_derivation Orchestrator.no_plan
             Zone.twice_story false [] Orchestrator.example_protected
             Orchestrator.aliased_world = Ret r1
        /\ Orchestrator.change_set_files (fst r1) = ["pkg/__init__.py"]
        /\ Orchestrator.log (snd r1)
           = [Orchestrator.Wrote "pkg/__init__.py" Zone.init_marker;
              Orchestrator.RanCommand "py -m pytest -vv --cov --cov-fail-under=95"])
  /\ Orchestrator.executor_for_story Orchestrator.no_digest
       Orchestrator.no_derivation Orchestrator.no_plan
       Zone.package_story false [] Orchestrator.example_protected
       Orchestrator.read_only_world = Raise PermissionError.
Proof.
  intros Hid Hfix Hallowed. unfold Orchestrator.executor_for_story.
  rewrite Hid. simpl. rewrite Hallowed. simpl.
  destruct (Orchestrator.preflight_report w) as [pre|e]; [simpl|done].
  rewrite Hfix.
  assert (Forall (fun p => replace_char backslash slash p = p) allowed) as Hnormal.
  { unfold Orchestrator.sanitize_paths in Hallowed.
    apply bind_Ret_inv in Hallowed as (items & _ & Hitems).
    by apply sanitize_items_normal in Hitems. }
  assert (forall l, sublist l allowed ->
            map (replace_char backslash slash) l = l) as Hfixed.
  { intros l Hl. rewrite Forall_forall in Hnormal.
    rewrite <- (map_id l) at 2. apply map_ext_in. intros p Hp%list_elem_of_In.
    apply Hnormal. by eapply elem_of_sublist. }
  destruct (Orchestrator.first_blocked overrides protected allowed) as [[pp|]|e] eqn:Eb;
    [simpl| |done].
  - intros H. injection H as <- <-. simpl. split_and!.
    + exists []. split_and!;
        [apply sublist_nil_l|constructor|done
        |by destruct dry; simpl; rewrite !app_nil_r
        |intros _; split_and!; constructor|done].
    + eexists _, _. split_and!; [done|done|done|done|by rewrite app_nil_r].
    + eexists _, _. split_and!; vm_compute; reflexivity.
    + vm_compute. reflexivity.
  - simpl. apply first_blocked_None in Eb.
    destruct (Orchestrator.minimal_edits dry allowed [] w) as [[touched w1]|e] eqn:Em;
      [simpl|done].
    pose proof (minimal_edits_spec _ _ _ _ _ _ Em)
      as (created & Hsub & Htouched & Hlog & Hall & Hdir & Hfile & Hdry & Hwet).
    simpl in Htouched. rewrite (Hfixed created Hsub) in Htouched.
    destruct (Orchestrator.run_pytest_and_coverage w1)
      as [[[tests_ok cov] output] w2] eqn:Er.
    pose proof (run_pytest_and_coverage_effect _ _ _ _ _ Er) as (Hlog2 & Hex2 & _).
    destruct (Orchestrator.checksums_of sha256_of_file _ w2) as [sums|e]; [simpl|done].
    intros H. injection H as <- <-. simpl.
    set (cond := fun p => Orchestrator.is_init_py p
                          && Orchestrator.isdir w (Orchestrator.dirname p)
                          && negb (Orchestrator.exists_ w p) = true).
    assert (Forall cond created) as Hcond.
    { eapply Forall_impl; [exact Hall|]. intros p (Hp1 & Hp2 & Hp3).
      unfold cond. by rewrite Hp1, Hp2, Hp3. }
    assert (map (replace_char backslash slash) (filter cond allowed)
            = filter cond allowed) as Hdrylist.
    { apply Hfixed. apply sublist_filter. }
    split_and!.
    + exists created. split_and!.
      * done.
      * rewrite Forall_forall in Hall, Eb, Hnormal. apply Forall_forall. intros p Hp.
        destruct (Hall p Hp) as (? & ? & ?). split_and!; try done.
        assert (p ∈ allowed) as Hpa by (by eapply elem_of_sublist).
        specialize (Eb p Hpa). by rewrite (Hnormal p Hpa) in Eb.
      * done.
      * rewrite Hlog2, Hlog. by rewrite <- app_assoc.
      * intros ->. destruct (Hwet eq_refl) as (Hnd & Hwrote & Hex). split_and!.
        -- done.
        -- done.
        -- rewrite Hex2. apply Forall_forall. intros p Hp. apply Hex. right.
           by exists p.
      * intros q Hq. rewrite Hex2. destruct dry.
        -- by rewrite (Hdry eq_refl).
        -- apply (Hwet eq_refl). by left.
    + rewrite minimal_edits_dry. simpl. fold cond. rewrite Hdrylist.
      destruct (Orchestrator.run_pytest_and_coverage w)
        as [[[tests_ok0 cov0] output0] w3] eqn:Er0.
      pose proof (run_pytest_and_coverage_effect _ _ _ _ _ Er0) as (Hlog3 & Hex3 & _).
      unfold Orchestrator.checksums_of.
      rewrite checksums_from_absent.
      2: { rewrite Hex3. apply Forall_forall. intros p [Hp _]%list_elem_of_filter.
           unfold cond in Hp. apply andb_true_iff in Hp as [_ Hp].
           by apply negb_true_iff in Hp. }
      simpl. eexists _, _. split_and!; [done| | |done|done].
      * simpl. rewrite Htouched. by apply sublist_filter_all.
      * simpl. intros Hnd. rewrite Htouched. destruct dry.
        -- rewrite minimal_edits_dry in Em. fold cond in Em.
           rewrite Hdrylist in Em. injection Em as Em _. by rewrite <- Htouched, <- Em.
        -- rewrite <- Htouched.
           rewrite (minimal_edits_distinct allowed [] w w touched w1 Hnd); try done.
    + eexists _, _. split_and!; vm_compute; reflexivity.
    + vm_compute. reflexivity.
Qed.

(** X5 on the story that adds the marker of a new package. *)
Lemma executor_edits_within_allowed_paths_witness :
  exists out w',
    Orchestrator.executor_for_story Orchestrator.no_digest
      Orchestrator.no_derivation Orchestrator.no_plan
      Zone.package_story false [] Orchestrator.example_protected
      Orchestrator.example_world = Ret (out, w')
    /\ Orchestrator.change_set_files out = ["app/reports/__init__.py"]
    /\ (exists created,
          sublist created ["app/reports/__init__.py"; "docs/reports.md"]
          /\ Forall (fun p =>
               Orchestrator.is_init_py p = true
               /\ Orchestrator.isdir Orchestrator.example_world
                    (Orchestrator.dirname p) = true
               /\ Orchestrator.exists_ Orchestrator.example_world p = false
               /\ (p ∉ Orchestrator.example_protected
                   \/ Orchestrator.granted [] p)) created
          /\ Orchestrator.change_set_files out = created
          /\ Orchestrator.log w'
             = Orchestrator.log Orchestrator.example_world
               ++ map (fun p => Orchestrator.Wrote p Zone.init_marker) created
               ++ (if Orchestrator.testing_ran out
                   then [Orchestrator.RanCommand
                           "py -m pytest -vv --cov --cov-fail-under=95"]
                   else [])
          /\ (forall q, Orchestrator.exists_ Orchestrator.example_world q = true ->
                        Orchestrator.exists_ w' q = true))
    /\ (exists out0 w0,
          Orchestrator.executor_for_story Orchestrator.no_digest
            Orchestrator.no_derivation Orchestrator.no_plan
            Zone.package_story true [] Orchestrator.example_protected
            Orchestrator.example_world = Ret (out0, w0)
          /\ sublist (Orchestrator.change_set_files out)
               (Orchestrator.change_set_files out0)
          /\ Orchestrator.exists_ w0 = Orchestrator.exists_ Orchestrator.example_world).
Proof.
  eexists _, _. split; [vm_compute; reflexivity|]. split; [reflexivity|].
  destruct (executor_edits_within_allowed_paths Orchestrator.no_digest
              Orchestrator.no_derivation Orchestrator.no_plan
              Zone.package_story false [] Orchestrator.example_protected
              Orchestrator.example_world (VStr "S2")
              ["app/reports/__init__.py"; "docs/reports.md"] _ _
              eq_refl eq_refl eq_refl eq_refl)
    as ((created & Hsub & Hall & Hfiles & Hlog & _ & Hex)
        & (out0 & w0 & Hdry & Hcover & _ & Hex0 & _) & _).
  split.
  - exists created. by split_and!.
  - exists out0, w0. by split_and!.
Defined.

(** ** Pre-flight: the issues *)

(** X6.  [preflight_checks] reports an issue for each failed check and
    nothing else: the list of issues is empty exactly when the result is
    [ok]; a failed import comes first, with the probe's error text, and a
    protected-path conflict comes last, with the conflicting paths in
    ascending order joined by commas.  The two optional lists are echoed,
    [None] as the empty list. *)
Theorem preflight_checks_issues
    (probe : Runloop.import_probe)
    (allowed protected run_commands env_vars : option (list string)) :
  let pre := Runloop.preflight_checks probe allowed protected run_commands env_vars in
  let import_issue := "Import check failed: " +:+ snd probe in
  let conflict_issue :=
    "Allowed paths intersect Protected Zone: "
    +:+ join ", " (Runloop._check_protected_conflicts allowed protected) in
  (Runloop.ok pre = true <-> Runloop.issues pre = [])
  /\ Runloop.issues pre
     = (if fst probe then [] else [import_issue])
       ++ (match Runloop.conflicts pre with [] => [] | _ => [conflict_issue] end)
  /\ (Runloop.ok pre = true <-> fst probe = true /\ Runloop.conflicts pre = [])
  /\ Runloop.run_commands pre = Runloop.or_empty run_commands
  /\ Runloop.env_vars_available pre = Runloop.or_empty env_vars.
Proof.
  intros pre import_issue conflict_issue. subst pre import_issue conflict_issue.
  destruct probe as [import_ok err]. unfold Runloop.preflight_checks.
  assert (Runloop._check_protected_conflicts (Some (Runloop.or_empty allowed))
            (Some (Runloop.or_empty protected)) =
          Runloop._check_protected_conflicts allowed protected) as -> by done.
  destruct (Runloop._check_protected_conflicts allowed protected) as [|c cs];
    destruct import_ok; simpl; split_and!; try done;
    split; try done; by intros [? ?].
Qed.

(** ** Planning and the thin run loop *)

Lemma bind_Raise_inv {A B} (m : result A) (k : A -> result B) (e : exn) :
  (x ← m; k x) = Raise e -> m = Raise e \/ exists a, m = Ret a /\ k a = Raise e.
Proof. destruct m as [a|e']; [eauto | intros H; left; simpl in H; congruence]. Qed.

Lemma discover_backlog_ids json_loads bdir stories :
  Workflow.discover_backlog json_loads bdir = Ret stories ->
  Forall (fun s => dict_has "id" s = true) stories.
Proof.
  intros H. destruct bdir as [[entries|e]|]; simpl in H; [|done|].
  - apply bind_Ret_inv in H as (scanned & Hscan & Hsort).
    apply scan_spec in Hscan as (news & -> & HF). simpl in *.
    apply sort_stories_spec in Hsort as [Hperm _]. rewrite Hperm.
    eapply (Forall2_Forall_from _ (fun d => dict_has "id" d = true));
      [|exact HF|apply Forall_omap_kept].
    intros d s Hd Hn. by apply (normalized_shape d s).
  - injection H as <-. constructor.
Qed.

(** The errors of the dynamic operations are type errors. *)
Lemma all_done_raises deps idx e :
  Workflow.all_done deps idx = Raise e -> e = TypeError.
Proof.
  induction deps as [|dep deps IH]; simpl; [done|].
  unfold Workflow.index_get. destruct (hashable dep); simpl; [|congruence].
  destruct (negb _); [done|exact IH].
Qed.

Lemma is_candidate_raises idx s e :
  Workflow.is_candidate idx s = Raise e -> e = TypeError.
Proof.
  unfold Workflow.is_candidate. destruct (eq_str _ _); [|done].
  unfold Workflow._deps_satisfied. intros [H|(deps & _ & H)]%bind_Raise_inv.
  - unfold iterate in H. destruct (dict_get _ _ s); congruence.
  - by apply all_done_raises in H.
Qed.

Lemma filter_stories_raises idx stories e :
  Workflow.filter_stories idx stories = Raise e -> e = TypeError.
Proof.
  induction stories as [|s stories IH]; simpl; [done|].
  intros [H|(c & _ & H)]%bind_Raise_inv; [by apply is_candidate_raises in H|].
  apply bind_Raise_inv in H as [H|(tl & _ & H)]; [by apply IH|done].
Qed.

Lemma status_index_from_raises stories idx0 e :
  Forall (fun s => dict_has "id" s = true) stories ->
  Workflow.status_index_from stories idx0 = Raise e -> e = TypeError.
Proof.
  intros H. revert idx0. induction H as [|s stories Hs _ IH]; simpl; intros idx0; [done|].
  unfold dict_item, dict_has in *. destruct (dict_lookup "id" s) as [k|]; [|done]. simpl.
  destruct (hashable k); [apply IH|congruence].
Qed.

Lemma pick_next_raises stories e :
  Forall (fun s => dict_has "id" s = true) stories ->
  Workflow.pick_next stories = Raise e -> e = TypeError.
Proof.
  intros Hids. destruct stories as [|s0 stories]; [done|].
  unfold Workflow.pick_next.
  intros [H|(idx & _ & H)]%bind_Raise_inv; [by eapply status_index_from_raises|].
  apply bind_Raise_inv in H as [H|(cs & _ & H)]; [by eapply filter_stories_raises|done].
Qed.

Lemma normalize_entry_raises story e :
  Workflow.normalize_entry story = Raise e -> e = TypeError \/ e = AttributeError.
Proof.
  unfold Workflow.normalize_entry. destruct (negb (truthy story)); [done|].
  intros [H|(has_id & _ & H)]%bind_Raise_inv.
  - left. destruct story; simpl in H; congruence.
  - destruct (negb has_id); [done|]. destruct story; try (right; congruence).
    apply bind_Raise_inv in H as [H|(valid & _ & H)]; [|done].
    left. unfold Workflow.in_valid_statuses in H. destruct (dict_get _ _ d); congruence.
Qed.

Lemma scan_raises json_loads entries out0 e :
  Workflow.scan json_loads entries out0 = Raise e -> e = TypeError \/ e = AttributeError.
Proof.
  revert out0. induction entries as [|[name read] entries IH]; simpl; intros out0; [done|].
  destruct (negb (Workflow.is_story_file name)); [apply IH|].
  destruct (Workflow._load_any json_loads read) as [story|e']; [|apply IH].
  intros [H|(r & _ & H)]%bind_Raise_inv; [by apply normalize_entry_raises in H|].
  destruct r; by apply IH in H.
Qed.

Lemma discover_backlog_raises json_loads bdir e :
  Workflow.discover_backlog json_loads bdir = Raise e ->
  bdir = Some (Raise e) \/ e = TypeError \/ e = AttributeError.
Proof.
  destruct bdir as [[entries|e']|]; simpl;
    [|intros H; left; change (Raise e' = Raise e :> result (list dict)) in H;
      by injection H as ->|done].
  intros [H|(out & _ & H)]%bind_Raise_inv; [right; by apply scan_raises in H|].
  right. left. unfold Workflow.sort_stories in H.
  destruct (Workflow.all_comparable out); congruence.
Qed.

(** X7.  [plan_next_item] imports the workflow module, then composes
    discovery and selection.  A plan it returns describes the first
    eligible story of the discovered backlog: it carries that story's id,
    title, priority, allowed paths, risk level and role, with the defaults
    for the fields the story lacks, and the status [ready]; it returns
    none exactly when no discovered story is eligible.  The lookups
    [s["id"]] of the selection cannot fail on discovered stories, which
    all hold an id, so the selection raises nothing but a type error.  An
    error of the import comes out of the call, and so does an error of
    listing the backlog directory; whatever the call raises is one of
    these two, or a type or attribute error of a malformed story. *)
Theorem plan_next_item_describes_first_eligible
    (json_loads : string -> result value) (imported : result unit)
    (bdir : option Workflow.listing) :
  (forall r, Plan.plan_next_item json_loads imported bdir = Ret r ->
     imported = Ret tt
     /\ exists stories idx,
       Workflow.discover_backlog json_loads bdir = Ret stories
       /\ Workflow.status_index stories = Ret idx
       /\ match r with
          | None => Forall (fun t => ~ Workflow.eligible idx t) stories
          | Some plan =>
              exists s sid,
                Workflow.first_eligible idx stories (Some s)
                /\ dict_lookup "id" s = Some sid
                /\ plan = [ ("story_id", sid);
                            ("title", dict_get "title" (VStr "") s);
                            ("priority", dict_get "priority" (VInt 999) s);
                            ("allowed_paths", dict_get "allowed_paths" (VList []) s);
                            ("risk_level", dict_get "risk_level" (VStr "low") s);
                            ("assigned_role", dict_get "assigned_role" (VStr "") s);
                            ("status", VStr "ready") ]
                /\ dict_lookup "status" s = Some (VStr "ready")
                /\ is_Some (dict_lookup "priority" s)
          end)
  /\ (forall stories e,
        Workflow.discover_backlog json_loads bdir = Ret stories ->
        Workflow.pick_next stories = Raise e -> e = TypeError)
  /\ (forall e, imported = Raise e ->
        Plan.plan_next_item json_loads imported bdir = Raise e)
  /\ (forall e, imported = Ret tt -> bdir = Some (Raise e) ->
        Plan.plan_next_item json_loads imported bdir = Raise e)
  /\ (forall e, Plan.plan_next_item json_loads imported bdir = Raise e ->
        imported = Raise e \/ bdir = Some (Raise e)
        \/ e = TypeError \/ e = AttributeError)
  /\ Plan.plan_next_item Json.loads (Ret tt) (Some Workflow.example_backlog)
     = Ret (Some [ ("story_id", VStr "A"); ("title", VStr "A"); ("priority", VInt 2);
                   ("allowed_paths", VList []); ("risk_level", VStr "low");
                   ("assigned_role", VStr ""); ("status", VStr "ready") ])
  /\ Plan.plan_next_item Json.loads (Ret tt) None = Ret None
  /\ Plan.plan_next_item Json.loads (Raise ImportError) (Some Workflow.example_backlog)
     = Raise ImportError
  /\ Plan.plan_next_item Json.loads (Ret tt) (Some (Raise PermissionError))
     = Raise PermissionError.
Proof.
  split_and!.
  - intros r H. unfold Plan.plan_next_item in H.
    destruct imported as [[]|e]; [|done]. split; [done|].
    apply bind_Ret_inv in H as (u & _ & H).
    apply bind_Ret_inv in H as (stories & Hd & H).
    apply bind_Ret_inv in H as (nxt & Hp & H).
    pose proof (discover_backlog_ids _ _ _ Hd) as Hids.
    assert (exists idx, Workflow.status_index stories = Ret idx
                        /\ Workflow.first_eligible idx stories nxt) as (idx & Hidx & Hfirst).
    { destruct stories as [|s0 stories].
      - injection Hp as <-. exists []. split; [done|constructor].
      - unfold Workflow.pick_next in Hp.
        apply bind_Ret_inv in Hp as (idx & Hidx & Hp).
        apply bind_Ret_inv in Hp as (cs & Hcs & Hp). injection Hp as <-.
        exists idx. split; [done|]. by apply filter_stories_spec. }
    exists stories, idx. split_and!; [done..|].
    destruct nxt as [s|]; [|by injection H as <-].
    pose proof Hfirst as (before & after & -> & [Hready _] & _).
    assert (dict_has "id" s = true) as Hid.
    { rewrite Forall_forall in Hids. apply Hids. apply elem_of_app. right. by left. }
    assert (is_Some (dict_lookup "priority" s)) as Hprio.
    { destruct bdir as [[entries|e]|]; simpl in Hd; [|done|by destruct before].
      apply bind_Ret_inv in Hd as (scanned & Hscan & Hsort).
      apply scan_spec in Hscan as (news & -> & HF). simpl in *.
      apply sort_stories_spec in Hsort as [Hperm _].
      assert (Forall (fun s => is_Some (dict_lookup "priority" s)) news) as Hall.
      { eapply (Forall2_Forall_from _ (fun d => dict_has "id" d = true));
          [|exact HF|apply Forall_omap_kept].
        intros d t Hdid Hn. by apply (normalized_shape d t). }
      rewrite <- Hperm in Hall. rewrite Forall_forall in Hall. apply Hall.
      apply elem_of_app. right. by left. }
    assert (truthy (VDict s) = true) as Ht by (by destruct s).
    rewrite Ht in H. cbn [negb] in H.
    apply bind_Ret_inv in H as (sid & Hsid & H). injection H as <-.
    unfold dict_item in Hsid. destruct (dict_lookup "id" s) as [k|] eqn:Ek; [|done].
    injection Hsid as ->. exists s, sid. by split_and!.
  - intros stories e Hd. apply pick_next_raises. by eapply discover_backlog_ids.
  - by intros e ->.
  - by intros e -> ->.
  - intros e H. unfold Plan.plan_next_item in H.
    apply bind_Raise_inv in H as [H|(u & _ & H)]; [by left|]. right.
    apply bind_Raise_inv in H as [H|(stories & Hd & H)];
      [by apply discover_backlog_raises in H|].
    right. apply discover_backlog_ids in Hd.
    apply bind_Raise_inv in H as [H|(nxt & Hp & H)];
      [left; by eapply pick_next_raises|].
    destruct nxt as [s|]; [|done]. destruct (negb _); [done|].
    exfalso. destruct stories as [|s0 stories]; [done|].
    unfold Workflow.pick_next in Hp.
    apply bind_Ret_inv in Hp as (idx & Hidx & Hp).
    apply bind_Ret_inv in Hp as (cs & Hcs & Hp). injection Hp as Hp.
    apply filter_stories_spec in Hcs. rewrite Hp in Hcs.
    destruct Hcs as (before & after & Hs & _).
    assert (dict_has "id" s = true) as Hid.
    { rewrite Forall_forall in Hd. apply Hd. rewrite Hs. apply elem_of_app. right. by left. }
    unfold dict_item, dict_has in *. destruct (dict_lookup "id" s); done.
  - vm_compute. reflexivity.
  - reflexivity.
  - reflexivity.
  - reflexivity.
Qed.

(** X8.  The payload of [thin_run_loop] has one of four statuses, and
    the fallback [blocked] is never one of them, since a pre-flight that
    is not [ok] always carries a classification.  The status is
    [no_ready_story] exactly when nothing was selected, and then no
    pre-flight was run; otherwise the pre-flight ran on the allowed paths
    of the plan, with no run commands and no environment variables, and
    the status is [ready_to_execute] exactly when it is [ok],
    [blocked_needs_override] exactly when there is a conflict, and
    [environment_mismatch] exactly when there is none and the import
    failed. *)
Theorem thin_run_loop_status
    (json_loads : string -> result value) (imported : result unit)
    (probe : Runloop.import_probe)
    (bdir : option Workflow.listing) (protected_paths : option (list string))
    (r : Plan.payload) :
  Plan.thin_run_loop json_loads imported probe bdir protected_paths = Ret r ->
  (Plan.status r = "no_ready_story" \/ Plan.status r = "ready_to_execute"
   \/ Plan.status r = "blocked_needs_override"
   \/ Plan.status r = "environment_mismatch")
  /\ Plan.status r <> "blocked"
  /\ Plan.plan_next_item json_loads imported bdir = Ret (Plan.selected r)
  /\ (Plan.selected r = None <-> Plan.preflight r = None)
  /\ (Plan.selected r = None <-> Plan.status r = "no_ready_story")
  /\ (forall plan pre,
        Plan.selected r = Some plan -> Plan.preflight r = Some pre ->
        (exists allowed,
           Plan.paths_of (dict_get "allowed_paths" (VList []) plan) = Ret allowed
           /\ pre = Runloop.preflight_checks probe (Some allowed)
                      (Some (Runloop.or_empty protected_paths)) None None)
        /\ (Plan.status r = "ready_to_execute" <-> Runloop.ok pre = true)
        /\ (Plan.status r = "blocked_needs_override" <-> Runloop.conflicts pre <> [])
        /\ (Plan.status r = "environment_mismatch" <->
            Runloop.conflicts pre = [] /\ Runloop.import_ok pre = false)
        /\ Runloop.run_commands pre = []
        /\ Runloop.env_vars_available pre = []).
Proof.
  unfold Plan.thin_run_loop. intros H.
  apply bind_Ret_inv in H as (plan & Hplan & H).
  destruct plan as [plan|].
  - apply bind_Ret_inv in H as (allowed & Hallowed & H). injection H as <-.
    cbn [Plan.status Plan.selected Plan.preflight].
    set (pre := Runloop.preflight_checks probe (Some allowed)
                  (Some (Runloop.or_empty protected_paths)) None None).
    assert ((Runloop.ok pre = true /\ Runloop.conflicts pre = []
             /\ Runloop.import_ok pre = true /\ Runloop.classification_ pre = None)
            \/ (Runloop.ok pre = false /\ Runloop.conflicts pre <> []
                /\ Runloop.classification_ pre = Some Runloop.blocked_needs_override)
            \/ (Runloop.ok pre = false /\ Runloop.conflicts pre = []
                /\ Runloop.import_ok pre = false
                /\ Runloop.classification_ pre = Some Runloop.environment_mismatch))
      as Hcases.
    { subst pre. destruct probe as [import_ok err]. unfold Runloop.preflight_checks.
      destruct (Runloop._check_protected_conflicts _ _) as [|c cs]; simpl.
      - destruct import_ok; simpl; [left|right; right]; by split_and!.
      - right; left. by split_and!. }
    assert (Runloop.run_commands pre = [] /\ Runloop.env_vars_available pre = [])
      as [Hrc Hev] by (subst pre; by destruct probe).
    assert (exists allowed0,
              Plan.paths_of (dict_get "allowed_paths" (VList []) plan) = Ret allowed0
              /\ pre = Runloop.preflight_checks probe (Some allowed0)
                         (Some (Runloop.or_empty protected_paths)) None None)
      as Hpre by eauto.
    clearbody pre.
    destruct Hcases as [(Hok & Hc & Hi & Hcl)|[(Hok & Hc & Hcl)|(Hok & Hc & Hi & Hcl)]];
      rewrite Hok, ?Hcl; simpl;
      (split_and!; try done; try (by auto); try (split; done);
       intros plan' pre' Hp' Hpre'; simplify_eq;
       split_and!; try done; try (by eauto);
       try (split; [done|by intros [? ?]]); try (split; done);
       try (split; [by intros ?|done]); try (split; congruence);
       try (split; [done|intros [_ ?]; congruence])).
  - injection H as <-. simpl. split_and!; try done; auto.
Qed.

(** X8 on the backlog of the example, with an importable application
    and a protected entry the selected story does not ask for. *)
Lemma thin_run_loop_status_witness :
  exists r,
    Plan.thin_run_loop Json.loads (Ret tt) (true, EmptyString)
      (Some Workflow.example_backlog) (Some ["app/main.py"]) = Ret r
    /\ (Plan.status r = "no_ready_story" \/ Plan.status r = "ready_to_execute"
        \/ Plan.status r = "blocked_needs_override"
        \/ Plan.status r = "environment_mismatch")
    /\ Plan.status r <> "blocked"
    /\ Plan.plan_next_item Json.loads (Ret tt) (Some Workflow.example_backlog)
       = Ret (Plan.selected r)
    /\ (Plan.selected r = None <-> Plan.preflight r = None)
    /\ (Plan.selected r = None <-> Plan.status r = "no_ready_story")
    /\ (forall plan pre,
          Plan.selected r = Some plan -> Plan.preflight r = Some pre ->
          (exists allowed,
             Plan.paths_of (dict_get "allowed_paths" (VList []) plan) = Ret allowed
             /\ pre = Runloop.preflight_checks (true, EmptyString) (Some allowed)
                        (Some (Runloop.or_empty (Some ["app/main.py"]))) None None)
          /\ (Plan.status r = "ready_to_execute" <-> Runloop.ok pre = true)
          /\ (Plan.status r = "blocked_needs_override" <-> Runloop.conflicts pre <> [])
          /\ (Plan.status r = "environment_mismatch" <->
              Runloop.conflicts pre = [] /\ Runloop.import_ok pre = false)
          /\ Runloop.run_commands pre = []
          /\ Runloop.env_vars_available pre = []).
Proof.
  eexists. split; [vm_compute; reflexivity|].
  apply (thin_run_loop_status Json.loads (Ret tt) (true, EmptyString)
           (Some Workflow.example_backlog) (Some ["app/main.py"])).
  vm_compute. reflexivity.
Defined.

(** ** Dependencies of the selected story *)

Lemma key_eqb_sym a b : key_eqb a b = key_eqb b a.
Proof.
  destruct a, b; simpl; try done;
    first [apply Z.eqb_sym | apply String.eqb_sym
          | by repeat match goal with x : bool |- _ => destruct x end].
Qed.

Lemma key_eqb_congr a b c : key_eqb a b = true -> key_eqb b c = key_eqb a c.
Proof.
  destruct a, b; simpl; try done; intros H;
    first [apply Bool.eqb_prop in H | apply Z.eqb_eq in H | apply String.eqb_eq in H];
    subst; try done; destruct c; simpl; try done;
    repeat match goal with x : bool |- _ => destruct x end; try done.
Qed.

Lemma index_lookup_set dep k v idx :
  Workflow.index_lookup dep (Workflow.index_set k v idx)
  = if key_eqb dep k then Some v else Workflow.index_lookup dep idx.
Proof.
  induction idx as [|[k' v'] idx IH]; simpl; [done|].
  destruct (key_eqb k k') eqn:Ek; simpl.
  - assert (key_eqb dep k' = key_eqb dep k) as ->.
    { rewrite (key_eqb_sym dep k'), (key_eqb_sym dep k). by apply key_eqb_congr. }
    by destruct (key_eqb dep k).
  - rewrite IH. destruct (key_eqb dep k') eqn:Ed'; [|done].
    destruct (key_eqb dep k) eqn:Ed; [|done].
    rewrite (key_eqb_congr dep k k' Ed) in Ek. congruence.
Qed.

Lemma status_index_from_lookup dep stories idx0 idx :
  Workflow.status_index_from stories idx0 = Ret idx ->
  Workflow.index_lookup dep idx
  = match Backlog.find_last dep stories with
    | Some t => Some (dict_get "status" (VStr "ready") t)
    | None => Workflow.index_lookup dep idx0
    end.
Proof.
  revert idx0. induction stories as [|s stories IH]; simpl; intros idx0 H.
  - by injection H as <-.
  - apply bind_Ret_inv in H as (k & Hk & H).
    destruct (hashable k); [|done]. rewrite (IH _ H).
    destruct (Backlog.find_last dep stories); [done|].
    rewrite index_lookup_set. unfold Backlog.has_id, dict_item in *.
    destruct (dict_lookup "id" s); [|done]. injection Hk as ->.
    by destruct (key_eqb dep k).
Qed.

Lemma find_last_Some dep stories t :
  Backlog.find_last dep stories = Some t ->
  exists before after,
    stories = before ++ t :: after
    /\ Backlog.has_id dep t = true
    /\ Forall (fun u => Backlog.has_id dep u = false) after.
Proof.
  induction stories as [|s stories IH]; simpl; [done|].
  destruct (Backlog.find_last dep stories) as [t'|] eqn:E.
  - intros H. injection H as ->.
    destruct (IH eq_refl) as (before & after & -> & Ht & Hafter).
    by exists (s :: before), after.
  - destruct (Backlog.has_id dep s) eqn:Es; [|done]. intros H. injection H as <-.
    exists [], stories. split_and!; [done..|].
    clear IH. induction stories as [|u stories IH]; [constructor|].
    simpl in E. destruct (Backlog.find_last dep stories); [done|].
    destruct (Backlog.has_id dep u) eqn:Eu; [done|]. constructor; [done|by apply IH].
Qed.

Lemma find_last_app dep before s after :
  Backlog.has_id dep s = true ->
  Forall (fun u => Backlog.has_id dep u = false) after ->
  Backlog.find_last dep (before ++ s :: after) = Some s.
Proof.
  intros Hs Hafter.
  assert (Backlog.find_last dep after = None) as Hnone.
  { induction Hafter as [|u after Hu _ IH]; simpl; [done|]. by rewrite IH, Hu. }
  induction before as [|b before IH]; simpl.
  - by rewrite Hnone, Hs.
  - by rewrite IH.
Qed.

(** X9.  Every dependency of the story [pick_next] returns names a story
    of the list, and the last story of the list that carries that id is
    [done]: the status index is built front to back, so a later story
    with the same id overwrites an earlier one.  In particular a story
    that is the last one with its id and depends on its own id is never
    returned. *)
Theorem pick_next_dependencies_are_done (stories : list dict) (s : dict) :
  Workflow.pick_next stories = Ret (Some s) ->
  exists deps,
    iterate (dict_get "dependencies" (VList []) s) = Ret deps
    /\ Forall (fun dep =>
         exists before t after,
           stories = before ++ t :: after
           /\ Backlog.has_id dep t = true
           /\ Forall (fun u => Backlog.has_id dep u = false) after
           /\ dict_get "status" (VStr "ready") t = VStr "done") deps
    /\ (forall k before after,
          dict_lookup "id" s = Some k ->
          stories = before ++ s :: after ->
          Forall (fun u => Backlog.has_id k u = false) after ->
          Forall (fun dep => key_eqb dep k = false) deps).
Proof.
  intros H. destruct stories as [|s0 stories]; [done|].
  unfold Workflow.pick_next in H.
  apply bind_Ret_inv in H as (idx & Hidx & H).
  apply bind_Ret_inv in H as (cs & Hcs & H). injection H as H.
  apply filter_stories_spec in Hcs. rewrite H in Hcs.
  destruct Hcs as (_ & _ & _ & [Hready (deps & Hit & Hdone)] & _).
  remember (s0 :: stories) as l eqn:El. clear El s0 stories.
  exists deps. split; [done|].
  assert (Forall (fun dep =>
            exists t, Backlog.find_last dep l = Some t
                      /\ dict_get "status" (VStr "ready") t = VStr "done") deps) as Hlast.
  { eapply Forall_impl; [exact Hdone|]. intros dep Hdep. simpl in Hdep.
    rewrite (status_index_from_lookup dep l [] idx Hidx) in Hdep.
    destruct (Backlog.find_last dep l) as [t|]; [|done].
    exists t. split; [done|]. congruence. }
  split.
  - eapply Forall_impl; [exact Hlast|]. intros dep (t & Ht & Hst). simpl.
    apply find_last_Some in Ht as (before & after & -> & Hid & Hafter).
    by exists before, t, after.
  - intros k before after Hk -> Hafter.
    eapply Forall_impl; [exact Hlast|]. intros dep (t & Ht & Hst). simpl.
    destruct (key_eqb dep k) eqn:Ed; [|done]. exfalso.
    assert (Backlog.find_last dep (before ++ s :: after) = Some s) as Hs.
    { apply find_last_app.
      - unfold Backlog.has_id. by rewrite Hk.
      - eapply Forall_impl; [exact Hafter|]. intros u Hu. simpl in Hu.
        unfold Backlog.has_id in *. destruct (dict_lookup "id" u) as [ku|]; [|done].
        rewrite <- Hu. symmetry. by apply key_eqb_congr. }
    rewrite Hs in Ht. injection Ht as <-.
    unfold dict_get in Hst. rewrite Hready in Hst. done.
Qed.

(** X9 on the example backlog once story A is done: B, which depends on
    A, is returned. *)
Lemma pick_next_dependencies_are_done_witness :
  exists deps,
    iterate (dict_get "dependencies" (VList []) Workflow.story_B) = Ret deps
    /\ Forall (fun dep =>
         exists before t after,
           Workflow.mark_done "A" [Workflow.story_B; Workflow.story_C; Workflow.story_A]
           = before ++ t :: after
           /\ Backlog.has_id dep t = true
           /\ Forall (fun u => Backlog.has_id dep u = false) after
           /\ dict_get "status" (VStr "ready") t = VStr "done") deps
    /\ (forall k before after,
          dict_lookup "id" Workflow.story_B = Some k ->
          Workflow.mark_done "A" [Workflow.story_B; Workflow.story_C; Workflow.story_A]
          = before ++ Workflow.story_B :: after ->
          Forall (fun u => Backlog.has_id k u = false) after ->
          Forall (fun dep => key_eqb dep k = false) deps).
Proof.
  apply (pick_next_dependencies_are_done
           (Workflow.mark_done "A" [Workflow.story_B; Workflow.story_C; Workflow.story_A])
           Workflow.story_B).
  vm_compute. reflexivity.
Defined.

(** ** Discovery and the order of the directory listing *)

Lemma scan_acc json_loads entries out :
  Workflow.scan json_loads entries out
  = (news ← Workflow.scan json_loads entries []; Ret (out ++ news)).
Proof.
  revert out. induction entries as [|[name read] entries IH]; simpl; intros out.
  - by rewrite app_nil_r.
  - destruct (negb (Workflow.is_story_file name)); [apply IH|].
    destruct (Workflow._load_any json_loads read) as [story|e]; [|apply IH].
    destruct (Workflow.normalize_entry story) as [[d|]|e]; simpl; [|apply IH|done].
    rewrite (IH (out ++ [d])), (IH [d]).
    destruct (Workflow.scan json_loads entries []) as [news|e]; simpl; [|done].
    by rewrite <- app_assoc.
Qed.

Lemma scan_cons json_loads entry entries :
  Workflow.scan json_loads (entry :: entries) []
  = (one ← Workflow.scan json_loads [entry] [];
     news ← Workflow.scan json_loads entries [];
     Ret (one ++ news)).
Proof.
  destruct entry as [name read]. simpl.
  destruct (negb (Workflow.is_story_file name)); simpl.
  { by destruct (Workflow.scan json_loads entries []). }
  destruct (Workflow._load_any json_loads read) as [story|e]; simpl.
  2: { by destruct (Workflow.scan json_loads entries []). }
  destruct (Workflow.normalize_entry story) as [[d|]|e]; simpl; [|..|done].
  - by rewrite scan_acc.
  - by destruct (Workflow.scan json_loads entries []).
Qed.

Lemma scan_Permutation json_loads entries entries' out :
  entries ≡ₚ entries' ->
  Workflow.scan json_loads entries [] = Ret out ->
  exists out', Workflow.scan json_loads entries' [] = Ret out' /\ out' ≡ₚ out.
Proof.
  intros Hperm. revert out.
  induction Hperm as [|x l l' _ IH|x y l|l l' l'' _ IH1 _ IH2]; intros out H.
  - by exists out.
  - rewrite scan_cons in H |- *.
    apply bind_Ret_inv in H as (one & Hone & H).
    apply bind_Ret_inv in H as (news & Hnews & H). injection H as <-.
    destruct (IH _ Hnews) as (news' & -> & Hp). rewrite Hone. simpl.
    eexists. split; [done|]. by rewrite Hp.
  - rewrite scan_cons in H. rewrite (scan_cons _ x l) in H.
    apply bind_Ret_inv in H as (oney & Hy & H).
    apply bind_Ret_inv in H as (rest & Hrest & H). injection H as <-.
    apply bind_Ret_inv in Hrest as (onex & Hx & H).
    apply bind_Ret_inv in H as (news & Hnews & H). injection H as <-.
    rewrite scan_cons, (scan_cons _ y l), Hx, Hy, Hnews. simpl.
    eexists. split; [done|]. rewrite !app_assoc. f_equiv. apply Permutation_app_comm.
  - destruct (IH1 _ H) as (out' & H' & Hp').
    destruct (IH2 _ H') as (out'' & H'' & Hp'').
    exists out''. split; [done|]. by rewrite Hp''.
Qed.

(** Listing the directory in another order changes neither whether
    discovery returns nor, up to their order, the stories it finds. *)
Lemma discover_backlog_Permutation json_loads
    (entries entries' : Workflow.directory) out :
  entries ≡ₚ entries' ->
  Workflow.discover_backlog json_loads (Some (Ret entries)) = Ret out ->
  exists scanned scanned',
    Workflow.scan json_loads entries [] = Ret scanned
    /\ Workflow.scan json_loads entries' [] = Ret scanned'
    /\ scanned' ≡ₚ scanned
    /\ Workflow.all_comparable scanned = true
    /\ out = sort_by Workflow.story_ltb scanned
    /\ Workflow.discover_backlog json_loads (Some (Ret entries'))
       = Ret (sort_by Workflow.story_ltb scanned').
Proof.
  intros Hperm H. unfold Workflow.discover_backlog in *.
  apply bind_Ret_inv in H as (es & Hes & H). injection Hes as <-.
  apply bind_Ret_inv in H as (scanned & Hscan & Hsort).
  destruct (scan_Permutation _ _ _ _ Hperm Hscan) as (scanned' & Hscan' & Hp).
  exists scanned, scanned'. unfold Workflow.sort_stories in Hsort.
  destruct (Workflow.all_comparable scanned) eqn:Hall; [|done].
  injection Hsort as <-. split_and!; try done.
  simpl. rewrite Hscan'. simpl. unfold Workflow.sort_stories.
  by rewrite (all_comparable_Permutation scanned' scanned Hp), Hall.
Qed.

(** X10.  Whether [discover_backlog] returns does not depend on the
    order in which the directory lists its files, and neither do the
    stories it returns, up to their order.  When no two of the stories
    returned tie on priority and title, whatever kinds of values these
    are, their order is the same as well: the backlog returned is the
    same list.  Two stories that tie come out in listing order. *)
Theorem discover_backlog_listing_order_irrelevant
    (json_loads : string -> result value)
    (entries entries' : Workflow.directory) :
  entries ≡ₚ entries' ->
  (forall out,
     Workflow.discover_backlog json_loads (Some (Ret entries)) = Ret out ->
     (exists out',
        Workflow.discover_backlog json_loads (Some (Ret entries')) = Ret out'
        /\ out' ≡ₚ out)
     /\ ((forall a b, a ∈ out -> b ∈ out ->
            a = b \/ Workflow.sorts_before a b \/ Workflow.sorts_before b a) ->
         Workflow.discover_backlog json_loads (Some (Ret entries')) = Ret out))
  /\ (forall e,
        Workflow.discover_backlog json_loads (Some (Ret entries)) = Raise e ->
        exists e',
          Workflow.discover_backlog json_loads (Some (Ret entries')) = Raise e')
  /\ Workflow.discover_backlog Json.loads
       (Some (Ret [ ("one.json", Ret (Json.dumps (VDict Backlog.twin_one)));
                    ("two.json", Ret (Json.dumps (VDict Backlog.twin_two))) ]))
     = Ret [Backlog.twin_one; Backlog.twin_two]
  /\ Workflow.discover_backlog Json.loads
       (Some (Ret [ ("two.json", Ret (Json.dumps (VDict Backlog.twin_two)));
                    ("one.json", Ret (Json.dumps (VDict Backlog.twin_one))) ]))
     = Ret [Backlog.twin_two; Backlog.twin_one].
Proof.
  intros Hperm. split_and!; [| |vm_compute; reflexivity..].
  - intros out H.
    destruct (discover_backlog_Permutation _ _ _ _ Hperm H)
      as (scanned & scanned' & _ & _ & Hp & Hall & -> & H').
    split.
    + eexists. split; [exact H'|]. by rewrite !sort_by_Permutation.
    + intros Hties. rewrite H'. f_equal.
      apply (sort_by_order_independent Workflow.story_ltb (fun s => s ∈ scanned')).
      * intros x y _ _. apply story_ltb_asym_any.
      * intros x y z. apply story_not_ltb_trans_in.
        by rewrite (all_comparable_Permutation scanned' scanned Hp).
      * by apply Forall_forall.
      * intros x y Hx Hy H1 H2.
        destruct (Hties x y) as [?|[Hb|Hb]];
          [by rewrite sort_by_Permutation, <- Hp
          |by rewrite sort_by_Permutation, <- Hp
          |done
          |apply sorts_before_story_ltb in Hb; congruence..].
      * done.
  - intros e H.
    destruct (Workflow.discover_backlog json_loads (Some (Ret entries')))
      as [out'|e'] eqn:H'; [|by exists e'].
    symmetry in Hperm.
    destruct (discover_backlog_Permutation _ _ _ _ Hperm H')
      as (sc & sc' & _ & _ & _ & _ & _ & H'').
    congruence.
Qed.

(** X10 on the backlog of the example, listed backwards. *)
Lemma discover_backlog_listing_order_irrelevant_witness :
  Workflow.discover_backlog Json.loads (Some (Ret (rev Workflow.example_files)))
  = Ret [Workflow.story_B; Workflow.story_C; Workflow.story_A]
  /\ Workflow.discover_backlog Json.loads
       (Some (Ret [ ("one.json", Ret (Json.dumps (VDict Backlog.twin_one)));
                    ("two.json", Ret (Json.dumps (VDict Backlog.twin_two))) ]))
     = Ret [Backlog.twin_one; Backlog.twin_two]
  /\ Workflow.discover_backlog Json.loads
       (Some (Ret [ ("two.json", Ret (Json.dumps (VDict Backlog.twin_two)));
                    ("one.json", Ret (Json.dumps (VDict Backlog.twin_one))) ]))
     = Ret [Backlog.twin_two; Backlog.twin_one].
Proof.
  destruct (discover_backlog_listing_order_irrelevant Json.loads
              Workflow.example_files (rev Workflow.example_files))
    as (Hret & _ & Hone & Htwo); [apply Permutation_rev|].
  split_and!; [|exact Hone|exact Htwo].
  apply (Hret [Workflow.story_B; Workflow.story_C; Workflow.story_A]).
  - vm_compute. reflexivity.
  - intros a b Ha Hb.
    repeat match goal with
           | H : _ ∈ _ :: _ |- _ => apply elem_of_cons in H as [->|H]
           | H : _ ∈ [] |- _ => by apply elem_of_nil in H
           end;
      first [by left
            | right; left; by vm_compute; auto
            | right; right; by vm_compute; auto].
Defined.

(** ** Retries *)

Lemma retry_loop_success {A} (attempt : nat -> result A) (n i left slept j : nat) a :
  (i + left = n)%nat -> (i <= j < n)%nat ->
  (forall i', (i <= i' < j)%nat -> exists e, attempt i' = Raise e) ->
  attempt j = Ret a ->
  Retry.retry_loop attempt (Z.of_nat n) i left slept = (Ret (Some a), (slept + (j - i))%nat).
Proof.
  revert i slept. induction left as [|left IH]; intros i slept Hn Hj Hfail Hok.
  - lia.
  - simpl. destruct (decide (i = j)) as [->|Hne].
    + rewrite Hok. f_equal. lia.
    + destruct (Hfail i) as [e ->]; [lia|].
      assert (Z.eqb (Z.of_nat i) (Z.of_nat n - 1) = false) as -> by (apply Z.eqb_neq; lia).
      rewrite (IH (S i) (S slept)); [f_equal; lia|lia|lia| |done].
      intros i' Hi'. apply Hfail. lia.
Qed.

Lemma retry_loop_failure {A} (attempt : nat -> result A) (n i left slept : nat) e :
  (i + left = n)%nat -> (1 <= left)%nat ->
  (forall i', (i <= i' < n)%nat -> exists e', attempt i' = Raise e') ->
  attempt (n - 1)%nat = Raise e ->
  Retry.retry_loop attempt (Z.of_nat n) i left slept = (Raise e, (slept + (n - 1 - i))%nat).
Proof.
  revert i slept. induction left as [|left IH]; intros i slept Hn Hleft Hfail Hlast.
  - lia.
  - simpl. destruct (Hfail i) as [e' He']; [lia|]. rewrite He'.
    destruct (Z.eqb (Z.of_nat i) (Z.of_nat n - 1)) eqn:E.
    + apply Z.eqb_eq in E. assert (i = (n - 1)%nat) as -> by lia.
      rewrite Hlast in He'. injection He' as ->. f_equal. lia.
    + apply Z.eqb_neq in E.
      rewrite (IH (S i) (S slept)); [f_equal; lia|lia|lia| |done].
      intros i' Hi'. apply Hfail. lia.
Qed.

(** X11.  [retry_read] returns the text of the first pass that succeeds
    among the first [attempts] passes, after one sleep for each failed
    pass before it.  When every pass fails it raises the error of the last
    pass, having slept between the passes but not after the last.  With
    [attempts] zero or negative it reads nothing and returns [None].
    [retry_write] does the same for writing, after creating the
    directory once: an error of [os.makedirs] is raised at once and is
    not retried. *)
Theorem retry_read_returns_first_success
    (attempt : nat -> result string) (attempts : Z) :
  (forall j text,
     (Z.of_nat j < attempts)%Z -> attempt j = Ret text ->
     (forall i, (i < j)%nat -> exists e, attempt i = Raise e) ->
     Retry.retry_read attempt attempts = (Ret (Some text), j))
  /\ (forall e,
        (0 < attempts)%Z ->
        (forall i, (Z.of_nat i < attempts)%Z -> exists e', attempt i = Raise e') ->
        attempt (Z.to_nat (attempts - 1)) = Raise e ->
        Retry.retry_read attempt attempts = (Raise e, Z.to_nat (attempts - 1)))
  /\ ((attempts <= 0)%Z -> Retry.retry_read attempt attempts = (Ret None, O))
  /\ (forall (write : nat -> result unit) e,
        Retry.retry_write (Raise e) write attempts = (Raise e, O))
  /\ (forall (write : nat -> result unit) j,
        (Z.of_nat j < attempts)%Z -> write j = Ret tt ->
        (forall i, (i < j)%nat -> exists e, write i = Raise e) ->
        Retry.retry_write (Ret tt) write attempts = (Ret (Some tt), j))
  /\ (forall (write : nat -> result unit) e,
        (0 < attempts)%Z ->
        (forall i, (Z.of_nat i < attempts)%Z -> exists e', write i = Raise e') ->
        write (Z.to_nat (attempts - 1)) = Raise e ->
        Retry.retry_write (Ret tt) write attempts = (Raise e, Z.to_nat (attempts - 1)))
  /\ Retry.retry_read Retry.locked_twice 3 = (Ret (Some "content"), 2%nat)
  /\ Retry.retry_read Retry.locked_twice 2 = (Raise PermissionError, 1%nat).
Proof.
  assert (forall A (att : nat -> result A) j a,
            (Z.of_nat j < attempts)%Z -> att j = Ret a ->
            (forall i, (i < j)%nat -> exists e, att i = Raise e) ->
            Retry.retry_loop att attempts 0 (Z.to_nat attempts) 0 = (Ret (Some a), j))
    as Hsuccess.
  { intros A att j a Hj Hok Hfail.
    rewrite <- (Z2Nat.id attempts) at 1 by lia.
    rewrite (retry_loop_success att (Z.to_nat attempts) 0 _ 0 j a);
      [f_equal; lia|lia|lia| |done].
    intros i' Hi'. apply Hfail. lia. }
  assert (forall A (att : nat -> result A) e,
            (0 < attempts)%Z ->
            (forall i, (Z.of_nat i < attempts)%Z -> exists e', att i = Raise e') ->
            att (Z.to_nat (attempts - 1)) = Raise e ->
            Retry.retry_loop att attempts 0 (Z.to_nat attempts) 0
            = (Raise e, Z.to_nat (attempts - 1))) as Hfailure.
  { intros A att e Hpos Hfail Hlast.
    rewrite <- (Z2Nat.id attempts) at 1 by lia.
    rewrite (retry_loop_failure att (Z.to_nat attempts) 0 _ 0 e);
      [f_equal; lia|lia|lia| |].
    - intros i' Hi'. apply Hfail. lia.
    - rewrite <- Hlast. f_equal. lia. }
  split_and!.
  - intros j text. apply Hsuccess.
  - intros e. apply Hfailure.
  - intros Hle. unfold Retry.retry_read.
    assert (Z.to_nat attempts = O) as -> by lia. done.
  - done.
  - intros write j. apply Hsuccess.
  - intros write e. apply Hfailure.
  - reflexivity.
  - reflexivity.
Qed.

(** ** Bookkeeping of story records *)

Lemma dict_lookup_set k k' v d :
  dict_lookup k' (dict_set k v d)
  = if String.eqb k k' then Some v else dict_lookup k' d.
Proof.
  destruct (String.eqb k k') eqn:E.
  - apply String.eqb_eq in E as ->. apply dict_lookup_set_eq.
  - apply String.eqb_neq in E. by apply dict_lookup_set_ne.
Qed.

(** What [touch] leaves in the record. *)
Lemma touch_spec status role inc clock found found' clock' :
  Selection.touch status role inc clock found = Ret (found', clock') ->
  dict_lookup "status" found' = Some status
  /\ (forall k, k <> "status" -> k <> "attempts" -> k <> "started_at" ->
        k <> "completed_at" -> k <> "assigned_role" ->
        dict_lookup k found' = dict_lookup k found)
  /\ (if inc then
        exists n, Selection.add_one (dict_get "attempts" (VInt 0) found) = Ret n
          /\ dict_lookup "attempts" found' = Some n
          /\ exists started, dict_lookup "started_at" found = Some started
               /\ dict_lookup "started_at" found'
                  = Some (match started with
                          | VNone => VStr (hd EmptyString clock)
                          | _ => started
                          end)
      else dict_lookup "attempts" found' = dict_lookup "attempts" found
           /\ dict_lookup "started_at" found' = dict_lookup "started_at" found)
  /\ (if eq_str status "done"
      then exists t, dict_lookup "completed_at" found' = Some (VStr t)
      else dict_lookup "completed_at" found' = dict_lookup "completed_at" found)
  /\ (if truthy role
      then dict_lookup "assigned_role" found' = Some role
      else dict_lookup "assigned_role" found' = dict_lookup "assigned_role" found).
Proof.
  unfold Selection.touch. intros H.
  apply bind_Ret_inv in H as ([f1 c1] & H1 & H).
  assert (dict_lookup "status" f1 = Some status
          /\ (forall k, k <> "status" -> k <> "attempts" -> k <> "started_at" ->
                dict_lookup k f1 = dict_lookup k found)
          /\ (if inc then
                exists n, Selection.add_one (dict_get "attempts" (VInt 0) found) = Ret n
                  /\ dict_lookup "attempts" f1 = Some n
                  /\ exists started, dict_lookup "started_at" found = Some started
                       /\ dict_lookup "started_at" f1
                          = Some (match started with
                                  | VNone => VStr (hd EmptyString clock)
                                  | _ => started
                                  end)
              else dict_lookup "attempts" f1 = dict_lookup "attempts" found
                   /\ dict_lookup "started_at" f1 = dict_lookup "started_at" found))
    as (Hs1 & Hk1 & Hi1).
  { destruct inc.
    - apply bind_Ret_inv in H1 as (n & Hn & H1).
      apply bind_Ret_inv in H1 as (started & Hst & H1).
      unfold dict_item in Hst. rewrite !dict_lookup_set in Hst. simpl in Hst.
      destruct (dict_lookup "started_at" found) as [st|] eqn:Est; [|done].
      injection Hst as ->.
      assert (dict_get "attempts" (VInt 0) (dict_set "status" status found)
              = dict_get "attempts" (VInt 0) found) as Hget.
      { unfold dict_get. by rewrite dict_lookup_set. }
      rewrite Hget in Hn.
      destruct started; simpl in H1; injection H1 as <- <-;
        (split_and!;
         [by rewrite !dict_lookup_set
         |intros k Hk1 Hk2 Hk3; rewrite !dict_lookup_set;
          apply String.eqb_neq in Hk1, Hk2, Hk3;
          rewrite ?(String.eqb_sym _ k), ?Hk1, ?Hk2, ?Hk3; done
         |exists n; split_and!; [done|by rewrite !dict_lookup_set|];
          eexists; split; [done|]; by rewrite !dict_lookup_set]).
    - injection H1 as <- <-. split_and!.
      + by rewrite dict_lookup_set.
      + intros k Hk1 _ _. rewrite dict_lookup_set.
        apply String.eqb_neq in Hk1. by rewrite (String.eqb_sym _ k), Hk1.
      + by rewrite dict_lookup_set.
      + by rewrite dict_lookup_set. }
  clear H1.
  assert (forall k v (b : bool) d,
            dict_lookup k (if b then dict_set "assigned_role" v d else d)
            = if b && String.eqb "assigned_role" k then Some v else dict_lookup k d) as Hrole.
  { intros k v [] d; [apply dict_lookup_set|done]. }
  destruct (eq_str status "done") eqn:Edone; simpl in H; injection H as <- <-;
    rewrite !Hrole, ?dict_lookup_set; simpl; rewrite ?andb_false_r.
  all: split_and!; try done.
  all: try (intros k Hn1 Hn2 Hn3 Hn4 Hn5; rewrite ?Hrole, ?dict_lookup_set;
            apply String.eqb_neq in Hn4, Hn5;
            rewrite ?(String.eqb_sym _ k), ?Hn4, ?Hn5, ?andb_false_r; by apply Hk1).
  all: try (destruct inc;
            [destruct Hi1 as (n & Hn & Ha & st & Hst & Hst'); exists n;
             split_and!; [done|by rewrite Hrole, ?dict_lookup_set; simpl; rewrite andb_false_r|];
             exists st; split; [done|];
             by rewrite Hrole, ?dict_lookup_set; simpl; rewrite andb_false_r
            |destruct Hi1 as [Ha Hst]; split;
             rewrite Hrole, ?dict_lookup_set; simpl; by rewrite andb_false_r]).
  all: try (by eexists).
  all: try (destruct (truthy role); simpl; [done|]; rewrite ?dict_lookup_set; simpl;
            apply Hk1; done).
  all: try (by apply Hk1).
Qed.

(** ** Selection in [orchestrator.py] *)

Lemma all_done_or_unknown_spec deps status_map b :
  Selection.all_done_or_unknown deps status_map = Ret b ->
  (b = true <->
   Forall (fun d => Workflow.index_lookup d status_map = None
                    \/ Workflow.index_lookup d status_map = Some (VStr "done")) deps).
Proof.
  revert b. induction deps as [|d deps IH]; simpl; intros b H.
  - injection H as <-. split; [constructor|done].
  - destruct (hashable d); [|done].
    destruct (Workflow.index_lookup d status_map) as [v|] eqn:El.
    + destruct (eq_str v "done") eqn:Ev.
      * apply eq_str_true in Ev as ->. rewrite (IH b H), Forall_cons.
        split; [by auto|by intros [_ ?]].
      * injection H as <-. split; [done|].
        intros [[?|Hd] _]%Forall_cons; [congruence|].
        rewrite El in Hd. injection Hd as ->. done.
    + simpl in H. rewrite (IH b H), Forall_cons. split; [by auto|by intros [_ ?]].
Qed.

Lemma ready_from_spec status_map items ready0 ready :
  Selection.ready_from status_map items ready0 = Ret ready ->
  exists chosen,
    sublist chosen items
    /\ ready = ready0 ++ map snd chosen
    /\ Forall (Selection.selectable status_map) chosen
    /\ Forall (fun item => Selection.selectable status_map item -> item ∈ chosen) items.
Proof.
  revert ready0. induction items as [|[sid s] items IH]; simpl; intros ready0 H.
  - injection H as <-. exists []. rewrite app_nil_r. by split_and!; constructor.
  - destruct (eq_str (Selection.effective_status status_map sid s) "ready") eqn:Est;
      simpl in H.
    + apply eq_str_true in Est.
      apply bind_Ret_inv in H as (deps & Hdeps & H).
      apply bind_Ret_inv in H as (ok & Hok & H).
      apply all_done_or_unknown_spec in Hok.
      destruct (IH _ H) as (chosen & Hsub & -> & Hsel & Hall).
      destruct ok.
      * exists ((sid, s) :: chosen). split_and!.
        -- by constructor.
        -- simpl. by rewrite <- app_assoc.
        -- constructor; [|done]. split; [done|]. exists deps. split; [done|].
           by apply Hok.
        -- constructor; [intros _; by left|].
           eapply Forall_impl; [exact Hall|]. intros item Hi Hs. right. by apply Hi.
      * exists chosen. split_and!; [by constructor|done|done|].
        constructor; [|done]. intros [_ (deps' & Hdeps' & Hd)]. simpl in Hdeps'.
        assert (deps' = deps) as -> by congruence.
        apply Hok in Hd. done.
    + destruct (IH _ H) as (chosen & Hsub & -> & Hsel & Hall).
      exists chosen. split_and!; [by constructor|done|done|].
      constructor; [|done]. intros [Hst _]. simpl in Hst. rewrite Hst in Est. done.
Qed.

Lemma keyed_spec int_of_str ready keys :
  Selection.keyed int_of_str ready = Ret keys ->
  map snd keys = ready
  /\ Forall (fun ks =>
       Selection.int_of int_of_str (dict_get "priority" (VInt 99) (snd ks))
       = Ret (fst ks)) keys.
Proof.
  revert keys. induction ready as [|s ready IH]; simpl; intros keys H.
  - injection H as <-. by split.
  - apply bind_Ret_inv in H as (k & Hk & H).
    apply bind_Ret_inv in H as (tl & Htl & H). injection H as <-.
    destruct (IH _ Htl) as [<- Hall]. split; [done|]. by constructor.
Qed.

Lemma sort_by_key_head keys first :
  head (sort_by Selection.by_key keys) = Some first ->
  first ∈ keys /\ forall other, other ∈ keys -> (fst first <= fst other)%Z.
Proof.
  intros Hhead.
  pose proof (sort_by_Permutation Selection.by_key keys) as Hperm.
  assert (StronglySorted (not_after Selection.by_key) (sort_by Selection.by_key keys))
    as Hsorted.
  { apply (sort_by_StronglySorted Selection.by_key (fun _ => True)).
    - intros x y _ _. unfold Selection.by_key. rewrite Z.ltb_lt, Z.ltb_ge. lia.
    - intros x y z _ _ _. unfold Selection.by_key. rewrite !Z.ltb_ge. lia.
    - by apply Forall_true. }
  destruct (sort_by Selection.by_key keys) as [|x l]; [done|].
  injection Hhead as ->. split.
  - rewrite <- Hperm. by left.
  - intros other Ho. rewrite <- Hperm in Ho.
    apply elem_of_cons in Ho as [->|Ho]; [lia|].
    apply StronglySorted_cons in Hsorted as [Hx _]. rewrite Forall_forall in Hx.
    specialize (Hx other Ho). unfold not_after, Selection.by_key in Hx.
    by apply Z.ltb_ge in Hx.
Qed.

Lemma key_eqb_refl k : hashable k = true -> key_eqb k k = true.
Proof.
  destruct k; simpl; try done; intros _.
  - by destruct b.
  - apply Z.eqb_refl.
  - apply String.eqb_refl.
Qed.

Lemma map_set_Forall (Q : value * dict -> Prop) k s m :
  (forall k', key_eqb k k' = true -> Q (k', s)) ->
  Q (k, s) -> Forall Q m -> Forall Q (Selection.map_set k s m).
Proof.
  intros Hsame Hnew. induction 1 as [|[k' s'] m Hq Hm IH]; simpl.
  - constructor; [done|constructor].
  - destruct (key_eqb k k') eqn:E; (constructor; [|done]); [by apply Hsame|done].
Qed.

Lemma story_map_from_spec all stories m0 m :
  (forall s0, s0 ∈ stories -> s0 ∈ all) ->
  Forall (Selection.from_story all) m0 ->
  Selection.story_map_from stories m0 = Ret m ->
  Forall (Selection.from_story all) m.
Proof.
  revert m0. induction stories as [|s stories IH]; simpl; intros m0 Hall Hm0 H.
  - by injection H as <-.
  - assert (forall s0, s0 ∈ stories -> s0 ∈ all) as Hall'
      by (intros s0 Hs0; apply Hall; by right).
    destruct (truthy (dict_get "id" VNone s)) eqn:Et; [|by eapply IH].
    apply bind_Ret_inv in H as (k & Hk & H).
    unfold dict_item in Hk. unfold dict_get in Et.
    destruct (dict_lookup "id" s) as [k0|] eqn:Eid; [|done]. injection Hk as ->.
    destruct (hashable k) eqn:Eh; [|done].
    eapply IH; [done| |exact H].
    apply map_set_Forall; [| |done].
    + intros k' Hk'. exists s, k. split_and!; try done. apply Hall. by left.
    + exists s, k. split_and!; try done; [apply Hall; by left|by apply key_eqb_refl].
Qed.

(** X13.  [pick_next_story] answers the virtual fix-gate story,
    whatever the backlog holds, when the fix gate is needed.  Otherwise it
    fills the defaults of the stories in place and answers a story of the
    story map that can be selected (status [ready], taken from the state
    when the state knows the story; every dependency [done] in the state
    or unknown to it) and whose priority, read as an integer, is least
    among the stories that can be selected; it answers none exactly when
    none can be selected.  A dependency the state does not know counts as
    satisfied here, and the overrides play no part. *)
Theorem pick_next_story_selects_least_priority
    (int_of_str : string -> result Z) (state : dict) (stories : list dict)
    (overrides : list Orchestrator.override) :
  Selection.pick_next_story int_of_str state stories overrides true
  = Ret (Some (Selection.fix_gate_story, "fix-gate"), stories)
  /\ (forall r stories',
        Selection.pick_next_story int_of_str state stories overrides false
        = Ret (r, stories') ->
        stories' = Selection.normalized_in_place stories
        /\ exists m items status_map,
             Selection.story_map_from stories [] = Ret m
             /\ Forall (Selection.from_story stories) m
             /\ iterate (dict_get "stories" (VList []) state) = Ret items
             /\ Selection.status_map_from items [] = Ret status_map
             /\ match r with
                | None => Forall (fun item => ~ Selection.selectable status_map item) m
                | Some (chosen, reason) =>
                    reason = "priority"
                    /\ exists sid k,
                         (sid, chosen) ∈ m
                         /\ Selection.selectable status_map (sid, chosen)
                         /\ Selection.int_of int_of_str
                              (dict_get "priority" (VInt 99) chosen) = Ret k
                         /\ forall item,
                              item ∈ m -> Selection.selectable status_map item ->
                              exists k',
                                Selection.int_of int_of_str
                                  (dict_get "priority" (VInt 99) (snd item)) = Ret k'
                                /\ (k <= k')%Z
                end)
  /\ (forall overrides',
        Selection.pick_next_story int_of_str state stories overrides' false
        = Selection.pick_next_story int_of_str state stories overrides false)
  /\ Selection.pick_next_story int_of_str [("stories", VList [])]
       [Workflow.story_waiting] [] false
     = Ret (Some (Selection.normalize_story Workflow.story_waiting, "priority"),
            [Selection.normalize_story Workflow.story_waiting])
  /\ Workflow.pick_next [Workflow.story_waiting] = Ret None.
Proof.
  split_and!; [done| |done|reflexivity|reflexivity].
  intros r stories' H. unfold Selection.pick_next_story in H.
  apply bind_Ret_inv in H as (m & Hm & H).
  apply bind_Ret_inv in H as (items & Hitems & H).
  apply bind_Ret_inv in H as (status_map & Hstatus & H).
  apply bind_Ret_inv in H as (ready & Hready & H).
  apply ready_from_spec in Hready as (chosen & Hsub & Hr & Hsel & Hall).
  simpl in Hr. subst ready.
  assert (stories' = Selection.normalized_in_place stories
          /\ match map snd chosen with
             | [] => r = None
             | _ => exists keys, Selection.keyed int_of_str (map snd chosen) = Ret keys
                      /\ r = option_map (fun c => (snd c, "priority"))
                               (head (sort_by Selection.by_key keys))
             end) as [-> Hres].
  { destruct (map snd chosen) as [|c cs] eqn:Ec.
    - by injection H as <- <-.
    - apply bind_Ret_inv in H as (keys & Hkeys & H). injection H as <- <-. eauto. }
  split; [done|]. exists m, items, status_map.
  split_and!; [done| |done|done|].
  { eapply story_map_from_spec; [|constructor|exact Hm]. done. }
  rewrite Forall_forall in Hall, Hsel.
  destruct (map snd chosen) as [|c cs] eqn:Ec.
  - subst r. destruct chosen; [|done]. apply Forall_forall. intros item Hi Hs.
    specialize (Hall item Hi Hs). by apply elem_of_nil in Hall.
  - destruct Hres as (keys & Hkeys & ->). rewrite <- Ec in Hkeys.
    apply keyed_spec in Hkeys as [Hsnd Hint]. rewrite Forall_forall in Hint.
    destruct (head (sort_by Selection.by_key keys)) as [[k s]|] eqn:Eh; simpl.
    + apply sort_by_key_head in Eh as [Hin Hmin]. split; [done|].
      assert (s ∈ map snd chosen) as Hs.
      { rewrite <- Hsnd. apply list_elem_of_fmap. by exists (k, s). }
      apply list_elem_of_fmap in Hs as ([sid s'] & Hs' & Hc). simpl in Hs'. subst s'.
      exists sid, k. split_and!.
      * by eapply elem_of_sublist.
      * by apply Hsel.
      * by apply (Hint (k, s)).
      * intros item Hi Hs. specialize (Hall item Hi Hs).
        assert (snd item ∈ map snd keys) as Hk.
        { rewrite Hsnd. apply list_elem_of_fmap. by exists item. }
        apply list_elem_of_fmap in Hk as ([k' t] & Ht & Hk). simpl in Ht.
        exists k'. split.
        -- rewrite Ht. by apply (Hint (k', t)).
        -- by apply (Hmin (k', t)).
    + exfalso. pose proof (sort_by_Permutation Selection.by_key keys) as Hp.
      destruct (sort_by Selection.by_key keys); [|done].
      apply Permutation_nil_l in Hp. subst keys. rewrite <- Hsnd in Ec. done.
Qed.

(** ** Paths granted by overrides *)

Lemma startswith_app p s :
  startswith p s = true <-> exists rest, s = p +:+ rest.
Proof.
  unfold startswith. revert s. induction p as [|a p IH]; intros s.
  - split; [intros _; by exists s|by destruct s].
  - destruct s as [|b s]; cbn [String.prefix].
    + split; [done|]. intros [rest H]. rewrite string_app_cons in H. done.
    + destruct (ascii_dec a b) as [->|Hne]; cbv iota.
      * rewrite IH. split; intros [rest H]; exists rest.
        -- by rewrite string_app_cons, H.
        -- rewrite string_app_cons in H. by injection H.
      * split; [done|]. intros [rest H]. rewrite string_app_cons in H.
        injection H as H _. by destruct Hne.
Qed.

Lemma in_list_elem_of x l : State.in_list x l = true <-> x ∈ l.
Proof.
  unfold State.in_list. rewrite existsb_exists. split.
  - intros (y & Hy%list_elem_of_In & ->%String.eqb_eq). done.
  - intros H. exists x. split; [by apply list_elem_of_In|apply String.eqb_refl].
Qed.

Lemma grants_spec pp ap :
  Orchestrator.grants pp ap = true <->
  pp = replace_char backslash slash ap
  \/ exists rest,
       pp = rstrip_chars "/" (replace_char backslash slash ap) +:+ "/" +:+ rest.
Proof.
  unfold Orchestrator.grants. rewrite orb_true_iff, String.eqb_eq, startswith_app.
  split; (intros [?|[rest H]]; [by left|right; exists rest]).
  - by rewrite H, string_app_assoc.
  - by rewrite H, string_app_assoc.
Qed.

(** X14.  [within_allowed_paths] holds exactly when the path, with its
    backslashes turned into slashes, is one of the allowed paths as they
    are written, or equals a path some override grants, or lies below
    one: it continues the granted path, stripped of trailing slashes, with
    a slash.  It agrees with the gate of the executor: a path the gate
    blocks is not within the paths the overrides allow.  A path that only
    shares the spelling of a granted directory's name is not granted. *)
Theorem within_allowed_paths_spec
    (path : string) (allowed : list string) (overrides : list Orchestrator.override) :
  let p := replace_char backslash slash path in
  (Selection.within_allowed_paths path allowed overrides = true <->
   p ∈ allowed
   \/ exists ov ap,
        ov ∈ overrides /\ ap ∈ Orchestrator.allow_paths ov
        /\ (p = replace_char backslash slash ap
            \/ exists rest,
                 p = rstrip_chars "/" (replace_char backslash slash ap)
                     +:+ "/" +:+ rest))
  /\ (forall protected,
        Orchestrator.conflicting (map Orchestrator.raw_override overrides)
          protected path = Ret true ->
        Selection.within_allowed_paths path [] overrides = false)
  /\ Selection.within_allowed_paths "app/auth/tokens.py" []
       [ {| Orchestrator.story_id := "S1"; Orchestrator.allow_paths := ["app/auth"] |} ]
     = true
  /\ Selection.within_allowed_paths "app/authz.py" []
       [ {| Orchestrator.story_id := "S1"; Orchestrator.allow_paths := ["app/auth"] |} ]
     = false
  /\ Selection.within_allowed_paths "app/auth" []
       [ {| Orchestrator.story_id := "S1"; Orchestrator.allow_paths := ["app/auth/"] |} ]
     = false.
Proof.
  intros p. subst p. split_and!; [| |reflexivity..].
  - unfold Selection.within_allowed_paths.
    rewrite orb_true_iff, in_list_elem_of, ok_by_override_spec.
    split; (intros [?|(ov & ap & Hov & Hap & Hg)]; [by left|right; exists ov, ap]).
    + by rewrite <- grants_spec.
    + by rewrite grants_spec.
  - intros protected Hc. unfold Selection.within_allowed_paths, Orchestrator.conflicting in *.
    rewrite granted_by_override_typed in Hc.
    destruct (bool_decide _); [|done]. simpl in Hc. injection Hc as Hc%negb_true_iff.
    by rewrite Hc.
Qed.

Lemma record_in_range (objects : list dict) (a : nat) sid :
  dict_lookup "id" (objects !!! a) = Some sid -> (a < length objects)%nat.
Proof.
  intros H. destruct (objects !! a) as [s|] eqn:E.
  - by eapply lookup_lt_Some.
  - rewrite list_lookup_total_alt, E in H. done.
Qed.

Lemma locate_spec objects story_id listed a :
  Selection.locate objects story_id listed = Ret (Some a) ->
  exists before after,
    listed = before ++ a :: after
    /\ Forall (fun b => exists sid, dict_lookup "id" (objects !!! b) = Some sid
                          /\ py_eq sid story_id = false) before
    /\ exists sid, dict_lookup "id" (objects !!! a) = Some sid
                   /\ py_eq sid story_id = true.
Proof.
  induction listed as [|b listed IH]; simpl; intros H; [done|].
  apply bind_Ret_inv in H as (sid & Hsid & H).
  unfold dict_item in Hsid.
  destruct (dict_lookup "id" (objects !!! b)) as [sid'|] eqn:Es; [|done].
  injection Hsid as ->.
  destruct (py_eq sid story_id) eqn:E.
  - injection H as <-. exists [], listed. split_and!; [done|constructor|eauto].
  - destruct (IH H) as (before & after & -> & Hb & Hf).
    exists (b :: before), after. split_and!; [done| |done]. constructor; eauto.
Qed.

Lemma locate_None objects story_id listed :
  Selection.locate objects story_id listed = Ret None ->
  Forall (fun b => exists sid, dict_lookup "id" (objects !!! b) = Some sid
                     /\ py_eq sid story_id = false) listed.
Proof.
  induction listed as [|b listed IH]; simpl; intros H; [constructor|].
  apply bind_Ret_inv in H as (sid & Hsid & H).
  unfold dict_item in Hsid.
  destruct (dict_lookup "id" (objects !!! b)) as [sid'|] eqn:Es; [|done].
  injection Hsid as ->.
  destruct (py_eq sid story_id) eqn:E; [done|].
  constructor; eauto.
Qed.

Lemma locate_found objects story_id before a after sid :
  Forall (fun b => exists sid, dict_lookup "id" (objects !!! b) = Some sid
                     /\ py_eq sid story_id = false) before ->
  dict_lookup "id" (objects !!! a) = Some sid ->
  py_eq sid story_id = true ->
  Selection.locate objects story_id (before ++ a :: after) = Ret (Some a).
Proof.
  intros Hb Hf He. induction Hb as [|b before (k & Hk & Hne) _ IH]; simpl.
  - unfold dict_item. rewrite Hf. simpl. by rewrite He.
  - unfold dict_item. rewrite Hk. simpl. by rewrite Hne.
Qed.

(** X12.  [mark_state_story] changes one record and nothing else: the
    first listed record whose id equals the story id, or, when there is
    none, a new record that it lists last.  Every other record is as
    before, and the list shows the marked record wherever it held it.
    Afterwards that record holds the given status and its id is untouched;
    its attempts are one more exactly when they were to be counted;
    [completed_at] is set exactly when the status is [done]; the role is
    replaced exactly when one is given; every other field is as before.
    A later search for the id finds the marked record. *)
Theorem mark_state_story_marks_one_record
    (rs : Selection.records) (story_id status role : value) (inc : bool)
    (clock : list string) (rs' : Selection.records) (clock' : list string) :
  Selection.mark_state_story rs story_id status role inc clock = Ret (rs', clock') ->
  exists a found found',
    ((Selection.locate (Selection.objects rs) story_id (Selection.listed rs)
      = Ret (Some a)
      /\ Selection.objects rs !! a = Some found
      /\ Selection.listed rs' = Selection.listed rs
      /\ length (Selection.objects rs') = length (Selection.objects rs))
     \/ (Selection.locate (Selection.objects rs) story_id (Selection.listed rs)
         = Ret None
         /\ a = length (Selection.objects rs)
         /\ found = [ ("id", story_id); ("status", status); ("attempts", VInt 0);
                      ("started_at", VNone); ("completed_at", VNone);
                      ("assigned_role", role) ]
         /\ Selection.listed rs' = Selection.listed rs ++ [a]
         /\ length (Selection.objects rs') = S (length (Selection.objects rs))))
    /\ Selection.objects rs' !! a = Some found'
    /\ (forall b, b <> a -> Selection.objects rs' !! b = Selection.objects rs !! b)
    /\ Selection.view rs'
       = map (fun b => if decide (b = a) then found' else Selection.objects rs !!! b)
           (Selection.listed rs')
    /\ (exists sid, dict_lookup "id" found' = Some sid
                    /\ (py_eq sid story_id = true \/ sid = story_id))
    /\ dict_lookup "status" found' = Some status
    /\ (forall k, k <> "status" -> k <> "attempts" -> k <> "started_at" ->
          k <> "completed_at" -> k <> "assigned_role" ->
          dict_lookup k found' = dict_lookup k found)
    /\ (if inc
        then exists n, Selection.add_one (dict_get "attempts" (VInt 0) found) = Ret n
               /\ dict_lookup "attempts" found' = Some n
        else dict_lookup "attempts" found' = dict_lookup "attempts" found
             /\ dict_lookup "started_at" found' = dict_lookup "started_at" found)
    /\ (if eq_str status "done"
        then exists t, dict_lookup "completed_at" found' = Some (VStr t)
        else dict_lookup "completed_at" found' = dict_lookup "completed_at" found)
    /\ (if truthy role
        then dict_lookup "assigned_role" found' = Some role
        else dict_lookup "assigned_role" found' = dict_lookup "assigned_role" found)
    /\ (py_eq story_id story_id = true ->
        Selection.locate (Selection.objects rs') story_id (Selection.listed rs')
        = Ret (Some a)).
Proof.
  unfold Selection.mark_state_story. intros H.
  apply bind_Ret_inv in H as (r & Hloc & H).
  destruct r as [a|].
  - apply bind_Ret_inv in H as ([found' c] & Ht & H). injection H as <- <-.
    pose proof (locate_spec _ _ _ _ Hloc) as (before & after & Hl & Hb & sid & Hsid & Heq).
    pose proof (touch_spec _ _ _ _ _ _ _ Ht) as (Hs & Hk & Hi & Hd & Hr).
    pose proof (record_in_range _ _ _ Hsid) as Hlt.
    set (found := Selection.objects rs !!! a) in *.
    assert (dict_lookup "id" found' = Some sid) as Hid by (by rewrite Hk).
    assert (forall b, b <> a -> <[a:=found']> (Selection.objects rs) !!! b
                                = Selection.objects rs !!! b) as Hother.
    { intros b Hne. by apply list_lookup_total_insert_ne. }
    exists a, found, found'. cbn [Selection.objects Selection.listed fst snd].
    split_and!; try done.
    + left. split_and!; [done|by apply list_lookup_lookup_total_lt|done|].
      by rewrite length_insert.
    + by apply list_lookup_insert_eq.
    + intros b Hne. by apply list_lookup_insert_ne.
    + unfold Selection.view. cbn [Selection.objects Selection.listed].
      apply map_ext. intros b. destruct (decide (b = a)) as [->|Hne].
      * by apply list_lookup_total_insert_eq.
      * by apply Hother.
    + eauto.
    + destruct inc; [|done]. destruct Hi as (n & ? & ? & _). eauto.
    + intros _. rewrite Hl. eapply locate_found.
      * eapply Forall_impl; [exact Hb|]. intros b (k & Hbk & Hne). simpl.
        assert (b <> a) as Hba by (intros ->; fold found in Hbk; congruence).
        rewrite (Hother b Hba). eauto.
      * rewrite list_lookup_total_insert_eq by done. exact Hid.
      * done.
  - apply bind_Ret_inv in H as ([found' c] & Ht & H). injection H as <- <-.
    pose proof (locate_None _ _ _ Hloc) as Hb.
    pose proof (touch_spec _ _ _ _ _ _ _ Ht) as (Hs & Hk & Hi & Hd & Hr).
    assert (dict_lookup "id" found' = Some story_id) as Hid by (by rewrite Hk).
    assert (Forall (fun b => (b < length (Selection.objects rs))%nat)
              (Selection.listed rs)) as Hrange.
    { eapply Forall_impl; [exact Hb|]. intros b (k & Hbk & _). simpl.
      by eapply record_in_range. }
    eexists (length (Selection.objects rs)), _, found'.
    cbn [Selection.objects Selection.listed fst snd].
    split_and!; try done.
    + right. split_and!; try done. rewrite length_app. simpl. lia.
    + rewrite lookup_app_r by lia. by rewrite Nat.sub_diag.
    + intros b Hne. destruct (decide (b < length (Selection.objects rs))%nat).
      * by rewrite lookup_app_l.
      * rewrite !lookup_ge_None_2; [done|lia|]. rewrite length_app. simpl. lia.
    + unfold Selection.view. cbn [Selection.objects Selection.listed].
      rewrite !map_app. simpl. f_equal.
      * apply map_ext_Forall. eapply Forall_impl; [exact Hrange|]. intros b Hlt.
        simpl in *. destruct (decide (b = length (Selection.objects rs))); [lia|].
        by apply lookup_total_app_l.
      * rewrite decide_True by done. f_equal.
        apply list_lookup_total_correct. rewrite lookup_app_r by lia.
        by rewrite Nat.sub_diag.
    + eauto.
    + destruct inc; [|done]. destruct Hi as (n & ? & ? & _). eauto.
    + intros Hrefl. eapply locate_found; [| |exact Hrefl].
      * rewrite Forall_forall in Hb, Hrange. apply Forall_forall. intros b Hin.
        destruct (Hb b Hin) as (k & Hbk & Hne).
        rewrite lookup_total_app_l by (by apply Hrange). eauto.
      * rewrite (list_lookup_total_correct _ _ found'); [exact Hid|].
        rewrite lookup_app_r by lia. by rewrite Nat.sub_diag.
Qed.

(** X12 on the example records: the story B is started. *)
Lemma mark_state_story_marks_one_record_witness :
  exists rs' clock',
    Selection.mark_state_story Selection.example_records
      (VStr "B") (VStr "in_progress") (VStr "Tester") true
      ["2025-06-02T08:00:00+00:00"] = Ret (rs', clock')
    /\ exists a found found',
      ((Selection.locate (Selection.objects Selection.example_records) (VStr "B")
          (Selection.listed Selection.example_records) = Ret (Some a)
        /\ Selection.objects Selection.example_records !! a = Some found
        /\ Selection.listed rs' = Selection.listed Selection.example_records
        /\ length (Selection.objects rs')
           = length (Selection.objects Selection.example_records))
       \/ (Selection.locate (Selection.objects Selection.example_records) (VStr "B")
             (Selection.listed Selection.example_records) = Ret None
           /\ a = length (Selection.objects Selection.example_records)
           /\ found = [ ("id", VStr "B"); ("status", VStr "in_progress");
                        ("attempts", VInt 0); ("started_at", VNone);
                        ("completed_at", VNone); ("assigned_role", VStr "Tester") ]
           /\ Selection.listed rs' = Selection.listed Selection.example_records ++ [a]
           /\ length (Selection.objects rs')
              = S (length (Selection.objects Selection.example_records))))
      /\ Selection.objects rs' !! a = Some found'
      /\ (forall b, b <> a ->
            Selection.objects rs' !! b = Selection.objects Selection.example_records !! b)
      /\ Selection.view rs'
         = map (fun b => if decide (b = a) then found'
                         else Selection.objects Selection.example_records !!! b)
             (Selection.listed rs')
      /\ (exists sid, dict_lookup "id" found' = Some sid
                      /\ (py_eq sid (VStr "B") = true \/ sid = VStr "B"))
      /\ dict_lookup "status" found' = Some (VStr "in_progress")
      /\ (forall k, k <> "status" -> k <> "attempts" -> k <> "started_at" ->
            k <> "completed_at" -> k <> "assigned_role" ->
            dict_lookup k found' = dict_lookup k found)
      /\ (if true
          then exists n, Selection.add_one (dict_get "attempts" (VInt 0) found) = Ret n
                 /\ dict_lookup "attempts" found' = Some n
          else dict_lookup "attempts" found' = dict_lookup "attempts" found
               /\ dict_lookup "started_at" found' = dict_lookup "started_at" found)
      /\ (if eq_str (VStr "in_progress") "done"
          then exists t, dict_lookup "completed_at" found' = Some (VStr t)
          else dict_lookup "completed_at" found' = dict_lookup "completed_at" found)
      /\ (if truthy (VStr "Tester")
          then dict_lookup "assigned_role" found' = Some (VStr "Tester")
          else dict_lookup "assigned_role" found' = dict_lookup "assigned_role" found)
      /\ (py_eq (VStr "B") (VStr "B") = true ->
          Selection.locate (Selection.objects rs') (VStr "B") (Selection.listed rs')
          = Ret (Some a)).
Proof.
  eexists _, _. split; [vm_compute; reflexivity|].
  eapply (mark_state_story_marks_one_record Selection.example_records
            (VStr "B") (VStr "in_progress") (VStr "Tester") true
            ["2025-06-02T08:00:00+00:00"]).
  vm_compute. reflexivity.
Defined.

(** The example run in full: B is started at the reading of the clock,
    and both places of the list that hold its record show it. *)
Lemma mark_state_story_example :
  option_map (fun r => Selection.view (fst r))
    (match Selection.mark_state_story Selection.example_records
             (VStr "B") (VStr "in_progress") (VStr "Tester") true
             ["2025-06-02T08:00:00+00:00"] with
     | Ret r => Some r
     | Raise _ => None
     end)
  = Some (let started :=
            [ ("id", VStr "B"); ("status", VStr "in_progress"); ("attempts", VInt 1);
              ("started_at", VStr "2025-06-02T08:00:00+00:00");
              ("completed_at", VNone); ("assigned_role", VStr "Tester") ] in
          [Selection.record_A; started; started]).
Proof. vm_compute. reflexivity. Qed.

(** ** Discovered stories are in normal form *)

Lemma existsb_eqb_elem_of st l :
  st ∈ l -> existsb (String.eqb st) l = true.
Proof.
  intros H. apply existsb_exists. exists st.
  split; [by apply list_elem_of_In|apply String.eqb_refl].
Qed.

Lemma normalize_entry_fixed s :
  dict_has "id" s = true ->
  (exists st, dict_lookup "status" s = Some (VStr st) /\ st ∈ Workflow.VALID_STATUSES) ->
  is_Some (dict_lookup "dependencies" s) ->
  is_Some (dict_lookup "priority" s) ->
  Workflow.normalize_entry (VDict s) = Ret (Some s).
Proof.
  intros Hid (st & Hst & Hvalid) [deps Hdeps] [prio Hprio].
  unfold Workflow.normalize_entry.
  assert (truthy (VDict s) = true) as -> by (by destruct s).
  cbn [negb Workflow.has_member]. rewrite Hid.
  cbn [mbind result_bind Py.bind negb]. unfold dict_get. rewrite Hst.
  cbn [Workflow.in_valid_statuses]. rewrite (existsb_eqb_elem_of _ _ Hvalid).
  cbn [mbind result_bind Py.bind]. unfold dict_setdefault, dict_has.
  by rewrite Hdeps, Hprio.
Qed.

(** X15.  The stories [discover_backlog] returns are in normal form:
    the normalization step of the discovery keeps each of them and
    changes nothing in it, its status being valid and its dependencies
    and priority present. *)
Theorem discover_backlog_output_is_normalized
    (json_loads : string -> result value) (bdir : option Workflow.listing)
    (out : list dict) :
  Workflow.discover_backlog json_loads bdir = Ret out ->
  Forall (fun s => Workflow.normalize_entry (VDict s) = Ret (Some s)) out.
Proof.
  intros H. destruct bdir as [[entries|e]|]; simpl in H; [|done|].
  - apply bind_Ret_inv in H as (scanned & Hscan & Hsort).
    apply scan_spec in Hscan as (news & -> & HF). simpl in *.
    apply sort_stories_spec in Hsort as [Hperm _]. rewrite Hperm.
    eapply (Forall2_Forall_from _ (fun d => dict_has "id" d = true));
      [|exact HF|apply Forall_omap_kept].
    intros d s Hd Hn.
    destruct (normalized_shape d s Hd Hn) as (? & ? & ? & ?).
    by apply normalize_entry_fixed.
  - injection H as <-. constructor.
Qed.

(** X15 on the backlog of the example. *)
Lemma discover_backlog_output_is_normalized_witness :
  Forall (fun s => Workflow.normalize_entry (VDict s) = Ret (Some s))
    [Workflow.story_B; Workflow.story_C; Workflow.story_A].
Proof.
  apply (discover_backlog_output_is_normalized Json.loads
           (Some Workflow.example_backlog)).
  vm_compute. reflexivity.
Defined.

(** ** The fix-gate story in a backlog *)

(** X16.  The story [synthesize_fix_gate] returns is ready to be worked
    on: it is in the normal form of discovered stories, it sorts before
    every story whose priority is 1 or more, and [pick_next] returns it
    when it stands first in a list of well-formed stories, whatever the
    other stories are. *)
Theorem synthesize_fix_gate_is_picked_first
    (import_ok tests_ok : bool) (gate : dict) (stories : list dict) :
  Workflow.synthesize_fix_gate import_ok tests_ok = Some gate ->
  Workflow.normalize_entry (VDict gate) = Ret (Some gate)
  /\ (forall s n t,
        Workflow.typed_key (Workflow.sort_key s) = Some (n, t) -> (1 <= n)%Z ->
        Workflow.backlog_le gate s)
  /\ (Forall Workflow.well_formed stories ->
      Workflow.pick_next (gate :: stories) = Ret (Some gate)).
Proof.
  intros Hg.
  assert (dict_lookup "id" gate = Some (VStr "fix_gate_virtual")
          /\ dict_lookup "status" gate = Some (VStr "ready")
          /\ dict_lookup "dependencies" gate = Some (VList [])
          /\ dict_lookup "priority" gate = Some (VInt 0)
          /\ exists title, dict_lookup "title" gate = Some (VStr title))
    as (Hid & Hst & Hdeps & Hprio & title & Htitle).
  { unfold Workflow.synthesize_fix_gate in Hg.
    destruct (import_ok && tests_ok); [done|]. injection Hg as <-.
    split_and!; try reflexivity. eexists. reflexivity. }
  split_and!.
  - apply normalize_entry_fixed.
    + unfold dict_has. by rewrite Hid.
    + exists "ready". split; [done|]. by left.
    + by rewrite Hdeps.
    + by rewrite Hprio.
  - intros s n t Hs Hn. unfold Workflow.backlog_le. rewrite Hs.
    assert (Workflow.typed_key (Workflow.sort_key gate) = Some (0%Z, title)) as ->.
    { unfold Workflow.sort_key, dict_get. by rewrite Hprio, Htitle. }
    left. simpl. lia.
  - intros Hwf.
    assert (Workflow.well_formed gate) as Hgate.
    { split.
      - exists (VStr "fix_gate_virtual"). by split.
      - exists []. unfold dict_get. rewrite Hdeps. by split. }
    assert (Forall Workflow.well_formed (gate :: stories)) as Hall by (by constructor).
    unfold Workflow.pick_next, Workflow.status_index.
    destruct (status_index_from_returns (gate :: stories) [] Hall) as [idx Hidx].
    rewrite Hidx. cbn [mbind result_bind Py.bind].
    destruct (filter_stories_returns idx stories Hwf) as [tl Htl].
    cbn [Workflow.filter_stories]. unfold Workflow.is_candidate, dict_get.
    rewrite Hst. cbn [eq_str String.eqb Ascii.eqb Bool.eqb].
    unfold Workflow._deps_satisfied, dict_get. rewrite Hdeps.
    cbn [iterate mbind result_bind Py.bind Workflow.all_done]. rewrite Htl. done.
Qed.

(** X16 on the story for a failed import, before the example backlog. *)
Lemma synthesize_fix_gate_is_picked_first_witness :
  exists gate,
    Workflow.synthesize_fix_gate false true = Some gate
    /\ Workflow.normalize_entry (VDict gate) = Ret (Some gate)
    /\ (forall s n t,
          Workflow.typed_key (Workflow.sort_key s) = Some (n, t) -> (1 <= n)%Z ->
          Workflow.backlog_le gate s)
    /\ (Forall Workflow.well_formed
          [Workflow.story_B; Workflow.story_C; Workflow.story_A] ->
        Workflow.pick_next
          (gate :: [Workflow.story_B; Workflow.story_C; Workflow.story_A])
        = Ret (Some gate)).
Proof.
  eexists. split; [reflexivity|].
  apply (synthesize_fix_gate_is_picked_first false true).
  reflexivity.
Defined.

(** ** Omitted paths *)

Lemma rev_string_onto_app s acc :
  rev_string_onto s acc = rev_string_onto s EmptyString +:+ acc.
Proof.
  revert acc. induction s as [|c s IH]; intros acc; simpl.
  - by rewrite string_app_nil.
  - rewrite (IH (String c acc)), (IH (String c EmptyString)).
    by rewrite string_app_assoc, string_app_cons, string_app_nil.
Qed.

Lemma rev_string_app a b : rev_string (a +:+ b) = rev_string b +:+ rev_string a.
Proof.
  unfold rev_string. induction a as [|c a IH].
  - rewrite string_app_nil. simpl. induction (rev_string_onto b "") as [|x r IHr]; [done|].
    by rewrite string_app_cons, <- IHr.
  - rewrite string_app_cons. simpl.
    rewrite (rev_string_onto_app (a +:+ b)), (rev_string_onto_app a), IH.
    by rewrite string_app_assoc.
Qed.

Lemma char_in_app c a b : char_in c (a +:+ b) = char_in c a || char_in c b.
Proof.
  unfold char_in. induction a as [|x a IH].
  - by rewrite string_app_nil.
  - rewrite string_app_cons. simpl. by rewrite IH, orb_assoc.
Qed.

Lemma char_in_rev_string c s : char_in c (rev_string s) = char_in c s.
Proof.
  induction s as [|x s IH]; [done|].
  change (String x s) with (String x EmptyString +:+ s) at 1.
  rewrite rev_string_app, char_in_app, IH.
  unfold char_in. simpl. by rewrite orb_false_r, orb_comm.
Qed.

Lemma prefix_before_sep c x y z :
  char_in c x = false ->
  String.prefix x (y +:+ String c z) = String.prefix x y.
Proof.
  unfold char_in. revert y. induction x as [|a x IH]; intros y H.
  - by destruct y.
  - simpl in H. apply orb_false_elim in H as [Ha Hx].
    destruct y as [|b y].
    + rewrite string_app_nil. cbn [String.prefix].
      destruct (ascii_dec a c) as [->|?]; [|done]. by rewrite Ascii.eqb_refl in Ha.
    + rewrite string_app_cons. cbn [String.prefix].
      destruct (ascii_dec a b); [by apply IH|done].
Qed.

Lemma endswith_below suffix dir base :
  char_in slash suffix = false ->
  endswith suffix (dir +:+ String slash base) = endswith suffix base.
Proof.
  intros H. unfold endswith.
  change (String slash base) with (String slash EmptyString +:+ base).
  rewrite !rev_string_app. rewrite string_app_assoc.
  change (rev_string (String slash EmptyString)) with (String slash EmptyString).
  rewrite string_app_cons, string_app_nil.
  apply prefix_before_sep. by rewrite char_in_rev_string.
Qed.

(** A path is its directory part, empty or ending in the separator,
    followed by its last component. *)
Lemma basename_split path :
  State.basename path = path
  \/ exists dir, path = dir +:+ String slash (State.basename path).
Proof.
  unfold State.basename.
  assert ((List.last (split_char slash path) EmptyString = path
           /\ length (split_char slash path) = 1%nat)
          \/ (exists dir,
                path = dir +:+ String slash (List.last (split_char slash path) EmptyString))
             /\ (2 <= length (split_char slash path))%nat) as [[H _]|[H _]]; auto.
  induction path as [|a s IH]; [by left|]. simpl.
  destruct (Ascii.eqb a slash) eqn:Ea.
  - apply Ascii.eqb_eq in Ea as ->. right.
    destruct (split_char slash s) as [|w ws] eqn:Es.
    { by destruct (split_char_nonempty slash s). }
    split; [|simpl; lia].
    change (List.last (EmptyString :: w :: ws) EmptyString)
      with (List.last (w :: ws) EmptyString).
    destruct IH as [[IH _]|[[dir IH] _]].
    + exists EmptyString. by rewrite string_app_nil, IH.
    + exists (String slash dir). by rewrite string_app_cons, <- IH.
  - destruct (split_char slash s) as [|w [|w' ws]] eqn:Es.
    { by destruct (split_char_nonempty slash s). }
    + left. destruct IH as [[IH _]|[_ IH]]; [|simpl in IH; lia].
      simpl in *. by rewrite IH.
    + right. split; [|simpl; lia].
      destruct IH as [[_ IH]|[[dir IH] _]]; [simpl in IH; lia|].
      exists (String a dir). rewrite string_app_cons.
      change (List.last (String a w :: w' :: ws) EmptyString)
        with (List.last (w :: w' :: ws) EmptyString).
      by rewrite <- IH.
Qed.

Lemma endswith_basename suffix path :
  char_in slash suffix = false ->
  endswith suffix (State.basename path) = endswith suffix path.
Proof.
  intros H. destruct (basename_split path) as [->|[dir Hd]]; [done|].
  rewrite Hd at 2. by rewrite endswith_below.
Qed.

(** X17.  [_is_omitted] holds of a path exactly when one of its
    components, split at slashes and backslashes alike, is the name of an
    omitted directory, or the path ends in one of the omitted suffixes.
    So a file that is merely named like an omitted directory is omitted
    too, and the test for a suffix does not depend on the directory the
    file lies in. *)
Theorem is_omitted_spec (path : string) :
  (State._is_omitted path = true <->
   (exists part,
      part ∈ split_char slash (replace_char backslash slash path)
      /\ part ∈ State._OMIT_DIRS)
   \/ (exists suffix,
         suffix ∈ State._OMIT_FILE_PATTERNS /\ endswith suffix path = true))
  /\ State._is_omitted ".git" = true
  /\ State._is_omitted
       ("src" +:+ String backslash "__pycache__" +:+ String backslash "mod.py") = true
  /\ State._is_omitted "data/cache.db" = true
  /\ State._is_omitted ".gitignore" = false
  /\ State._is_omitted "docs/git/readme.md" = false.
Proof.
  split_and!; [|reflexivity..].
  unfold State._is_omitted.
  assert (existsb (fun p => State.in_list p State._OMIT_DIRS)
            (split_char slash (replace_char backslash slash path)) = true <->
          exists part, part ∈ split_char slash (replace_char backslash slash path)
                       /\ part ∈ State._OMIT_DIRS) as Hdirs.
  { rewrite existsb_exists. split.
    - intros (part & Hp%list_elem_of_In & Hin%in_list_elem_of). eauto.
    - intros (part & Hp & Hin). exists part.
      split; [by apply list_elem_of_In|by apply in_list_elem_of]. }
  assert (existsb (fun suffix => endswith suffix (State.basename path))
            State._OMIT_FILE_PATTERNS = true <->
          exists suffix, suffix ∈ State._OMIT_FILE_PATTERNS
                         /\ endswith suffix path = true) as Hsuffix.
  { assert (Forall (fun suffix => char_in slash suffix = false)
              State._OMIT_FILE_PATTERNS) as Hpat by (repeat constructor).
    rewrite Forall_forall in Hpat. rewrite existsb_exists. split.
    - intros (suffix & Hs%list_elem_of_In & He). exists suffix. split; [done|].
      by rewrite <- (endswith_basename suffix path (Hpat suffix Hs)).
    - intros (suffix & Hs & He). exists suffix. split; [by apply list_elem_of_In|].
      by rewrite (endswith_basename suffix path (Hpat suffix Hs)). }
  destruct (existsb _ (split_char _ _)).
  - split; [intros _; left; by apply Hdirs|done].
  - rewrite Hsuffix. split; [by right|].
    intros [H|H]; [by apply Hdirs in H|done].
Qed.

(** ** The state after loading *)

Lemma map_get_set k k0 d m :
  Loading.map_get k (Selection.map_set k0 d m)
  = if key_eqb k k0 then Some d else Loading.map_get k m.
Proof.
  induction m as [|[k' d'] m IH]; simpl; [done|].
  destruct (key_eqb k0 k') eqn:Ek; simpl.
  - assert (key_eqb k k' = key_eqb k k0) as ->.
    { rewrite (key_eqb_sym k k'), (key_eqb_sym k k0). by apply key_eqb_congr. }
    by destruct (key_eqb k k0).
  - rewrite IH. destruct (key_eqb k k') eqn:Ed'; [|done].
    destruct (key_eqb k k0) eqn:Ed; [|done].
    rewrite (key_eqb_sym k k0) in Ed.
    rewrite (key_eqb_congr k0 k k' Ed) in Ed'. congruence.
Qed.

Lemma address_of_spec k m a :
  match Loading.address_of k m a with
  | Some b => exists i, b = (a + i)%nat /\ (map snd m) !! i = Loading.map_get k m
                        /\ is_Some (Loading.map_get k m)
  | None => Loading.map_get k m = None
  end.
Proof.
  revert a. induction m as [|[k' d] m IH]; intros a; simpl; [done|].
  destruct (key_eqb k k').
  - exists 0%nat. split_and!; [lia|done|by eexists].
  - specialize (IH (S a)). destruct (Loading.address_of k m (S a)); [|done].
    destruct IH as (i & -> & Hi & Hs). exists (S i). split_and!; [lia|done|done].
Qed.

Lemma address_of_congr k k' m a :
  key_eqb k k' = true -> Loading.address_of k m a = Loading.address_of k' m a.
Proof.
  intros H. revert a. induction m as [|[k0 d] m IH]; intros a; simpl; [done|].
  rewrite (key_eqb_congr k k' k0 H), IH. done.
Qed.

Lemma address_of_inj k k' m a b :
  Loading.address_of k m a = Some b -> Loading.address_of k' m a = Some b ->
  key_eqb k k' = true.
Proof.
  revert a. induction m as [|[k0 d] m IH]; intros a; simpl; [done|].
  destruct (key_eqb k k0) eqn:E, (key_eqb k' k0) eqn:E'.
  - intros _ _. rewrite <- (key_eqb_congr k k0 k' E). by rewrite key_eqb_sym.
  - intros [= <-] H. pose proof (address_of_spec k' m (S a)) as Hs.
    rewrite H in Hs. destruct Hs as (i & ? & _). lia.
  - intros H [= <-]. pose proof (address_of_spec k m (S a)) as Hs.
    rewrite H in Hs. destruct Hs as (i & ? & _). lia.
  - apply IH.
Qed.

Lemma dicts_of_cons v items :
  Loading.dicts_of (v :: items)
  = match v with
    | VDict d => d :: Loading.dicts_of items
    | _ => Loading.dicts_of items
    end.
Proof. by destruct v. Qed.

Lemma state_ids_from_get k items m m' :
  Loading.state_ids_from items m = Ret m' ->
  Loading.map_get k m'
  = match Backlog.find_last k (Loading.dicts_of items) with
    | Some d => Some d
    | None => Loading.map_get k m
    end.
Proof.
  revert m. induction items as [|s items IH]; intros m H.
  - simpl in H. by injection H as <-.
  - cbn [Loading.state_ids_from] in H.
    apply bind_Ret_inv in H as (has & Hhas & H).
    destruct s as [|b|n|t|l|d]; simpl in Hhas; try done;
      try (injection Hhas as <-); rewrite dicts_of_cons.
    + destruct (contains "id" t); [done|]. by apply IH.
    + destruct (existsb _ l); [done|]. by apply IH.
    + cbn [Backlog.find_last]. unfold Backlog.has_id.
      unfold dict_has in H. unfold dict_item in H.
      destruct (dict_lookup "id" d) as [k0|] eqn:Ek.
      * simpl in H. destruct (hashable k0); [|done].
        rewrite (IH _ H), map_get_set.
        destruct (Backlog.find_last k (Loading.dicts_of items)); [done|].
        by destruct (key_eqb k k0).
      * rewrite (IH _ H).
        by destruct (Backlog.find_last k (Loading.dicts_of items)).
Qed.

Lemma entry_at_mono ids objs x s a :
  Loading.entry_at ids objs s a -> Loading.entry_at ids (objs ++ [x]) s a.
Proof.
  intros [Hlt H]. split; [rewrite length_app; simpl; lia|].
  destruct (Loading.address_of _ ids 0); [done|].
  destruct H as [? H]. split; [done|]. by rewrite lookup_app_l.
Qed.

Lemma merge_spec ids stories rs0 rs seen :
  Loading.merge ids stories rs0 = Ret rs ->
  (length ids <= length (Selection.objects rs0))%nat ->
  Forall2 (Loading.entry_at ids (Selection.objects rs0)) seen (Selection.listed rs0) ->
  (forall i j a, Selection.listed rs0 !! i = Some a ->
                 Selection.listed rs0 !! j = Some a ->
                 (length ids <= a)%nat -> i = j) ->
  (exists made, Selection.objects rs = Selection.objects rs0 ++ made)
  /\ Forall2 (Loading.entry_at ids (Selection.objects rs))
       (seen ++ List.filter Loading.has_truthy_id stories) (Selection.listed rs)
  /\ (forall i j a, Selection.listed rs !! i = Some a ->
                    Selection.listed rs !! j = Some a ->
                    (length ids <= a)%nat -> i = j).
Proof.
  revert rs0 seen. induction stories as [|s stories IH]; intros rs0 seen H Hlen Hseen Hfresh.
  - simpl in H. injection H as <-. rewrite app_nil_r.
    split_and!; [by exists []; rewrite app_nil_r|done|done].
  - cbn [Loading.merge] in H. cbn [List.filter]. unfold Loading.has_truthy_id at 1.
    destruct (truthy (dict_get "id" VNone s)) eqn:Et; simpl in H.
    2: { by apply IH. }
    destruct (hashable (dict_get "id" VNone s)) eqn:Eh; simpl in H; [|done].
    pose proof (Forall2_length _ _ _ Hseen) as Hl.
    assert (Forall (fun a => (a < length (Selection.objects rs0))%nat)
              (Selection.listed rs0)) as Hrange.
    { clear -Hseen. induction Hseen as [|? ? ? ? [? _]]; constructor; done. }
    destruct (Loading.address_of (dict_get "id" VNone s) ids 0) as [a|] eqn:Ea.
    + pose proof (address_of_spec (dict_get "id" VNone s) ids 0) as Hs.
      rewrite Ea in Hs. destruct Hs as (i & -> & Hi & Hsome).
      assert (i < length ids)%nat as Hlt.
      { destruct Hsome as [d Hd]. rewrite Hd in Hi.
        apply lookup_lt_Some in Hi. by rewrite length_map in Hi. }
      destruct (IH _ (seen ++ [s]) H) as (Hobj & Hall & Hfr); simpl.
      * done.
      * apply Forall2_app; [done|]. constructor; [|constructor].
        split; [simpl in *; lia|]. by rewrite Ea.
      * intros i1 i2 a Hi1 Hi2 Ha.
        assert (forall n, (Selection.listed rs0 ++ [(0 + i)%nat]) !! n = Some a ->
                          Selection.listed rs0 !! n = Some a) as Hold.
        { intros n Hn. apply lookup_app_Some in Hn as [Hn|[_ Hn]]; [done|].
          apply list_lookup_singleton_Some in Hn as [_ <-]. simpl in Ha. lia. }
        eapply Hfresh; eauto.
      * simpl in *. rewrite <- app_assoc in Hall. done.
    + destruct (IH _ (seen ++ [s]) H) as (Hobj & Hall & Hfr); simpl.
      * rewrite length_app. simpl. lia.
      * apply Forall2_app.
        -- eapply Forall2_impl; [exact Hseen|]. intros ? ?. apply entry_at_mono.
        -- constructor; [|constructor]. split; [rewrite length_app; simpl; lia|].
           rewrite Ea. split; [done|]. apply list_lookup_middle. done.
      * intros i1 i2 a Hi1 Hi2 Ha.
        apply lookup_app_Some in Hi1 as [Hi1|[Hge1 Hi1]];
          apply lookup_app_Some in Hi2 as [Hi2|[Hge2 Hi2]].
        -- eapply Hfresh; eauto.
        -- apply list_lookup_singleton_Some in Hi2 as [_ <-].
           rewrite Forall_lookup in Hrange. specialize (Hrange _ _ Hi1). lia.
        -- apply list_lookup_singleton_Some in Hi1 as [_ <-].
           rewrite Forall_lookup in Hrange. specialize (Hrange _ _ Hi2). lia.
        -- apply list_lookup_singleton_Some in Hi1 as [? _].
           apply list_lookup_singleton_Some in Hi2 as [? _]. lia.
      * simpl in *. destruct Hobj as [made Hobj]. rewrite <- app_assoc in Hall.
        split_and!; [|done|done]. exists (Loading.fresh_record (dict_get "id" VNone s) s :: made).
        rewrite Hobj, <- app_assoc. done.
Qed.

(** X18.  The records [load_or_rebuild_state] puts under
    [state["stories"]]: one for every story of the backlog with a truthy
    id, in the order of the stories.  Where the loaded state holds a
    record with the id of the story, the last such record is listed as
    it is, so its status and attempts stand and the status of the story
    file is not read; where it holds none, a record is made with the
    status of the story ([ready] by default) and no attempts.  A record
    whose id no story carries is not listed any more.  Two places of the
    list hold the same object exactly when their stories carry the same
    id and the state knew it. *)
Theorem load_or_rebuild_state_merges_records
    (items : list value) (stories : list dict) (rs : Selection.records) :
  Loading.merged_records items stories = Ret rs ->
  Forall2 (Loading.listed_for items)
    (List.filter Loading.has_truthy_id stories) (Selection.view rs)
  /\ Forall (fun a => (a < length (Selection.objects rs))%nat) (Selection.listed rs)
  /\ (forall i j s t a b,
        i <> j ->
        List.filter Loading.has_truthy_id stories !! i = Some s ->
        List.filter Loading.has_truthy_id stories !! j = Some t ->
        Selection.listed rs !! i = Some a ->
        Selection.listed rs !! j = Some b ->
        (a = b <->
         key_eqb (dict_get "id" VNone s) (dict_get "id" VNone t) = true
         /\ is_Some (Backlog.find_last (dict_get "id" VNone s)
                       (Loading.dicts_of items)))).
Proof.
  intros H. unfold Loading.merged_records in H.
  apply bind_Ret_inv in H as (ids & Hids & H).
  assert (forall k, Loading.map_get k ids
                    = Backlog.find_last k (Loading.dicts_of items)) as Hget.
  { intros k. rewrite (state_ids_from_get k _ _ _ Hids). simpl.
    by destruct (Backlog.find_last k (Loading.dicts_of items)). }
  destruct (merge_spec ids stories _ rs [] H) as ([made Hobj] & Hall & Hfresh);
    simpl in *.
  { by rewrite length_map. }
  { constructor. }
  { intros i j a Hi. by rewrite lookup_nil in Hi. }
  assert (forall s a, Loading.entry_at ids (Selection.objects rs) s a ->
            match Loading.address_of (dict_get "id" VNone s) ids 0 with
            | Some a' =>
                a = a' /\ (a < length ids)%nat
                /\ exists d, Backlog.find_last (dict_get "id" VNone s)
                               (Loading.dicts_of items) = Some d
                             /\ Selection.objects rs !! a = Some d
            | None =>
                (length ids <= a)%nat
                /\ Backlog.find_last (dict_get "id" VNone s)
                     (Loading.dicts_of items) = None
                /\ Selection.objects rs !! a
                   = Some (Loading.fresh_record (dict_get "id" VNone s) s)
            end) as Hentry.
  { intros s a [_ Ha].
    pose proof (address_of_spec (dict_get "id" VNone s) ids 0) as Hs.
    destruct (Loading.address_of (dict_get "id" VNone s) ids 0) as [a'|].
    - subst a'. destruct Hs as (i & -> & Hi & [d Hd]). rewrite Hd in Hi.
      pose proof (lookup_lt_Some _ _ _ Hi) as Hlt. rewrite length_map in Hlt.
      split_and!; [done|simpl; lia|]. exists d. rewrite <- Hget.
      split; [done|]. rewrite Hobj. simpl. by apply lookup_app_l_Some.
    - destruct Ha as [Hge Ha]. rewrite <- Hget. done. }
  split_and!.
  - unfold Selection.view.
    change (map (fun a => Selection.objects rs !!! a) (Selection.listed rs))
      with ((fun a => Selection.objects rs !!! a) <$> Selection.listed rs).
    apply Forall2_fmap_r. eapply Forall2_impl; [exact Hall|].
    intros s a Hsa. apply Hentry in Hsa. unfold Loading.listed_for.
    destruct (Loading.address_of (dict_get "id" VNone s) ids 0).
    + destruct Hsa as (_ & _ & d & -> & Hd). by apply list_lookup_total_correct.
    + destruct Hsa as (_ & -> & Hd). by apply list_lookup_total_correct.
  - clear -Hall. induction Hall as [|? ? ? ? [? _]]; constructor; done.
  - intros i j s t a b Hij Hs Ht Ha Hb.
    pose proof (Forall2_lookup_lr _ _ _ _ _ _ Hall Hs Ha) as Hsa.
    pose proof (Forall2_lookup_lr _ _ _ _ _ _ Hall Ht Hb) as Htb.
    apply Hentry in Hsa. apply Hentry in Htb.
    destruct (Loading.address_of (dict_get "id" VNone s) ids 0) as [a'|] eqn:Es;
      destruct (Loading.address_of (dict_get "id" VNone t) ids 0) as [b'|] eqn:Et.
    + destruct Hsa as (-> & _ & d & Hd & _). destruct Htb as (-> & _).
      split.
      * intros ->. split; [by eapply address_of_inj|by eexists].
      * intros [Hk _]. rewrite (address_of_congr _ _ _ _ Hk) in Es. congruence.
    + destruct Hsa as (-> & Hlt & _). destruct Htb as (Hge & _).
      split; [lia|]. intros [Hk _].
      rewrite (address_of_congr _ _ _ _ Hk) in Es. congruence.
    + destruct Hsa as (Hge & Hnone & _). destruct Htb as (-> & Hlt & _).
      split; [lia|]. intros [_ [d Hd]]. congruence.
    + destruct Hsa as (Hge & Hnone & _). split.
      * intros ->. exfalso. apply Hij. by eapply Hfresh.
      * intros [_ [d Hd]]. congruence.
Qed.

Lemma load_or_rebuild_state_merges_records_witness :
  exists rs,
    Loading.merged_records Loading.example_items Loading.example_stories = Ret rs
    /\ Forall2 (Loading.listed_for Loading.example_items)
         (List.filter Loading.has_truthy_id Loading.example_stories)
         (Selection.view rs)
    /\ Forall (fun a => (a < length (Selection.objects rs))%nat) (Selection.listed rs)
    /\ (forall i j s t a b,
          i <> j ->
          List.filter Loading.has_truthy_id Loading.example_stories !! i = Some s ->
          List.filter Loading.has_truthy_id Loading.example_stories !! j = Some t ->
          Selection.listed rs !! i = Some a ->
          Selection.listed rs !! j = Some b ->
          (a = b <->
           key_eqb (dict_get "id" VNone s) (dict_get "id" VNone t) = true
           /\ is_Some (Backlog.find_last (dict_get "id" VNone s)
                         (Loading.dicts_of Loading.example_items)))).
Proof.
  eexists. split; [vm_compute; reflexivity|].
  apply (load_or_rebuild_state_merges_records
           Loading.example_items Loading.example_stories).
  vm_compute. reflexivity.
Defined.

(** The merge of the example: the two files of B share the record of
    the state, which stays [done]; C gets a record of its own; the
    record of the story that has left is not listed. *)
Lemma merged_records_example :
  (rs ← Loading.merged_records Loading.example_items Loading.example_stories;
   Ret (Selection.listed rs,
        map (fun r => (dict_get "id" VNone r, dict_get "status" VNone r))
          (Selection.view rs)))
  = Ret ([1; 3; 1; 0]%nat,
         [ (VStr "B", VStr "done"); (VStr "C", VStr "blocked");
           (VStr "B", VStr "done"); (VStr "A", VStr "in_progress") ]).
Proof. vm_compute. reflexivity. Qed.

Lemma any_done_true last_story records :
  Loading.any_done last_story records = Ret true ->
  exists st sid,
    st ∈ records /\ dict_lookup "id" st = Some sid
    /\ py_eq sid last_story = true
    /\ dict_lookup "status" st = Some (VStr "done").
Proof.
  induction records as [|st records IH]; simpl; intros H; [done|].
  apply bind_Ret_inv in H as (sid & Hsid & H). unfold dict_item in Hsid.
  destruct (dict_lookup "id" st) as [sid'|] eqn:Eid; [|done]. injection Hsid as ->.
  destruct (py_eq sid last_story) eqn:Eq; simpl in H.
  - destruct (eq_str (dict_get "status" VNone st) "done") eqn:Es.
    + exists st, sid. split_and!; [left|done|done|].
      apply eq_str_true in Es. unfold dict_get in Es.
      by destruct (dict_lookup "status" st) as [v|]; [subst|].
    + destruct (IH H) as (st' & sid' & ? & ?). exists st', sid'. split; [by right|done].
  - destruct (IH H) as (st' & sid' & ? & ?). exists st', sid'. split; [by right|done].
Qed.

Lemma any_done_complete last_story records st sid found :
  Loading.any_done last_story records = Ret found ->
  st ∈ records -> dict_lookup "id" st = Some sid ->
  py_eq sid last_story = true ->
  dict_lookup "status" st = Some (VStr "done") ->
  found = true.
Proof.
  intros H Hin Hid Heq Hst. induction records as [|st' records IH]; simpl in H.
  - by apply elem_of_nil in Hin.
  - apply bind_Ret_inv in H as (sid' & Hsid & H). unfold dict_item in Hsid.
    destruct (dict_lookup "id" st') as [sid''|] eqn:Eid; [|done]. injection Hsid as ->.
    apply elem_of_cons in Hin as [<-|Hin].
    + rewrite Hid in Eid. injection Eid as <-. rewrite Heq in H. unfold dict_get in H.
      rewrite Hst in H. simpl in H. congruence.
    + destruct (py_eq sid' last_story && eq_str (dict_get "status" VNone st') "done");
        [congruence|by apply IH].
Qed.

Lemma protected_artifacts_spec arts records protected added :
  Loading.protected_artifacts arts records protected = Ret added ->
  forall p, p ∈ added <->
    p ∈ protected
    \/ exists art, VDict art ∈ arts /\ Loading.touched_by_done records art p.
Proof.
  revert protected. induction arts as [|art arts IH]; intros protected H p.
  - simpl in H. injection H as <-. split; [by left|].
    intros [?|(art & Hart & _)]; [done|by apply elem_of_nil in Hart].
  - cbn [Loading.protected_artifacts] in H.
    destruct art as [| | | | |art]; try done.
    assert (forall q,
              (q ∈ protected \/ exists a, VDict a ∈ arts
                                  /\ Loading.touched_by_done records a q)
              -> q ∈ protected
                 \/ exists a, VDict a ∈ VDict art :: arts
                              /\ Loading.touched_by_done records a q) as Hweak.
    { intros q [?|(a & Ha & Hq)]; [by left|right]. exists a. split; [by right|done]. }
    assert (forall (P : Prop),
              (Loading.touched_by_done records art p -> P) ->
              (p ∈ protected
               \/ exists a, VDict a ∈ VDict art :: arts
                            /\ Loading.touched_by_done records a p) ->
              P \/ (p ∈ protected
                    \/ exists a, VDict a ∈ arts
                                 /\ Loading.touched_by_done records a p)) as Hcase.
    { intros P HP [?|(a & Ha & Hq)]; [by right; left|].
      apply elem_of_cons in Ha as [[= ->]|Ha]; [left; by apply HP|].
      right; right. by exists a. }
    destruct (truthy (dict_get "last_story" VNone art)) eqn:Et.
    2: { rewrite (IH _ H p). split; [apply Hweak|]. intros Hp.
         apply (Hcase False) in Hp as [[]|Hp]; [done|].
         intros (last & st & sid & Hl & Hlt & _). unfold dict_get in Et.
         rewrite Hl in Et. congruence. }
    apply bind_Ret_inv in H as (last & Hlast & H). unfold dict_item in Hlast.
    destruct (dict_lookup "last_story" art) as [last'|] eqn:El; [|done].
    injection Hlast as ->.
    apply bind_Ret_inv in H as (found & Hfound & H).
    destruct found.
    + apply bind_Ret_inv in H as (q & Hq & H). unfold dict_item in Hq.
      destruct (dict_lookup "path" art) as [q'|] eqn:Ep; [|done]. injection Hq as ->.
      destruct (hashable q); [|done]. rewrite (IH _ H p). split.
      * intros [Hp|Hp]; [|by apply Hweak; right].
        apply elem_of_app in Hp as [Hp|Hp]; [by left|].
        apply list_elem_of_singleton in Hp as ->. right. exists art. split; [left|].
        apply any_done_true in Hfound as (st & sid & ? & ? & ? & ?).
        exists last, st, sid. unfold dict_get in Et. rewrite El in Et. done.
      * intros Hp. apply (Hcase (p = q)) in Hp as [->|[Hp|Hp]].
        -- left. apply elem_of_app. right. by left.
        -- left. apply elem_of_app. by left.
        -- by right.
        -- intros (last0 & st & sid & Hl & _ & _ & _ & _ & _ & Hpath). congruence.
    + rewrite (IH _ H p). split; [apply Hweak|]. intros Hp.
      apply (Hcase False) in Hp as [[]|Hp]; [done|].
      intros (last0 & st & sid & Hl & _ & Hin & Hid & Heq & Hst & _).
      rewrite El in Hl. injection Hl as <-.
      by pose proof (any_done_complete _ _ _ _ _ Hfound Hin Hid Heq Hst).
Qed.

Lemma strs_spec members l :
  Loading.strs members = Ret l -> members = map VStr l.
Proof.
  revert l. induction members as [|v members IH]; simpl; intros l H.
  - by injection H as <-.
  - destruct v; try done. apply bind_Ret_inv in H as (tl & Htl & H).
    injection H as <-. simpl. by rewrite (IH _ Htl).
Qed.

(** X19.  The protected zone [load_or_rebuild_state] assembles is
    strictly ascending, so it lists no path twice, and holds exactly:
    the fourteen infrastructure hints; the paths of the zone the state
    held, each in its sanitized form; and the path of every artifact
    whose [last_story] is the id of a record that is [done].  So a hint
    is protected in every state, and a saved path that starts with a dot
    or a slash comes back without them. *)
Theorem load_or_rebuild_state_protected_zone
    (state : dict) (records : list dict) (paths : list string) :
  Loading.protected_zone state records = Ret paths ->
  exists zone saved arts,
    dict_get "protected_zone" (VDict []) state = VDict zone
    /\ Orchestrator.sanitize_paths (dict_get "paths" (VList []) zone) = Ret saved
    /\ iterate (dict_get "artifacts_manifest" (VList []) state) = Ret arts
    /\ StronglySorted str_lt paths
    /\ (forall p, p ∈ paths <->
          p ∈ Zone.PROTECTED_INFRA_HINTS
          \/ p ∈ saved
          \/ exists art, VDict art ∈ arts
                         /\ Loading.touched_by_done records art (VStr p))
    /\ Forall (fun p => Orchestrator.sanitize_path p = p) saved.
Proof.
  unfold Loading.protected_zone. intros H.
  apply bind_Ret_inv in H as (zone & Hzone & H).
  apply bind_Ret_inv in H as (saved & Hsaved & H).
  apply bind_Ret_inv in H as (arts & Harts & H).
  apply bind_Ret_inv in H as (added & Hadded & H).
  apply bind_Ret_inv in H as (l & Hl & H). injection H as <-.
  exists zone, saved, arts.
  assert (dict_get "protected_zone" (VDict []) state = VDict zone) as ->.
  { destruct (dict_get "protected_zone" (VDict []) state); try done. by injection Hzone as ->. }
  split_and!; [done..| | |by eapply sanitize_paths_sanitized].
  - apply sorted_str_strict, NoDup_elements.
  - intros p. rewrite sorted_str_Permutation, elem_of_elements, elem_of_list_to_set.
    rewrite !elem_of_app.
    apply strs_spec in Hl. subst added.
    pose proof (protected_artifacts_spec _ _ _ _ Hadded (VStr p)) as Hp.
    assert (p ∈ l <-> VStr p ∈ map VStr l) as Hmap.
    { change (map VStr l) with (VStr <$> l). rewrite list_elem_of_fmap. split.
      - intros ?. by exists p.
      - intros (q & [= ->] & ?). done. }
    rewrite Hmap, Hp.
    change (map (replace_char backslash slash) Zone.PROTECTED_INFRA_HINTS)
      with Zone.PROTECTED_INFRA_HINTS.
    split.
    + intros [?|[[Hn|?]|?]]; [by right; left| |by right; right|by left].
      by apply elem_of_nil in Hn.
    + intros [?|[?|?]]; [by right; right|by left|by right; left; right].
Qed.

Lemma load_or_rebuild_state_protected_zone_witness :
  exists paths,
    Loading.protected_zone Loading.example_state
      [Selection.record_A;
       [("id", VStr "B"); ("status", VStr "done"); ("attempts", VInt 2)]]
    = Ret paths
    /\ exists zone saved arts,
         dict_get "protected_zone" (VDict []) Loading.example_state = VDict zone
         /\ Orchestrator.sanitize_paths (dict_get "paths" (VList []) zone) = Ret saved
         /\ iterate (dict_get "artifacts_manifest" (VList []) Loading.example_state)
            = Ret arts
         /\ StronglySorted str_lt paths
         /\ (forall p, p ∈ paths <->
               p ∈ Zone.PROTECTED_INFRA_HINTS
               \/ p ∈ saved
               \/ exists art,
                    VDict art ∈ arts
                    /\ Loading.touched_by_done
                         [Selection.record_A;
                          [("id", VStr "B"); ("status", VStr "done");
                           ("attempts", VInt 2)]]
                         art (VStr p))
         /\ Forall (fun p => Orchestrator.sanitize_path p = p) saved.
Proof.
  eexists. split; [vm_compute; reflexivity|].
  eapply (load_or_rebuild_state_protected_zone Loading.example_state).
  vm_compute. reflexivity.
Defined.

Lemma merge_nil stories rs0 :
  Forall (fun s => Loading.has_truthy_id s = true ->
                   hashable (dict_get "id" VNone s) = true) stories ->
  Loading.merge [] stories rs0
  = Ret {| Selection.objects :=
             Selection.objects rs0
             ++ map (fun s => Loading.fresh_record (dict_get "id" VNone s) s)
                  (List.filter Loading.has_truthy_id stories);
           Selection.listed :=
             Selection.listed rs0
             ++ seq (length (Selection.objects rs0))
                  (length (List.filter Loading.has_truthy_id stories)) |}.
Proof.
  intros H. revert rs0. induction H as [|s stories Hs _ IH]; intros rs0.
  - simpl. rewrite !app_nil_r. by destruct rs0.
  - cbn [Loading.merge List.filter]. unfold Loading.has_truthy_id in *.
    destruct (truthy (dict_get "id" VNone s)); simpl.
    + rewrite (Hs eq_refl). simpl. rewrite IH. simpl.
      rewrite length_app, <- !app_assoc. simpl. by rewrite Nat.add_1_r.
    + apply IH.
Qed.

Lemma view_seq (before l : list dict) :
  map (fun a => (before ++ l) !!! a) (seq (length before) (length l)) = l.
Proof.
  revert before. induction l as [|x l IH]; intros before; simpl; [done|].
  rewrite list_lookup_total_middle by done. f_equal.
  specialize (IH (before ++ [x])). rewrite length_app, <- app_assoc in IH.
  simpl in IH. by rewrite Nat.add_1_r in IH.
Qed.

Lemma protected_artifacts_untouched (files : list (string * string)) records protected :
  Loading.protected_artifacts
    (map (fun f => VDict [ ("path", VStr (replace_char backslash slash (fst f)));
                           ("checksum", VStr (snd f));
                           ("last_story", VNone) ]) files)
    records protected
  = Ret protected.
Proof. induction files as [|f files IH]; simpl; [done|]. apply IH. Qed.

(** X20.  [load_or_rebuild_state] without a usable state file.  When
    there is no state file, or reading or decoding it fails, the state
    is rebuilt: every story with an id gets a record of its own, made
    from the story; the manifest lists the files found, none of them
    tied to a story; and the protected zone is the fourteen hints in
    ascending order and nothing else.  A state file that decodes to
    something other than an object is not rebuilt: the call raises
    [AttributeError].  A state file that decodes to an object is taken
    as it is: every key but [stories] and [protected_zone] is returned
    untouched, and a key the file lacks is not added. *)
Theorem load_or_rebuild_state_rebuilds
    (json_loads : string -> result value)
    (yaml : option (string -> result value))
    (e : Loading.surroundings) (backlog : list (string * result string))
    (state_file : option (result string)) (stories : list dict) :
  Loading.parse_stories json_loads yaml backlog = Ret stories ->
  Forall (fun s => Loading.has_truthy_id s = true ->
                   hashable (dict_get "id" VNone s) = true) stories ->
  ((state_file = None
    \/ exists read err, state_file = Some read
                        /\ Loading.load_json json_loads read = Raise err) ->
   exists l,
     Loading.load_or_rebuild_state json_loads yaml e (Ret tt) backlog state_file
     = Ret l
     /\ Loading.stories l = stories
     /\ Loading.story_paths l = map fst backlog
     /\ Selection.view (Loading.records l)
        = map (fun s => Loading.fresh_record (dict_get "id" VNone s) s)
            (List.filter Loading.has_truthy_id stories)
     /\ NoDup (Selection.listed (Loading.records l))
     /\ dict_lookup "stories" (Loading.state l)
        = Some (VList (map VDict (Selection.view (Loading.records l))))
     /\ dict_lookup "artifacts_manifest" (Loading.state l)
        = Some (VList (Loading.compute_artifacts_manifest e))
     /\ dict_lookup "protected_zone" (Loading.state l)
        = Some (VDict [("paths",
                        VList (map VStr (sorted_str Zone.PROTECTED_INFRA_HINTS)))])
     /\ dict_lookup "resume_token" (Loading.state l)
        = Some (VStr (Loading.uuid4 e)))
  /\ (forall read v,
        state_file = Some read ->
        Loading.load_json json_loads read = Ret v ->
        (forall d, v <> VDict d) ->
        Loading.load_or_rebuild_state json_loads yaml e (Ret tt) backlog state_file
        = Raise AttributeError)
  /\ (forall read st l k,
        state_file = Some read ->
        Loading.load_json json_loads read = Ret (VDict st) ->
        Loading.load_or_rebuild_state json_loads yaml e (Ret tt) backlog state_file
        = Ret l ->
        k <> "stories" -> k <> "protected_zone" ->
        dict_lookup k (Loading.state l) = dict_lookup k st).
Proof.
  intros Hparse Hhash. split_and!.
  - intros Hfile.
    assert (match state_file with
            | Some read => try_except (Loading.load_json json_loads read)
                             (Loading.rebuilt_state e)
            | None => Loading.rebuilt_state e
            end = Loading.rebuilt_state e) as Hstate.
    { destruct Hfile as [->|(read & err & -> & Herr)]; [done|]. by rewrite Herr. }
    unfold Loading.load_or_rebuild_state. cbn [mbind result_bind Py.bind].
    rewrite Hparse. cbn [mbind result_bind Py.bind]. rewrite Hstate.
    unfold Loading.rebuilt_state, Loading.default_state.
    cbn [dict_set dict_get dict_lookup String.eqb Ascii.eqb Bool.eqb iterate
         mbind result_bind Py.bind].
    unfold Loading.merged_records.
    cbn [Loading.state_ids_from mbind result_bind Py.bind map].
    rewrite (merge_nil stories _ Hhash). cbn [mbind result_bind Py.bind].
    cbn [Selection.objects Selection.listed app length].
    unfold Loading.protected_zone.
    cbn [dict_set dict_get dict_lookup String.eqb Ascii.eqb Bool.eqb iterate
         mbind result_bind Py.bind Orchestrator.sanitize_paths
         Orchestrator.sanitize_items].
    unfold Loading.compute_artifacts_manifest.
    rewrite protected_artifacts_untouched.
    cbn [mbind result_bind Py.bind Loading.strs app].
    assert (sorted_str (elements (list_to_set
              (map (replace_char backslash slash) Zone.PROTECTED_INFRA_HINTS)
              : gset string))
            = sorted_str Zone.PROTECTED_INFRA_HINTS) as ->.
    { apply sorted_str_order_independent.
      change (map (replace_char backslash slash) Zone.PROTECTED_INFRA_HINTS)
        with Zone.PROTECTED_INFRA_HINTS.
      apply elements_list_to_set. apply (bool_decide_unpack _). vm_compute. exact I. }
    eexists. split; [reflexivity|].
    cbn [Loading.stories Loading.story_paths Loading.records Loading.state
         Selection.view Selection.objects Selection.listed].
    pose proof (view_seq [] (map (fun s => Loading.fresh_record (dict_get "id" VNone s) s)
                               (List.filter Loading.has_truthy_id stories))) as Hview.
    simpl in Hview. rewrite length_map in Hview.
    split_and!; [done|done|exact Hview|apply NoDup_ListNoDup, seq_NoDup|done..].
  - intros read v -> Hv Hnot.
    unfold Loading.load_or_rebuild_state. cbn [mbind result_bind Py.bind].
    rewrite Hparse, Hv. cbn [mbind result_bind Py.bind try_except].
    destruct v; try done. by destruct (Hnot d).
  - intros read st l k -> Hv H Hk1 Hk2.
    unfold Loading.load_or_rebuild_state in H. cbn [mbind result_bind Py.bind] in H.
    rewrite Hparse, Hv in H. cbn [mbind result_bind Py.bind try_except] in H.
    apply bind_Ret_inv in H as (items & _ & H).
    apply bind_Ret_inv in H as (results & _ & H).
    apply bind_Ret_inv in H as (paths & _ & H).
    injection H as <-. cbn [Loading.state].
    rewrite !dict_lookup_set_ne by done. done.
Qed.

Lemma load_or_rebuild_state_rebuilds_witness :
  exists stories,
    Loading.parse_stories Json.loads None Loading.example_backlog = Ret stories
    /\ ((@None (result string) = None
         \/ exists read err, None = Some read
                             /\ Loading.load_json Json.loads read = Raise err) ->
        exists l,
          Loading.load_or_rebuild_state Json.loads None
            Loading.example_surroundings (Ret tt) Loading.example_backlog None
          = Ret l
          /\ Loading.stories l = stories
          /\ Loading.story_paths l = map fst Loading.example_backlog
          /\ Selection.view (Loading.records l)
             = map (fun s => Loading.fresh_record (dict_get "id" VNone s) s)
                 (List.filter Loading.has_truthy_id stories)
          /\ NoDup (Selection.listed (Loading.records l))
          /\ dict_lookup "stories" (Loading.state l)
             = Some (VList (map VDict (Selection.view (Loading.records l))))
          /\ dict_lookup "artifacts_manifest" (Loading.state l)
             = Some (VList (Loading.compute_artifacts_manifest
                              Loading.example_surroundings))
          /\ dict_lookup "protected_zone" (Loading.state l)
             = Some (VDict [("paths",
                             VList (map VStr (sorted_str Zone.PROTECTED_INFRA_HINTS)))])
          /\ dict_lookup "resume_token" (Loading.state l)
             = Some (VStr (Loading.uuid4 Loading.example_surroundings)))
    /\ (forall read v,
          None = Some read ->
          Loading.load_json Json.loads read = Ret v ->
          (forall d, v <> VDict d) ->
          Loading.load_or_rebuild_state Json.loads None
            Loading.example_surroundings (Ret tt) Loading.example_backlog None
          = Raise AttributeError)
    /\ (forall read st l k,
          None = Some read ->
          Loading.load_json Json.loads read = Ret (VDict st) ->
          Loading.load_or_rebuild_state Json.loads None
            Loading.example_surroundings (Ret tt) Loading.example_backlog None
          = Ret l ->
          k <> "stories" -> k <> "protected_zone" ->
          dict_lookup k (Loading.state l) = dict_lookup k st).
Proof.
  eexists. split; [vm_compute; reflexivity|].
  apply (load_or_rebuild_state_rebuilds Json.loads None
           Loading.example_surroundings Loading.example_backlog None).
  - vm_compute. reflexivity.
  - repeat (constructor; [intros _; vm_compute; reflexivity|]). constructor.
Defined.

(** The backlog of the example gives one story: the file that does not
    decode and the file that cannot be read are passed over, and so is
    the YAML story, for want of a YAML reader, which is reported. *)
Lemma load_or_rebuild_state_example :
  (l ← Loading.load_or_rebuild_state Json.loads None
         Loading.example_surroundings (Ret tt) Loading.example_backlog None;
   Ret (map (dict_get "id" VNone) (Loading.stories l),
        map (dict_get "_source_file" VNone) (Loading.stories l),
        map (dict_get "status" VNone) (Selection.view (Loading.records l)),
        Loading.missing l))
  = Ret ([VStr "B"], [VStr "backlog/b.json"], [VStr "blocked"], ["pyyaml"]).
Proof. vm_compute. reflexivity. Qed.

(** ** The override files *)

Lemma add_override_get json_loads read overrides k :
  Loading.map_get k
    (try_except (Overrides.add_override json_loads read overrides) overrides)
  = match Overrides.last_filed k (Overrides.objects_of json_loads [read]) with
    | Some d => Some d
    | None => Loading.map_get k overrides
    end.
Proof.
  unfold Overrides.add_override, Overrides.objects_of. cbn [omap list_omap].
  destruct (Loading.load_json json_loads read) as [obj|e]; simpl; [|done].
  destruct obj as [|b|n|t|l|d]; simpl; try done.
  - by destruct (contains "story_id" t).
  - by destruct (existsb _ l).
  - unfold dict_has, dict_item, Overrides.filed_for.
    destruct (dict_lookup "story_id" d) as [k0|] eqn:Ek; simpl; [|done].
    destruct (hashable k0) eqn:Eh; simpl.
    + rewrite map_get_set. by destruct (key_eqb k k0).
    + destruct (key_eqb k k0) eqn:E; [|done].
      rewrite key_eqb_sym in E. apply key_eqb_hashable in E. congruence.
Qed.

Lemma last_filed_app k before after :
  Overrides.last_filed k (before ++ after)
  = match Overrides.last_filed k after with
    | Some d => Some d
    | None => Overrides.last_filed k before
    end.
Proof.
  induction before as [|d before IH]; simpl.
  - by destruct (Overrides.last_filed k after).
  - rewrite IH. by destruct (Overrides.last_filed k after).
Qed.

Lemma list_overrides_get json_loads files overrides k :
  Loading.map_get k
    (fold_left
       (fun overrides read =>
          try_except (Overrides.add_override json_loads read overrides) overrides)
       files overrides)
  = match Overrides.last_filed k (Overrides.objects_of json_loads files) with
    | Some d => Some d
    | None => Loading.map_get k overrides
    end.
Proof.
  revert overrides. induction files as [|read files IH]; intros overrides; [done|].
  cbn [fold_left]. rewrite IH, add_override_get.
  change (read :: files) with ([read] ++ files).
  unfold Overrides.objects_of. rewrite omap_app.
  fold (Overrides.objects_of json_loads files).
  fold (Overrides.objects_of json_loads [read]).
  rewrite last_filed_app.
  by destruct (Overrides.last_filed k (Overrides.objects_of json_loads files)).
Qed.

(** X21.  [list_overrides] keeps, for every story id, the last file of
    the listing that decodes to an object filed for that id; an earlier
    override for the same story is replaced as a whole, its paths are
    not added.  A file that cannot be read, does not decode, holds
    something other than an object, or names no story (or one that
    cannot be hashed) is passed over and is no error.  Every entry of
    the result is an object filed under its own [story_id]. *)
Theorem list_overrides_keeps_last_override
    (json_loads : string -> result value) (files : list (result string)) :
  (forall k,
     Loading.map_get k (Overrides.list_overrides json_loads files)
     = Overrides.last_filed k (Overrides.objects_of json_loads files))
  /\ Forall (fun entry => hashable (fst entry) = true
                          /\ Overrides.filed_for (fst entry) (snd entry) = true
                          /\ snd entry ∈ Overrides.objects_of json_loads files)
       (Overrides.list_overrides json_loads files).
Proof.
  split.
  - intros k. unfold Overrides.list_overrides. rewrite list_overrides_get. simpl.
    by destruct (Overrides.last_filed k (Overrides.objects_of json_loads files)).
  - unfold Overrides.list_overrides.
    assert (forall seen overrides,
              Forall (fun entry => hashable (fst entry) = true
                        /\ Overrides.filed_for (fst entry) (snd entry) = true
                        /\ snd entry ∈ Overrides.objects_of json_loads (seen ++ files))
                overrides ->
              Forall (fun entry => hashable (fst entry) = true
                        /\ Overrides.filed_for (fst entry) (snd entry) = true
                        /\ snd entry ∈ Overrides.objects_of json_loads (seen ++ files))
                (fold_left
                   (fun overrides read =>
                      try_except (Overrides.add_override json_loads read overrides)
                        overrides)
                   files overrides)) as Hfold.
    { induction files as [|read files IH]; intros seen overrides Hov; [done|].
      cbn [fold_left].
      replace (seen ++ read :: files) with ((seen ++ [read]) ++ files) in *
        by by rewrite <- app_assoc.
      apply IH.
      unfold Overrides.add_override.
      destruct (Loading.load_json json_loads read) as [obj|e] eqn:Eload; simpl; [|done].
      destruct obj as [|b|n|t|l|d]; simpl; try done.
      - by destruct (contains "story_id" t).
      - by destruct (existsb _ l).
      - unfold dict_has, dict_item.
        destruct (dict_lookup "story_id" d) as [k0|] eqn:Ek; simpl; [|done].
        destruct (hashable k0) eqn:Eh; simpl; [|done].
        assert (d ∈ Overrides.objects_of json_loads ((seen ++ [read]) ++ files)) as Hd.
        { unfold Overrides.objects_of. rewrite !omap_app. apply elem_of_app. left.
          apply elem_of_app. right. cbn [omap list_omap]. rewrite Eload. by left. }
        apply map_set_Forall; [| |done]; simpl.
        + intros k' Hk'. split_and!; [|unfold Overrides.filed_for; rewrite Ek|done].
          * rewrite key_eqb_sym in Hk'. by apply key_eqb_hashable in Hk'.
          * by rewrite key_eqb_sym.
        + split_and!; [done| |done]. unfold Overrides.filed_for. rewrite Ek.
          by apply key_eqb_refl. }
    apply (Hfold [] []). constructor.
Qed.

(** Of the two overrides filed for S1 only the second is in force: the
    paths of the first are lost. *)
Lemma list_overrides_example :
  Loading.map_get (VStr "S1") (Overrides.list_overrides Json.loads Overrides.example_files)
  = Some [ ("story_id", VStr "S1"); ("allow_paths", VList [VStr "app/models/"]) ]
  /\ length (Overrides.list_overrides Json.loads Overrides.example_files) = 1%nat.
Proof. vm_compute. done. Qed.

(** ** The package markers of the fix gate *)

Lemma replace_char_app a b s t :
  replace_char a b (s +:+ t) = replace_char a b s +:+ replace_char a b t.
Proof.
  induction s as [|c s IH]; [done|].
  rewrite string_app_cons. simpl. by rewrite IH, string_app_cons.
Qed.

Lemma init_path_normal path :
  replace_char backslash slash (path +:+ "/" +:+ "__init__.py")
  = replace_char backslash slash path +:+ "/__init__.py".
Proof. by rewrite replace_char_app. Qed.

Lemma endswith_app suffix s : endswith suffix (s +:+ suffix) = true.
Proof.
  unfold endswith. rewrite rev_string_app.
  apply (proj2 (startswith_app _ _)). by eexists.
Qed.

Lemma apply_below_name dry prefix n :
  FixGate.node_name (snd (FixGate.apply_below dry prefix n)) = FixGate.node_name n
  /\ State.is_file (snd (FixGate.apply_below dry prefix n)) = State.is_file n.
Proof.
  destruct n as [name content|name entries]; simpl; [done|].
  by destruct (if FixGate.has_py entries
               then FixGate.ensure_init_py (prefix +:+ name) entries dry
               else (None, [])).
Qed.

Lemma apply_below_file dry prefix n :
  State.is_file n = true -> snd (FixGate.apply_below dry prefix n) = n.
Proof. by destruct n. Qed.

Lemma has_py_apply_below dry prefix entries :
  FixGate.has_py (map snd (map (FixGate.apply_below dry prefix) entries))
  = FixGate.has_py entries.
Proof.
  unfold FixGate.has_py. induction entries as [|n entries IH]; simpl; [done|].
  rewrite IH. f_equal. destruct n as [name content|name sub]; simpl; [done|].
  by destruct (if FixGate.has_py sub
               then FixGate.ensure_init_py (prefix +:+ name) sub dry
               else (None, [])).
Qed.

Lemma exists_in_apply_below dry prefix name entries :
  FixGate.exists_in name (map snd (map (FixGate.apply_below dry prefix) entries))
  = FixGate.exists_in name entries.
Proof.
  unfold FixGate.exists_in. induction entries as [|n entries IH]; simpl; [done|].
  by rewrite IH, (proj1 (apply_below_name dry prefix n)).
Qed.

Lemma has_py_app a b : FixGate.has_py (a ++ b) = FixGate.has_py a || FixGate.has_py b.
Proof. apply existsb_app. Qed.

Lemma exists_in_app name a b :
  FixGate.exists_in name (a ++ b) = FixGate.exists_in name a || FixGate.exists_in name b.
Proof. apply existsb_app. Qed.

(** What the walk appends to [touched]: the marker of every directory
    that holds a [.py] file and no [__init__.py], in the order of the
    walk. *)
Lemma apply_below_touched dry n :
  forall prefix,
    fst (FixGate.apply_below dry prefix n)
    = map (fun d => replace_char backslash slash (fst d) +:+ "/__init__.py")
        (List.filter
           (fun d => FixGate.has_py (snd d)
                     && negb (FixGate.exists_in "__init__.py" (snd d)))
           (FixGate.walk_dirs prefix n)).
Proof.
  induction n as [name content|name entries IH] using node_induction;
    intros prefix; [done|].
  cbn [FixGate.apply_below FixGate.walk_dirs List.filter fst snd].
  assert (flat_map fst (map (FixGate.apply_below dry (prefix +:+ name +:+ "/")) entries)
          = map (fun d => replace_char backslash slash (fst d) +:+ "/__init__.py")
              (List.filter
                 (fun d => FixGate.has_py (snd d)
                           && negb (FixGate.exists_in "__init__.py" (snd d)))
                 (flat_map (FixGate.walk_dirs (prefix +:+ name +:+ "/")) entries)))
    as Hbelow.
  { induction IH as [|n entries Hn _ IHe]; simpl; [done|].
    by rewrite List.filter_app, map_app, Hn, IHe. }
  unfold FixGate.ensure_init_py.
  destruct (FixGate.has_py entries);
    [destruct (FixGate.exists_in "__init__.py" entries)|];
    cbn [negb andb fst snd app map]; rewrite Hbelow; [done| |done].
  by rewrite <- init_path_normal.
Qed.

Lemma apply_below_dry n : forall prefix, snd (FixGate.apply_below true prefix n) = n.
Proof.
  induction n as [name content|name entries IH] using node_induction;
    intros prefix; [done|].
  cbn [FixGate.apply_below]. unfold FixGate.ensure_init_py.
  assert (map snd (map (FixGate.apply_below true (prefix +:+ name +:+ "/")) entries)
          = entries) as Hbelow.
  { induction IH as [|n entries Hn _ IHe]; simpl; [done|]. by rewrite Hn, IHe. }
  destruct (FixGate.has_py entries);
    [destruct (negb (FixGate.exists_in "__init__.py" entries))|];
    simpl; by rewrite Hbelow, app_nil_r.
Qed.

(** After a run that writes, no directory of the walk lacks its
    marker. *)
Lemma apply_below_complete n :
  forall prefix,
    List.filter
      (fun d => FixGate.has_py (snd d)
                && negb (FixGate.exists_in "__init__.py" (snd d)))
      (FixGate.walk_dirs prefix (snd (FixGate.apply_below false prefix n)))
    = [].
Proof.
  induction n as [name content|name entries IH] using node_induction;
    intros prefix; [done|].
  cbn [FixGate.apply_below]. unfold FixGate.ensure_init_py.
  set (below := map (FixGate.apply_below false (prefix +:+ name +:+ "/")) entries).
  assert (forall written,
            Forall (fun n => State.is_file n = true) written ->
            List.filter
              (fun d => FixGate.has_py (snd d)
                        && negb (FixGate.exists_in "__init__.py" (snd d)))
              (flat_map (FixGate.walk_dirs (prefix +:+ name +:+ "/"))
                 (map snd below ++ written))
            = []) as Hbelow.
  { intros written Hw. rewrite flat_map_app, List.filter_app.
    assert (flat_map (FixGate.walk_dirs (prefix +:+ name +:+ "/")) written = []) as ->.
    { induction Hw as [|w written Hw _ IHw]; simpl; [done|]. by destruct w. }
    rewrite app_nil_r. subst below.
    induction IH as [|n entries Hn _ IHe]; simpl; [done|].
    by rewrite List.filter_app, Hn, IHe. }
  destruct (FixGate.has_py entries) eqn:Epy;
    [destruct (FixGate.exists_in "__init__.py" entries) eqn:Ein|];
    cbn [negb fst snd FixGate.walk_dirs List.filter];
    rewrite ?app_nil_r.
  - subst below. rewrite has_py_apply_below, exists_in_apply_below, Epy, Ein. simpl.
    specialize (Hbelow []). rewrite app_nil_r in Hbelow. apply Hbelow. constructor.
  - rewrite has_py_app, exists_in_app. subst below.
    rewrite has_py_apply_below, exists_in_apply_below, Epy, Ein. simpl.
    apply Hbelow. by repeat constructor.
  - subst below. rewrite has_py_apply_below, Epy. simpl.
    specialize (Hbelow []). rewrite app_nil_r in Hbelow. apply Hbelow. constructor.
Qed.

(** A run adds no directory to those that hold a [.py] file and takes
    none away. *)
Lemma apply_below_packages dry n :
  forall prefix,
    map fst (List.filter (fun d => FixGate.has_py (snd d))
               (FixGate.walk_dirs prefix (snd (FixGate.apply_below dry prefix n))))
    = map fst (List.filter (fun d => FixGate.has_py (snd d))
                 (FixGate.walk_dirs prefix n)).
Proof.
  induction n as [name content|name entries IH] using node_induction;
    intros prefix; [done|].
  cbn [FixGate.apply_below]. unfold FixGate.ensure_init_py.
  set (below := map (FixGate.apply_below dry (prefix +:+ name +:+ "/")) entries).
  assert (forall written,
            Forall (fun n => State.is_file n = true) written ->
            map fst (List.filter (fun d => FixGate.has_py (snd d))
                       (flat_map (FixGate.walk_dirs (prefix +:+ name +:+ "/"))
                          (map snd below ++ written)))
            = map fst (List.filter (fun d => FixGate.has_py (snd d))
                         (flat_map (FixGate.walk_dirs (prefix +:+ name +:+ "/"))
                            entries))) as Hbelow.
  { intros written Hw. rewrite flat_map_app, List.filter_app, map_app.
    assert (flat_map (FixGate.walk_dirs (prefix +:+ name +:+ "/")) written = []) as ->.
    { induction Hw as [|w written Hw _ IHw]; simpl; [done|]. by destruct w. }
    simpl. rewrite app_nil_r. subst below.
    induction IH as [|n entries Hn _ IHe]; simpl; [done|].
    by rewrite !List.filter_app, !map_app, Hn, IHe. }
  assert (Forall (fun n => State.is_file n = true) []) as Hnil by constructor.
  pose proof (Hbelow [] Hnil) as Hnone. rewrite app_nil_r in Hnone.
  pose proof (Hbelow [State.File "__init__.py" (Ret FixGate.INIT_MARKER)]) as Hone.
  destruct (FixGate.has_py entries) eqn:Epy;
    [destruct (FixGate.exists_in "__init__.py" entries) eqn:Ein; [|destruct dry]|];
    cbn [negb fst snd FixGate.walk_dirs List.filter];
    rewrite ?has_py_app, ?app_nil_r; subst below;
    rewrite has_py_apply_below, Epy; cbn [orb map fst].
  - by rewrite Hnone.
  - by rewrite Hnone.
  - rewrite Hone; [done|]. by repeat constructor.
  - apply Hnone.
Qed.

Lemma isdir_Some base root n :
  FixGate.isdir base root = Some n ->
  FixGate.node_name n = base /\ State.is_file n = false.
Proof.
  unfold FixGate.isdir. intros H. apply find_some in H as [_ H].
  destruct n as [name content|name entries]; [done|].
  by apply String.eqb_eq in H.
Qed.

Lemma isdir_replace base b n' root n :
  FixGate.isdir base root = Some n ->
  FixGate.node_name n' = base -> State.is_file n' = false ->
  FixGate.isdir b (FixGate.replace_dir base n' root)
  = if String.eqb b base then Some n' else FixGate.isdir b root.
Proof.
  intros H Hname Hdir. unfold FixGate.isdir in *.
  induction root as [|m root IH]; [done|].
  destruct m as [name content|name entries]; cbn [find FixGate.replace_dir] in *.
  - by apply IH.
  - destruct (String.eqb name base) eqn:E.
    + apply String.eqb_eq in E as ->. cbn [find].
      destruct n' as [|name' entries']; [done|]. simpl in Hname. subst name'.
      rewrite (String.eqb_sym base b).
      by destruct (String.eqb b base).
    + cbn [find]. destruct (String.eqb name b) eqn:Eb.
      * apply String.eqb_eq in Eb as ->. rewrite E. done.
      * by apply IH.
Qed.

Lemma replace_dir_same base root n :
  FixGate.isdir base root = Some n -> FixGate.replace_dir base n root = root.
Proof.
  unfold FixGate.isdir. induction root as [|m root IH]; [done|].
  destruct m as [name content|name entries]; cbn [find FixGate.replace_dir].
  - intros H. by rewrite IH.
  - destruct (String.eqb name base); [by intros [= <-]|]. intros H. by rewrite IH.
Qed.

Lemma in_list_cons b base rest :
  State.in_list b (base :: rest) = String.eqb b base || State.in_list b rest.
Proof. done. Qed.

Lemma apply_fold dry bases acc :
  NoDup bases ->
  fst (fold_left
         (fun acc base =>
            match FixGate.isdir base (snd acc) with
            | Some n =>
                let r := FixGate.apply_below dry EmptyString n in
                (fst acc ++ fst r, FixGate.replace_dir base (snd r) (snd acc))
            | None => acc
            end) bases acc)
  = fst acc
    ++ flat_map (fun base =>
                   match FixGate.isdir base (snd acc) with
                   | Some n => fst (FixGate.apply_below dry EmptyString n)
                   | None => []
                   end) bases
  /\ forall b,
       FixGate.isdir b
         (snd (fold_left
                 (fun acc base =>
                    match FixGate.isdir base (snd acc) with
                    | Some n =>
                        let r := FixGate.apply_below dry EmptyString n in
                        (fst acc ++ fst r, FixGate.replace_dir base (snd r) (snd acc))
                    | None => acc
                    end) bases acc))
       = if State.in_list b bases
         then option_map (fun n => snd (FixGate.apply_below dry EmptyString n))
                (FixGate.isdir b (snd acc))
         else FixGate.isdir b (snd acc).
Proof.
  intros Hnd. revert acc. induction Hnd as [|base rest Hnotin Hnd IH]; intros acc.
  - simpl. by rewrite app_nil_r.
  - cbn [fold_left flat_map].
    assert (forall b, State.in_list b rest = true -> String.eqb b base = false) as Hne.
    { intros b Hb. apply in_list_elem_of in Hb. apply String.eqb_neq. by intros ->. }
    destruct (FixGate.isdir base (snd acc)) as [n|] eqn:En.
    + destruct (isdir_Some _ _ _ En) as [Hname Hdir].
      destruct (apply_below_name dry EmptyString n) as [Hname' Hdir'].
      rewrite Hname in Hname'. rewrite Hdir in Hdir'.
      assert (forall b,
                FixGate.isdir b
                  (FixGate.replace_dir base
                     (snd (FixGate.apply_below dry EmptyString n)) (snd acc))
                = if String.eqb b base
                  then Some (snd (FixGate.apply_below dry EmptyString n))
                  else FixGate.isdir b (snd acc)) as Hrep.
      { intros b. by eapply isdir_replace. }
      destruct (IH (fst acc ++ fst (FixGate.apply_below dry EmptyString n),
                    FixGate.replace_dir base
                      (snd (FixGate.apply_below dry EmptyString n)) (snd acc)))
        as [Hfst Hsnd].
      cbn [fst snd] in *. split.
      * rewrite Hfst, <- app_assoc. do 2 f_equal.
        apply flat_map_ext_Forall. apply Forall_forall. intros b Hb.
        rewrite Hrep, (Hne b); [done|]. by apply in_list_elem_of.
      * intros b. rewrite Hsnd, Hrep, in_list_cons.
        destruct (String.eqb b base) eqn:Eb.
        -- apply String.eqb_eq in Eb as ->.
           destruct (State.in_list base rest) eqn:Ein.
           ++ apply in_list_elem_of in Ein. done.
           ++ by rewrite En.
        -- done.
    + destruct (IH acc) as [Hfst Hsnd]. split; [done|].
      intros b. rewrite Hsnd, in_list_cons.
      destruct (String.eqb b base) eqn:Eb; [|done].
      apply String.eqb_eq in Eb as ->.
      destruct (State.in_list base rest) eqn:Ein.
      * apply in_list_elem_of in Ein. done.
      * by rewrite En.
Qed.

Lemma apply_fold_dry bases acc :
  snd (fold_left
         (fun acc base =>
            match FixGate.isdir base (snd acc) with
            | Some n =>
                let r := FixGate.apply_below true EmptyString n in
                (fst acc ++ fst r, FixGate.replace_dir base (snd r) (snd acc))
            | None => acc
            end) bases acc)
  = snd acc.
Proof.
  revert acc. induction bases as [|base bases IH]; intros acc; [done|].
  cbn [fold_left]. rewrite IH.
  destruct (FixGate.isdir base (snd acc)) as [n|] eqn:En; [|done].
  cbn [snd]. rewrite apply_below_dry. by apply replace_dir_same.
Qed.

Lemma BASES_NoDup : NoDup FixGate.BASES.
Proof. apply (bool_decide_unpack _). vm_compute. exact I. Qed.

Lemma apply_plan_touched dry root :
  fst (FixGate.apply_minimal_plan_for_fix_gate dry root)
  = flat_map
      (fun base =>
         match FixGate.isdir base root with
         | Some n =>
             map (fun d => replace_char backslash slash (fst d) +:+ "/__init__.py")
               (List.filter
                  (fun d => FixGate.has_py (snd d)
                            && negb (FixGate.exists_in "__init__.py" (snd d)))
                  (FixGate.walk_dirs EmptyString n))
         | None => []
         end) FixGate.BASES.
Proof.
  unfold FixGate.apply_minimal_plan_for_fix_gate.
  destruct (apply_fold dry FixGate.BASES ([], root) BASES_NoDup) as [H _].
  etransitivity; [exact H|].
  cbn [fst snd app]. apply flat_map_ext_Forall, Forall_forall. intros base _.
  destruct (FixGate.isdir base root); [|done]. apply apply_below_touched.
Qed.

Lemma apply_plan_isdir dry root base :
  base ∈ FixGate.BASES ->
  FixGate.isdir base (snd (FixGate.apply_minimal_plan_for_fix_gate dry root))
  = option_map (fun n => snd (FixGate.apply_below dry EmptyString n))
      (FixGate.isdir base root).
Proof.
  intros Hb. unfold FixGate.apply_minimal_plan_for_fix_gate.
  destruct (apply_fold dry FixGate.BASES ([], root) BASES_NoDup) as [_ H].
  etransitivity; [apply H|].
  apply in_list_elem_of in Hb. by rewrite Hb.
Qed.

(** X22.  The package markers of the fix gate.  Every path
    [apply_minimal_plan_for_fix_gate] returns is one that
    [derive_allowed_for_fix_gate] derives from the same workspace, and
    ends in [/__init__.py]: the filter of the executor drops none of
    them.  A dry run returns the same paths as a run that writes, and
    leaves the workspace as it was.  After a run that writes, a second
    run has nothing to do, the derived paths are the same as before, and
    the check of [preflight_checks] for missing markers finds none
    below [app/]; before it, each directory that check names has its
    marker among the paths returned. *)
Theorem fix_gate_plan_is_derived_and_idempotent (dry : bool) (root : list State.node) :
  (forall f, f ∈ fst (FixGate.apply_minimal_plan_for_fix_gate dry root) ->
             f ∈ FixGate.derive_allowed_for_fix_gate root
             /\ endswith "/__init__.py" f = true)
  /\ fst (FixGate.apply_minimal_plan_for_fix_gate true root)
     = fst (FixGate.apply_minimal_plan_for_fix_gate false root)
  /\ snd (FixGate.apply_minimal_plan_for_fix_gate true root) = root
  /\ fst (FixGate.apply_minimal_plan_for_fix_gate dry
            (snd (FixGate.apply_minimal_plan_for_fix_gate false root))) = []
  /\ FixGate.derive_allowed_for_fix_gate
       (snd (FixGate.apply_minimal_plan_for_fix_gate false root))
     = FixGate.derive_allowed_for_fix_gate root
  /\ FixGate.missing_init (snd (FixGate.apply_minimal_plan_for_fix_gate false root)) = []
  /\ (forall d, d ∈ FixGate.missing_init root ->
        replace_char backslash slash d +:+ "/__init__.py"
        ∈ fst (FixGate.apply_minimal_plan_for_fix_gate dry root)).
Proof.
  split_and!.
  - intros f Hf. rewrite apply_plan_touched in Hf.
    apply elem_of_flat_map in Hf as (base & Hbase & Hf).
    destruct (FixGate.isdir base root) as [n|] eqn:En; [|by apply elem_of_nil in Hf].
    change (map ?g ?l) with (g <$> l) in Hf.
    apply list_elem_of_fmap in Hf as (d & -> & Hd).
    apply list_elem_of_In, filter_In in Hd as [Hd Hlack].
    apply andb_true_iff in Hlack as [Hpy _].
    split; [|apply endswith_app].
    unfold FixGate.derive_allowed_for_fix_gate.
    rewrite sorted_str_Permutation, elem_of_elements, elem_of_list_to_set.
    apply elem_of_flat_map. exists base. split; [done|]. rewrite En.
    change (map ?g ?l) with (g <$> l).
    apply list_elem_of_fmap. exists d. split; [done|].
    apply list_elem_of_In, filter_In. by rewrite <- list_elem_of_In in Hd |- *.
  - by rewrite !apply_plan_touched.
  - unfold FixGate.apply_minimal_plan_for_fix_gate. by rewrite apply_fold_dry.
  - rewrite apply_plan_touched.
    assert (Forall
              (fun base =>
                 match FixGate.isdir base
                         (snd (FixGate.apply_minimal_plan_for_fix_gate false root)) with
                 | Some n =>
                     map (fun d => replace_char backslash slash (fst d) +:+ "/__init__.py")
                       (List.filter
                          (fun d => FixGate.has_py (snd d)
                                    && negb (FixGate.exists_in "__init__.py" (snd d)))
                          (FixGate.walk_dirs EmptyString n))
                 | None => []
                 end = []) FixGate.BASES) as Hall.
    { apply Forall_forall. intros base Hbase. rewrite apply_plan_isdir by done.
      destruct (FixGate.isdir base root); simpl; [|done].
      by rewrite apply_below_complete. }
    induction Hall as [|base bases Hb _ IH]; simpl; [done|]. by rewrite Hb, IH.
  - unfold FixGate.derive_allowed_for_fix_gate. do 3 f_equal.
    apply flat_map_ext_Forall, Forall_forall. intros base Hbase.
    rewrite apply_plan_isdir by done.
    destruct (FixGate.isdir base root) as [n|]; simpl; [|done].
    pose proof (apply_below_packages false n EmptyString) as Hp.
    assert (forall l : list (string * list State.node),
              map (fun d => replace_char backslash slash (fst d) +:+ "/__init__.py") l
              = map (fun p => replace_char backslash slash p +:+ "/__init__.py")
                  (map fst l)) as Hmap.
    { intros l. by rewrite map_map. }
    by rewrite !Hmap, Hp.
  - unfold FixGate.missing_init. rewrite apply_plan_isdir.
    + destruct (FixGate.isdir "app" root); simpl; [|done].
      by rewrite apply_below_complete.
    + apply list_elem_of_In. simpl. tauto.
  - intros d Hd. rewrite apply_plan_touched. unfold FixGate.missing_init in Hd.
    apply elem_of_flat_map. exists "app". split; [apply list_elem_of_In; simpl; tauto|].
    destruct (FixGate.isdir "app" root) as [n|]; [|by apply elem_of_nil in Hd].
    change (map ?g ?l) with (g <$> l) in Hd |- *.
    apply list_elem_of_fmap in Hd as (x & -> & Hx).
    apply list_elem_of_fmap. by exists x.
Qed.

(** The workspace of the example: the markers of [app/] and [app/api/]
    are missing and are the two paths returned; [app/static/] holds no
    Python and [tests/] has its marker. *)
Lemma fix_gate_plan_example :
  fst (FixGate.apply_minimal_plan_for_fix_gate false FixGate.example_root)
  = ["app/__init__.py"; "app/api/__init__.py"]
  /\ FixGate.derive_allowed_for_fix_gate FixGate.example_root
     = ["app/__init__.py"; "app/api/__init__.py"; "tests/__init__.py"]
  /\ FixGate.missing_init FixGate.example_root = ["app"; "app/api"].
Proof. vm_compute. done. Qed.

(** ** The files of the workspace *)

Lemma string_app_empty_r (s : string) : s +:+ EmptyString = s.
Proof. induction s as [|c s IH]; [done|]. by rewrite string_app_cons, IH. Qed.

Lemma startswith_common a x y : startswith (a +:+ x) (a +:+ y) = startswith x y.
Proof.
  unfold startswith. induction a as [|c a IH]; [done|].
  rewrite !string_app_cons. cbn [String.prefix].
  destruct (ascii_dec c c) as [_|Hne]; [exact IH|done].
Qed.

Lemma elem_of_files_in name content entries :
  (name, content) ∈ Discover.files_in entries <-> State.File name content ∈ entries.
Proof.
  unfold Discover.files_in. rewrite list_elem_of_omap. split.
  - intros (n & Hn & H). destruct n; [|done]. by injection H as -> ->.
  - intros H. by exists (State.File name content).
Qed.

(** The directories of a walk lie at or below the directory walked. *)
Lemma walk_dirs_below n :
  forall prefix,
    Forall (fun d => exists tail,
                       fst d = prefix +:+ FixGate.node_name n +:+ tail
                       /\ (tail = EmptyString \/ exists t, tail = String slash t))
      (FixGate.walk_dirs prefix n).
Proof.
  induction n as [name content|name entries IH] using node_induction;
    intros prefix; [constructor|].
  cbn [FixGate.walk_dirs FixGate.node_name]. constructor.
  - exists EmptyString. split; [by rewrite string_app_empty_r|by left].
  - apply Forall_forall. intros d Hd.
    apply elem_of_flat_map in Hd as (n & Hn & Hd).
    rewrite Forall_forall in IH. specialize (IH n Hn (prefix +:+ name +:+ "/")).
    rewrite Forall_forall in IH. destruct (IH d Hd) as (tail & Hfst & _).
    exists ("/" +:+ FixGate.node_name n +:+ tail). split; [|right; by eexists].
    rewrite Hfst. by rewrite !string_app_assoc.
Qed.

(** The files of the directories of a walk are the files located below
    the directory walked. *)
Lemma walk_dirs_files n :
  forall prefix f,
    f ∈ flat_map (fun d => map (fun f => ((fst d +:+ "/") +:+ fst f, snd f))
                             (Discover.files_in (snd d)))
          (FixGate.walk_dirs prefix n)
    <-> match n with
        | State.File _ _ => False
        | State.Dir d sub =>
            exists dirs name content,
              State.located dirs name content sub
              /\ f = (prefix +:+ State.relpath (d :: dirs) name, content)
        end.
Proof.
  induction n as [name content|d sub IH] using node_induction; intros prefix f.
  - simpl. split; [by intros ?%elem_of_nil|done].
  - cbn [FixGate.walk_dirs flat_map fst snd]. rewrite elem_of_app. split.
    + intros [Hf|Hf].
      * change (map ?g ?l) with (g <$> l) in Hf.
        apply list_elem_of_fmap in Hf as ([name content] & -> & Hf).
        apply elem_of_files_in in Hf. exists [], name, content.
        split; [by constructor|]. simpl. by rewrite !string_app_assoc.
      * rewrite flat_map_flat_map in Hf.
        apply elem_of_flat_map in Hf as (n & Hn & Hf).
        rewrite Forall_forall in IH.
        apply (IH n Hn) in Hf. destruct n as [|d' sub']; [done|].
        destruct Hf as (dirs & name & content & Hloc & ->).
        exists (d' :: dirs), name, content. split; [by econstructor|].
        simpl. by rewrite !string_app_assoc.
    + intros (dirs & name & content & Hloc & ->).
      inversion Hloc as [? ? ? Hin|d' sub' dirs' ? ? ? Hin Hbelow]; subst.
      * left. change (map ?g ?l) with (g <$> l).
        apply list_elem_of_fmap. exists (name, content).
        split; [|by apply elem_of_files_in]. simpl. by rewrite !string_app_assoc.
      * right. rewrite flat_map_flat_map. apply elem_of_flat_map.
        exists (State.Dir d' sub'). split; [done|].
        rewrite Forall_forall in IH. apply (IH _ Hin).
        exists dirs', name, content. split; [done|].
        simpl. by rewrite !string_app_assoc.
Qed.

(** One test decides for a directory of the root and all that lies
    below it. *)
Lemma discovered_below d sub :
  flat_map
    (fun x => Discover.listed_in (Discover.WORKSPACE_ROOT +:+ "/" +:+ fst x)
                (fst x +:+ "/") (snd x))
    (FixGate.walk_dirs EmptyString (State.Dir d sub))
  = if startswith ".orchestrator" d then []
    else flat_map (fun x => map (fun f => ((fst x +:+ "/") +:+ fst f, snd f))
                              (Discover.files_in (snd x)))
           (FixGate.walk_dirs EmptyString (State.Dir d sub)).
Proof.
  assert (Forall (fun x => startswith Discover.STATE_DIR
                             (Discover.WORKSPACE_ROOT +:+ "/" +:+ fst x)
                           = startswith ".orchestrator" d)
            (FixGate.walk_dirs EmptyString (State.Dir d sub))) as Htest.
  { eapply Forall_impl; [apply walk_dirs_below|].
    intros x (tail & Hx & Htail). rewrite Hx. cbn [FixGate.node_name].
    unfold Discover.STATE_DIR. rewrite string_app_nil.
    rewrite startswith_common, startswith_common.
    destruct Htail as [->|[t ->]]; [by rewrite string_app_empty_r|].
    unfold startswith. by apply prefix_before_sep. }
  induction Htest as [|x l Hx _ IH]; [by destruct (startswith _ d)|].
  cbn [flat_map]. rewrite IH. unfold Discover.listed_in at 1. rewrite Hx.
  by destruct (startswith ".orchestrator" d).
Qed.

Lemma discovered_spec root rel content :
  (rel, content) ∈ Discover.discovered root <->
  exists dirs name,
    State.located dirs name content root
    /\ Discover.outside_state_dir dirs
    /\ rel = State.relpath dirs name.
Proof.
  unfold Discover.discovered. rewrite elem_of_app.
  assert (Discover.listed_in Discover.WORKSPACE_ROOT EmptyString root
          = Discover.files_in root) as ->.
  { unfold Discover.listed_in.
    assert (startswith Discover.STATE_DIR Discover.WORKSPACE_ROOT = false) as ->
      by (vm_compute; reflexivity).
    induction (Discover.files_in root) as [|[name c] l IH]; [done|].
    simpl. by rewrite IH. }
  rewrite flat_map_flat_map. split.
  - intros [H|H].
    + apply elem_of_files_in in H. exists [], rel. split_and!; [by constructor|done|done].
    + apply elem_of_flat_map in H as (n & Hn & H).
      destruct n as [name c|d sub]; [by apply elem_of_nil in H|].
      rewrite discovered_below in H.
      destruct (startswith ".orchestrator" d) eqn:Ed; [by apply elem_of_nil in H|].
      apply (walk_dirs_files (State.Dir d sub)) in H
        as (dirs & name & content' & Hloc & Heq).
      rewrite string_app_nil in Heq. injection Heq as -> ->.
      exists (d :: dirs), name. split_and!; [by econstructor|done|done].
  - intros (dirs & name & Hloc & Hout & ->).
    inversion Hloc as [? ? ? Hin|d sub dirs' ? ? ? Hin Hbelow]; subst.
    + left. by apply elem_of_files_in.
    + right. apply elem_of_flat_map. exists (State.Dir d sub). split; [done|].
      rewrite discovered_below. simpl in Hout. rewrite Hout.
      apply (walk_dirs_files (State.Dir d sub)).
      exists dirs', name, content. split; [done|]. by rewrite string_app_nil.
Qed.

(** X23.  The manifest of a rebuilt state lists every file of the
    workspace, at any depth, that does not lie below a directory of the
    root whose name starts with [.orchestrator]: the state directory
    itself, and any directory named like [.orchestrator_backup], are
    left out, while a file of the root with such a name, and everything
    below [.git] or [__pycache__], are listed.  A file that cannot be
    read is listed with the checksum [unreadable].  Every entry has its
    path with forward slashes and no story. *)
Theorem compute_artifacts_manifest_lists
    (sha256 : string -> string) (e : Loading.surroundings)
    (root : list State.node) :
  Loading.files e = Discover.checksums sha256 root ->
  forall entry,
    entry ∈ Loading.compute_artifacts_manifest e <->
    exists dirs name content,
      State.located dirs name content root
      /\ Discover.outside_state_dir dirs
      /\ entry = VDict [ ("path",
                           VStr (replace_char backslash slash
                                   (State.relpath dirs name)));
                         ("checksum",
                           VStr (match content with
                                 | Ret data => sha256 data
                                 | Raise _ => "unreadable"
                                 end));
                         ("last_story", VNone) ].
Proof.
  intros Hfiles entry. unfold Loading.compute_artifacts_manifest.
  rewrite Hfiles. unfold Discover.checksums. rewrite map_map.
  change (map ?g ?l) with (g <$> l). rewrite list_elem_of_fmap.
  assert (forall content, Discover.checksum_of sha256 content
                          = match content with
                            | Ret data => sha256 data
                            | Raise _ => "unreadable"
                            end) as Hsum by (by intros [data|err]).
  split.
  - intros ([rel content] & -> & H). apply discovered_spec in H
      as (dirs & name & Hloc & Hout & ->).
    exists dirs, name, content. simpl. by rewrite Hsum.
  - intros (dirs & name & content & Hloc & Hout & ->).
    exists (State.relpath dirs name, content). simpl. rewrite Hsum. split; [done|].
    apply discovered_spec. by exists dirs, name.
Qed.

Lemma compute_artifacts_manifest_lists_witness :
  Loading.files (Discover.example_surroundings State.example_digest)
  = Discover.checksums State.example_digest Discover.example_root
  /\ forall entry,
    entry ∈ Loading.compute_artifacts_manifest
              (Discover.example_surroundings State.example_digest) <->
    exists dirs name content,
      State.located dirs name content Discover.example_root
      /\ Discover.outside_state_dir dirs
      /\ entry = VDict [ ("path",
                           VStr (replace_char backslash slash
                                   (State.relpath dirs name)));
                         ("checksum",
                           VStr (match content with
                                 | Ret data => State.example_digest data
                                 | Raise _ => "unreadable"
                                 end));
                         ("last_story", VNone) ].
Proof.
  split; [reflexivity|].
  apply (compute_artifacts_manifest_lists State.example_digest
           (Discover.example_surroundings State.example_digest)
           Discover.example_root).
  reflexivity.
Defined.

(** The files of the example: the state directory and its backup are
    left out, the lock file of the root and the file of [.git] are
    listed, and so is the file that cannot be read. *)
Lemma discover_files_example :
  Discover.discover_files Discover.example_root
  = [".orchestrator.lock"; ".git/HEAD"; "app/main.py"]
  /\ map snd (Discover.checksums State.example_digest Discover.example_root)
     = ["sha256:1"; "sha256:ref"; "unreadable"].
Proof. vm_compute. done. Qed.

(** ** The artifacts of a processed story *)

Lemma py_eq_str p s : py_eq p (VStr s) = true <-> p = VStr s.
Proof.
  destruct p; simpl; try (split; [done|congruence]).
  rewrite String.eqb_eq. split; congruence.
Qed.

Lemma update_first_spec path chk sid arts r :
  Checkpoint.update_first path chk sid arts = Ret r ->
  match r with
  | Some arts' =>
      exists before d after,
        arts = before ++ VDict d :: after
        /\ arts' = before
                   ++ VDict (dict_set "last_story" sid (dict_set "checksum" chk d))
                   :: after
        /\ dict_lookup "path" d = Some (VStr path)
        /\ Forall (fun a => exists p, Checkpoint.path_of a = Ret p /\ p <> VStr path)
             before
  | None =>
      Forall (fun a => exists p, Checkpoint.path_of a = Ret p /\ p <> VStr path) arts
  end.
Proof.
  revert r. induction arts as [|art arts IH]; intros r H; simpl in H.
  - injection H as <-. constructor.
  - apply bind_Ret_inv in H as (p & Hp & H).
    destruct (py_eq p (VStr path)) eqn:Eq.
    + apply py_eq_str in Eq as ->. destruct art as [| | | | |d]; try done.
      injection H as <-. exists [], d, arts. split_and!; [done|done| |constructor].
      simpl in Hp. unfold dict_item in Hp.
      by destruct (dict_lookup "path" d) as [v|]; [injection Hp as ->|].
    + assert (p <> VStr path) as Hne.
      { intros ->. rewrite (proj2 (py_eq_str _ _) eq_refl) in Eq. done. }
      apply bind_Ret_inv in H as (r' & Hr' & H). injection H as <-.
      specialize (IH _ Hr'). destruct r' as [arts'|]; simpl.
      * destruct IH as (before & d & after & -> & -> & Hd & Hbefore).
        exists (art :: before), d, after. split_and!; [done|done|done|].
        constructor; [by exists p|done].
      * constructor; [by exists p|done].
Qed.

Lemma tied_after_update sid chk path d :
  dict_lookup "path" d = Some (VStr path) ->
  Checkpoint.tied sid path
    (VDict (dict_set "last_story" sid (dict_set "checksum" chk d))).
Proof.
  intros Hd. eexists. split; [done|]. split.
  - by rewrite !dict_lookup_set_ne.
  - apply dict_lookup_set_eq.
Qed.

Lemma record_checksum_spec sid arts entry arts' :
  Checkpoint.record_checksum sid arts entry = Ret arts' ->
  (exists art, art ∈ arts'
               /\ Checkpoint.tied sid (replace_char backslash slash (fst entry)) art)
  /\ (forall q, (exists art, art ∈ arts /\ Checkpoint.tied sid q art) ->
                exists art, art ∈ arts' /\ Checkpoint.tied sid q art)
  /\ (forall i art p,
        arts !! i = Some art -> Checkpoint.path_of art = Ret p ->
        p <> VStr (replace_char backslash slash (fst entry)) ->
        arts' !! i = Some art).
Proof.
  unfold Checkpoint.record_checksum. intros H.
  apply bind_Ret_inv in H as (r & Hr & H). apply update_first_spec in Hr.
  destruct r as [arts1|]; injection H as <-.
  - destruct Hr as (before & d & after & -> & -> & Hd & Hbefore).
    split_and!.
    + eexists. split; [|by apply tied_after_update].
      apply elem_of_app. right. by left.
    + intros q (art & Hin & Htied).
      apply elem_of_app in Hin as [Hin|Hin].
      * exists art. split; [|done]. apply elem_of_app. by left.
      * apply elem_of_cons in Hin as [->|Hin].
        -- eexists. split; [apply elem_of_app; right; by left|].
           destruct Htied as (d' & [= <-] & Hp & _).
           eexists. split; [done|]. split.
           ++ by rewrite !dict_lookup_set_ne.
           ++ apply dict_lookup_set_eq.
        -- exists art. split; [|done]. apply elem_of_app. right. by right.
    + intros i art p Hi Hp Hne.
      destruct (decide (i < length before)%nat) as [Hlt|Hge].
      * rewrite lookup_app_l in Hi |- * by done. done.
      * rewrite lookup_app_r in Hi |- * by lia.
        destruct (i - length before)%nat as [|j] eqn:Ej; [|done].
        simpl in Hi. injection Hi as <-. simpl in Hp. unfold dict_item in Hp.
        rewrite Hd in Hp. injection Hp as <-. done.
  - split_and!.
    + eexists. split; [apply elem_of_app; right; by left|].
      eexists. split; [done|]. done.
    + intros q (art & Hin & Htied). exists art. split; [|done].
      apply elem_of_app. by left.
    + intros i art p Hi _ _. by apply lookup_app_l_Some.
Qed.

Lemma record_checksums_spec sid checksums arts arts' :
  Checkpoint.record_checksums sid checksums arts = Ret arts' ->
  (forall f chk, (f, chk) ∈ checksums ->
     exists art, art ∈ arts'
                 /\ Checkpoint.tied sid (replace_char backslash slash f) art)
  /\ (forall q, (exists art, art ∈ arts /\ Checkpoint.tied sid q art) ->
                exists art, art ∈ arts' /\ Checkpoint.tied sid q art)
  /\ (forall i art p,
        arts !! i = Some art -> Checkpoint.path_of art = Ret p ->
        (forall f chk, (f, chk) ∈ checksums ->
                       p <> VStr (replace_char backslash slash f)) ->
        arts' !! i = Some art).
Proof.
  revert arts. induction checksums as [|entry checksums IH]; intros arts H; simpl in H.
  - injection H as <-. split_and!; [by intros f chk ?%elem_of_nil|done|done].
  - apply bind_Ret_inv in H as (arts1 & H1 & H).
    apply record_checksum_spec in H1 as (Hnew & Hkeep & Hplace).
    destruct (IH _ H) as (IH1 & IH2 & IH3). split_and!.
    + intros f chk Hin. apply elem_of_cons in Hin as [<-|Hin]; [|by eapply IH1].
      by apply IH2.
    + intros q Hq. by apply IH2, Hkeep.
    + intros i art p Hi Hp Hne. destruct entry as [f0 chk0].
      eapply IH3; [|done|].
      * eapply Hplace; [done|done|]. apply (Hne f0 chk0). by left.
      * intros f chk Hin. apply (Hne f chk). by right.
Qed.

Lemma protected_zone_touched state records paths arts art p :
  Loading.protected_zone state records = Ret paths ->
  iterate (dict_get "artifacts_manifest" (VList []) state) = Ret arts ->
  VDict art ∈ arts ->
  Loading.touched_by_done records art (VStr p) ->
  p ∈ paths.
Proof.
  unfold Loading.protected_zone. intros H Harts Hart Htouched.
  apply bind_Ret_inv in H as (zone & _ & H).
  apply bind_Ret_inv in H as (saved & _ & H).
  rewrite Harts in H. cbn [mbind result_bind Py.bind] in H.
  apply bind_Ret_inv in H as (added & Hadded & H).
  apply bind_Ret_inv in H as (l & Hl & H). injection H as <-.
  rewrite sorted_str_Permutation, elem_of_elements, elem_of_list_to_set, !elem_of_app.
  right. left. apply strs_spec in Hl. subst added.
  assert (VStr p ∈ map VStr l) as Hin.
  { apply (protected_artifacts_spec _ _ _ _ Hadded). right. by exists art. }
  change (map VStr l) with (VStr <$> l) in Hin.
  apply list_elem_of_fmap in Hin as (q & [= ->] & Hq). done.
Qed.

(** X24.  After a story has been processed, [main] ties every file of
    the executor's checksums to the story: the manifest then holds an
    artifact with that path, slashes forward, whose [last_story] is the
    story.  An artifact with another path stays in its place as it was.
    At the next load such a file is in the protected zone as soon as a
    record of the story is [done]. *)
Theorem recorded_checksums_protect_touched_files
    (sid : value) (checksums : list (string * string)) (arts arts' : list value) :
  Checkpoint.record_checksums sid checksums arts = Ret arts' ->
  (forall f chk, (f, chk) ∈ checksums ->
     exists art, art ∈ arts'
                 /\ Checkpoint.tied sid (replace_char backslash slash f) art)
  /\ (forall i art p,
        arts !! i = Some art -> Checkpoint.path_of art = Ret p ->
        (forall f chk, (f, chk) ∈ checksums ->
                       p <> VStr (replace_char backslash slash f)) ->
        arts' !! i = Some art)
  /\ (forall state records paths st rid,
        iterate (dict_get "artifacts_manifest" (VList []) state) = Ret arts' ->
        Loading.protected_zone state records = Ret paths ->
        truthy sid = true ->
        st ∈ records -> dict_lookup "id" st = Some rid ->
        py_eq rid sid = true ->
        dict_lookup "status" st = Some (VStr "done") ->
        forall f chk, (f, chk) ∈ checksums ->
                      replace_char backslash slash f ∈ paths).
Proof.
  intros H. destruct (record_checksums_spec _ _ _ _ H) as (Htied & _ & Hplace).
  split_and!; [done|done|].
  intros state records paths st rid Harts Hzone Hsid Hst Hid Heq Hdone f chk Hin.
  destruct (Htied f chk Hin) as (art & Hart & d & -> & Hpath & Hlast).
  eapply protected_zone_touched; [done|done|done|].
  exists sid, st, rid. split_and!; done.
Qed.

Lemma recorded_checksums_protect_touched_files_witness :
  exists arts',
    Checkpoint.record_checksums (VStr "B") Checkpoint.example_checksums
      Checkpoint.example_manifest = Ret arts'
    /\ (forall f chk, (f, chk) ∈ Checkpoint.example_checksums ->
          exists art, art ∈ arts'
                      /\ Checkpoint.tied (VStr "B")
                           (replace_char backslash slash f) art)
    /\ (forall i art p,
          Checkpoint.example_manifest !! i = Some art ->
          Checkpoint.path_of art = Ret p ->
          (forall f chk, (f, chk) ∈ Checkpoint.example_checksums ->
                         p <> VStr (replace_char backslash slash f)) ->
          arts' !! i = Some art)
    /\ (forall state records paths st rid,
          iterate (dict_get "artifacts_manifest" (VList []) state) = Ret arts' ->
          Loading.protected_zone state records = Ret paths ->
          truthy (VStr "B") = true ->
          st ∈ records -> dict_lookup "id" st = Some rid ->
          py_eq rid (VStr "B") = true ->
          dict_lookup "status" st = Some (VStr "done") ->
          forall f chk, (f, chk) ∈ Checkpoint.example_checksums ->
                        replace_char backslash slash f ∈ paths).
Proof.
  eexists. split; [vm_compute; reflexivity|].
  apply (recorded_checksums_protect_touched_files (VStr "B")
           Checkpoint.example_checksums Checkpoint.example_manifest).
  vm_compute. reflexivity.
Defined.

(** The manifest of the example after the run of B: the file B has
    touched passes from A to B with its new checksum; the file B has
    made is listed last; the third is as it was. *)
Lemma record_checksums_example :
  Checkpoint.record_checksums (VStr "B") Checkpoint.example_checksums
    Checkpoint.example_manifest
  = Ret [ VDict [ ("path", VStr "app/main.py"); ("checksum", VStr "c0");
                  ("last_story", VNone) ];
          VDict [ ("path", VStr "app/reports/build.py"); ("checksum", VStr "c9");
                  ("last_story", VStr "B") ];
          VDict [ ("path", VStr "app/reports/__init__.py"); ("checksum", VStr "c7");
                  ("last_story", VStr "B") ] ].
Proof. vm_compute. reflexivity. Qed.

(** ** The progress snapshot *)

Lemma stmap_from_get k records m m' :
  Progress.stmap_from records m = Ret m' ->
  Loading.map_get k m'
  = match Backlog.find_last k records with
    | Some r => Some r
    | None => Loading.map_get k m
    end.
Proof.
  revert m. induction records as [|r records IH]; intros m H; simpl in H.
  - by injection H as <-.
  - apply bind_Ret_inv in H as (k0 & Hk0 & H). unfold dict_item in Hk0.
    destruct (dict_lookup "id" r) as [k0'|] eqn:Ek; [|done]. injection Hk0 as ->.
    destruct (hashable k0); [|done]. rewrite (IH _ H), map_get_set.
    cbn [Backlog.find_last]. unfold Backlog.has_id. rewrite Ek.
    destruct (Backlog.find_last k records); [done|]. by destruct (key_eqb k k0).
Qed.

Lemma count_of_bump v status c :
  Progress.count_of v (Progress.bump status c)
  = (Progress.count_of v c + if key_eqb v status then 1 else 0)%Z.
Proof.
  induction c as [|[k n] c IH]; simpl.
  - destruct (key_eqb v status); lia.
  - destruct (key_eqb status k) eqn:Ek; simpl.
    + assert (key_eqb v k = key_eqb v status) as ->.
      { rewrite (key_eqb_sym v k), (key_eqb_sym v status). by apply key_eqb_congr. }
      destruct (key_eqb v status); lia.
    + destruct (key_eqb v k) eqn:Ev; [|done].
      destruct (key_eqb v status) eqn:Es; [|lia].
      rewrite (key_eqb_sym v status) in Es.
      rewrite (key_eqb_congr status v k Es) in Ev. congruence.
Qed.

Lemma total_bump status c : Progress.total (Progress.bump status c) = (Progress.total c + 1)%Z.
Proof.
  unfold Progress.total. induction c as [|[k n] c IH]; simpl; [lia|].
  destruct (key_eqb status k); simpl; lia.
Qed.

Lemma count_stories_spec records stmap stories c c' :
  (forall k, Loading.map_get k stmap = Backlog.find_last k records) ->
  Progress.count_stories stmap stories c = Ret c' ->
  Forall (fun s => dict_has "id" s = true) stories
  /\ Progress.total c' = (Progress.total c + Z.of_nat (length stories))%Z
  /\ forall v,
       Progress.count_of v c'
       = (Progress.count_of v c
          + Z.of_nat (length (List.filter
                                (fun s => key_eqb v (Progress.counted_as records s))
                                stories)))%Z.
Proof.
  intros Hget. revert c. induction stories as [|s stories IH]; intros c H; simpl in H.
  - injection H as <-. split_and!; [constructor|simpl; lia|intros v; simpl; lia].
  - apply bind_Ret_inv in H as (status & Hstatus & H).
    unfold Progress.status_in in Hstatus.
    apply bind_Ret_inv in Hstatus as (sid & Hsid & Hstatus). unfold dict_item in Hsid.
    destruct (dict_lookup "id" s) as [sid'|] eqn:Eid; [|done]. injection Hsid as ->.
    destruct (hashable sid); [|done]. injection Hstatus as <-.
    destruct (hashable _) eqn:Eh in H; [|done].
    destruct (IH _ H) as (Hall & Htotal & Hcount).
    assert (dict_get "status" (dict_get "status" (VStr "ready") s)
              match Loading.map_get sid stmap with
              | Some r => r
              | None => []
              end = Progress.counted_as records s) as Hc.
    { unfold Progress.counted_as. rewrite Hget.
      assert (dict_get "id" VNone s = sid) as -> by (unfold dict_get; by rewrite Eid).
      done. }
    rewrite Hc in *. split_and!.
    + constructor; [by unfold dict_has; rewrite Eid|done].
    + rewrite Htotal, total_bump. simpl length. lia.
    + intros v. rewrite Hcount, count_of_bump. cbn [List.filter].
      destruct (key_eqb v (Progress.counted_as records s)); simpl length; lia.
Qed.

(** X25.  Where the progress snapshot of [main] returns, every story of
    the backlog holds an [id]: a story without one, which loading and
    selection pass over, stops [main] with a [KeyError].  The counts add
    up to the number of stories, and a story is counted under the status
    of the last record with its id, where that record holds one, and
    else under its own, [ready] by default. *)
Theorem progress_snapshot_counts_every_story
    (records stories : list dict) (c : Progress.counts) :
  Progress.progress_snapshot records stories = Ret c ->
  Forall (fun s => dict_has "id" s = true) stories
  /\ Progress.total c = Z.of_nat (length stories)
  /\ (forall v,
        Progress.count_of v c
        = Z.of_nat (length (List.filter
                              (fun s => key_eqb v (Progress.counted_as records s))
                              stories))).
Proof.
  unfold Progress.progress_snapshot. intros H.
  apply bind_Ret_inv in H as (stmap & Hstmap & H).
  assert (forall k, Loading.map_get k stmap = Backlog.find_last k records) as Hget.
  { intros k. rewrite (stmap_from_get k _ _ _ Hstmap). simpl.
    by destruct (Backlog.find_last k records). }
  destruct (count_stories_spec records _ _ _ _ Hget H) as (Hall & Htotal & Hcount).
  split_and!; [done|by rewrite Htotal|].
  intros v. rewrite Hcount. simpl.
  by destruct v as [| | |t| |]; simpl; try lia;
    repeat match goal with |- context [String.eqb ?a ?b] =>
             destruct (String.eqb a b) end; lia.
Qed.

Lemma progress_snapshot_counts_every_story_witness :
  exists c,
    Progress.progress_snapshot [Selection.record_A; Selection.record_B]
      [Backlog.twin_one; [("id", VStr "A"); ("status", VStr "ready")];
       [("id", VStr "B")]]
    = Ret c
    /\ Forall (fun s => dict_has "id" s = true)
         [Backlog.twin_one; [("id", VStr "A"); ("status", VStr "ready")];
          [("id", VStr "B")]]
    /\ Progress.total c
       = Z.of_nat (length [Backlog.twin_one;
                           [("id", VStr "A"); ("status", VStr "ready")];
                           [("id", VStr "B")]])
    /\ (forall v,
          Progress.count_of v c
          = Z.of_nat (length (List.filter
                                (fun s => key_eqb v
                                            (Progress.counted_as
                                               [Selection.record_A; Selection.record_B]
                                               s))
                                [Backlog.twin_one;
                                 [("id", VStr "A"); ("status", VStr "ready")];
                                 [("id", VStr "B")]]))).
Proof.
  eexists. split; [vm_compute; reflexivity|].
  apply (progress_snapshot_counts_every_story
           [Selection.record_A; Selection.record_B]
           [Backlog.twin_one; [("id", VStr "A"); ("status", VStr "ready")];
            [("id", VStr "B")]]).
  vm_compute. reflexivity.
Defined.

(** The stories of [Loading.example_stories] are all returned by the
    load, the one without an id among them; the snapshot stops at it. *)
Lemma progress_snapshot_example :
  (rs ← Loading.merged_records Loading.example_items Loading.example_stories;
   Progress.progress_snapshot (Selection.view rs) Loading.example_stories)
  = Raise KeyError.
Proof. vm_compute. reflexivity. Qed.

(** ** The import probe *)

Lemma remove_first_head x l : Probe.remove_first x (x :: l) = l.
Proof. simpl. by rewrite String.eqb_refl. Qed.

Lemma probe_modules_lookup {module : Type} (before after : gmap string module) k :
  (filter (fun kv => Probe.is_app (fst kv) = true) before
   ∪ filter (fun kv => Probe.is_app (fst kv) = false) after) !! k
  = if Probe.is_app k then before !! k else after !! k.
Proof.
  destruct (Probe.is_app k) eqn:Ek.
  - destruct (before !! k) as [m|] eqn:Eb.
    + apply lookup_union_Some_raw. left. by apply map_lookup_filter_Some.
    + apply lookup_union_None. split; apply map_lookup_filter_None.
      * by left.
      * right. intros m _. simpl. congruence.
  - destruct (after !! k) as [m|] eqn:Ea.
    + apply lookup_union_Some_raw. right. split.
      * apply map_lookup_filter_None. right. intros m' _. simpl. congruence.
      * by apply map_lookup_filter_Some.
    + apply lookup_union_None. split; apply map_lookup_filter_None.
      * right. intros m _. simpl. congruence.
      * by left.
Qed.

(** X26.  [_can_import_app] cleans up after itself whatever the import
    does.  Every module of the [app] name space is afterwards what it
    was before the call: what the probe has loaded is gone, what was
    loaded before is back.  Where the import leaves [sys.path] alone,
    [sys.path] is as before; where it adds no module outside the [app]
    name space, [sys.modules] is as before.  The answer is [True] only
    when a spec was found, it lies below the root and the import has
    returned, and exactly then it carries no message. *)
Theorem can_import_app_restores_interpreter
    (module : Type) (abspath : string -> string)
    (find_spec : string -> Probe.interpreter module -> result (option Probe.module_spec))
    (import_module : Probe.interpreter module -> result unit * Probe.interpreter module)
    (describe : exn -> string) (repr : list string -> string)
    (root : string) (st : Probe.interpreter module) :
  (forall k, Probe.is_app k = true ->
     Probe.sys_modules module
       (snd (Probe._can_import_app module abspath find_spec import_module
               describe repr root st)) !! k
     = Probe.sys_modules module st !! k)
  /\ ((forall s, Probe.sys_path module (snd (import_module s))
                 = Probe.sys_path module s) ->
      Probe.sys_path module
        (snd (Probe._can_import_app module abspath find_spec import_module
                describe repr root st))
      = Probe.sys_path module st)
  /\ ((forall s k, Probe.is_app k = false ->
         Probe.sys_modules module (snd (import_module s)) !! k
         = Probe.sys_modules module s !! k) ->
      Probe.sys_modules module
        (snd (Probe._can_import_app module abspath find_spec import_module
                describe repr root st))
      = Probe.sys_modules module st)
  /\ (fst (fst (Probe._can_import_app module abspath find_spec import_module
                  describe repr root st)) = true <->
      snd (fst (Probe._can_import_app module abspath find_spec import_module
                  describe repr root st)) = None)
  /\ (fst (fst (Probe._can_import_app module abspath find_spec import_module
                  describe repr root st)) = true ->
      exists spec s1,
        find_spec (abspath root) s1 = Ret (Some spec)
        /\ Probe.outside_root abspath repr (abspath root) spec = None
        /\ fst (import_module s1) = Ret tt).
Proof.
  unfold Probe._can_import_app.
  set (st1 := {| Probe.sys_path := _; Probe.sys_modules := _ |}).
  assert (forall k, Probe.is_app k = false ->
            Probe.sys_modules module st1 !! k = Probe.sys_modules module st !! k)
    as Hst1.
  { intros k Hk. subst st1. simpl.
    destruct (Probe.sys_modules module st !! k) as [m|] eqn:E.
    - by apply map_lookup_filter_Some.
    - apply map_lookup_filter_None. by left. }
  assert ((if negb (State.in_list (abspath root) (Probe.sys_path module st))
              && State.in_list (abspath root) (Probe.sys_path module st1)
           then Probe.remove_first (abspath root) (Probe.sys_path module st1)
           else Probe.sys_path module st1)
          = Probe.sys_path module st) as Hpath1.
  { subst st1. simpl.
    destruct (State.in_list (abspath root) (Probe.sys_path module st)) eqn:Ein; simpl.
    - done.
    - unfold State.in_list at 1. simpl. by rewrite String.eqb_refl. }
  assert (forall st2,
            (forall k, Probe.is_app k = false ->
               Probe.sys_modules module st2 !! k = Probe.sys_modules module st1 !! k) ->
            filter (fun kv => Probe.is_app (fst kv) = true) (Probe.sys_modules module st)
            ∪ filter (fun kv => Probe.is_app (fst kv) = false)
                (Probe.sys_modules module st2)
            = Probe.sys_modules module st) as Hmods1.
  { intros st2 H2. apply map_eq. intros k. rewrite probe_modules_lookup.
    destruct (Probe.is_app k) eqn:Ek; [done|]. rewrite H2 by done. by apply Hst1. }
  destruct (find_spec (abspath root) st1) as [[spec|]|e] eqn:Efind;
    [destruct (Probe.outside_root abspath repr (abspath root) spec) eqn:Eout;
       [|destruct (import_module st1) as [[[]|e] st2] eqn:Eimp]|..];
    cbn [fst snd Probe.sys_modules Probe.sys_path];
    (split_and!;
     [ intros k Hk; rewrite probe_modules_lookup; by rewrite Hk
     | intros Hpath;
       try (specialize (Hpath st1); rewrite Eimp in Hpath; simpl in Hpath;
            rewrite Hpath);
       exact Hpath1
     | intros Hmods; apply Hmods1; intros k Hk;
       try (specialize (Hmods st1 k Hk); rewrite Eimp in Hmods; simpl in Hmods);
       done
     | done
     | intros Hok; try done ]).
  exists spec, st1. by rewrite Eimp.
Qed.

(** ** The flat story format *)

Lemma flat_line_entry json_loads data line :
  Workflow.flat_line json_loads data line
  = match Flat.line_entry json_loads line with
    | Some (k, v) => dict_set k v data
    | None => data
    end.
Proof.
  unfold Workflow.flat_line, Flat.line_entry, Flat.value_of.
  destruct (String.eqb (strip line) EmptyString || startswith "#" (strip line)); [done|].
  by destruct (split_once ":" (strip line)) as [[k v]|].
Qed.

Lemma fold_flat_line_lookup json_loads key lines data :
  dict_lookup key (fold_left (Workflow.flat_line json_loads) lines data)
  = match Flat.last_set json_loads key lines with
    | Some v => Some v
    | None => dict_lookup key data
    end.
Proof.
  revert data. induction lines as [|line lines IH]; intros data; [done|].
  cbn [fold_left Flat.last_set]. rewrite IH, flat_line_entry.
  destruct (Flat.last_set json_loads key lines); [done|].
  destruct (Flat.line_entry json_loads line) as [[k v]|]; [|done].
  rewrite dict_lookup_set. by destruct (String.eqb k key).
Qed.

(** X27.  [_load_any] on a text that does not start, blanks apart, with
    a brace or a bracket never fails: it returns an object in which
    every key has the value of the last line that sets it; blank lines,
    comments and lines without a colon set nothing, and only the first
    colon of a line divides it.  A text that does start with a brace or
    a bracket is handed to [json.loads] as a whole, whose answer or
    error is the result; a file that cannot be read raises. *)
Theorem load_any_flat_last_line_wins
    (json_loads : string -> result value) (text : string) :
  startswith "{" (strip text) || startswith "[" (strip text) = false ->
  (exists data,
     Workflow._load_any json_loads (Ret text) = Ret (VDict data)
     /\ forall key, dict_lookup key data
                    = Flat.last_set json_loads key (splitlines text))
  /\ (forall other,
        startswith "{" (strip other) || startswith "[" (strip other) = true ->
        Workflow._load_any json_loads (Ret other) = json_loads (strip other))
  /\ (forall e, Workflow._load_any json_loads (Raise e) = Raise e).
Proof.
  intros Hflat. split_and!.
  - eexists. unfold Workflow._load_any. cbn [mbind result_bind Py.bind].
    rewrite Hflat. split; [done|]. intros key. rewrite fold_flat_line_lookup.
    by destruct (Flat.last_set json_loads key (splitlines text)).
  - intros other Hother. unfold Workflow._load_any. cbn [mbind result_bind Py.bind].
    by rewrite Hother.
  - done.
Qed.

Lemma load_any_flat_last_line_wins_witness :
  (exists data,
     Workflow._load_any Json.loads (Ret Flat.example_text) = Ret (VDict data)
     /\ forall key, dict_lookup key data
                    = Flat.last_set Json.loads key (splitlines Flat.example_text))
  /\ (forall other,
        startswith "{" (strip other) || startswith "[" (strip other) = true ->
        Workflow._load_any Json.loads (Ret other) = Json.loads (strip other))
  /\ (forall e, Workflow._load_any Json.loads (Raise e) = Raise e).
Proof.
  apply (load_any_flat_last_line_wins Json.loads Flat.example_text).
  vm_compute. reflexivity.
Defined.

(** The story of the example: the second priority stands; the
    dependencies are a text, not a list; the quotes of the title are
    taken off and its colon stays. *)
Lemma load_any_flat_example :
  Workflow._load_any Json.loads (Ret Flat.example_text)
  = Ret (VDict [ ("id", VStr "S7"); ("priority", VInt 2);
                 ("dependencies", VStr "[S1, S2]");
                 ("title", VStr "Quoted: with a colon") ]).
Proof. vm_compute. reflexivity. Qed.

(** ** The defaults of a story *)

Lemma dict_lookup_setdefault k k' v d :
  dict_lookup k' (dict_setdefault k v d)
  = match dict_lookup k' d with
    | Some x => Some x
    | None => if String.eqb k k' then Some v else None
    end.
Proof.
  destruct (String.eqb k k') eqn:E.
  - apply String.eqb_eq in E as <-. rewrite dict_lookup_setdefault_eq.
    by destruct (dict_lookup k d).
  - apply String.eqb_neq in E. rewrite dict_lookup_setdefault_ne by done.
    by destruct (dict_lookup k' d).
Qed.

Lemma dict_setdefault_present k v d :
  is_Some (dict_lookup k d) -> dict_setdefault k v d = d.
Proof. intros [x Hx]. unfold dict_setdefault, dict_has. by rewrite Hx. Qed.

Lemma dict_set_absent k v d :
  dict_lookup k d = None -> dict_set k v d = d ++ [(k, v)].
Proof.
  induction d as [|[k0 v0] d IH]; simpl; [done|].
  destruct (String.eqb k k0); [done|]. intros H. by rewrite IH.
Qed.

(** X28.  [normalize_story] fills a default only where the story holds
    no value under the key: a value the story holds stays, be it
    [null], empty or of another type, and the keys the story holds keep
    their order before those that are added.  The six keys are present
    afterwards, and normalizing again changes nothing. *)
Theorem normalize_story_fills_only_missing_keys (story : dict) :
  (forall k, dict_lookup k (Selection.normalize_story story)
             = match dict_lookup k story with
               | Some v => Some v
               | None => dict_lookup k Defaults.DEFAULTS
               end)
  /\ Selection.normalize_story (Selection.normalize_story story)
     = Selection.normalize_story story
  /\ (exists added, Selection.normalize_story story = story ++ added)
  /\ Forall (fun k => is_Some (dict_lookup k (Selection.normalize_story story)))
       (dict_keys Defaults.DEFAULTS).
Proof.
  assert (forall k, dict_lookup k (Selection.normalize_story story)
                    = match dict_lookup k story with
                      | Some v => Some v
                      | None => dict_lookup k Defaults.DEFAULTS
                      end) as Hlookup.
  { intros k. unfold Selection.normalize_story. rewrite !dict_lookup_setdefault.
    destruct (dict_lookup k story); [done|].
    unfold Defaults.DEFAULTS. cbn [dict_lookup].
    destruct (String.eqb_spec k "priority") as [->|H1]; [reflexivity|].
    destruct (String.eqb_spec k "dependencies") as [->|H2]; [reflexivity|].
    destruct (String.eqb_spec k "status") as [->|H3]; [reflexivity|].
    destruct (String.eqb_spec k "acceptance_criteria") as [->|H4]; [reflexivity|].
    destruct (String.eqb_spec k "allowed_paths") as [->|H5]; [reflexivity|].
    destruct (String.eqb_spec k "risk_level") as [->|H6]; [reflexivity|].
    rewrite (proj2 (String.eqb_neq "priority" k)) by congruence.
    rewrite (proj2 (String.eqb_neq "dependencies" k)) by congruence.
    rewrite (proj2 (String.eqb_neq "status" k)) by congruence.
    rewrite (proj2 (String.eqb_neq "acceptance_criteria" k)) by congruence.
    rewrite (proj2 (String.eqb_neq "allowed_paths" k)) by congruence.
    rewrite (proj2 (String.eqb_neq "risk_level" k)) by congruence.
    done. }
  assert (Forall (fun k => is_Some (dict_lookup k (Selection.normalize_story story)))
            (dict_keys Defaults.DEFAULTS)) as Hall.
  { unfold Defaults.DEFAULTS, dict_keys. cbn [map fst].
    repeat (constructor;
      [rewrite Hlookup; destruct (dict_lookup _ story); by eexists|]). constructor. }
  split_and!; [done| | |done].
  - unfold Defaults.DEFAULTS, dict_keys in Hall. cbn [map fst] in Hall.
    repeat match goal with
           | H : Forall _ (_ :: _) |- _ => apply Forall_cons in H as [? H]
           end.
    unfold Selection.normalize_story at 1.
    rewrite (dict_setdefault_present "priority") by done.
    rewrite (dict_setdefault_present "dependencies") by done.
    rewrite (dict_setdefault_present "status") by done.
    rewrite (dict_setdefault_present "acceptance_criteria") by done.
    rewrite (dict_setdefault_present "allowed_paths") by done.
    by rewrite (dict_setdefault_present "risk_level").
  - unfold Selection.normalize_story.
    assert (forall k v (d : dict), exists added, dict_setdefault k v d = d ++ added)
      as Hone.
    { intros k v d. unfold dict_setdefault, dict_has.
      destruct (dict_lookup k d) eqn:Eh.
      - exists []. by rewrite app_nil_r.
      - exists [(k, v)]. by apply dict_set_absent. }
    repeat match goal with
           | |- context [dict_setdefault ?k ?v ?d] =>
               lazymatch d with
               | context [dict_setdefault] => fail
               | _ => destruct (Hone k v d) as [? ->]
               end
           end.
    rewrite <- !app_assoc. by eexists.
Qed.

(** The story of the example keeps its priority of [null]. *)
Lemma normalize_story_example :
  Selection.normalize_story Defaults.example_story
  = [ ("id", VStr "S4"); ("priority", VNone); ("dependencies", VList [VStr "S1"]);
      ("status", VStr "ready"); ("acceptance_criteria", VList []);
      ("allowed_paths", VList []); ("risk_level", VStr "medium") ].
Proof. vm_compute. reflexivity. Qed.
